(** * Automatice-Participatory: configuration validator, auto-fixer and
      orchestrator

    A shallow embedding of the three command-line tools of the repository

      - [validate-config.js]  (function [validateConfiguration] and the
        top-level [try]/[catch] that turns its outcome into an exit code),
      - [auto-fix-config.js]  (class [ConfigAutoFix] and [main]),
      - [automate.js]         (function [main], which chains the two),

    followed by the properties of the specification that were checked
    against them, and by further properties of the three programs.

    The tools are JavaScript programs that work on the value produced by
    [JSON.parse].  The embedding keeps JavaScript's behaviour on such values:
    property reads on [null] raise [TypeError], property writes on primitives
    raise [TypeError] (class bodies are strict code), truthiness, strict
    equality and the coercions of [<] and of template literals are written
    out.  Side effects (console, file system, standard input) are threaded
    through an error-and-state monad. *)

From stdpp Require Import gmap strings list fin_maps.
From Stdlib Require Import QArith Lqa Ascii.

#[local] Set Warnings "-register-all".
#[local] Open Scope string_scope.

(** ** JavaScript values *)

(** A JavaScript number: the exact rational value of a finite double, or one
    of the three special values.  [JSON.parse] produces [Finite] numbers and,
    for literals that overflow, the infinities. *)
Inductive number :=
| Finite (q : Q)
| PosInfinity
| NegInfinity
| NaN.

(** The values the programs handle.  An array carries, besides its elements,
    the named properties that were assigned to it (an array is an object:
    [arr.caching = {}] succeeds); [JSON.parse] itself returns arrays with no
    named property and never returns [VUndef]. *)
Inductive value :=
| VUndef
| VNull
| VBool (b : bool)
| VNum (n : number)
| VStr (s : string)
| VArr (elems : list value) (props : gmap string value)
| VObj (props : gmap string value).

(** What a JavaScript computation can raise: a [TypeError] of the runtime, or
    an [Error] created by the program ([throw new Error(...)]), identified by
    its message. *)
Inductive ErrorMessage :=
| ConfigFileNotFound
| InvalidJSON
| MissingRequiredSections (missing : list string)
| PlatformMissingFields
| VersionNotSemantic
| InvalidEnvironment (shown : string)
| GlobalEnabledNotBoolean
| GlobalTimezoneRequired
| SessionTimeoutTooSmall
| MaxLoginAttemptsOutOfRange
| BaseUrlInvalid
| ApiTimeoutTooSmall
| InvalidLoggingLevel (shown : string)
| FailedToLoad
| FailedToSave
| FileSystemError
| SpawnError.

Inductive exn :=
| TypeError
| Error (m : ErrorMessage).

Inductive outcome (A : Type) :=
| Ret (a : A)
| Throw (e : exn).
Arguments Ret {A} a.
Arguments Throw {A} e.

Definition obind {A B} (o : outcome A) (k : A -> outcome B) : outcome B :=
  match o with
  | Ret a => k a
  | Throw e => Throw e
  end.

(** *** Numbers *)

Definition Qltb (p q : Q) : bool := negb (Qle_bool q p).

(** [a < b] on numbers; every comparison with [NaN] is false. *)
Definition num_lt (a b : number) : bool :=
  match a, b with
  | Finite p, Finite q => Qltb p q
  | Finite _, PosInfinity => true
  | NegInfinity, Finite _ => true
  | NegInfinity, PosInfinity => true
  | _, _ => false
  end.

Definition num_gt (a b : number) : bool := num_lt b a.

Definition num_is_zero (n : number) : bool :=
  match n with
  | Finite q => Qeq_bool q 0
  | _ => false
  end.

Definition of_Z (z : Z) : number := Finite (inject_Z z).

(** *** Truthiness, [typeof], strict equality with a literal *)

(** [ToBoolean]: what [!v], [v && ...], [v || ...] and [if (v)] test. *)
Definition truthy (v : value) : bool :=
  match v with
  | VUndef | VNull => false
  | VBool b => b
  | VNum NaN => false
  | VNum n => negb (num_is_zero n)
  | VStr s => negb (String.eqb s "")
  | VArr _ _ | VObj _ => true
  end.

Definition is_boolean (v : value) : bool :=
  match v with VBool _ => true | _ => false end.

(** [v === "s"] *)
Definition seq_str (v : value) (s : string) : bool :=
  match v with VStr t => String.eqb t s | _ => false end.

(** [v === true] and [v === false] *)
Definition seq_bool (v : value) (b : bool) : bool :=
  match v with VBool c => Bool.eqb c b | _ => false end.

(** *** Property access *)

(** [v.k] for the property names the programs read.  None of them is [length],
    an index, or a member of a built-in prototype, so a primitive, an array
    without that named property and an object without that key all give
    [undefined]; reading a property of [null] or [undefined] raises. *)
Definition get (v : value) (k : string) : outcome value :=
  match v with
  | VUndef | VNull => Throw TypeError
  | VObj m => Ret (default VUndef (m !! k))
  | VArr _ p => Ret (default VUndef (p !! k))
  | VBool _ | VNum _ | VStr _ => Ret VUndef
  end.

(** [v.k = x] in strict code; the result is [v] after the assignment. *)
Definition set (v : value) (k : string) (x : value) : outcome value :=
  match v with
  | VObj m => Ret (VObj (<[k := x]> m))
  | VArr els p => Ret (VArr els (<[k := x]> p))
  | _ => Throw TypeError
  end.

(** [v.k1.k2...kn] *)
Fixpoint get_in (v : value) (path : list string) : outcome value :=
  match path with
  | [] => Ret v
  | k :: rest => obind (get v k) (fun c => get_in c rest)
  end.

(** [v.k1.k2...kn = x].  The objects on the way are the ones [v] holds (a
    parsed document is a tree, nothing is shared), so assigning through the
    reference updates [v] in place. *)
Fixpoint set_in (v : value) (path : list string) (x : value) : outcome value :=
  match path with
  | [] => Ret x
  | [k] => set v k x
  | k :: rest =>
      obind (get v k) (fun c =>
      obind (set_in c rest x) (fun c' =>
      set v k c'))
  end.

(** ** Functions of the host (ECMAScript and Node.js built-ins)

    They are not code of this repository; the model takes them as
    parameters, so every theorem holds whatever they compute. *)
Class Host := {
  (** [new URL(s).protocol], or [None] when the constructor throws *)
  URL_protocol : string -> option string;
  (** [Number(s)] on a string *)
  StringToNumber : string -> number;
  (** [String(n)] on a number *)
  NumberToString : number -> string;
  (** [s.trim()] *)
  trim : string -> string;
  (** [s.toLowerCase()] *)
  toLowerCase : string -> string;
  (** [path.dirname(p)] *)
  path_dirname : string -> string;
  (** [path.resolve(a, b)] *)
  path_resolve : string -> string -> string
}.

(** ** Strings and regular expressions *)

(** [s.includes(sub)] on strings *)
Fixpoint str_includes (sub s : string) : bool :=
  String.prefix sub s ||
  match s with
  | EmptyString => false
  | String _ r => str_includes sub r
  end.

(** [s.split(',')] *)
Fixpoint split_comma (s : string) : list string :=
  match s with
  | EmptyString => [""]
  | String c r =>
      let rest := split_comma r in
      if Ascii.eqb c "," then "" :: rest
      else match rest with
           | h :: t => String c h :: t
           | [] => [String c ""]
           end
  end.

(** [parts.join(', ')] *)
Fixpoint join_comma_space (parts : list string) : string :=
  match parts with
  | [] => ""
  | [p] => p
  | p :: rest => p ++ ", " ++ join_comma_space rest
  end.

(** The fragment of regular expressions the validator uses, matched by
    derivatives.  A pattern written [/^r$/] (no flags) accepts exactly the
    strings that [r] matches as a whole. *)
Inductive regex :=
| RNone
| REps
| RDigit                      (* \d *)
| RChar (c : ascii)           (* an escaped or plain character *)
| RSeq (r1 r2 : regex)
| RAlt (r1 r2 : regex)
| RStar (r : regex).

(** [r+] *)
Definition RPlus (r : regex) : regex := RSeq r (RStar r).

Definition is_digit (c : ascii) : bool :=
  (48 <=? nat_of_ascii c)%nat && (nat_of_ascii c <=? 57)%nat.

Fixpoint nullable (r : regex) : bool :=
  match r with
  | RNone | RDigit | RChar _ => false
  | REps | RStar _ => true
  | RSeq a b => nullable a && nullable b
  | RAlt a b => nullable a || nullable b
  end.

Fixpoint deriv (c : ascii) (r : regex) : regex :=
  match r with
  | RNone | REps => RNone
  | RDigit => if is_digit c then REps else RNone
  | RChar d => if Ascii.eqb c d then REps else RNone
  | RSeq a b =>
      if nullable a then RAlt (RSeq (deriv c a) b) (deriv c b)
      else RSeq (deriv c a) b
  | RAlt a b => RAlt (deriv c a) (deriv c b)
  | RStar a => RSeq (deriv c a) (RStar a)
  end.

(** [/^r$/.test(s)] for a string [s] *)
Fixpoint regex_test (r : regex) (s : string) : bool :=
  match s with
  | EmptyString => nullable r
  | String c rest => regex_test (deriv c r) rest
  end.

(** The language of a pattern, as a relation. *)
Inductive matches : regex -> string -> Prop :=
| m_eps : matches REps ""
| m_digit c : is_digit c = true -> matches RDigit (String c "")
| m_char c : matches (RChar c) (String c "")
| m_seq a b s t : matches a s -> matches b t -> matches (RSeq a b) (s ++ t)
| m_alt_l a b s : matches a s -> matches (RAlt a b) s
| m_alt_r a b s : matches b s -> matches (RAlt a b) s
| m_star_nil a : matches (RStar a) ""
| m_star_cons a s t :
    matches a s -> matches (RStar a) t -> matches (RStar a) (s ++ t).

(** [const versionRegex = /^\d+\.\d+\.\d+$/;] *)
Definition versionRegex : regex :=
  RSeq (RPlus RDigit) (RSeq (RChar ".") (RSeq (RPlus RDigit)
       (RSeq (RChar ".") (RPlus RDigit)))).

(** A non-empty run of decimal digits. *)
Fixpoint all_digits (s : string) : bool :=
  match s with
  | EmptyString => true
  | String c r => is_digit c && all_digits r
  end.

Definition digits1 (s : string) : Prop := s <> "" /\ all_digits s = true.

(** ** Coercions *)

Definition has_key (m : gmap string value) (k : string) : bool :=
  match m !! k with Some _ => true | None => false end.

Section Coercions.
Context `{Host}.

(** [String(v)], as template literals, [RegExp.prototype.test] and
    [new URL] apply it.  A parsed document has no callable property, so an
    own [toString] key makes the conversion of an object fail, and the
    default conversions apply otherwise. *)
Fixpoint ToString (v : value) : outcome string :=
  match v with
  | VUndef => Ret "undefined"
  | VNull => Ret "null"
  | VBool true => Ret "true"
  | VBool false => Ret "false"
  | VNum n => Ret (NumberToString n)
  | VStr s => Ret s
  | VArr els p =>
      if has_key p "toString" then Throw TypeError
      else if has_key p "join" then Ret "[object Array]"
      else
        (fix join (l : list value) : outcome string :=
           let item x :=
             match x with
             | VUndef | VNull => Ret ""
             | _ => ToString x
             end in
           match l with
           | [] => Ret ""
           | [x] => item x
           | x :: r =>
               obind (item x) (fun s =>
               obind (join r) (fun t => Ret (s ++ "," ++ t)))
           end) els
  | VObj m =>
      if has_key m "toString" then Throw TypeError
      else Ret "[object Object]"
  end.

(** [Number(v)], as the relational operators apply it to an operand that
    is compared with a number. *)
Definition ToNumber (v : value) : outcome number :=
  match v with
  | VUndef => Ret NaN
  | VNull => Ret (of_Z 0)
  | VBool b => Ret (of_Z (if b then 1 else 0))
  | VNum n => Ret n
  | VStr s => Ret (StringToNumber s)
  | VArr _ _ | VObj _ => obind (ToString v) (fun s => Ret (StringToNumber s))
  end.

(** [v < n] and [v > n] for a numeric literal [n] *)
Definition js_lt (v : value) (n : Z) : outcome bool :=
  obind (ToNumber v) (fun x => Ret (num_lt x (of_Z n))).

Definition js_gt (v : value) (n : Z) : outcome bool :=
  obind (ToNumber v) (fun x => Ret (num_gt x (of_Z n))).

(** [re.test(v)] *)
Definition test (r : regex) (v : value) : outcome bool :=
  obind (ToString v) (fun s => Ret (regex_test r s)).

(** [v.includes("s")]: the method of strings and of arrays; any other
    receiver has no callable [includes]. *)
Definition includes (v : value) (s : string) : outcome bool :=
  match v with
  | VStr t => Ret (str_includes s t)
  | VArr els p =>
      if has_key p "includes" then Throw TypeError
      else Ret (existsb (fun x => seq_str x s) els)
  | _ => Throw TypeError
  end.

(** [["a", "b", ...].includes(v)] for an array literal of strings *)
Definition one_of (v : value) (allowed : list string) : bool :=
  existsb (seq_str v) allowed.
End Coercions.

(** ** The world of a process: console, file system, standard input *)

(** [const colors = {...}] *)
Inductive color := reset | green | red | yellow | blue | cyan | magenta | bold (c : color).

Inductive Topic :=
| JsonSyntax | RequiredSections | PlatformSection | GlobalSection
| AuthenticationSettings | ApiSettings | LoggingSettings.

Inductive Question := AskApiUrl | AskContinueAnyway | AskOrigins | AskSave.

(** One constructor for each line the tools print; the variable parts of a
    line are its arguments.  Pictographs, indentation, rules and blank lines
    carry no information and are left out of the names. *)
Inductive Msg :=
(* validate-config.js *)
| ValidatingConfiguration
| SchemaFileNotFound
| Checking (t : Topic)
| Valid (t : Topic)
| ValidationPassed
| ShowPlatform (name version : string)
| ShowEnvironment (env : string)
| ShowGlobalEnabled (enabled : string)
| ValidationFailed
| ShowMessage (e : exn)
(* auto-fix-config.js *)
| AutoFixBanner
| LoadingConfiguration
| ConfigurationLoaded
| AnalyzingConfiguration
| PlaceholderDetected
| ProductionShouldUseHttps
| SkippingApiUrlUpdate
| UpdatedApiUrl (url : string)
| InvalidUrlFormat
| RunInteractiveForApiUrl
| WildcardCorsInProduction
| SkippingOriginProtocol (origin : string)
| SkippingOriginUrl (origin : string)
| UpdatedCorsOrigins (joined : string)
| RunInteractiveForCors
| WildcardCorsAcceptable (env : string)
| AdjustedForDevelopment
| AdjustedForProduction
| EnabledCaching
| EnabledCompression
| CreatedLogDirectory (dir : string)
| CouldNotCreateLogDirectory
| CreateItManually
| SummaryHeader
| AppliedFixes (n : nat)
| FixField (index : nat) (field : string)
| FixFrom (v : value)
| FixTo (v : value)
| FixReason (reason : string)
| NoFixesNeeded
| WarningCount (n : nat)
| WarningField (index : nat) (field : string)
| WarningIssue (issue : string)
| WarningCurrent (v : value)
| ChangesNotSaved
| ConfigurationSaved
| ErrorLine (e : exn)
| Asked (q : Question)
(* automate.js *)
| AutomationBanner
| Step1InitialValidation
| ConfigurationValidNoFixesNeeded
| Step2AutoFix
| Step3Revalidation
| AutomationComplete
| AllIssuesResolved
| ConfigurationNowValid
| SomeWarningsRemain
| RunInteractiveToFix
| HelpText
| Rule
| Blank.

(** What a path of the file system holds: a file whose text is a JSON
    document (given by the value [JSON.parse] returns for it), or a file that
    cannot be read as one. *)
Inductive File :=
| Unreadable
| Doc (v : value).

(** Paths are written as the scripts resolve them, relative to the directory
    of the scripts, which is also the working directory the orchestrator
    gives its children ([cwd: __dirname]). *)
Record World := mkWorld {
  files : gmap string File;
  dirs : gset string;
  (** paths on which [writeFileSync] and [mkdirSync] raise *)
  denied : gset string;
  (** whether [spawn('node', ...)] can start a child *)
  spawnable : bool;
  (** the lines typed by the operator, and how many were consumed; the
      operator answers every question (standard input stays open: what
      Node.js does with a question that is never answered is not modelled) *)
  stdin : nat -> string;
  answered : nat;
  stdout : list (Msg * color)
}.

(** ** The monad of effects: state with exceptions *)

Definition M (St A : Type) : Type := St -> outcome A * St.

Definition ret {St A} (a : A) : M St A := fun s => (Ret a, s).

Definition bind {St A B} (m : M St A) (k : A -> M St B) : M St B := fun s =>
  match m s with
  | (Ret a, s') => k a s'
  | (Throw e, s') => (Throw e, s')
  end.

Declare Scope js_scope.
Delimit Scope js_scope with js.
Notation "x <- m ;; k" := (bind m (fun x => k))
  (at level 100, m at next level, right associativity) : js_scope.
Notation "m ;; k" := (bind m (fun _ => k))
  (at level 100, right associativity) : js_scope.
#[local] Open Scope js_scope.

Definition throw {St A} (e : exn) : M St A := fun s => (Throw e, s).

(** [try { m } catch (error) { h error }] *)
Definition try_catch {St A} (m : M St A) (h : exn -> M St A) : M St A := fun s =>
  match m s with
  | (Ret a, s') => (Ret a, s')
  | (Throw e, s') => h e s'
  end.

Definition lift {St A} (o : outcome A) : M St A := fun s => (o, s).

Definition gets {St A} (f : St -> A) : M St A := fun s => (Ret (f s), s).

Definition modify {St} (f : St -> St) : M St unit := fun s => (Ret tt, f s).

(** [if (b) { m }] *)
Definition when {St} (b : bool) (m : M St unit) : M St unit :=
  if b then m else ret tt.

(** [a && b] and [a || b] on conditions, with their short circuit *)
Definition andM {St} (a b : M St bool) : M St bool :=
  x <- a ;; if x then b else ret false.

Definition orM {St} (a b : M St bool) : M St bool :=
  x <- a ;; if x then ret true else b.

Infix "&&&" := andM (at level 40, left associativity).
Infix "|||" := orM (at level 50, left associativity).

(** [xs.forEach((x, index) => f(x, index))] *)
Fixpoint forEach {St A} (f : A -> nat -> M St unit) (xs : list A) (index : nat) : M St unit :=
  match xs with
  | [] => ret tt
  | x :: rest => f x index;; forEach f rest (S index)
  end.

(** [xs.filter(x => p(x))] with a predicate that has effects *)
Fixpoint filterM {St A} (p : A -> M St bool) (xs : list A) : M St (list A) :=
  match xs with
  | [] => ret []
  | x :: rest =>
      keep <- p x ;;
      kept <- filterM p rest ;;
      ret (if keep then x :: kept else kept)
  end.

(** *** Console and file system *)

Definition with_stdout (w : World) (out : list (Msg * color)) : World :=
  mkWorld (files w) (dirs w) (denied w) (spawnable w) (stdin w) (answered w) out.

Definition with_files (w : World) (fs : gmap string File) : World :=
  mkWorld fs (dirs w) (denied w) (spawnable w) (stdin w) (answered w) (stdout w).

Definition with_dirs (w : World) (ds : gset string) : World :=
  mkWorld (files w) ds (denied w) (spawnable w) (stdin w) (answered w) (stdout w).

Definition with_answered (w : World) (n : nat) : World :=
  mkWorld (files w) (dirs w) (denied w) (spawnable w) (stdin w) n (stdout w).

(** [log(message, color)] *)
Definition log (m : Msg) (c : color) : M World unit :=
  modify (fun w => with_stdout w (stdout w ++ [(m, c)])).

(** [fs.existsSync(p)] *)
Definition existsSync (p : string) : M World bool :=
  gets (fun w => bool_decide (is_Some (files w !! p)) || bool_decide (p ∈ dirs w)).

(** [JSON.parse(fs.readFileSync(p, 'utf8'))] *)
Definition readJSON (p : string) : M World value := fun w =>
  match files w !! p with
  | Some (Doc v) => (Ret v, w)
  | _ => (Throw (Error FileSystemError), w)
  end.

(** ** validate-config.js *)

Module Validator.
Section Validator.
Context `{Host}.

(** [path.join(__dirname, 'liveplatform.config.json')] and its schema *)
Definition configPath : string := "./liveplatform.config.json".
Definition schemaPath : string := "./liveplatform.config.schema.json".

Definition validateJSON (filePath : string) : M World value :=
  try_catch (readJSON filePath) (fun _ => throw (Error InvalidJSON)).

(** [v.k1...kn] read from a local variable *)
Definition rd (v : value) (path : list string) : M World value :=
  lift (get_in v path).

(** [!v.k1...kn] *)
Definition missing (v : value) (path : list string) : M World bool :=
  x <- rd v path ;; ret (negb (truthy x)).

(** [v.k1...kn] used as a condition *)
Definition present (v : value) (path : list string) : M World bool :=
  x <- rd v path ;; ret (truthy x).

(** The part of [validateConfiguration] that follows the parsing: every
    check on the parsed document [config], then the summary. *)
Definition checks (config : value) : M World unit :=
  (* Validate required sections *)
  log (Checking RequiredSections) blue ;;
  missingSections <-
    filterM (fun section => missing config [section]) ["platform"; "global"] ;;
  when (0 <? length missingSections)%nat
    (throw (Error (MissingRequiredSections missingSections))) ;;
  log (Valid RequiredSections) green ;;
  (* Validate platform section *)
  log (Checking PlatformSection) blue ;;
  incomplete <- (missing config ["platform"; "name"]
                 ||| missing config ["platform"; "version"]
                 ||| missing config ["platform"; "environment"]) ;;
  when incomplete (throw (Error PlatformMissingFields)) ;;
  (* Check version format (semantic versioning) *)
  version <- rd config ["platform"; "version"] ;;
  semantic <- lift (test versionRegex version) ;;
  when (negb semantic) (throw (Error VersionNotSemantic)) ;;
  (* Check environment value *)
  let validEnvironments := ["production"; "staging"; "development"] in
  environment <- rd config ["platform"; "environment"] ;;
  when (negb (one_of environment validEnvironments))
    (shown <- lift (ToString environment) ;;
     throw (Error (InvalidEnvironment shown))) ;;
  log (Valid PlatformSection) green ;;
  (* Validate global section *)
  log (Checking GlobalSection) blue ;;
  enabled <- rd config ["global"; "enabled"] ;;
  when (negb (is_boolean enabled)) (throw (Error GlobalEnabledNotBoolean)) ;;
  noTimezone <- missing config ["global"; "timezone"] ;;
  when noTimezone (throw (Error GlobalTimezoneRequired)) ;;
  log (Valid GlobalSection) green ;;
  (* Validate authentication settings *)
  authentication <- present config ["authentication"] ;;
  when authentication
    (log (Checking AuthenticationSettings) blue ;;
     short <- (present config ["authentication"; "sessionTimeout"]
               &&& (t <- rd config ["authentication"; "sessionTimeout"] ;;
                    lift (js_lt t 60))) ;;
     when short (throw (Error SessionTimeoutTooSmall)) ;;
     out <- (present config ["authentication"; "maxLoginAttempts"]
             &&& ((a <- rd config ["authentication"; "maxLoginAttempts"] ;;
                   lift (js_lt a 1))
                  ||| (a <- rd config ["authentication"; "maxLoginAttempts"] ;;
                       lift (js_gt a 10)))) ;;
     when out (throw (Error MaxLoginAttemptsOutOfRange)) ;;
     log (Valid AuthenticationSettings) green) ;;
  (* Validate API settings *)
  api <- present config ["api"] ;;
  when api
    (log (Checking ApiSettings) blue ;;
     hasUrl <- present config ["api"; "baseUrl"] ;;
     when hasUrl
       (try_catch
          (baseUrl <- rd config ["api"; "baseUrl"] ;;
           text <- lift (ToString baseUrl) ;;
           match URL_protocol text with
           | Some _ => ret tt
           | None => throw TypeError
           end)
          (fun _ => throw (Error BaseUrlInvalid))) ;;
     quick <- (present config ["api"; "timeout"]
               &&& (t <- rd config ["api"; "timeout"] ;; lift (js_lt t 1000))) ;;
     when quick (throw (Error ApiTimeoutTooSmall)) ;;
     log (Valid ApiSettings) green) ;;
  (* Validate logging settings *)
  logging <- present config ["logging"] ;;
  when logging
    (log (Checking LoggingSettings) blue ;;
     let validLevels := ["debug"; "info"; "warn"; "error"] in
     bad <- (present config ["logging"; "level"]
             &&& (l <- rd config ["logging"; "level"] ;;
                  ret (negb (one_of l validLevels)))) ;;
     when bad
       (l <- rd config ["logging"; "level"] ;;
        shown <- lift (ToString l) ;;
        throw (Error (InvalidLoggingLevel shown))) ;;
     log (Valid LoggingSettings) green) ;;
  (* Summary *)
  log ValidationPassed green ;;
  name <- rd config ["platform"; "name"] ;;
  name <- lift (ToString name) ;;
  version <- lift (ToString version) ;;
  log (ShowPlatform name version) blue ;;
  environment <- lift (ToString environment) ;;
  log (ShowEnvironment environment) blue ;;
  enabled <- lift (ToString enabled) ;;
  log (ShowGlobalEnabled enabled) blue ;;
  log Blank reset.

Definition validateConfiguration : M World unit :=
  log ValidatingConfiguration blue ;;
  (* Check if files exist *)
  found <- existsSync configPath ;;
  when (negb found) (throw (Error ConfigFileNotFound)) ;;
  schema <- existsSync schemaPath ;;
  when (negb schema) (log SchemaFileNotFound yellow) ;;
  (* Validate JSON syntax *)
  log (Checking JsonSyntax) blue ;;
  config <- validateJSON configPath ;;
  log (Valid JsonSyntax) green ;;
  checks config.

(** The script itself: [try { validateConfiguration(); process.exit(0); }
    catch (error) { ...; process.exit(1); }].  The result is the exit code
    and the world the process leaves. *)
Definition script (w : World) : Z * World :=
  match validateConfiguration w with
  | (Ret _, w') => (0%Z, w')
  | (Throw error, w') =>
      match (log ValidationFailed red ;;
             log (ShowMessage error) red ;;
             log Blank reset) w' with
      | (_, w'') => (1%Z, w'')
      end
  end.
End Validator.
End Validator.

(** The document [JSON.parse] reads back from the text that
    [JSON.stringify(v, null, 2)] writes: [undefined] members are dropped
    ([null] in arrays), non-finite numbers become [null], named properties of
    arrays are not written.  [None] when [v] is [undefined], for which
    [JSON.stringify] returns [undefined]. *)
Fixpoint stringified (v : value) : option value :=
  match v with
  | VUndef => None
  | VNum (Finite q) => Some v
  | VNum _ => Some VNull
  | VArr els _ => Some (VArr (map (fun x => default VNull (stringified x)) els) ∅)
  | VObj m => Some (VObj (omap stringified m))
  | _ => Some v
  end.

(** The file written from [JSON.stringify(v, null, 2) + '\n'] *)
Definition written (v : value) : File :=
  match stringified v with
  | Some d => Doc d
  | None => Unreadable
  end.

(** [fs.writeFileSync(p, content, 'utf8')] *)
Definition writeFileSync (p : string) (content : File) : M World unit := fun w =>
  if bool_decide (p ∈ denied w) then (Throw (Error FileSystemError), w)
  else (Ret tt, with_files w (<[p := content]> (files w))).

(** The directories above [p], the nearest first: [path.dirname] is applied
    until it gives the path it was given (the root, or [.]); a path has no
    more directories above it than it has characters. *)
Fixpoint above `{Host} (depth : nat) (p : string) : list string :=
  match depth with
  | O => []
  | S depth =>
      let parent := path_dirname p in
      if String.eqb parent p then [] else parent :: above depth parent
  end.

(** The directories [fs.mkdirSync(p, { recursive: true })] makes sure exist:
    [p] and the directories above it. *)
Definition made `{Host} (p : string) : gset string :=
  list_to_set (p :: above (String.length p) p).

(** [fs.mkdirSync(p, { recursive: true })]: the directory and the missing
    directories above it are created. *)
Definition mkdirSync `{Host} (p : string) : M World unit := fun w =>
  if bool_decide (p ∈ denied w) then (Throw (Error FileSystemError), w)
  else (Ret tt, with_dirs w (made p ∪ dirs w)).

(** [args.includes(flag)] on the command line *)
Definition has_flag (args : list string) (flag : string) : bool :=
  existsb (String.eqb flag) args.

(** ** auto-fix-config.js *)

(** An entry of [this.fixes] *)
Record Fix := mkFix {
  fix_field : string;
  fix_from : value;
  fix_to : value;
  fix_reason : string
}.

(** An entry of [this.warnings] *)
Record Warning := mkWarning {
  warning_type : string;
  warning_field : string;
  warning_current : value;
  warning_issue : string
}.

(** An instance of [class ConfigAutoFix], together with the world of the
    process it runs in. *)
Record ConfigAutoFix := mkConfigAutoFix {
  configPath : string;
  interactive : bool;
  config : value;
  fixes : list Fix;
  warnings : list Warning;
  world : World
}.

Module Fixer.
Section Fixer.
Context `{Host}.

(** [constructor(configPath, options = {})]; [options.interactive] is
    absent ([None]) or a boolean. *)
Definition constructor (configPath : string) (options : option bool) (w : World)
  : ConfigAutoFix :=
  {| configPath := configPath;
     interactive := match options with Some false => false | _ => true end;
     config := VNull;
     fixes := [];
     warnings := [];
     world := w |}.

Definition with_config (this : ConfigAutoFix) (c : value) : ConfigAutoFix :=
  mkConfigAutoFix (configPath this) (interactive this) c (fixes this)
                  (warnings this) (world this).

Definition with_fixes (this : ConfigAutoFix) (fs : list Fix) : ConfigAutoFix :=
  mkConfigAutoFix (configPath this) (interactive this) (config this) fs
                  (warnings this) (world this).

Definition with_warnings (this : ConfigAutoFix) (ws : list Warning) : ConfigAutoFix :=
  mkConfigAutoFix (configPath this) (interactive this) (config this) (fixes this)
                  ws (world this).

Definition with_world (this : ConfigAutoFix) (w : World) : ConfigAutoFix :=
  mkConfigAutoFix (configPath this) (interactive this) (config this) (fixes this)
                  (warnings this) w.

(** An action on the world, run from a method *)
Definition io {A} (m : M World A) : M ConfigAutoFix A := fun this =>
  match m (world this) with
  | (r, w') => (r, with_world this w')
  end.

Definition say (m : Msg) (c : color) : M ConfigAutoFix unit := io (log m c).

(** [this.config.k1...kn] *)
Definition rd (path : list string) : M ConfigAutoFix value :=
  c <- gets config ;; lift (get_in c path).

(** [this.config.k1...kn = x] *)
Definition assign (path : list string) (x : value) : M ConfigAutoFix unit :=
  c <- gets config ;;
  c' <- lift (set_in c path x) ;;
  modify (fun this => with_config this c').

(** [this.config.k1...kn] used as a condition *)
Definition present (path : list string) : M ConfigAutoFix bool :=
  x <- rd path ;; ret (truthy x).

(** [this.config.k1...kn === "s"], [=== true], [=== false] *)
Definition is_str (path : list string) (s : string) : M ConfigAutoFix bool :=
  x <- rd path ;; ret (seq_str x s).

Definition is_bool (path : list string) (b : bool) : M ConfigAutoFix bool :=
  x <- rd path ;; ret (seq_bool x b).

(** [this.fixes.push(f)] and [this.warnings.push(w)] *)
Definition push_fix (f : Fix) : M ConfigAutoFix unit :=
  modify (fun this => with_fixes this (fixes this ++ [f])).

Definition push_warning (w : Warning) : M ConfigAutoFix unit :=
  modify (fun this => with_warnings this (warnings this ++ [w])).

(** [await this.prompt(question)]: the question is printed and the next
    line of standard input is the answer.  The promise is taken to resolve:
    the operator answers. *)
Definition prompt (q : Question) : M ConfigAutoFix string :=
  io (fun w =>
        (Ret (stdin w (answered w)),
         with_answered (with_stdout w (stdout w ++ [(Asked q, reset)]))
                       (S (answered w)))).

Definition loadConfig : M ConfigAutoFix unit :=
  say LoadingConfiguration blue ;;
  try_catch
    (p <- gets configPath ;;
     c <- io (readJSON p) ;;
     modify (fun this => with_config this c) ;;
     say ConfigurationLoaded green)
    (fun _ => throw (Error FailedToLoad)).

(** [if (!this.config.k1...kn) this.config.k1...kn = {};] *)
Definition ensure (path : list string) : M ConfigAutoFix unit :=
  x <- rd path ;;
  when (negb (truthy x)) (assign path (VObj ∅)).

Definition fixPlaceholderApiUrl : M ConfigAutoFix unit :=
  placeholder <- (present ["api"]
                  &&& is_str ["api"; "baseUrl"] "https://api.example.com") ;;
  when placeholder
    (current <- rd ["api"; "baseUrl"] ;;
     push_warning (mkWarning "placeholder" "api.baseUrl" current
                             "Using placeholder API URL") ;;
     say PlaceholderDetected yellow ;;
     inter <- gets interactive ;;
     if inter then
       newUrl <- prompt AskApiUrl ;;
       when (negb (String.eqb newUrl "") && negb (String.eqb (trim newUrl) ""))
         (try_catch
            (match URL_protocol newUrl with
             | None => throw TypeError
             | Some protocol =>
                 (* Validate protocol for production *)
                 insecure <- (is_str ["platform"; "environment"] "production"
                              &&& ret (negb (String.eqb protocol "https:"))) ;;
                 skip <- (if insecure then
                            say ProductionShouldUseHttps yellow ;;
                            proceed <- prompt AskContinueAnyway ;;
                            if negb (String.eqb (toLowerCase proceed) "y") then
                              say SkippingApiUrlUpdate yellow ;;
                              ret true
                            else ret false
                          else ret false) ;;
                 if skip then ret tt
                 else
                   assign ["api"; "baseUrl"] (VStr (trim newUrl)) ;;
                   push_fix (mkFix "api.baseUrl" (VStr "https://api.example.com")
                                   (VStr (trim newUrl))
                                   "Replaced placeholder with actual API URL") ;;
                   say (UpdatedApiUrl (trim newUrl)) green
             end)
            (fun _ => say InvalidUrlFormat red))
     else
       say RunInteractiveForApiUrl cyan).

(** The body of [for (const origin of origins)]: the valid origins are
    collected in order. *)
Fixpoint validateOrigins (origins validOrigins : list string)
  : M ConfigAutoFix (list string) :=
  match origins with
  | [] => ret validOrigins
  | origin :: rest =>
      match URL_protocol origin with
      | Some protocol =>
          if negb (String.eqb protocol "https:")
             && negb (String.eqb protocol "http:") then
            say (SkippingOriginProtocol origin) yellow ;;
            validateOrigins rest validOrigins
          else validateOrigins rest (validOrigins ++ [origin])
      | None =>
          say (SkippingOriginUrl origin) yellow ;;
          validateOrigins rest validOrigins
      end
  end.

Definition fixWildcardCors : M ConfigAutoFix unit :=
  wildcard <- (present ["security"]
               &&& present ["security"; "corsEnabled"]
               &&& present ["security"; "allowedOrigins"]
               &&& (o <- rd ["security"; "allowedOrigins"] ;;
                    lift (includes o "*"))) ;;
  when wildcard
    (env <- rd ["platform"; "environment"] ;;
     if seq_str env "production" then
       current <- rd ["security"; "allowedOrigins"] ;;
       push_warning (mkWarning "security" "security.allowedOrigins" current
                       "Wildcard CORS in production is a security risk") ;;
       say WildcardCorsInProduction yellow ;;
       inter <- gets interactive ;;
       if inter then
         response <- prompt AskOrigins ;;
         when (negb (String.eqb response "")
               && negb (String.eqb (trim response) ""))
           (let origins :=
              List.filter (fun o => negb (String.eqb o ""))
                          (map trim (split_comma response)) in
            (* Validate each origin *)
            validOrigins <- validateOrigins origins [] ;;
            when (0 <? length validOrigins)%nat
              (assign ["security"; "allowedOrigins"]
                      (VArr (map VStr validOrigins) ∅) ;;
               push_fix (mkFix "security.allowedOrigins"
                           (VArr [VStr "*"] ∅)
                           (VArr (map VStr validOrigins) ∅)
                           "Replaced wildcard CORS with explicit origins for production") ;;
               say (UpdatedCorsOrigins (join_comma_space validOrigins)) green))
       else
         say RunInteractiveForCors cyan
     else
       shown <- lift (ToString env) ;;
       say (WildcardCorsAcceptable shown) cyan).

Definition fixEnvironmentSettings : M ConfigAutoFix unit :=
  env <- rd ["platform"; "environment"] ;;
  (* Auto-adjust settings based on environment *)
  when (seq_str env "development")
    ((* Enable logging in development *)
     quiet <- (present ["database"] &&& is_bool ["database"; "enableLogging"] false) ;;
     changed1 <- (if quiet then
                    assign ["database"; "enableLogging"] (VBool true) ;;
                    push_fix (mkFix "database.enableLogging" (VBool false) (VBool true)
                                "Enabled database logging for development environment") ;;
                    ret true
                  else ret false) ;;
     (* Set debug logging in development *)
     coarse <- (present ["logging"]
                &&& (l <- rd ["logging"; "level"] ;; ret (negb (seq_str l "debug")))) ;;
     changed2 <- (if coarse then
                    originalLevel <- rd ["logging"; "level"] ;;
                    assign ["logging"; "level"] (VStr "debug") ;;
                    push_fix (mkFix "logging.level" originalLevel (VStr "debug")
                                "Set debug logging level for development environment") ;;
                    ret true
                  else ret changed1) ;;
     when changed2 (say AdjustedForDevelopment green)).

Definition fixProductionSecurity : M ConfigAutoFix unit :=
  env <- rd ["platform"; "environment"] ;;
  when (seq_str env "production")
    ((* Ensure SSL is enabled in production *)
     noSSL <- (present ["security"] &&& is_bool ["security"; "enableSSL"] false) ;;
     changed1 <- (if noSSL then
                    assign ["security"; "enableSSL"] (VBool true) ;;
                    push_fix (mkFix "security.enableSSL" (VBool false) (VBool true)
                                "Enabled SSL for production environment") ;;
                    ret true
                  else ret false) ;;
     (* Ensure HSTS is enabled in production *)
     noHSTS <- (present ["security"] &&& is_bool ["security"; "enableHSTS"] false) ;;
     changed2 <- (if noHSTS then
                    assign ["security"; "enableHSTS"] (VBool true) ;;
                    push_fix (mkFix "security.enableHSTS" (VBool false) (VBool true)
                                "Enabled HSTS for production environment") ;;
                    ret true
                  else ret changed1) ;;
     (* Disable database logging in production for performance *)
     noisy <- (present ["database"] &&& is_bool ["database"; "enableLogging"] true) ;;
     changed3 <- (if noisy then
                    assign ["database"; "enableLogging"] (VBool false) ;;
                    push_fix (mkFix "database.enableLogging" (VBool true) (VBool false)
                                "Disabled database logging for production performance") ;;
                    ret true
                  else ret changed2) ;;
     when changed3 (say AdjustedForProduction green)).

(** [this.config.performance?.k] used as a condition *)
Definition present_opt (section k : string) : M ConfigAutoFix bool :=
  s <- rd [section] ;;
  match s with
  | VUndef | VNull => ret false
  | _ => x <- lift (get s k) ;; ret (truthy x)
  end.

Definition optimizePerformanceSettings : M ConfigAutoFix unit :=
  (* Ensure caching is enabled for better performance *)
  uncached <- (present_opt "performance" "caching"
               &&& is_bool ["performance"; "caching"; "enabled"] false) ;;
  when uncached
    (assign ["performance"; "caching"; "enabled"] (VBool true) ;;
     push_fix (mkFix "performance.caching.enabled" (VBool false) (VBool true)
                 "Enabled caching for better performance") ;;
     say EnabledCaching green) ;;
  (* Ensure compression is enabled *)
  uncompressed <- (present_opt "performance" "compression"
                   &&& is_bool ["performance"; "compression"; "enabled"] false) ;;
  when uncompressed
    (assign ["performance"; "compression"; "enabled"] (VBool true) ;;
     push_fix (mkFix "performance.compression.enabled" (VBool false) (VBool true)
                 "Enabled compression for better performance") ;;
     say EnabledCompression green).

Definition fixLoggingSettings : M ConfigAutoFix unit :=
  (* Ensure log directory exists in config *)
  toFile <- (present ["logging"] &&& present ["logging"; "enableFile"]) ;;
  when toFile
    (configured <- rd ["logging"; "logDirectory"] ;;
     let logDir := if truthy configured then configured else VStr "./logs" in
     (* Create log directory if it doesn't exist *)
     p <- gets configPath ;;
     match logDir with
     | VStr logDir =>
         let fullPath := path_resolve (path_dirname p) logDir in
         exists_ <- io (existsSync fullPath) ;;
         when (negb exists_)
           (try_catch
              (io (mkdirSync fullPath) ;;
               say (CreatedLogDirectory logDir) green)
              (fun _ =>
                 say CouldNotCreateLogDirectory yellow ;;
                 say CreateItManually yellow))
     | _ => throw TypeError   (* path.resolve rejects a non-string *)
     end).

Definition analyzeAndFix : M ConfigAutoFix unit :=
  say AnalyzingConfiguration blue ;;
  (* Ensure required sections exist *)
  ensure ["platform"] ;;
  ensure ["global"] ;;
  ensure ["api"] ;;
  ensure ["security"] ;;
  ensure ["database"] ;;
  ensure ["logging"] ;;
  ensure ["performance"] ;;
  ensure ["performance"; "caching"] ;;
  ensure ["performance"; "compression"] ;;
  (* Check and fix placeholder API URL *)
  fixPlaceholderApiUrl ;;
  (* Check and fix wildcard CORS *)
  fixWildcardCors ;;
  (* Check and fix environment settings *)
  fixEnvironmentSettings ;;
  (* Check and fix security settings for production *)
  fixProductionSecurity ;;
  (* Check and optimize performance settings *)
  optimizePerformanceSettings ;;
  (* Check and fix logging settings *)
  fixLoggingSettings.

Definition displaySummary : M ConfigAutoFix unit :=
  say SummaryHeader magenta ;;
  say Rule magenta ;;
  applied <- gets fixes ;;
  (if (0 <? length applied)%nat then
     say (AppliedFixes (length applied)) green ;;
     forEach (fun entry index =>
                say (FixField (index + 1) (fix_field entry)) cyan ;;
                say (FixFrom (fix_from entry)) yellow ;;
                say (FixTo (fix_to entry)) green ;;
                say (FixReason (fix_reason entry)) blue)
             applied 0
   else
     say NoFixesNeeded green) ;;
  raised <- gets warnings ;;
  when (0 <? length raised)%nat
    (say (WarningCount (length raised)) yellow ;;
     forEach (fun warning index =>
                say (WarningField (index + 1) (warning_field warning)) cyan ;;
                say (WarningIssue (warning_issue warning)) yellow ;;
                say (WarningCurrent (warning_current warning)) yellow)
             raised 0) ;;
  say Rule magenta.

Definition saveConfig : M ConfigAutoFix unit :=
  inter <- gets interactive ;;
  declined <- (if inter then
                 response <- prompt AskSave ;;
                 if negb (String.eqb (toLowerCase response) "y") then
                   say ChangesNotSaved yellow ;;
                   ret true
                 else ret false
               else ret false) ;;
  if declined then ret tt
  else
    try_catch
      (c <- gets config ;;
       p <- gets configPath ;;
       io (writeFileSync p (written c)) ;;
       say ConfigurationSaved green)
      (fun _ => throw (Error FailedToSave)).

Definition run : M ConfigAutoFix bool :=
  say AutoFixBanner cyan ;;
  try_catch
    ((* Load configuration *)
     loadConfig ;;
     (* Analyze and fix issues *)
     analyzeAndFix ;;
     (* Display summary *)
     displaySummary ;;
     (* Save if fixes were applied *)
     applied <- gets fixes ;;
     when (0 <? length applied)%nat saveConfig ;;
     applied <- gets fixes ;;
     raised <- gets warnings ;;
     ret ((length applied =? 0)%nat && (length raised =? 0)%nat))
    (fun error =>
       say (ErrorLine error) red ;;
       ret false).

(** What [main] computes from [process.argv.slice(2)] *)
Definition interactive_of (args : list string) : bool :=
  negb (has_flag args "--no-interactive").

Definition configPath_of (args : list string) : string :=
  match List.find (fun arg => negb (String.prefix "--" arg)) args with
  | Some p => if String.eqb p "" then "./liveplatform.config.json" else p
  | None => "./liveplatform.config.json"
  end.

(** [new ConfigAutoFix(configPath, { interactive })] as [main] builds it *)
Definition fixer_of (args : list string) (w : World) : ConfigAutoFix :=
  constructor (configPath_of args) (Some (interactive_of args)) w.

(** [main], up to the exit of the process: the exit code and the world the
    process leaves. *)
Definition main (args : list string) (w : World) : Z * World :=
  if has_flag args "--help" then
    match log HelpText reset w with
    | (_, w') => (0%Z, w')
    end
  else
    match run (fixer_of args w) with
    | (Ret success, fixer) => ((if success then 0 else 1)%Z, world fixer)
    | (Throw _, fixer) => (1%Z, world fixer)
    end.
End Fixer.
End Fixer.

(** ** automate.js *)

Module Automate.
Section Automate.
Context `{Host}.

(** [runCommand(command, args)]: the child runs to its end and the promise
    resolves with its exit code; it rejects when the child cannot be
    started. *)
Definition runCommand (command : string) (args : list string) : M World Z := fun w =>
  if spawnable w then
    match args with
    | script :: rest =>
        if String.eqb script "validate-config.js" then
          match Validator.script w with (code, w') => (Ret code, w') end
        else if String.eqb script "auto-fix-config.js" then
          match Fixer.main rest w with (code, w') => (Ret code, w') end
        else (Ret 1%Z, w)
    | [] => (Ret 1%Z, w)
    end
  else (Throw (Error SpawnError), w).

Definition main (args : list string) : M World Z :=
  let skipFix := has_flag args "--validate-only" in
  let noInteractive := has_flag args "--no-interactive" in
  log AutomationBanner (bold cyan) ;;
  try_catch
    ((* Step 1: Initial validation *)
     log Step1InitialValidation (bold blue) ;;
     validateCode <- runCommand "node" ["validate-config.js"] ;;
     if (validateCode =? 0)%Z && skipFix then
       log ConfigurationValidNoFixesNeeded green ;;
       ret 0%Z
     else if negb skipFix then
       (* Step 2: Auto-fix issues *)
       log Step2AutoFix (bold blue) ;;
       let fixArgs := if noInteractive
                      then ["auto-fix-config.js"; "--no-interactive"]
                      else ["auto-fix-config.js"] in
       fixCode <- runCommand "node" fixArgs ;;
       (* Step 3: Re-validate after fixes *)
       log Step3Revalidation (bold blue) ;;
       revalidateCode <- runCommand "node" ["validate-config.js"] ;;
       (* Final summary *)
       log AutomationComplete (bold magenta) ;;
       if (revalidateCode =? 0)%Z then
         log AllIssuesResolved (bold green) ;;
         log ConfigurationNowValid green ;;
         ret 0%Z
       else
         log SomeWarningsRemain yellow ;;
         log RunInteractiveToFix yellow ;;
         ret 1%Z
     else ret 0%Z)
    (fun error =>
       log (ErrorLine error) red ;;
       ret 1%Z).

(** The script: the help text when [--help] is given, otherwise
    [main().then(code => process.exit(code))]. *)
Definition script (args : list string) (w : World) : Z * World :=
  if has_flag args "--help" then
    match log HelpText reset w with
    | (_, w') => (0%Z, w')
    end
  else
    match main args w with
    | (Ret code, w') => (code, w')
    | (Throw _, w') => (1%Z, w')
    end.
End Automate.
End Automate.

(** ** Vocabulary of the specification *)

(** The value found at [v.k], [undefined] where JavaScript would raise. *)
Definition member (v : value) (k : string) : value :=
  match get v k with
  | Ret x => x
  | Throw _ => VUndef
  end.

(** The setting at a dotted path: [field c ["security"; "enableSSL"]] is
    [security.enableSSL]. *)
Fixpoint field (c : value) (path : list string) : value :=
  match path with
  | [] => c
  | k :: rest => field (member c k) rest
  end.

Definition is_object (v : value) : bool :=
  match v with VObj _ => true | _ => false end.

Definition is_scalar (v : value) : bool :=
  match v with VArr _ _ | VObj _ => false | _ => true end.

Definition is_string (v : value) : bool :=
  match v with VStr _ => true | _ => false end.

(** An array as [JSON.parse] builds it (its [includes] is the method of
    arrays). *)
Definition is_array (v : value) : bool :=
  match v with VArr _ p => negb (has_key p "includes") | _ => false end.

Definition absent_or (p : value -> bool) (v : value) : bool :=
  match v with VUndef => true | _ => p v end.

(** [v] is falsy, which the auto-fixer takes for missing ([if (!v) ...]), or
    satisfies [p]. *)
Definition falsy_or (p : value -> bool) (v : value) : bool :=
  negb (truthy v) || p v.

(** Every value on the way to [path] is an object, so that the path can be
    read and assigned. *)
Fixpoint reachable (c : value) (path : list string) : bool :=
  match path with
  | [] => true
  | k :: rest => is_object c && reachable (member c k) rest
  end.

(** The document [c] with the setting at [path] replaced by [x]. *)
Fixpoint update (c : value) (path : list string) (x : value) : value :=
  match path with
  | [] => x
  | k :: rest =>
      match c with
      | VObj m => VObj (<[k := update (member c k) rest x]> m)
      | _ => c
      end
  end.

Fixpoint is_prefix (p q : list string) : bool :=
  match p, q with
  | [], _ => true
  | a :: p', b :: q' => String.eqb a b && is_prefix p' q'
  | _ :: _, [] => false
  end.

(** Neither path leads through the other: [security.enableSSL] and
    [security.enableHSTS], but not [security] and [security.enableSSL]. *)
Definition apart (p q : list string) : bool :=
  negb (is_prefix p q) && negb (is_prefix q p).

(** [c'] has the same value as [c] at every path apart from the paths of
    [changed]. *)
Definition same_except (changed : list (list string)) (c c' : value) : Prop :=
  forall q, forallb (apart q) changed = true -> field c' q = field c q.

Definition sections : list string :=
  ["platform"; "global"; "api"; "security"; "database"; "logging"; "performance"].

(** The sub-objects [analyzeAndFix] makes sure exist, in its order. *)
Definition ensured : list (list string) :=
  map (fun k => [k]) sections
  ++ [["performance"; "caching"]; ["performance"; "compression"]].

(** A configuration document, as the data model describes it: an object whose
    sections, when present, are objects (a tree of named sections, each a
    mapping); a section that is falsy ([null], for one) counts as missing,
    as it does for the auto-fixer.  The three settings on whose type the
    auto-fixer relies have it when present: [platform.environment] is a
    scalar, [security.allowedOrigins] an array, [logging.logDirectory] a
    string.  On a document that is not of this kind the auto-fixer can stop
    with a [TypeError] before any rule has run ([performance: 1], for one,
    makes the assignment of [performance.caching] fail in strict code). *)
Definition Configuration (c : value) : bool :=
  is_object c
  && forallb (fun p => falsy_or is_object (field c p)) ensured
  && absent_or is_scalar (field c ["platform"; "environment"])
  && absent_or is_array (field c ["security"; "allowedOrigins"])
  && absent_or is_string (field c ["logging"; "logDirectory"]).

(** The document with the missing sub-objects of [ensured] inserted, empty:
    [if (!this.config.p) this.config.p = {}] replaces whatever is falsy. *)
Definition insert_missing (c : value) (p : list string) : value :=
  if truthy (field c p) then c else update c p (VObj ∅).

Definition with_defaults (c : value) : value :=
  fold_left insert_missing ensured c.

(** The sub-objects of [ensured] are all there. *)
Definition Shaped (c : value) : bool :=
  is_object c && forallb (fun p => is_object (field c p)) ensured.

(** The settings the non-interactive auto-fixer assigns, and the ones the
    interactive one may assign besides. *)
Definition automatic : list (list string) :=
  [ ["database"; "enableLogging"]; ["logging"; "level"];
    ["security"; "enableSSL"]; ["security"; "enableHSTS"];
    ["performance"; "caching"; "enabled"];
    ["performance"; "compression"; "enabled"] ].

Definition prompted : list (list string) :=
  [ ["api"; "baseUrl"]; ["security"; "allowedOrigins"] ].

Definition environment_is (c : value) (env : string) : bool :=
  seq_str (field c ["platform"; "environment"]) env.

(** [api.baseUrl] is the placeholder *)
Definition placeholder_url (c : value) : bool :=
  seq_str (field c ["api"; "baseUrl"]) "https://api.example.com".

(** CORS is enabled and the allowed origins contain ["*"] *)
Definition wildcard_cors (c : value) : bool :=
  truthy (field c ["security"; "corsEnabled"])
  && truthy (field c ["security"; "allowedOrigins"])
  && match includes (field c ["security"; "allowedOrigins"]) "*" with
     | Ret b => b
     | Throw _ => false
     end.

(** No rule of the auto-fixer applies to a production document: nothing is
    explicitly set the wrong way, and (in interactive mode) nothing is asked. *)
Definition nothing_to_fix (interactive : bool) (c : value) : bool :=
  negb (seq_bool (field c ["security"; "enableSSL"]) false)
  && negb (seq_bool (field c ["security"; "enableHSTS"]) false)
  && negb (seq_bool (field c ["database"; "enableLogging"]) true)
  && negb (seq_bool (field c ["performance"; "caching"; "enabled"]) false)
  && negb (seq_bool (field c ["performance"; "compression"; "enabled"]) false)
  && (negb interactive || negb (placeholder_url c) && negb (wildcard_cors c)).

(** A numeric setting is at least / at most a bound. *)
Definition at_least (v : value) (n : Z) : bool :=
  match v with
  | VNum (Finite q) => Qle_bool (inject_Z n) q
  | VNum PosInfinity => true
  | _ => false
  end.

Definition at_most (v : value) (n : Z) : bool :=
  match v with
  | VNum (Finite q) => Qle_bool q (inject_Z n)
  | VNum NegInfinity => true
  | _ => false
  end.

(** A number other than zero (and than [NaN]): the values for which the
    validator's guard [x && x < n] reaches the comparison. *)
Definition nonzero_number (v : value) : bool :=
  match v with VNum _ => truthy v | _ => false end.

(** The fixes recorded for a setting, the warnings raised about it *)
Definition fixes_for (name : string) (l : list Fix) : list Fix :=
  List.filter (fun f => String.eqb (fix_field f) name) l.

Definition warnings_about (name : string) (l : list Warning) : list Warning :=
  List.filter (fun w => String.eqb (warning_field w) name) l.

(** ** Predicates of the proofs *)

Import Fixer.
#[local] Open Scope list_scope.

(** Weakest preconditions for computations that return. *)
Definition wp {St A} (m : M St A) (Q : A -> St -> Prop) (s : St) : Prop :=
  match m s with
  | (Ret a, s') => Q a s'
  | (Throw _, _) => False
  end.

(** The invariant of the phase that ensures the sub-objects: [c0] is the
    document read, [done] are the sub-objects ensured so far, [todo] the ones
    to come, [c] the document now. *)
Definition EnsInv (c0 : value) (done todo : list (list string)) (c : value) : Prop :=
  is_object c = true
  /\ Forall (fun p => is_object (field c p) = true) done
  /\ Forall (fun p => falsy_or is_object (field c p) = true) todo
  /\ (forall q, forallb (fun p => negb (is_prefix q p)) done = true ->
                field c q = field c0 q).

(** The same path *)
Definition same_path (p q : list string) : bool := is_prefix p q && is_prefix q p.

(** A sub-object is only ensured when the object that holds it has been *)
Definition parent_ok (done : list (list string)) (p : list string) : bool :=
  match p with
  | [_] => true
  | [a; _] => existsb (same_path [a]) done
  | _ => false
  end.

(** [todo] can be ensured after [done], in this order: parents first,
    nothing twice *)
Fixpoint ordered (done todo : list (list string)) : bool :=
  match todo with
  | [] => true
  | p :: rest =>
      parent_ok done p
      && forallb (fun d => negb (is_prefix p d)) done
      && forallb (fun t => negb (is_prefix t p)) rest
      && ordered (done ++ [p]) rest
  end.

(** [ensure p1 ;; ... ;; ensure pn ;; k] *)
Definition ensure_all `{Host} {A} (l : list (list string)) (k : M ConfigAutoFix A) :=
  fold_right (fun p m => ensure p ;; m) k l.

(** The document the rules work on: the sub-objects are there, and the
    settings whose type a rule relies on have it. *)
Definition Ready (c : value) : bool :=
  Shaped c
  && absent_or is_scalar (field c ["platform"; "environment"])
  && absent_or is_array (field c ["security"; "allowedOrigins"])
  && absent_or is_string (field c ["logging"; "logDirectory"]).

(** What one rule does to the fixer: it assigns settings of [changed] only,
    appends [df] to the fixes and [dw] to the warnings, and otherwise only
    prints, reads answers and creates directories. *)
Record step (changed : list (list string)) (s s' : ConfigAutoFix)
            (df : list Fix) (dw : list Warning) : Prop := {
  step_ready : Ready (config s') = true;
  step_frame : same_except changed (config s) (config s');
  step_configPath : configPath s' = configPath s;
  step_interactive : interactive s' = interactive s;
  step_files : files (world s') = files (world s);
  step_denied : denied (world s') = denied (world s);
  step_spawnable : spawnable (world s') = spawnable (world s);
  step_stdin : stdin (world s') = stdin (world s);
  step_fixes : fixes s' = fixes s ++ df;
  step_warnings : warnings s' = warnings s ++ dw
}.

(** The settings the rules assign. *)
Definition assignable : list (list string) := prompted ++ automatic.

(** The paths the rules read or assign lead through ensured objects. *)
Definition within_sections (p : list string) : bool :=
  match p with
  | [_] => true
  | [a; _] => existsb (String.eqb a) sections
  | [a; b; _] =>
      String.eqb a "performance"
      && (String.eqb b "caching" || String.eqb b "compression")
  | _ => false
  end.

(** The warning and the fix the specification speaks of, as the rules build them *)
Definition wildcard_warning (c : value) : Warning :=
  mkWarning "security" "security.allowedOrigins"
            (field c ["security"; "allowedOrigins"])
            "Wildcard CORS in production is a security risk".

Definition logging_fix : Fix :=
  mkFix "database.enableLogging" (VBool false) (VBool true)
        "Enabled database logging for development environment".

(** What each rule establishes, from the state [s] it starts in to the state
    [s'] it ends in: [fixEnvironmentSettings], *)
Definition EnvPost (s s' : ConfigAutoFix) : Prop :=
  exists df,
    step [["database"; "enableLogging"]; ["logging"; "level"]] s s' df []
    /\ Forall (fun f => In (fix_field f)
                 ["database.enableLogging"; "logging.level"]) df
    /\ (environment_is (config s) "development" = false ->
        df = [] /\ config s' = config s)
    /\ (environment_is (config s) "development" = true ->
        field (config s') ["logging"; "level"] = VStr "debug"
        /\ (seq_bool (field (config s) ["database"; "enableLogging"]) false = true ->
            field (config s') ["database"; "enableLogging"] = VBool true
            /\ In logging_fix df)
        /\ (seq_bool (field (config s) ["database"; "enableLogging"]) false = false ->
            field (config s') ["database"; "enableLogging"] =
            field (config s) ["database"; "enableLogging"])).

(** [optimizePerformanceSettings], *)
Definition PerfPost (s s' : ConfigAutoFix) : Prop :=
  exists df,
    step [["performance"; "caching"; "enabled"];
          ["performance"; "compression"; "enabled"]] s s' df []
    /\ Forall (fun f => In (fix_field f)
                 ["performance.caching.enabled";
                  "performance.compression.enabled"]) df
    /\ (df = [] <->
        seq_bool (field (config s) ["performance"; "caching"; "enabled"]) false = false
        /\ seq_bool (field (config s) ["performance"; "compression"; "enabled"]) false = false).

(** [fixLoggingSettings], *)
Definition LogPost (s s' : ConfigAutoFix) : Prop :=
  step [] s s' [] [] /\ config s' = config s.

(** [fixPlaceholderApiUrl], *)
Definition PlaceholderPost (s s' : ConfigAutoFix) : Prop :=
  exists df dw,
    step [["api"; "baseUrl"]] s s' df dw
    /\ Forall (fun f => fix_field f = "api.baseUrl") df
    /\ Forall (fun w => warning_field w = "api.baseUrl") dw
    /\ (interactive s = false -> df = [] /\ config s' = config s)
    /\ (placeholder_url (config s) = false ->
        df = [] /\ dw = [] /\ config s' = config s).

(** [fixWildcardCors], *)
Definition CorsPost (s s' : ConfigAutoFix) : Prop :=
  exists df dw,
    step [["security"; "allowedOrigins"]] s s' df dw
    /\ Forall (fun f => fix_field f = "security.allowedOrigins") df
    /\ Forall (fun w => warning_field w = "security.allowedOrigins") dw
    /\ (interactive s = false -> df = [] /\ config s' = config s)
    /\ (wildcard_cors (config s) = false ->
        df = [] /\ dw = [] /\ config s' = config s)
    /\ (environment_is (config s) "production" = false ->
        df = [] /\ dw = [] /\ config s' = config s)
    /\ (wildcard_cors (config s) = true ->
        environment_is (config s) "production" = true ->
        dw = [wildcard_warning (config s)]).

(** and [fixProductionSecurity]. *)
Definition ProdPost (s s' : ConfigAutoFix) : Prop :=
  exists df,
    step [["security"; "enableSSL"]; ["security"; "enableHSTS"];
          ["database"; "enableLogging"]] s s' df []
    /\ Forall (fun f => In (fix_field f)
                 ["security.enableSSL"; "security.enableHSTS";
                  "database.enableLogging"]) df
    /\ (environment_is (config s) "production" = false ->
        df = [] /\ config s' = config s)
    /\ (environment_is (config s) "production" = true ->
        let c := config s in
        field (config s') ["security"; "enableSSL"] =
          (if seq_bool (field c ["security"; "enableSSL"]) false
           then VBool true else field c ["security"; "enableSSL"])
        /\ field (config s') ["security"; "enableHSTS"] =
          (if seq_bool (field c ["security"; "enableHSTS"]) false
           then VBool true else field c ["security"; "enableHSTS"])
        /\ field (config s') ["database"; "enableLogging"] =
          (if seq_bool (field c ["database"; "enableLogging"]) true
           then VBool false else field c ["database"; "enableLogging"])
        /\ (df = [] <->
            seq_bool (field c ["security"; "enableSSL"]) false = false
            /\ seq_bool (field c ["security"; "enableHSTS"]) false = false
            /\ seq_bool (field c ["database"; "enableLogging"]) true = false)).

(** [q] is not one of the ensured sub-objects nor above one *)
Definition below_sections (q : list string) : bool :=
  forallb (fun p => negb (is_prefix q p)) ensured.

(** The state in which the rules start: the line is printed and the missing
    sub-objects are inserted. *)
Definition prepared (s : ConfigAutoFix) : ConfigAutoFix :=
  Fixer.with_config
    (Fixer.with_world s
       (with_stdout (world s)
          (stdout (world s) ++ [(AnalyzingConfiguration, blue)])))
    (with_defaults (config s)).

(** A completed pass of [analyzeAndFix], rule by rule *)
Definition Pass (s s' : ConfigAutoFix) : Prop :=
  exists s1 s2 s3 s4 s5,
    Ready (config (prepared s)) = true
    /\ (forall q, below_sections q = true ->
                  field (config (prepared s)) q = field (config s) q)
    /\ PlaceholderPost (prepared s) s1
    /\ CorsPost s1 s2
    /\ EnvPost s2 s3
    /\ ProdPost s3 s4
    /\ PerfPost s4 s5
    /\ LogPost s5 s'.

(** What a completed pass leaves alone, whatever the mode. *)
Record Untouched (s s' : ConfigAutoFix) : Prop := {
  same_configPath : configPath s' = configPath s;
  same_interactive : interactive s' = interactive s;
  same_files : files (world s') = files (world s);
  same_denied : denied (world s') = denied (world s);
  same_spawnable : spawnable (world s') = spawnable (world s);
  same_stdin : stdin (world s') = stdin (world s)
}.

(** What a document that passes every check satisfies (section 4.1). *)
Definition Accepted `{Host} (c : value) : Prop :=
  truthy (field c ["platform"]) = true
  /\ truthy (field c ["global"]) = true
  /\ truthy (field c ["platform"; "name"]) = true
  /\ truthy (field c ["platform"; "version"]) = true
  /\ truthy (field c ["platform"; "environment"]) = true
  /\ test versionRegex (field c ["platform"; "version"]) = Ret true
  /\ one_of (field c ["platform"; "environment"])
            ["production"; "staging"; "development"] = true
  /\ is_boolean (field c ["global"; "enabled"]) = true
  /\ truthy (field c ["global"; "timezone"]) = true
  /\ (truthy (field c ["authentication"]) = true ->
      (truthy (field c ["authentication"; "sessionTimeout"]) = true ->
       js_lt (field c ["authentication"; "sessionTimeout"]) 60 = Ret false)
      /\ (truthy (field c ["authentication"; "maxLoginAttempts"]) = true ->
          js_lt (field c ["authentication"; "maxLoginAttempts"]) 1 = Ret false
          /\ js_gt (field c ["authentication"; "maxLoginAttempts"]) 10 = Ret false))
  /\ (truthy (field c ["api"]) = true ->
      (truthy (field c ["api"; "baseUrl"]) = true ->
       exists text protocol,
         ToString (field c ["api"; "baseUrl"]) = Ret text
         /\ URL_protocol text = Some protocol)
      /\ (truthy (field c ["api"; "timeout"]) = true ->
          js_lt (field c ["api"; "timeout"]) 1000 = Ret false))
  /\ (truthy (field c ["logging"]) = true ->
      truthy (field c ["logging"; "level"]) = true ->
      one_of (field c ["logging"; "level"])
             ["debug"; "info"; "warn"; "error"] = true).

(** Partial correctness: what holds when the computation returns. *)
Definition wlp {St A} (m : M St A) (Q : A -> St -> Prop) (s : St) : Prop :=
  match m s with
  | (Ret a, s') => Q a s'
  | (Throw _, _) => True
  end.

(** State-independent partial correctness: [okp m P] when every result
    [m] returns satisfies [P], in whatever state it is run. *)
Definition okp {St A} (m : M St A) (P : A -> Prop) : Prop :=
  forall s, wlp m (fun a _ => P a) s.

(** A computation that only prints: its result and what it prints do not
    depend on the world it runs in. *)
Definition prints {A} (m : M World A) : Prop :=
  exists r out, forall w, m w = (r, with_stdout w (stdout w ++ out)).

(** A dotted triple of non-empty digit runs: the shape [N.N.N]. *)
Definition semver_shaped (s : string) : Prop :=
  exists a b c, s = (a ++ "." ++ b ++ "." ++ c)%string
                /\ digits1 a /\ digits1 b /\ digits1 c.

(** [s] after printing [out] *)
Definition printed (s : ConfigAutoFix) (out : list (Msg * color)) : ConfigAutoFix :=
  with_world s (with_stdout (world s) (stdout (world s) ++ out)).

(** The state in which the rule pass starts when the file holds [c] *)
Definition loaded (s : ConfigAutoFix) (c : value) : ConfigAutoFix :=
  printed (with_config (printed s [(AutoFixBanner, cyan)]) c)
          [(LoadingConfiguration, blue); (ConfigurationLoaded, green)].

(** ** Example documents *)

(** A host for the examples.  The examples hold no number that is printed
    or read from a string and no answer of an operator; paths are kept as
    they are written, and [URL_protocol] reads the scheme as [new URL]
    does. *)
Definition example_host : Host := {|
  URL_protocol s :=
    if String.prefix "https://" s then Some "https:"
    else if String.prefix "http://" s then Some "http:"
    else None;
  StringToNumber _ := NaN;
  NumberToString _ := "NaN";
  trim s := s;
  toLowerCase s := s;
  path_dirname _ := ".";
  path_resolve _ p := p
|}.

(** An object literal *)
Definition obj (members : list (string * value)) : value :=
  VObj (list_to_map members).

(** A document with the required settings, then [rest] *)
Definition document (version env : string) (rest : list (string * value)) : value :=
  obj (("platform", obj [("name", VStr "Automatice-Participatory");
                         ("version", VStr version);
                         ("environment", VStr env)])
       :: ("global", obj [("enabled", VBool true); ("timezone", VStr "UTC")])
       :: rest).

(** The world in which the default path holds [c], nothing is refused and
    nobody answers. *)
Definition world_of (c : value) : World :=
  mkWorld {[ Validator.configPath := Doc c ]} ∅ ∅ true (fun _ => "") 0 [].

(** The same, with writes to the document refused *)
Definition read_only (c : value) : World :=
  mkWorld {[ Validator.configPath := Doc c ]} ∅ {[ Validator.configPath ]}
          true (fun _ => "") 0 [].

(** The same, with the directory [./logs] refused *)
Definition no_log_directory (c : value) : World :=
  mkWorld {[ Validator.configPath := Doc c ]} ∅ {[ "./logs" ]}
          true (fun _ => "") 0 [].

(** The documents of the examples *)
Definition development_document : value :=
  document "1.0.0" "development" [("database", obj [("enableLogging", VBool false)])].

Definition bare_production_document : value :=
  document "1.0.0" "production" [].

Definition insecure_production_document : value :=
  document "1.0.0" "production" [("security", obj [("enableSSL", VBool false)])].

Definition secure_production_document : value :=
  document "1.0.0" "production"
    [("security", obj [("enableSSL", VBool true); ("enableHSTS", VBool true)]);
     ("database", obj [("enableLogging", VBool false)])].

Definition wildcard_production_document : value :=
  document "1.0.0" "production"
    [("security", obj [("corsEnabled", VBool true);
                       ("allowedOrigins", VArr [VStr "*"] ∅)])].

Definition empty_authentication_document : value :=
  document "1.0.0" "production" [("authentication", obj [])].

Definition authentication_document : value :=
  document "1.0.0" "production"
    [("authentication", obj [("sessionTimeout", VNum (of_Z 3600));
                             ("maxLoginAttempts", VNum (of_Z 5))])].

Definition short_version_document : value :=
  document "1.2" "production" [].

(** Not a document of the data model: [performance] is a number *)
Definition malformed_document : value :=
  document "1.0.0" "development"
    [("performance", VNum (of_Z 1));
     ("database", obj [("enableLogging", VBool false)])].

Definition file_logging_document : value :=
  document "1.0.0" "staging" [("logging", obj [("enableFile", VBool true)])].

(** The fixer as [main] builds it without prompts, about to run its rules on
    [c] *)
Definition batch (c : value) : ConfigAutoFix :=
  Fixer.with_config (Fixer.fixer_of ["--no-interactive"] (world_of c)) c.

(** The fix [fixProductionSecurity] records for [security.enableSSL] *)
Definition ssl_fix : Fix :=
  mkFix "security.enableSSL" (VBool false) (VBool true)
        "Enabled SSL for production environment".

(** ** Further predicates and examples *)

(** Total correctness whatever the state: [m] returns, with a result that
    satisfies [P]. *)
Definition retp {St A} (m : M St A) (P : A -> Prop) : Prop :=
  forall s, wp m (fun a _ => P a) s.

(** [null] and [undefined], the values whose properties cannot be read *)
Definition nullish (v : value) : bool :=
  match v with VUndef | VNull => true | _ => false end.

(** The required sections that [c] lacks, as the validator lists them *)
Definition missing_sections (c : value) : list string :=
  List.filter (fun section => negb (truthy (field c [section])))
              ["platform"; "global"].

(** The rule pass, rule by rule: the states between the rules, with what each
    rule returned and what it established. *)
Record Trace `{Host} (s s1 s2 s3 s4 s5 s' : ConfigAutoFix) : Prop := {
  trace_ready : Ready (config (prepared s)) = true;
  trace_defaults :
    forall q, below_sections q = true ->
              field (config (prepared s)) q = field (config s) q;
  trace_placeholder : fixPlaceholderApiUrl (prepared s) = (Ret tt, s1);
  trace_cors : fixWildcardCors s1 = (Ret tt, s2);
  trace_environment : fixEnvironmentSettings s2 = (Ret tt, s3);
  trace_production : fixProductionSecurity s3 = (Ret tt, s4);
  trace_performance : optimizePerformanceSettings s4 = (Ret tt, s5);
  trace_logging : fixLoggingSettings s5 = (Ret tt, s');
  trace_placeholder_post : PlaceholderPost (prepared s) s1;
  trace_cors_post : CorsPost s1 s2;
  trace_environment_post : EnvPost s2 s3;
  trace_production_post : ProdPost s3 s4;
  trace_performance_post : PerfPost s4 s5;
  trace_logging_post : LogPost s5 s';
  trace_run : analyzeAndFix s = (Ret tt, s')
}.

(** The names of the settings for which a fix, and a warning, can be
    recorded *)
Definition fixable : list string :=
  ["api.baseUrl"; "security.allowedOrigins"; "database.enableLogging";
   "logging.level"; "security.enableSSL"; "security.enableHSTS";
   "performance.caching.enabled"; "performance.compression.enabled"].

Definition warnable : list string := ["api.baseUrl"; "security.allowedOrigins"].

(** No automatic rule applies to the document: in development the database
    logging is not off and the level is [debug], in production SSL and HSTS
    are not off and the database logging is not on, caching and compression
    are not off. *)
Definition settled (c : value) : bool :=
  (if environment_is c "development"
   then negb (seq_bool (field c ["database"; "enableLogging"]) false)
        && seq_str (field c ["logging"; "level"]) "debug"
   else true)
  && (if environment_is c "production"
      then negb (seq_bool (field c ["security"; "enableSSL"]) false)
           && negb (seq_bool (field c ["security"; "enableHSTS"]) false)
           && negb (seq_bool (field c ["database"; "enableLogging"]) true)
      else true)
  && negb (seq_bool (field c ["performance"; "caching"; "enabled"]) false)
  && negb (seq_bool (field c ["performance"; "compression"; "enabled"]) false).

(** What the placeholder rule records: its warning, and the fix for the
    answer [url] *)
Definition placeholder_warning : Warning :=
  mkWarning "placeholder" "api.baseUrl" (VStr "https://api.example.com")
            "Using placeholder API URL".

Definition placeholder_fix (url : string) : Fix :=
  mkFix "api.baseUrl" (VStr "https://api.example.com") (VStr url)
        "Replaced placeholder with actual API URL".

(** The next line of standard input *)
Definition next_answer (s : ConfigAutoFix) : string :=
  stdin (world s) (answered (world s)).

(** Whether the placeholder rule takes the operator's answer: it is not
    blank, [new URL] accepts it, and in production it is an [https] address
    or the operator confirms with [y]. *)
Definition accepted_url `{Host} (s : ConfigAutoFix) : bool :=
  negb (String.eqb (next_answer s) "")
  && negb (String.eqb (trim (next_answer s)) "")
  && match URL_protocol (next_answer s) with
     | None => false
     | Some protocol =>
         negb (environment_is (config s) "production"
               && negb (String.eqb protocol "https:"))
         || String.eqb (toLowerCase (stdin (world s) (S (answered (world s))))) "y"
     end.

(** What the fixer may do to the process and its world, from [s] to [s']:
    write the configuration file, create directories, print, and read
    answers.  Everything else stays. *)
Record Kept (s s' : ConfigAutoFix) : Prop := {
  kept_configPath : configPath s' = configPath s;
  kept_interactive : interactive s' = interactive s;
  kept_files : forall p, p <> configPath s ->
                         files (world s') !! p = files (world s) !! p;
  kept_dirs : dirs (world s) ⊆ dirs (world s');
  kept_denied : denied (world s') = denied (world s);
  kept_spawnable : spawnable (world s') = spawnable (world s);
  kept_stdin : stdin (world s') = stdin (world s);
  kept_answered : (answered (world s) <= answered (world s'))%nat;
  kept_stdout : exists out, stdout (world s') = stdout (world s) ++ out
}.

(** [m] does no more than that, in whatever state it runs and whether it
    returns or throws. *)
Definition keeps {A} (m : M ConfigAutoFix A) : Prop :=
  forall s, Kept s (snd (m s)).

(** [q] is a setting the rules without prompts do not assign, in a sub-object
    the pass does not insert. *)
Definition outside_rules (q : list string) : bool :=
  below_sections q && forallb (apart q) automatic.

(** The changes the auto-fixer may make to a document when it does not
    prompt, one after the other: a sub-object of [ensured] that is missing
    (falsy) is set to the empty object, a setting of [automatic] is
    assigned. *)
Inductive Edited : value -> value -> Prop :=
| Edited_none c : Edited c c
| Edited_insert c p c' c'' :
    In p ensured -> truthy (field c p) = false ->
    set_in c p (VObj ∅) = Ret c' -> Edited c' c'' -> Edited c c''
| Edited_assign c p x c' c'' :
    In p automatic -> set_in c p x = Ret c' -> Edited c' c'' -> Edited c c''.

(** Without prompts, [m] makes such changes only, whether it returns or
    throws. *)
Definition edits {A} (m : M ConfigAutoFix A) : Prop :=
  forall s, interactive s = false ->
            interactive (snd (m s)) = false
            /\ Edited (config s) (config (snd (m s))).

(** [m] creates no directory, whether it returns or throws. *)
Definition builds_nothing {A} (m : M ConfigAutoFix A) : Prop :=
  forall s, dirs (world (snd (m s))) = dirs (world s).

(** An origin the wildcard rule keeps: [new URL] accepts it and its protocol
    is [https:] or [http:]. *)
Definition valid_origin `{Host} (origin : string) : bool :=
  match URL_protocol origin with
  | Some protocol => String.eqb protocol "https:" || String.eqb protocol "http:"
  | None => false
  end.

(** The origins the wildcard rule takes from the operator's answer *)
Definition entered_origins `{Host} (s : ConfigAutoFix) : list string :=
  if negb (String.eqb (next_answer s) "")
     && negb (String.eqb (trim (next_answer s)) "")
  then List.filter valid_origin
         (List.filter (fun o => negb (String.eqb o ""))
                      (map trim (split_comma (next_answer s))))
  else [].

(** The fix the wildcard rule records for the origins [valid] *)
Definition origins_fix (valid : list string) : Fix :=
  mkFix "security.allowedOrigins" (VArr [VStr "*"] ∅) (VArr (map VStr valid) ∅)
        "Replaced wildcard CORS with explicit origins for production".

(** The directory [fixLoggingSettings] looks for *)
Definition log_directory `{Host} (s : ConfigAutoFix) : option string :=
  match (if truthy (field (config s) ["logging"; "logDirectory"])
         then field (config s) ["logging"; "logDirectory"]
         else VStr "./logs") with
  | VStr dir => Some (path_resolve (path_dirname (configPath s)) dir)
  | _ => None
  end.

(** A value that JSON writes as it is: [null], a boolean, a string or a
    finite number *)
Definition json_scalar (v : value) : bool :=
  match v with
  | VNull | VBool _ | VStr _ | VNum (Finite _) => true
  | _ => false
  end.

(** The number of values in the elements of the arrays and the members of
    the objects of [v], the measure of the proofs about what is written *)
Fixpoint size (v : value) : nat :=
  match v with
  | VArr elems _ => S (list_sum (map size elems))
  | VObj props => S (map_fold (fun _ x n => size x + n)%nat 0%nat props)
  | _ => 1%nat
  end.

(** A step that left the list of fixes as it was has left the document as it
    was. *)
Definition Recorded (s s' : ConfigAutoFix) : Prop :=
  fixes s' = fixes s -> config s' = config s.

(** ** More example documents *)

(** A document without the required sections *)
Definition empty_document : value := obj [].

Definition unknown_environment_document : value :=
  document "1.0.0" "prod" [].

Definition api_document : value :=
  document "1.0.0" "production"
    [("api", obj [("baseUrl", VStr "https://api.internal.example");
                  ("timeout", VNum (of_Z 5000))])].

Definition verbose_logging_document : value :=
  document "1.0.0" "production" [("logging", obj [("level", VStr "verbose")])].

Definition uncached_document : value :=
  document "1.0.0" "staging"
    [("performance", obj [("caching", obj [("enabled", VBool false)])])].

Definition placeholder_document : value :=
  document "1.0.0" "production"
    [("api", obj [("baseUrl", VStr "https://api.example.com")])].

(** A document with a member that JSON does not write and a number that it
    writes as [null] *)
Definition unwritable_document : value :=
  document "1.0.0" "staging"
    [("database", obj [("enableLogging", VBool true); ("pool", VUndef)]);
     ("api", obj [("timeout", VNum PosInfinity);
                  ("retries", VArr [VNum (of_Z 3); VUndef] ∅)])].

(** What is read back from the file written from it *)
Definition unwritable_document_saved : value :=
  document "1.0.0" "staging"
    [("database", obj [("enableLogging", VBool true)]);
     ("api", obj [("timeout", VNull);
                  ("retries", VArr [VNum (of_Z 3); VNull] ∅)])].

(** The world without the configuration file *)
Definition no_document : World :=
  mkWorld ∅ ∅ ∅ true (fun _ => "") 0 [].

(** The world of [world_of] in which no child process can be started *)
Definition no_node (c : value) : World :=
  mkWorld {[ Validator.configPath := Doc c ]} ∅ ∅ false (fun _ => "") 0 [].

(** The world of [world_of] with an operator who types [lines] *)
Definition answering (c : value) (lines : list string) : World :=
  mkWorld {[ Validator.configPath := Doc c ]} ∅ ∅ true
          (fun n => nth n lines "") 0 [].

(** The fixer as [main] builds it with prompts, about to run its rules on
    [c] *)
Definition operator (c : value) (lines : list string) : ConfigAutoFix :=
  Fixer.with_config (Fixer.fixer_of [] (answering c lines)) c.

(** A section that is [null] *)
Definition null_section_document : value :=
  document "1.0.0" "production"
    [("api", VNull);
     ("security", obj [("corsEnabled", VBool true);
                       ("allowedOrigins", VArr [VStr "*"] ∅)])].

(** Not a document of the data model either: the wildcard, and
    [performance] a number *)
Definition malformed_wildcard_document : value :=
  document "1.0.0" "production"
    [("performance", VNum (of_Z 1));
     ("security", obj [("corsEnabled", VBool true);
                       ("allowedOrigins", VArr [VStr "*"] ∅)])].

Definition zero_authentication_document : value :=
  document "1.0.0" "production"
    [("authentication", obj [("sessionTimeout", VNum (of_Z 0));
                             ("maxLoginAttempts", VNum (of_Z 0))])].

(** The world of [read_only] with an operator who confirms every question *)
Definition confirming (c : value) : World :=
  mkWorld {[ Validator.configPath := Doc c ]} ∅ {[ Validator.configPath ]}
          true (fun _ => "y") 0 [].

(** The world of [world_of] with a file where the log directory would be *)
Definition occupied (c : value) : World :=
  mkWorld {[ Validator.configPath := Doc c; "./logs" := Doc VNull ]} ∅ ∅
          true (fun _ => "") 0 [].

(** * Proofs *)

(** ** Paths in a document *)

Lemma is_object_inv v : is_object v = true -> exists m, v = VObj m.
Proof. destruct v; try discriminate. eauto. Qed.

Lemma get_object m k : get (VObj m) k = Ret (member (VObj m) k).
Proof. reflexivity. Qed.

Lemma get_in_reachable p : forall c,
  reachable c p = true -> get_in c p = Ret (field c p).
Proof.
  induction p as [|k rest IH]; intros c Hr; [reflexivity|].
  cbn in Hr. apply andb_true_iff in Hr as [Ho Hr].
  apply is_object_inv in Ho as [m ->].
  cbn [get_in]. rewrite get_object. cbn [obind field]. now apply IH.
Qed.

Lemma set_in_cons v k k' rest x :
  set_in v (k :: k' :: rest) x =
  obind (get v k) (fun c => obind (set_in c (k' :: rest) x) (fun c' => set v k c')).
Proof. reflexivity. Qed.

Lemma set_in_reachable p x : forall c,
  p <> [] -> reachable c p = true -> set_in c p x = Ret (update c p x).
Proof.
  induction p as [|k rest IH]; intros c Hne Hr; [congruence|].
  cbn in Hr. apply andb_true_iff in Hr as [Ho Hr].
  apply is_object_inv in Ho as [m ->].
  destruct rest as [|k' rest'].
  - reflexivity.
  - rewrite set_in_cons, get_object. cbn [obind].
    rewrite IH by (done || assumption). reflexivity.
Qed.

Lemma member_insert_eq m k x : member (VObj (<[k := x]> m)) k = x.
Proof. unfold member; cbn. now rewrite lookup_insert_eq. Qed.

Lemma member_insert_ne m k k' x :
  k <> k' -> member (VObj (<[k := x]> m)) k' = member (VObj m) k'.
Proof. intros. unfold member; cbn. now rewrite lookup_insert_ne. Qed.

Lemma field_update_same p x : forall c,
  reachable c p = true -> field (update c p x) p = x.
Proof.
  induction p as [|k rest IH]; intros c Hr; [reflexivity|].
  cbn in Hr. apply andb_true_iff in Hr as [Ho Hr].
  apply is_object_inv in Ho as [m ->].
  cbn [update field]. rewrite member_insert_eq. now apply IH.
Qed.

Lemma field_undef q : field VUndef q = VUndef.
Proof. induction q; [reflexivity|]. cbn. assumption. Qed.

Lemma field_update_apart p x : forall q c,
  apart q p = true -> field (update c p x) q = field c q.
Proof.
  induction p as [|k rest IH]; intros q c Ha.
  - unfold apart in Ha. destruct q; cbn in Ha; discriminate.
  - destruct q as [|k' q']; [discriminate|].
    destruct c; try reflexivity. cbn [update field].
    unfold apart in Ha. cbn in Ha.
    destruct (String.eqb_spec k' k) as [->|Hne].
    + rewrite String.eqb_refl in Ha. cbn in Ha.
      rewrite member_insert_eq. now apply IH.
    + rewrite member_insert_ne by congruence. reflexivity.
Qed.

Lemma is_object_update p x : forall q c,
  is_prefix p q = false -> reachable c p = true ->
  is_object (field (update c p x) q) = is_object (field c q).
Proof.
  induction p as [|k rest IH]; intros q c Hp Hr; [discriminate|].
  cbn in Hr. apply andb_true_iff in Hr as [Ho Hr].
  apply is_object_inv in Ho as [m ->].
  destruct q as [|k' q']; [reflexivity|].
  cbn [update field]. cbn in Hp.
  destruct (String.eqb_spec k k') as [->|Hne].
  - cbn in Hp. rewrite member_insert_eq. now apply IH.
  - rewrite member_insert_ne by congruence. reflexivity.
Qed.

Lemma same_except_refl P c : same_except P c c.
Proof. now intros q _. Qed.

Lemma forallb_app_true {A} (f : A -> bool) l1 l2 :
  forallb f (l1 ++ l2) = true -> forallb f l1 = true /\ forallb f l2 = true.
Proof. rewrite forallb_app. apply andb_true_iff. Qed.

Lemma same_except_trans P Q c1 c2 c3 :
  same_except P c1 c2 -> same_except Q c2 c3 -> same_except (P ++ Q) c1 c3.
Proof.
  intros H1 H2 q Hq. apply forallb_app_true in Hq as [HP HQ].
  rewrite H2, H1; auto.
Qed.

Lemma same_except_update P p x c :
  In p P -> same_except P c (update c p x).
Proof.
  intros Hin q Hq. apply field_update_apart.
  rewrite forallb_forall in Hq. now apply Hq.
Qed.

Lemma same_except_weaken P Q c c' :
  incl P Q -> same_except P c c' -> same_except Q c c'.
Proof.
  intros Hi H q Hq. apply H. rewrite forallb_forall in *. auto.
Qed.

Lemma forallb_Forall_true {A} (f : A -> bool) l :
  forallb f l = true <-> Forall (fun x => f x = true) l.
Proof. now rewrite List.forallb_forall, List.Forall_forall. Qed.

(** ** Weakest preconditions *)

Lemma wp_returns {St A} (m : M St A) Q s :
  wp m Q s -> exists a s', m s = (Ret a, s') /\ Q a s'.
Proof. unfold wp. destruct (m s) as [[a|e] s']; [eauto|tauto]. Qed.

Lemma wp_of_returns {St A} (m : M St A) (Q : A -> St -> Prop) s a s' :
  m s = (Ret a, s') -> Q a s' -> wp m Q s.
Proof. unfold wp. now intros ->. Qed.

Lemma wp_mono {St A} (m : M St A) (Q Q' : A -> St -> Prop) s :
  wp m Q s -> (forall a s', Q a s' -> Q' a s') -> wp m Q' s.
Proof. unfold wp. destruct (m s) as [[a|e] s']; auto. Qed.

Lemma wp_ret {St A} (a : A) (Q : A -> St -> Prop) s : Q a s -> wp (ret a) Q s.
Proof. auto. Qed.

Lemma wp_bind {St A B} (m : M St A) (k : A -> M St B) Q s :
  wp m (fun a s' => wp (k a) Q s') s -> wp (bind m k) Q s.
Proof. unfold wp, bind. destruct (m s) as [[a|e] s']; auto. Qed.

Lemma wp_gets {St A} (f : St -> A) (Q : A -> St -> Prop) s :
  Q (f s) s -> wp (gets f) Q s.
Proof. auto. Qed.

Lemma wp_modify {St} (f : St -> St) (Q : unit -> St -> Prop) s :
  Q tt (f s) -> wp (modify f) Q s.
Proof. auto. Qed.

Lemma wp_when {St} (b : bool) (m : M St unit) (Q : unit -> St -> Prop) s :
  (b = true -> wp m Q s) -> (b = false -> Q tt s) -> wp (when b m) Q s.
Proof. destruct b; cbn; auto. Qed.

Lemma wp_andM {St} (a b : M St bool) (Q : bool -> St -> Prop) s :
  wp a (fun x s' => if x then wp b Q s' else Q false s') s -> wp (a &&& b) Q s.
Proof.
  intros H. apply wp_bind. eapply wp_mono; [exact H|].
  intros [] s' H'; auto.
Qed.

Section FixerLogic.
Context `{Host}.

Lemma wp_say m c (Q : unit -> ConfigAutoFix -> Prop) s :
  Q tt (with_world s (with_stdout (world s) (stdout (world s) ++ [(m, c)]))) ->
  wp (say m c) Q s.
Proof. auto. Qed.

Lemma wp_rd p (Q : value -> ConfigAutoFix -> Prop) s :
  reachable (config s) p = true -> Q (field (config s) p) s -> wp (rd p) Q s.
Proof.
  intros Hr HQ. unfold wp, rd, bind, gets, lift.
  now rewrite get_in_reachable.
Qed.

Lemma wp_present p (Q : bool -> ConfigAutoFix -> Prop) s :
  reachable (config s) p = true -> Q (truthy (field (config s) p)) s ->
  wp (present p) Q s.
Proof. intros. apply wp_bind, wp_rd; auto. Qed.

Lemma wp_is_str p x (Q : bool -> ConfigAutoFix -> Prop) s :
  reachable (config s) p = true -> Q (seq_str (field (config s) p) x) s ->
  wp (is_str p x) Q s.
Proof. intros. apply wp_bind, wp_rd; auto. Qed.

Lemma wp_is_bool p x (Q : bool -> ConfigAutoFix -> Prop) s :
  reachable (config s) p = true -> Q (seq_bool (field (config s) p) x) s ->
  wp (is_bool p x) Q s.
Proof. intros. apply wp_bind, wp_rd; auto. Qed.

Lemma wp_assign p x (Q : unit -> ConfigAutoFix -> Prop) s :
  p <> [] -> reachable (config s) p = true ->
  Q tt (with_config s (update (config s) p x)) -> wp (assign p x) Q s.
Proof.
  intros Hne Hr HQ. unfold wp, assign, bind, gets, lift, modify.
  now rewrite set_in_reachable.
Qed.

Lemma wp_push_fix f (Q : unit -> ConfigAutoFix -> Prop) s :
  Q tt (with_fixes s (fixes s ++ [f])) -> wp (push_fix f) Q s.
Proof. auto. Qed.

Lemma wp_push_warning w (Q : unit -> ConfigAutoFix -> Prop) s :
  Q tt (with_warnings s (warnings s ++ [w])) -> wp (push_warning w) Q s.
Proof. auto. Qed.

Lemma wp_prompt q (Q : string -> ConfigAutoFix -> Prop) s :
  Q (stdin (world s) (answered (world s)))
    (with_world s (with_answered
       (with_stdout (world s) (stdout (world s) ++ [(Asked q, reset)]))
       (S (answered (world s))))) ->
  wp (prompt q) Q s.
Proof. auto. Qed.

Lemma with_config_same s : with_config s (config s) = s.
Proof. now destruct s. Qed.

Lemma wp_ensure p (Q : unit -> ConfigAutoFix -> Prop) s :
  p <> [] -> reachable (config s) p = true ->
  Q tt (with_config s (insert_missing (config s) p)) -> wp (ensure p) Q s.
Proof.
  intros Hne Hr HQ. unfold ensure. apply wp_bind, wp_rd; [assumption|].
  unfold insert_missing in HQ.
  destruct (truthy (field (config s) p)) eqn:E; cbn.
  - rewrite with_config_same in HQ. exact HQ.
  - apply wp_assign; assumption.
Qed.
End FixerLogic.

(** ** The sub-objects the auto-fixer makes sure exist *)

Lemma field_app p : forall c r, field c (p ++ r) = field (field c p) r.
Proof. induction p as [|k p IH]; intros; cbn; auto. Qed.

Lemma is_prefix_refl p : is_prefix p p = true.
Proof. induction p; cbn; [reflexivity|]. now rewrite String.eqb_refl. Qed.

Lemma is_prefix_app p : forall q, is_prefix p q = true -> exists r, q = p ++ r.
Proof.
  induction p as [|a p IH]; intros q Hq; [eauto|].
  destruct q as [|b q]; [discriminate|]. cbn in Hq.
  apply andb_true_iff in Hq as [Hab Hq]. apply String.eqb_eq in Hab as ->.
  destruct (IH _ Hq) as [r ->]. now exists r.
Qed.

Lemma is_prefix_antisym p : forall q,
  is_prefix p q = true -> is_prefix q p = true -> p = q.
Proof.
  induction p as [|a p IH]; intros [|b q] H1 H2; try discriminate; [reflexivity|].
  cbn in H1, H2. apply andb_true_iff in H1 as [Hab H1].
  apply andb_true_iff in H2 as [_ H2]. apply String.eqb_eq in Hab as ->.
  f_equal. now apply IH.
Qed.

Lemma field_empty_object r : r <> [] -> field (VObj ∅) r = VUndef.
Proof. destruct r as [|k r]; [congruence|]. intros _. cbn. apply field_undef. Qed.

Lemma field_undef_below c p r : field c p = VUndef -> field c (p ++ r) = VUndef.
Proof. intros E. rewrite field_app, E. apply field_undef. Qed.

(** A falsy value is a primitive: it has no members. *)
Lemma field_falsy v r : truthy v = false -> r <> [] -> field v r = VUndef.
Proof.
  destruct r as [|k r]; [congruence|]. intros Hv _. cbn [field].
  destruct v; try discriminate; cbn; apply field_undef.
Qed.

Lemma falsy_or_truthy p v : falsy_or p v = true -> truthy v = true -> p v = true.
Proof. unfold falsy_or. intros Hf Ht. now rewrite Ht in Hf. Qed.

Lemma absent_or_falsy_or v : absent_or is_object v = true -> falsy_or is_object v = true.
Proof. unfold falsy_or. now destruct v. Qed.

Lemma is_object_falsy_or v : is_object v = true -> falsy_or is_object v = true.
Proof. unfold falsy_or. now destruct v. Qed.

Lemma insert_missing_field c p q :
  reachable c p = true -> is_prefix q p = false ->
  field (insert_missing c p) q = field c q.
Proof.
  intros Hr Hq. unfold insert_missing.
  destruct (truthy (field c p)) eqn:E; [reflexivity|].
  destruct (is_prefix p q) eqn:Hp.
  - apply is_prefix_app in Hp as [r ->].
    assert (r <> []) as Hne.
    { intros ->. rewrite app_nil_r, is_prefix_refl in Hq. discriminate. }
    rewrite field_app, field_update_same by assumption.
    rewrite field_empty_object by assumption.
    rewrite field_app. symmetry. now apply field_falsy.
  - apply field_update_apart. unfold apart. now rewrite Hq, Hp.
Qed.

Lemma insert_missing_here c p :
  reachable c p = true -> falsy_or is_object (field c p) = true ->
  is_object (field (insert_missing c p) p) = true.
Proof.
  intros Hr Ha. unfold insert_missing.
  destruct (truthy (field c p)) eqn:E.
  - now apply falsy_or_truthy.
  - now rewrite field_update_same.
Qed.

Lemma insert_missing_is_object c p q :
  reachable c p = true -> is_prefix p q = false ->
  is_object (field (insert_missing c p) q) = is_object (field c q).
Proof.
  intros Hr Hq. unfold insert_missing.
  destruct (truthy (field c p)); try reflexivity. now apply is_object_update.
Qed.

Lemma parent_ok_reachable c0 done todo c p :
  EnsInv c0 done todo c -> parent_ok done p = true ->
  p <> [] /\ reachable c p = true.
Proof.
  intros (Ho & Hd & _) Hp.
  destruct p as [|a [|b [|]]]; try discriminate; cbn in *.
  - split; [congruence|]. now rewrite Ho.
  - split; [congruence|]. rewrite Ho. cbn.
    apply existsb_exists in Hp as (d & Hin & Hs).
    unfold same_path in Hs. apply andb_true_iff in Hs as [H1 H2].
    assert ([a] = d) as <- by now apply is_prefix_antisym.
    rewrite List.Forall_forall in Hd. apply Hd in Hin. cbn in Hin. now rewrite Hin.
Qed.

Lemma EnsInv_step c0 done p todo c :
  EnsInv c0 done (p :: todo) c ->
  parent_ok done p = true ->
  forallb (fun d => negb (is_prefix p d)) done = true ->
  forallb (fun t => negb (is_prefix t p)) todo = true ->
  EnsInv c0 (done ++ [p]) todo (insert_missing c p).
Proof.
  intros Hinv Hpar Hdone Htodo.
  destruct (parent_ok_reachable _ _ _ _ _ Hinv Hpar) as [Hne Hr].
  destruct Hinv as (Ho & Hd & Ht & Hf).
  inversion Ht as [|? ? Hp Ht']; subst.
  repeat split.
  - change (is_object (field (insert_missing c p) []) = true).
    rewrite insert_missing_is_object; auto. now destruct p.
  - apply Forall_app. split.
    + rewrite List.Forall_forall in *. intros d Hin.
      rewrite forallb_forall in Hdone. specialize (Hdone d Hin).
      rewrite insert_missing_is_object; auto. now apply negb_true_iff.
    + constructor; [|constructor]. now apply insert_missing_here.
  - rewrite List.Forall_forall in *. intros t Hin.
    rewrite forallb_forall in Htodo. specialize (Htodo t Hin).
    rewrite insert_missing_field; auto. now apply negb_true_iff.
  - intros q Hq. rewrite forallb_app in Hq. apply andb_true_iff in Hq as [Hq1 Hq2].
    cbn in Hq2. rewrite andb_true_r in Hq2.
    rewrite insert_missing_field; auto. now apply negb_true_iff.
Qed.

Section Ensure.
Context `{Host}.

Lemma with_config_config s c c' :
  with_config (with_config s c) c' = with_config s c'.
Proof. reflexivity. Qed.

Lemma wp_ensure_all {A} (k : M ConfigAutoFix A) Q c0 : forall todo done s,
  EnsInv c0 done todo (config s) -> ordered done todo = true ->
  (forall c', EnsInv c0 (done ++ todo) [] c' ->
              c' = fold_left insert_missing todo (config s) ->
              wp k Q (with_config s c')) ->
  wp (ensure_all todo k) Q s.
Proof.
  induction todo as [|p todo IH]; intros done s Hinv Hord Hk.
  - cbn. rewrite app_nil_r in Hk. specialize (Hk _ Hinv eq_refl).
    now rewrite with_config_same in Hk.
  - cbn in Hord. repeat (apply andb_true_iff in Hord as [Hord ?]).
    destruct (parent_ok_reachable _ _ _ _ _ Hinv Hord) as [Hne Hr].
    pose proof (EnsInv_step _ _ _ _ _ Hinv Hord ltac:(assumption) ltac:(assumption)) as Hstep.
    cbn [ensure_all fold_right]. apply wp_bind. apply wp_ensure; auto.
    apply (IH (done ++ [p])); auto.
    intros c' Hc' ->. cbn [config with_config].
    rewrite with_config_config. rewrite <- app_assoc in Hc'. now apply Hk.
Qed.
End Ensure.

Lemma Configuration_EnsInv c :
  Configuration c = true -> EnsInv c [] ensured c.
Proof.
  unfold Configuration. intros Hc.
  repeat (apply andb_true_iff in Hc as [Hc ?]).
  repeat split; auto.
  now apply forallb_Forall_true.
Qed.

Lemma EnsInv_Shaped c0 c : EnsInv c0 ensured [] c -> Shaped c = true.
Proof.
  intros (Ho & Hd & _). unfold Shaped. rewrite Ho. cbn [andb].
  now apply forallb_Forall_true.
Qed.

(** ** The rules, one by one *)

Lemma Shaped_reachable c p :
  Shaped c = true -> In p assignable -> p <> [] /\ reachable c p = true.
Proof.
  unfold Shaped. cbn. intros Hs Hin.
  repeat (apply andb_true_iff in Hs as [? Hs]).
  repeat (destruct Hin as [<-|Hin]; [split; [discriminate|cbn] |]); try contradiction;
    repeat match goal with H : is_object _ = true |- _ => rewrite H; clear H end;
    reflexivity.
Qed.

Lemma Shaped_update c p x :
  Shaped c = true -> In p assignable -> Shaped (update c p x) = true.
Proof.
  intros Hs Hin. destruct (Shaped_reachable _ _ Hs Hin) as [_ Hr].
  unfold Shaped in *. apply andb_true_iff in Hs as [Ho Hs].
  apply andb_true_iff. split.
  - change (is_object (field (update c p x) []) = true).
    rewrite is_object_update; auto.
    repeat (destruct Hin as [<-|Hin]; [reflexivity|]); contradiction.
  - apply forallb_Forall_true. apply forallb_Forall_true in Hs.
    rewrite List.Forall_forall in *. intros q Hq.
    rewrite is_object_update; auto.
    cbn in Hq.
    repeat (destruct Hin as [<-|Hin];
            [repeat (destruct Hq as [<-|Hq]; [reflexivity|]); contradiction|]).
    contradiction.
Qed.

Lemma Ready_Shaped c : Ready c = true -> Shaped c = true.
Proof.
  unfold Ready. intros Hr.
  do 3 (apply andb_true_iff in Hr as [Hr _]). exact Hr.
Qed.

Lemma Ready_update c p x :
  Ready c = true -> In p assignable ->
  (p = ["security"; "allowedOrigins"] -> is_array x = true) ->
  Ready (update c p x) = true.
Proof.
  intros Hr Hin Hx. pose proof (Ready_Shaped _ Hr) as Hs.
  destruct (Shaped_reachable _ _ Hs Hin) as [_ Hreach].
  unfold Ready in *. do 3 (apply andb_true_iff in Hr as [Hr ?]).
  rewrite Shaped_update by assumption. cbn [andb].
  cbn in Hin.
  repeat (destruct Hin as [<-|Hin];
    [ repeat (apply andb_true_iff; split);
      first [ rewrite field_update_apart by reflexivity; assumption
            | rewrite field_update_same by assumption;
              specialize (Hx eq_refl); destruct x; try discriminate; exact Hx ] |]).
  contradiction.
Qed.

Ltac use_objects :=
  cbn; repeat match goal with E : is_object _ = true |- _ => rewrite E end;
  reflexivity.

Lemma Ready_reachable c p :
  Ready c = true -> within_sections p = true -> reachable c p = true.
Proof.
  intros Hr Hp. apply Ready_Shaped in Hr. unfold Shaped in Hr. cbn in Hr.
  repeat (apply andb_true_iff in Hr as [? Hr]).
  destruct p as [|a [|b [|d [|]]]]; try discriminate; cbn in Hp.
  - use_objects.
  - repeat match type of Hp with
           | (?x =? ?y)%string || _ = true =>
               destruct (String.eqb_spec x y) as [->|_];
               [ clear Hp; use_objects | cbn [orb] in Hp ]
           end.
    discriminate.
  - apply andb_true_iff in Hp as [Ha Hb]. apply String.eqb_eq in Ha as ->.
    apply orb_true_iff in Hb as [Hb|Hb]; apply String.eqb_eq in Hb as ->;
      use_objects.
Qed.

Lemma app_nil_end' {A} (l : list A) : l = l ++ [].
Proof. now rewrite app_nil_r. Qed.

Lemma same_except_update_in P p x c c' :
  In p P -> same_except P c c' -> same_except P c (update c' p x).
Proof.
  intros Hin Hc q Hq. rewrite field_update_apart; [now apply Hc|].
  rewrite forallb_forall in Hq. now apply Hq.
Qed.

Lemma Ready_section c k :
  Ready c = true -> existsb (String.eqb k) sections = true ->
  truthy (field c [k]) = true.
Proof.
  intros Hr Hk.
  assert (reachable c [k; "x"] = true) as Hreach by now apply Ready_reachable.
  cbn in Hreach |- *. apply andb_true_iff in Hreach as [_ Hreach].
  now destruct (member c k).
Qed.

Create Rewrite HintDb fields.
#[global] Hint Rewrite field_update_apart using reflexivity : fields.

Ltac simpl_state :=
  cbn [config fixes warnings world interactive configPath
       with_config with_world with_fixes with_warnings
       files dirs denied spawnable stdin answered stdout
       with_stdout with_files with_dirs with_answered] in *.

Ltac solve_in := cbn; tauto.

(** [Ready] and reachability of a state reached by assignments to
    assignable settings *)
Ltac solve_ready :=
  simpl_state;
  repeat (apply Ready_update; [ | solve_in | try discriminate ]);
  try assumption.

Ltac solve_reach :=
  simpl_state; apply Ready_reachable; [solve_ready | reflexivity].

#[global] Hint Rewrite field_update_same using solve_reach : fields.

Ltac solve_frame :=
  simpl_state;
  repeat (apply same_except_update_in; [solve_in|]);
  apply same_except_refl.

Ltac tidy :=
  simpl_state; autorewrite with fields in *;
  repeat match goal with
         | E : ?x = ?x |- _ => clear E
         end.

Ltac wp_step :=
  lazymatch goal with
  | |- wp (bind _ _) _ _ => apply wp_bind
  | |- wp (ret _) _ _ => apply wp_ret
  | |- wp (say _ _) _ _ => apply wp_say
  | |- wp (rd _) _ _ => apply wp_rd; [solve_reach|]
  | |- wp (present [_]) _ _ =>
      apply wp_present; [solve_reach|];
      rewrite Ready_section by (solve_ready || reflexivity)
  | |- wp (present _) _ _ => apply wp_present; [solve_reach|]
  | |- wp (is_str _ _) _ _ => apply wp_is_str; [solve_reach|]
  | |- wp (is_bool _ _) _ _ => apply wp_is_bool; [solve_reach|]
  | |- wp (assign _ _) _ _ => apply wp_assign; [discriminate|solve_reach|]
  | |- wp (push_fix _) _ _ => apply wp_push_fix
  | |- wp (push_warning _) _ _ => apply wp_push_warning
  | |- wp (prompt _) _ _ => apply wp_prompt
  | |- wp (gets _) _ _ => apply wp_gets
  | |- wp (andM _ _) _ _ => apply wp_andM
  | |- wp (when true _) _ _ => cbn [when]
  | |- wp (when false _) _ _ => cbn [when]
  | |- wp (when ?b _) _ _ => let E := fresh "E" in destruct b eqn:E; cbn [when]
  | |- wp (if true then _ else _) _ _ => cbv iota
  | |- wp (if false then _ else _) _ _ => cbv iota
  | |- wp (if ?b then _ else _) _ _ => let E := fresh "E" in destruct b eqn:E
  | |- if true then _ else _ => cbv iota
  | |- if false then _ else _ => cbv iota
  | |- if ?b then _ else _ => let E := fresh "E" in destruct b eqn:E
  end; tidy.

Ltac solve_step :=
  constructor; simpl_state;
  [ solve_ready
  | solve_frame
  | reflexivity | reflexivity | reflexivity | reflexivity | reflexivity | reflexivity
  | first [ apply app_nil_end' | rewrite <- ?app_assoc; reflexivity ]
  | first [ apply app_nil_end' | rewrite <- ?app_assoc; reflexivity ] ].

Ltac use_tests :=
  repeat match goal with
         | E : ?b = true |- context [?b] => rewrite E
         | E : ?b = false |- context [?b] => rewrite E
         end.

Ltac solve_fields := cbn [app]; repeat constructor; cbn; tauto.

Section ProductionRule.
Context `{Host}.

Lemma fixProductionSecurity_spec s :
  Ready (config s) = true -> wp fixProductionSecurity (fun _ s' => ProdPost s s') s.
Proof.
  intros Hr. unfold fixProductionSecurity, ProdPost.
  repeat wp_step.
  all: eexists; split; [solve_step|].
  all: split; [solve_fields|].
  all: unfold environment_is; use_tests; cbn zeta.
  all: split; [intros; try discriminate; auto|].
  all: intros Hp; try discriminate Hp; tidy; use_tests.
  all: intuition (try discriminate; try congruence).
Qed.
End ProductionRule.

Section EnvironmentAndPerformance.
Context `{Host}.

Lemma fixEnvironmentSettings_spec s :
  Ready (config s) = true -> wp fixEnvironmentSettings (fun _ s' => EnvPost s s') s.
Proof.
  intros Hr. unfold fixEnvironmentSettings, EnvPost.
  repeat wp_step.
  all: eexists; split; [solve_step|].
  all: split; [solve_fields|].
  all: unfold environment_is; use_tests.
  all: split; [intros; try discriminate; auto|].
  all: intros Hp; try discriminate Hp; tidy; use_tests.
  all: unfold logging_fix; cbn [app In].
  all: try (destruct (field (config s) ["logging"; "level"]) eqn:El;
            try discriminate; cbn in *;
            match goal with E : negb (String.eqb _ _) = false |- _ =>
              apply negb_false_iff, String.eqb_eq in E; subst end).
  all: intuition (try discriminate; try congruence).
Qed.

Lemma wp_present_opt k (Q : bool -> ConfigAutoFix -> Prop) s :
  Ready (config s) = true ->
  within_sections ["performance"; k; "x"] = true ->
  Q true s -> wp (present_opt "performance" k) Q s.
Proof.
  intros Hr Hk HQ. unfold present_opt.
  apply wp_bind, wp_rd; [solve_reach|].
  pose proof (Ready_reachable _ _ Hr Hk) as Hreach. cbn in Hreach.
  repeat (apply andb_true_iff in Hreach as [? Hreach]).
  cbn [field].
  destruct (member (config s) "performance") eqn:Ep; try discriminate.
  apply wp_bind. unfold wp, lift. cbn [get ret].
  change (default VUndef (props !! k)) with (member (VObj props) k).
  destruct (member (VObj props) k); try discriminate. exact HQ.
Qed.

Lemma optimizePerformanceSettings_spec s :
  Ready (config s) = true ->
  wp optimizePerformanceSettings (fun _ s' => PerfPost s s') s.
Proof.
  intros Hr. unfold optimizePerformanceSettings, PerfPost.
  repeat first
    [ wp_step
    | apply wp_present_opt; [solve_ready | reflexivity | ] ].
  all: eexists; split; [solve_step|].
  all: split; [solve_fields|].
  all: tidy; use_tests; cbn [app].
  all: intuition (try discriminate; try congruence).
Qed.
End EnvironmentAndPerformance.

Lemma wp_lift {St A} (o : outcome A) (a : A) (Q : A -> St -> Prop) s :
  o = Ret a -> Q a s -> wp (lift o) Q s.
Proof. now intros ->. Qed.

Lemma wp_try_ret {St A} (m : M St A) h (Q : A -> St -> Prop) s :
  wp m Q s -> wp (try_catch m h) Q s.
Proof. unfold wp, try_catch. now destruct (m s) as [[a|e] s']. Qed.

Lemma wp_try_throw {St A} e (h : exn -> M St A) (Q : A -> St -> Prop) s :
  wp (h e) Q s -> wp (try_catch (throw e) h) Q s.
Proof. auto. Qed.

Lemma includes_array o :
  is_array o = true -> includes o "*" = Ret (existsb (fun x => seq_str x "*")
     match o with VArr els _ => els | _ => [] end).
Proof.
  destruct o; try discriminate. cbn. intros Hk.
  apply negb_true_iff in Hk. now rewrite Hk.
Qed.

Lemma absent_or_truthy p v :
  absent_or p v = true -> truthy v = true -> p v = true.
Proof. now destruct v. Qed.

Section LoggingRule.
Context `{Host}.

Lemma ToString_scalar v :
  absent_or is_scalar v = true -> exists t, ToString v = Ret t.
Proof. destruct v as [| |[]| | | |]; try discriminate; cbn; eauto. Qed.

Lemma with_world_same s : with_world s (world s) = s.
Proof. now destruct s. Qed.

Lemma wp_existsSync p (Q : bool -> ConfigAutoFix -> Prop) s :
  Q (bool_decide (is_Some (files (world s) !! p))
     || bool_decide (p ∈ dirs (world s))) s ->
  wp (io (existsSync p)) Q s.
Proof.
  intros HQ. unfold wp, io, existsSync, gets. now rewrite with_world_same.
Qed.

Lemma wp_mkdir p d (Q : unit -> ConfigAutoFix -> Prop) s :
  (p ∉ denied (world s) ->
   Q tt (with_world s
           (with_stdout (with_dirs (world s) (made p ∪ dirs (world s)))
              (stdout (world s) ++ [(CreatedLogDirectory d, green)])))) ->
  (p ∈ denied (world s) ->
   Q tt (with_world s
           (with_stdout (world s)
              (stdout (world s) ++ [(CouldNotCreateLogDirectory, yellow);
                                    (CreateItManually, yellow)])))) ->
  wp (try_catch
        (io (mkdirSync p) ;; say (CreatedLogDirectory d) green)
        (fun _ => say CouldNotCreateLogDirectory yellow ;;
                  say CreateItManually yellow)) Q s.
Proof.
  intros Hok Hko. unfold wp, try_catch, bind, io, mkdirSync, say, log, modify.
  case_bool_decide; cbn.
  - rewrite with_world_same.
    rewrite <- app_assoc. now apply Hko.
  - now apply Hok.
Qed.

Lemma fixLoggingSettings_spec s :
  Ready (config s) = true ->
  wp fixLoggingSettings (fun _ s' => LogPost s s') s.
Proof.
  intros Hr. unfold fixLoggingSettings, LogPost.
  assert (absent_or is_string (field (config s) ["logging"; "logDirectory"]) = true)
    as Hdir.
  { unfold Ready in Hr. now apply andb_true_iff in Hr as [_ Hr]. }
  repeat wp_step.
  2: { split; [solve_step|reflexivity]. }
  destruct (field (config s) ["logging"; "logDirectory"]) eqn:Ed;
    try discriminate; cbn [truthy].
  2: destruct (negb (s0 =? "")).
  all: repeat first [ wp_step | apply wp_existsSync | apply wp_mkdir; intros ? ].
  all: split; [solve_step|reflexivity].
Qed.
End LoggingRule.

Ltac wp_more :=
  first
    [ wp_step
    | lazymatch goal with
      | |- wp (try_catch (match ?x with Some _ => _ | None => _ end) _) _ _ =>
          let E := fresh "E" in
          destruct x eqn:E; [apply wp_try_ret | apply wp_try_throw]
      end ].

Section PromptingRules.
Context `{Host}.

Lemma fixPlaceholderApiUrl_spec s :
  Ready (config s) = true ->
  wp fixPlaceholderApiUrl (fun _ s' => PlaceholderPost s s') s.
Proof.
  intros Hr. unfold fixPlaceholderApiUrl, PlaceholderPost.
  repeat wp_more.
  all: eexists; eexists; split; [solve_step|].
  all: split; [solve_fields|].
  all: split; [solve_fields|].
  all: unfold placeholder_url; use_tests.
  all: intuition (try discriminate; try congruence).
Qed.

(** The loop over the origins only prints. *)
Lemma wp_validateOrigins origins : forall valid s,
  wp (validateOrigins origins valid)
     (fun _ s' => exists out,
        s' = with_world s (with_stdout (world s) (stdout (world s) ++ out))) s.
Proof.
  induction origins as [|o rest IH]; intros valid s; cbn [validateOrigins].
  - apply wp_ret. exists []. rewrite app_nil_r.
    now destruct s as [? ? ? ? ? []].
  - destruct (URL_protocol o) as [protocol|].
    + destruct (negb (protocol =? "https:") && negb (protocol =? "http:")).
      * apply wp_bind, wp_say. eapply wp_mono; [apply IH|].
        intros v s' [out ->]. cbn. eexists.
        now rewrite <- app_assoc.
      * apply IH.
    + apply wp_bind, wp_say. eapply wp_mono; [apply IH|].
      intros v s' [out ->]. cbn. eexists.
      now rewrite <- app_assoc.
Qed.

Lemma fixWildcardCors_spec s :
  Ready (config s) = true ->
  wp fixWildcardCors (fun _ s' => CorsPost s s') s.
Proof.
  intros Hr. unfold fixWildcardCors, CorsPost.
  assert (absent_or is_array (field (config s) ["security"; "allowedOrigins"]) = true)
    as Harr.
  { unfold Ready in Hr. apply andb_true_iff in Hr as [Hr _].
    now apply andb_true_iff in Hr as [_ Hr]. }
  assert (absent_or is_scalar (field (config s) ["platform"; "environment"]) = true)
    as Henv.
  { unfold Ready in Hr. apply andb_true_iff in Hr as [Hr _].
    apply andb_true_iff in Hr as [Hr _].
    now apply andb_true_iff in Hr as [_ Hr]. }
  destruct (ToString_scalar _ Henv) as [shown Hshown].
  repeat first
    [ wp_more
    | eapply wp_lift; [apply includes_array; now apply absent_or_truthy|]
    | eapply wp_lift; [exact Hshown|]
    | eapply wp_mono; [apply wp_validateOrigins|];
      intros ? ? [out ->] ].
  all: eexists; eexists; split; [solve_step|].
  all: try (split; [solve_fields|]).
  all: try (split; [solve_fields|]).
  all: unfold wildcard_cors, environment_is, wildcard_warning; use_tests.
  all: try rewrite includes_array by now apply absent_or_truthy.
  all: use_tests; cbn [andb].
  all: intuition (try discriminate; try congruence).
Qed.
End PromptingRules.

(** ** A pass of the rules *)

Section Assembly.
Context `{Host}.

Lemma step_ready' P s s' df dw : step P s s' df dw -> Ready (config s') = true.
Proof. now intros []. Qed.

Lemma analyzeAndFix_ensure_all :
  analyzeAndFix =
  (say AnalyzingConfiguration blue ;;
   ensure_all ensured
     (fixPlaceholderApiUrl ;; fixWildcardCors ;; fixEnvironmentSettings ;;
      fixProductionSecurity ;; optimizePerformanceSettings ;;
      fixLoggingSettings)).
Proof. reflexivity. Qed.

Lemma Configuration_Ready c c' :
  Configuration c = true -> EnsInv c ensured [] c' -> Ready c' = true.
Proof.
  intros Hc Hinv. pose proof (EnsInv_Shaped _ _ Hinv) as Hs.
  destruct Hinv as (_ & _ & _ & Hf).
  unfold Configuration in Hc. repeat (apply andb_true_iff in Hc as [Hc ?]).
  unfold Ready. rewrite Hs. cbn [andb].
  rewrite !Hf by reflexivity. repeat (apply andb_true_iff; split); auto.
Qed.

(** The rule pass returns on every document of the data model, whatever the
    operator answers and whatever the file system refuses, and it is a
    [Pass]. *)
Theorem analyzeAndFix_total s :
  Configuration (config s) = true ->
  exists s', analyzeAndFix s = (Ret tt, s') /\ Pass s s'.
Proof.
  intros Hc.
  enough (wp analyzeAndFix (fun _ s' => Pass s s') s) as Hwp.
  { apply wp_returns in Hwp as (a & s' & Ha & Hp). destruct a. eauto. }
  rewrite analyzeAndFix_ensure_all.
  apply wp_bind, wp_say.
  eapply wp_ensure_all with (done := []);
    [now apply Configuration_EnsInv | reflexivity |].
  cbn [config with_world]. intros c' Hinv Hc'.
  pose proof (Configuration_Ready _ _ Hc Hinv) as Hr.
  assert (forall q, below_sections q = true -> field c' q = field (config s) q) as Hf.
  { destruct Hinv as (_ & _ & _ & Hf). exact Hf. }
  assert (c' = with_defaults (config s)) as -> by exact Hc'. clear Hc'.
  change (wp (A:=unit) ?m ?Q _) with (wp m Q (prepared s)).
  apply wp_bind. eapply wp_mono; [now apply fixPlaceholderApiUrl_spec|].
  intros [] s1 H1. cbv beta.
  assert (Ready (config s1) = true) as Hr1.
  { destruct H1 as (? & ? & Hs & _). exact (step_ready' _ _ _ _ _ Hs). }
  apply wp_bind. eapply wp_mono; [now apply fixWildcardCors_spec|].
  intros [] s2 H2. cbv beta.
  assert (Ready (config s2) = true) as Hr2.
  { destruct H2 as (? & ? & Hs & _). exact (step_ready' _ _ _ _ _ Hs). }
  apply wp_bind. eapply wp_mono; [now apply fixEnvironmentSettings_spec|].
  intros [] s3 H3. cbv beta.
  assert (Ready (config s3) = true) as Hr3.
  { destruct H3 as (? & Hs & _). exact (step_ready' _ _ _ _ _ Hs). }
  apply wp_bind. eapply wp_mono; [now apply fixProductionSecurity_spec|].
  intros [] s4 H4. cbv beta.
  assert (Ready (config s4) = true) as Hr4.
  { destruct H4 as (? & Hs & _). exact (step_ready' _ _ _ _ _ Hs). }
  apply wp_bind. eapply wp_mono; [now apply optimizePerformanceSettings_spec|].
  intros [] s5 H5. cbv beta.
  assert (Ready (config s5) = true) as Hr5.
  { destruct H5 as (? & Hs & _). exact (step_ready' _ _ _ _ _ Hs). }
  eapply wp_mono; [now apply fixLoggingSettings_spec|].
  intros [] s6 H6. cbv beta.
  exists s1, s2, s3, s4, s5.
  split; [exact Hr|]. split; [exact Hf|].
  repeat (split; [assumption|]). assumption.
Qed.
End Assembly.

Lemma step_field P a b df dw q :
  step P a b df dw -> forallb (apart q) P = true ->
  field (config b) q = field (config a) q.
Proof. intros Hs Hq. exact (step_frame _ _ _ _ _ Hs q Hq). Qed.

Lemma step_Untouched P a b df dw : step P a b df dw -> Untouched a b.
Proof. intros []. constructor; assumption. Qed.

Lemma Untouched_trans a b c : Untouched a b -> Untouched b c -> Untouched a c.
Proof. intros [] []. constructor; congruence. Qed.

Lemma Untouched_prepared s : Untouched s (prepared s).
Proof. now constructor. Qed.

(** The facts of a pass, with the intermediate states named. *)
Ltac open_pass Hp :=
  let s1 := fresh "s1" in let s2 := fresh "s2" in let s3 := fresh "s3" in
  let s4 := fresh "s4" in let s5 := fresh "s5" in
  destruct Hp as (s1 & s2 & s3 & s4 & s5 & Hready & Hdefaults
                  & (df1 & dw1 & Hstep1 & Hf1 & Hw1 & Hquiet1 & Hnone1)
                  & (df2 & dw2 & Hstep2 & Hf2 & Hw2 & Hquiet2 & Hnone2 & Hother2 & Hwild2)
                  & (df3 & Hstep3 & Hf3 & Hother3 & Hdev3)
                  & (df4 & Hstep4 & Hf4 & Hother4 & Hprod4)
                  & (df5 & Hstep5 & Hf5 & Hperf5)
                  & (Hstep6 & Hsame6)).

Lemma Pass_Untouched s s' : Pass s s' -> Untouched s s'.
Proof.
  intros Hp. open_pass Hp.
  repeat (eapply Untouched_trans; [|eapply step_Untouched; eassumption]).
  apply Untouched_prepared.
Qed.

Lemma Pass_fixes s s' :
  Pass s s' -> exists df1 df2 df3 df4 df5,
    fixes s' = fixes s ++ df1 ++ df2 ++ df3 ++ df4 ++ df5
    /\ Forall (fun f => fix_field f = "api.baseUrl") df1
    /\ Forall (fun f => fix_field f = "security.allowedOrigins") df2
    /\ Forall (fun f => In (fix_field f)
                 ["database.enableLogging"; "logging.level"]) df3
    /\ Forall (fun f => In (fix_field f)
                 ["security.enableSSL"; "security.enableHSTS";
                  "database.enableLogging"]) df4
    /\ Forall (fun f => In (fix_field f)
                 ["performance.caching.enabled";
                  "performance.compression.enabled"]) df5.
Proof.
  intros Hp. open_pass Hp. exists df1, df2, df3, df4, df5.
  repeat split; try assumption.
  rewrite (step_fixes _ _ _ _ _ Hstep6), (step_fixes _ _ _ _ _ Hstep5),
    (step_fixes _ _ _ _ _ Hstep4), (step_fixes _ _ _ _ _ Hstep3),
    (step_fixes _ _ _ _ _ Hstep2), (step_fixes _ _ _ _ _ Hstep1).
  cbn [fixes prepared with_config with_world].
  rewrite app_nil_r, <- !app_assoc. reflexivity.
Qed.

Lemma Pass_warnings s s' :
  Pass s s' -> exists dw1 dw2,
    warnings s' = warnings s ++ dw1 ++ dw2
    /\ Forall (fun w => warning_field w = "api.baseUrl") dw1
    /\ Forall (fun w => warning_field w = "security.allowedOrigins") dw2.
Proof.
  intros Hp. open_pass Hp. exists dw1, dw2.
  repeat split; try assumption.
  rewrite (step_warnings _ _ _ _ _ Hstep6), (step_warnings _ _ _ _ _ Hstep5),
    (step_warnings _ _ _ _ _ Hstep4), (step_warnings _ _ _ _ _ Hstep3),
    (step_warnings _ _ _ _ _ Hstep2), (step_warnings _ _ _ _ _ Hstep1).
  cbn [warnings prepared with_config with_world].
  rewrite !app_nil_r, <- !app_assoc. reflexivity.
Qed.

(** A setting outside the assignable ones keeps its value through a pass. *)
Lemma Pass_field s s' q :
  Pass s s' -> below_sections q = true -> forallb (apart q) assignable = true ->
  field (config s') q = field (config s) q.
Proof.
  intros Hp Hb Hq. open_pass Hp.
  cbn in Hq. repeat (apply andb_true_iff in Hq as [? Hq]).
  rewrite Hsame6.
  rewrite (step_field _ _ _ _ _ q Hstep5) by (cbn; now rewrite ?H4, ?H5, ?H6, ?H7).
  rewrite (step_field _ _ _ _ _ q Hstep4) by (cbn; now rewrite ?H1, ?H2, ?H3, ?H4).
  rewrite (step_field _ _ _ _ _ q Hstep3) by (cbn; now rewrite ?H1, ?H2, ?H3, ?H4).
  rewrite (step_field _ _ _ _ _ q Hstep2) by (cbn; now rewrite ?H0, ?H1).
  rewrite (step_field _ _ _ _ _ q Hstep1) by (cbn; now rewrite ?H, ?H0, ?H1).
  now apply Hdefaults.
Qed.

(** ** The auto-fixer without prompts *)

Lemma fixes_for_app name l1 l2 :
  fixes_for name (l1 ++ l2) = fixes_for name l1 ++ fixes_for name l2.
Proof. apply List.filter_app. Qed.

Lemma warnings_about_app name l1 l2 :
  warnings_about name (l1 ++ l2) = warnings_about name l1 ++ warnings_about name l2.
Proof. apply List.filter_app. Qed.

Lemma fixes_for_none name names l :
  Forall (fun f => In (fix_field f) names) l -> ~ In name names ->
  fixes_for name l = [].
Proof.
  intros Hl Hn. induction Hl as [|f l Hf Hl IH]; [reflexivity|].
  cbn. destruct (String.eqb_spec (fix_field f) name) as [E|_]; [|exact IH].
  now rewrite E in Hf.
Qed.

Lemma fixes_for_none1 name other l :
  Forall (fun f => fix_field f = other) l -> name <> other ->
  fixes_for name l = [].
Proof.
  intros Hl Hn. apply fixes_for_none with (names := [other]).
  - eapply List.Forall_impl; [|exact Hl]. cbn. auto.
  - cbn. intuition congruence.
Qed.

Lemma warnings_about_none name other l :
  Forall (fun w => warning_field w = other) l -> name <> other ->
  warnings_about name l = [].
Proof.
  intros Hl Hn. induction Hl as [|w l Hw Hl IH]; [reflexivity|].
  cbn. destruct (String.eqb_spec (warning_field w) name) as [E|_]; [|exact IH].
  congruence.
Qed.

Lemma same_except_weaken' P Q c c' :
  (forall p, In p P -> In p Q) -> same_except P c c' -> same_except Q c c'.
Proof. apply same_except_weaken. Qed.

Section NonInteractive.
Context `{Host}.

Lemma config_prepared s : config (prepared s) = with_defaults (config s).
Proof. reflexivity. Qed.

(** In non-interactive mode the first two rules leave the document alone. *)
Lemma Pass_noninteractive s s' :
  Pass s s' -> interactive s = false ->
  same_except automatic (with_defaults (config s)) (config s').
Proof.
  intros Hp Hi. open_pass Hp.
  destruct (Hquiet1 Hi) as [_ E1].
  assert (interactive s1 = false) as Hi1.
  { now rewrite (step_interactive _ _ _ _ _ Hstep1). }
  destruct (Hquiet2 Hi1) as [_ E2].
  rewrite Hsame6.
  rewrite <- config_prepared, <- E1, <- E2.
  eapply same_except_weaken;
    [|eapply same_except_trans;
       [eapply same_except_trans;
         [exact (step_frame _ _ _ _ _ Hstep3)|exact (step_frame _ _ _ _ _ Hstep4)]
       |exact (step_frame _ _ _ _ _ Hstep5)]].
  intros p Hin. cbn in Hin |- *. tauto.
Qed.

(** Without prompts, the two settings that are only assigned from an
    answer keep their value. *)
Lemma Pass_unprompted s s' :
  Pass s s' -> interactive s = false ->
  field (config s') ["api"; "baseUrl"] = field (config s) ["api"; "baseUrl"]
  /\ field (config s') ["security"; "allowedOrigins"] =
     field (config s) ["security"; "allowedOrigins"].
Proof.
  intros Hp Hi. pose proof (Pass_noninteractive _ _ Hp Hi) as Hframe.
  assert (forall q, below_sections q = true ->
                    field (with_defaults (config s)) q = field (config s) q) as Hd.
  { open_pass Hp. rewrite config_prepared in Hdefaults. exact Hdefaults. }
  split; (rewrite Hframe by reflexivity; apply Hd; reflexivity).
Qed.

(** C6, amended.  On a production document of the data model with
    [security.corsEnabled = true] and the wildcard among
    [security.allowedOrigins], the non-interactive auto-fixer completes its
    rule pass, leaves [security.allowedOrigins] as it is, records no fix for
    it, and records one warning about it.  (Outside the data model the pass
    can stop before the rule has run, and no warning is recorded.) *)
Theorem wildcard_left_alone s els props :
  Configuration (config s) = true -> interactive s = false ->
  environment_is (config s) "production" = true ->
  field (config s) ["security"; "corsEnabled"] = VBool true ->
  field (config s) ["security"; "allowedOrigins"] = VArr els props ->
  In (VStr "*") els ->
  exists s',
    analyzeAndFix s = (Ret tt, s')
    /\ field (config s') ["security"; "allowedOrigins"] = VArr els props
    /\ fixes_for "security.allowedOrigins" (fixes s') =
       fixes_for "security.allowedOrigins" (fixes s)
    /\ warnings_about "security.allowedOrigins" (warnings s') =
       warnings_about "security.allowedOrigins" (warnings s)
       ++ [wildcard_warning (config s)].
Proof.
  intros Hc Hi Henv Hcors Hao Hstar.
  destruct (analyzeAndFix_total s Hc) as (s' & Hrun & Hp).
  destruct (Pass_unprompted _ _ Hp Hi) as [_ Hsame].
  exists s'. split; [exact Hrun|]. split; [congruence|].
  assert (is_array (VArr els props) = true) as Harr.
  { unfold Configuration in Hc. apply andb_true_iff in Hc as [Hc _].
    apply andb_true_iff in Hc as [_ Hc]. now rewrite Hao in Hc. }
  assert (wildcard_cors (config s) = true) as Hwild.
  { unfold wildcard_cors. rewrite Hcors, Hao, includes_array by exact Harr.
    cbn. apply existsb_exists. exists (VStr "*"). now split. }
  open_pass Hp.
  destruct (Hquiet1 Hi) as [-> E1].
  assert (interactive s1 = false) as Hi1.
  { now rewrite (step_interactive _ _ _ _ _ Hstep1). }
  destruct (Hquiet2 Hi1) as [-> E2].
  assert (forall q, below_sections q = true ->
                    field (config s1) q = field (config s) q) as Hs1.
  { intros q Hq. rewrite E1. apply Hdefaults. exact Hq. }
  assert (dw2 = [wildcard_warning (config s)]) as ->.
  { rewrite Hwild2.
    - unfold wildcard_warning. now rewrite Hs1 by reflexivity.
    - unfold wildcard_cors in *. now rewrite !Hs1 by reflexivity.
    - unfold environment_is in *. now rewrite Hs1 by reflexivity. }
  split.
  - rewrite (step_fixes _ _ _ _ _ Hstep6), (step_fixes _ _ _ _ _ Hstep5),
      (step_fixes _ _ _ _ _ Hstep4), (step_fixes _ _ _ _ _ Hstep3),
      (step_fixes _ _ _ _ _ Hstep2), (step_fixes _ _ _ _ _ Hstep1).
    cbn [fixes prepared with_config with_world].
    rewrite !fixes_for_app, !app_nil_r.
    rewrite (fixes_for_none _ _ _ Hf3), (fixes_for_none _ _ _ Hf4),
      (fixes_for_none _ _ _ Hf5), !app_nil_r;
      [reflexivity| | |]; cbn; intuition discriminate.
  - rewrite (step_warnings _ _ _ _ _ Hstep6), (step_warnings _ _ _ _ _ Hstep5),
      (step_warnings _ _ _ _ _ Hstep4), (step_warnings _ _ _ _ _ Hstep3),
      (step_warnings _ _ _ _ _ Hstep2), (step_warnings _ _ _ _ _ Hstep1).
    cbn [warnings prepared with_config with_world].
    rewrite !warnings_about_app, !app_nil_r.
    rewrite (warnings_about_none _ _ _ Hw1) by discriminate.
    rewrite app_nil_r. reflexivity.
Qed.
End NonInteractive.

(** ** The environment rules *)

Lemma seq_str_inj v a b : seq_str v a = true -> a <> b -> seq_str v b = false.
Proof.
  destruct v; try discriminate. cbn. intros Ha Hab.
  apply String.eqb_eq in Ha as ->. now apply String.eqb_neq.
Qed.

Section Environments.
Context `{Host}.

(** The environment and the settings the first two rules do not assign are
    the same when the environment rule starts. *)
Lemma Pass_before_rules s s1 s2 df1 dw1 df2 dw2 q :
  (forall q, below_sections q = true ->
             field (config (prepared s)) q = field (config s) q) ->
  step [["api"; "baseUrl"]] (prepared s) s1 df1 dw1 ->
  step [["security"; "allowedOrigins"]] s1 s2 df2 dw2 ->
  below_sections q = true ->
  apart q ["api"; "baseUrl"] = true ->
  apart q ["security"; "allowedOrigins"] = true ->
  field (config s2) q = field (config s) q.
Proof.
  intros Hd H1 H2 Hq Ha Hb.
  rewrite (step_field _ _ _ _ _ q H2) by (cbn; now rewrite Hb).
  rewrite (step_field _ _ _ _ _ q H1) by (cbn; now rewrite Ha).
  now apply Hd.
Qed.

Lemma Pass_development_logging s s' :
  Pass s s' ->
  environment_is (config s) "development" = true ->
  field (config s) ["database"; "enableLogging"] = VBool false ->
  field (config s') ["database"; "enableLogging"] = VBool true
  /\ In logging_fix (fixes s').
Proof.
  intros Hp Henv Hdb.
  open_pass Hp.
  pose proof (Pass_before_rules _ _ _ _ _ _ _ ["platform"; "environment"]
                Hdefaults Hstep1 Hstep2 eq_refl eq_refl eq_refl) as Eenv.
  pose proof (Pass_before_rules _ _ _ _ _ _ _ ["database"; "enableLogging"]
                Hdefaults Hstep1 Hstep2 eq_refl eq_refl eq_refl) as Edb.
  assert (environment_is (config s2) "development" = true) as Hdev.
  { unfold environment_is in *. now rewrite Eenv. }
  destruct (Hdev3 Hdev) as (_ & Hset & _).
  destruct Hset as [Hval Hin]; [now rewrite Edb, Hdb|].
  assert (environment_is (config s3) "production" = false) as Hnp.
  { unfold environment_is in *.
    rewrite (step_field _ _ _ _ _ _ Hstep3) by reflexivity.
    eapply seq_str_inj; [exact Hdev|discriminate]. }
  destruct (Hother4 Hnp) as [-> E4].
  split.
  - rewrite Hsame6.
    rewrite (step_field _ _ _ _ _ _ Hstep5) by reflexivity.
    now rewrite E4.
  - rewrite (step_fixes _ _ _ _ _ Hstep6), (step_fixes _ _ _ _ _ Hstep5),
      (step_fixes _ _ _ _ _ Hstep4), (step_fixes _ _ _ _ _ Hstep3).
    rewrite !in_app_iff. tauto.
Qed.

(** C8, amended.  On a development document of the data model with
    [database.enableLogging = false] the rule pass completes, sets the
    setting to [true], and records the fix of [database.enableLogging] from
    [false] to [true].  (Outside the data model the pass can stop before the
    rule has run, and the setting stays [false].) *)
Theorem development_logging_enabled s :
  Configuration (config s) = true ->
  environment_is (config s) "development" = true ->
  field (config s) ["database"; "enableLogging"] = VBool false ->
  exists s',
    analyzeAndFix s = (Ret tt, s')
    /\ field (config s') ["database"; "enableLogging"] = VBool true
    /\ In logging_fix (fixes s').
Proof.
  intros Hc Henv Hdb.
  destruct (analyzeAndFix_total s Hc) as (s' & Hrun & Hp).
  exists s'. split; [exact Hrun|].
  exact (Pass_development_logging s s' Hp Henv Hdb).
Qed.

(** C5 (the code departs from its documentation).  On a production
    document of the data model the rule pass completes; after it
    [security.enableSSL] and [security.enableHSTS] are [true] if they were
    [false], and [database.enableLogging] is [false] if it was [true]: the
    rule compares with [=== false] and [=== true].  A setting that was
    anything else is left as it was, and a missing one stays missing: the
    pass does not make sure that SSL and HSTS are enabled in production,
    which the comments of the rule and AUTOMATION.md promise. *)
Theorem production_security_forced s :
  Configuration (config s) = true ->
  environment_is (config s) "production" = true ->
  exists s',
    analyzeAndFix s = (Ret tt, s')
    /\ field (config s') ["security"; "enableSSL"] =
         (if seq_bool (field (config s) ["security"; "enableSSL"]) false
          then VBool true else field (config s) ["security"; "enableSSL"])
    /\ field (config s') ["security"; "enableHSTS"] =
         (if seq_bool (field (config s) ["security"; "enableHSTS"]) false
          then VBool true else field (config s) ["security"; "enableHSTS"])
    /\ field (config s') ["database"; "enableLogging"] =
         (if seq_bool (field (config s) ["database"; "enableLogging"]) true
          then VBool false else field (config s) ["database"; "enableLogging"])
    /\ seq_bool (field (config s') ["security"; "enableSSL"]) false = false
    /\ seq_bool (field (config s') ["security"; "enableHSTS"]) false = false
    /\ seq_bool (field (config s') ["database"; "enableLogging"]) true = false.
Proof.
  intros Hc Henv.
  destruct (analyzeAndFix_total s Hc) as (s' & Hrun & Hp).
  exists s'. split; [exact Hrun|].
  open_pass Hp.
  pose proof (Pass_before_rules _ _ _ _ _ _ _ ["platform"; "environment"]
                Hdefaults Hstep1 Hstep2 eq_refl eq_refl eq_refl) as Eenv.
  pose proof (Pass_before_rules _ _ _ _ _ _ _ ["security"; "enableSSL"]
                Hdefaults Hstep1 Hstep2 eq_refl eq_refl eq_refl) as Essl.
  pose proof (Pass_before_rules _ _ _ _ _ _ _ ["security"; "enableHSTS"]
                Hdefaults Hstep1 Hstep2 eq_refl eq_refl eq_refl) as Ehsts.
  pose proof (Pass_before_rules _ _ _ _ _ _ _ ["database"; "enableLogging"]
                Hdefaults Hstep1 Hstep2 eq_refl eq_refl eq_refl) as Edb.
  assert (environment_is (config s2) "development" = false) as Hnd.
  { unfold environment_is in *. rewrite Eenv.
    eapply seq_str_inj; [exact Henv|discriminate]. }
  destruct (Hother3 Hnd) as [-> E3].
  assert (environment_is (config s3) "production" = true) as Hprod.
  { unfold environment_is in *. now rewrite E3, Eenv. }
  destruct (Hprod4 Hprod) as (Hssl & Hhsts & Hlog & _).
  rewrite E3 in Hssl, Hhsts, Hlog.
  rewrite Essl in Hssl. rewrite Ehsts in Hhsts. rewrite Edb in Hlog.
  rewrite Hsame6.
  rewrite !(step_field _ _ _ _ _ _ Hstep5) by reflexivity.
  rewrite Hssl, Hhsts, Hlog.
  repeat split; try reflexivity.
  - destruct (field (config s) ["security"; "enableSSL"]) as [| |[]| | | |];
      reflexivity.
  - destruct (field (config s) ["security"; "enableHSTS"]) as [| |[]| | | |];
      reflexivity.
  - destruct (field (config s) ["database"; "enableLogging"]) as [| |[]| | | |];
      reflexivity.
Qed.

(** Nothing is recorded on a production document to which no rule applies,
    and in non-interactive mode only on such a document. *)
Theorem production_zero_fixes s :
  Configuration (config s) = true ->
  environment_is (config s) "production" = true ->
  exists s',
    analyzeAndFix s = (Ret tt, s')
    /\ Untouched s s'
    /\ (nothing_to_fix (interactive s) (config s) = true -> fixes s' = fixes s)
    /\ (interactive s = false -> fixes s' = fixes s ->
        nothing_to_fix false (config s) = true).
Proof.
  intros Hc Henv.
  destruct (analyzeAndFix_total s Hc) as (s' & Hrun & Hp).
  exists s'. split; [exact Hrun|]. split; [now apply Pass_Untouched|].
  open_pass Hp.
  pose proof (Pass_before_rules _ _ _ _ _ _ _ ["platform"; "environment"]
                Hdefaults Hstep1 Hstep2 eq_refl eq_refl eq_refl) as Eenv.
  pose proof (Pass_before_rules _ _ _ _ _ _ _ ["security"; "enableSSL"]
                Hdefaults Hstep1 Hstep2 eq_refl eq_refl eq_refl) as Essl.
  pose proof (Pass_before_rules _ _ _ _ _ _ _ ["security"; "enableHSTS"]
                Hdefaults Hstep1 Hstep2 eq_refl eq_refl eq_refl) as Ehsts.
  pose proof (Pass_before_rules _ _ _ _ _ _ _ ["database"; "enableLogging"]
                Hdefaults Hstep1 Hstep2 eq_refl eq_refl eq_refl) as Edb.
  pose proof (Pass_before_rules _ _ _ _ _ _ _ ["performance"; "caching"; "enabled"]
                Hdefaults Hstep1 Hstep2 eq_refl eq_refl eq_refl) as Eca.
  pose proof (Pass_before_rules _ _ _ _ _ _ _ ["performance"; "compression"; "enabled"]
                Hdefaults Hstep1 Hstep2 eq_refl eq_refl eq_refl) as Eco.
  assert (environment_is (config s2) "development" = false) as Hnd.
  { unfold environment_is in *. rewrite Eenv.
    eapply seq_str_inj; [exact Henv|discriminate]. }
  destruct (Hother3 Hnd) as [-> E3].
  assert (environment_is (config s3) "production" = true) as Hprod.
  { unfold environment_is in *. now rewrite E3, Eenv. }
  destruct (Hprod4 Hprod) as (_ & _ & _ & Hiff4). cbv zeta in Hiff4.
  rewrite E3, Essl, Ehsts, Edb in Hiff4.
  rewrite !(step_field _ _ _ _ _ _ Hstep4) in Hperf5 by reflexivity.
  rewrite E3, Eca, Eco in Hperf5.
  assert (fixes s' = fixes s ++ df1 ++ df2 ++ df4 ++ df5) as Hfix.
  { rewrite (step_fixes _ _ _ _ _ Hstep6), (step_fixes _ _ _ _ _ Hstep5),
      (step_fixes _ _ _ _ _ Hstep4), (step_fixes _ _ _ _ _ Hstep3),
      (step_fixes _ _ _ _ _ Hstep2), (step_fixes _ _ _ _ _ Hstep1).
    cbn [fixes prepared with_config with_world].
    rewrite !app_nil_r, <- !app_assoc. reflexivity. }
  unfold nothing_to_fix. split.
  - intros Hn. repeat (apply andb_true_iff in Hn as [Hn ?]).
    repeat match goal with
           | E : negb _ = true |- _ => apply negb_true_iff in E
           end.
    assert (df4 = []) as -> by (apply Hiff4; auto).
    assert (df5 = []) as -> by (apply Hperf5; auto).
    assert (df1 = [] /\ df2 = []) as [-> ->].
    { destruct (interactive s) eqn:Hi.
      - cbn [negb orb] in *.
        match goal with E : _ && _ = true |- _ =>
          apply andb_true_iff in E as [Eph Ewc] end.
        apply negb_true_iff in Eph, Ewc.
        assert (placeholder_url (config (prepared s)) = false) as Eph'.
        { unfold placeholder_url in *. now rewrite Hdefaults by reflexivity. }
        destruct (Hnone1 Eph') as (-> & _ & E1). split; [reflexivity|].
        apply Hnone2. unfold wildcard_cors in *.
        rewrite !(step_field _ _ _ _ _ _ Hstep1) by reflexivity.
        now rewrite !Hdefaults by reflexivity.
      - destruct (Hquiet1 Hi) as [-> _]. split; [reflexivity|].
        apply Hquiet2. now rewrite (step_interactive _ _ _ _ _ Hstep1). }
    now rewrite Hfix, !app_nil_r.
  - intros Hi Hsame. rewrite Hfix in Hsame.
    assert (df1 ++ df2 ++ df4 ++ df5 = []) as Hnil.
    { apply (app_inv_head (fixes s)). now rewrite app_nil_r. }
    apply app_eq_nil in Hnil as [_ Hnil].
    apply app_eq_nil in Hnil as [_ Hnil].
    apply app_eq_nil in Hnil as [H4 H5].
    apply Hiff4 in H4 as (-> & -> & ->). apply Hperf5 in H5 as (-> & ->).
    reflexivity.
Qed.
End Environments.

(** ** What the validator accepts *)

Lemma wlp_returns {St A} (m : M St A) Q s a s' :
  wlp m Q s -> m s = (Ret a, s') -> Q a s'.
Proof. unfold wlp. intros Hw Hm. now rewrite Hm in Hw. Qed.

Lemma wlp_bind {St A B} (m : M St A) (k : A -> M St B) Q s :
  wlp m (fun a s' => wlp (k a) Q s') s -> wlp (bind m k) Q s.
Proof. unfold wlp, bind. destruct (m s) as [[a|e] s']; auto. Qed.

Lemma wlp_ret {St A} (a : A) (Q : A -> St -> Prop) s : Q a s -> wlp (ret a) Q s.
Proof. auto. Qed.

Lemma wlp_throw {St A} e (Q : A -> St -> Prop) s : wlp (throw e) Q s.
Proof. exact I. Qed.

Lemma wlp_lift {St A} (o : outcome A) (Q : A -> St -> Prop) s :
  (forall a, o = Ret a -> Q a s) -> wlp (lift o) Q s.
Proof. unfold wlp, lift. destruct o; auto. Qed.

Lemma wlp_log m c (Q : unit -> World -> Prop) w :
  Q tt (with_stdout w (stdout w ++ [(m, c)])) -> wlp (log m c) Q w.
Proof. auto. Qed.

Lemma wlp_mono {St A} (m : M St A) (Q Q' : A -> St -> Prop) s :
  wlp m Q s -> (forall a s', Q a s' -> Q' a s') -> wlp m Q' s.
Proof. unfold wlp. destruct (m s) as [[a|e] s']; auto. Qed.

Lemma wlp_try_catch_throw {St A} (m : M St A) e (Q : A -> St -> Prop) s :
  wlp m Q s -> wlp (try_catch m (fun _ => throw e)) Q s.
Proof. unfold wlp, try_catch. destruct (m s) as [[a|e'] s']; auto. Qed.

Lemma get_in_field c p v : get_in c p = Ret v -> field c p = v.
Proof.
  revert c. induction p as [|k p IH]; intros c; cbn.
  - congruence.
  - unfold member. destruct (get c k) as [x|e]; cbn; [apply IH|discriminate].
Qed.

Lemma okp_bind {St A B} (m : M St A) (k : A -> M St B) P Q :
  okp m P -> (forall a, P a -> okp (k a) Q) -> okp (bind m k) Q.
Proof.
  intros Hm Hk s. apply wlp_bind. eapply wlp_mono; [apply Hm|].
  intros a s' Ha. now apply Hk.
Qed.

Lemma okp_mono {St A} (m : M St A) (P Q : A -> Prop) :
  okp m P -> (forall a, P a -> Q a) -> okp m Q.
Proof. intros Hm HPQ s. eapply wlp_mono; [apply Hm|]. cbn. auto. Qed.

Lemma okp_ret {St A} (a : A) (P : A -> Prop) : P a -> okp (ret (St:=St) a) P.
Proof. intros Ha s. exact Ha. Qed.

Lemma okp_throw {St A} e (P : A -> Prop) : okp (throw (St:=St) e) P.
Proof. intros s. exact I. Qed.

Lemma okp_lift {St A} (o : outcome A) : okp (lift (St:=St) o) (fun a => o = Ret a).
Proof. intros s. apply wlp_lift. auto. Qed.

Lemma okp_log m c : okp (log m c) (fun _ => True).
Proof. intros s. exact I. Qed.

Lemma okp_when_throw {St} (b : bool) e :
  okp (when (St:=St) b (throw e)) (fun _ => b = false).
Proof. intros s. destruct b; [exact I|reflexivity]. Qed.

Lemma okp_when {St} (b : bool) (m : M St unit) (P : Prop) :
  (b = true -> okp m (fun _ => P)) -> okp (when b m) (fun _ => b = true -> P).
Proof.
  intros Hm s. destruct b; cbn [when].
  - eapply wlp_mono; [now apply Hm|]. cbn. auto.
  - cbn. discriminate.
Qed.

Lemma okp_andM {St} (a b : M St bool) (P Q : bool -> Prop) :
  okp a P -> okp b Q ->
  okp (a &&& b) (fun r => if r then P true /\ Q true
                         else P false \/ (P true /\ Q false)).
Proof.
  intros Ha Hb. unfold andM. eapply okp_bind; [exact Ha|].
  intros [] HP.
  - eapply okp_mono; [exact Hb|]. intros [] HQ; auto.
  - apply okp_ret. auto.
Qed.

Lemma okp_orM {St} (a b : M St bool) (P Q : bool -> Prop) :
  okp a P -> okp b Q ->
  okp (a ||| b) (fun r => if r then P true \/ (P false /\ Q true)
                         else P false /\ Q false).
Proof.
  intros Ha Hb. unfold orM. eapply okp_bind; [exact Ha|].
  intros [] HP.
  - apply okp_ret. auto.
  - eapply okp_mono; [exact Hb|]. intros [] HQ; auto.
Qed.

Lemma okp_try_catch_throw {St A} (m : M St A) e P :
  okp m P -> okp (try_catch m (fun _ => throw e)) P.
Proof. intros Hm s. apply wlp_try_catch_throw, Hm. Qed.

Section ValidatorLogic.
Import Validator.
Context `{Host}.

Lemma okp_rd c p : okp (rd c p) (fun v => v = field c p).
Proof.
  eapply okp_mono; [apply okp_lift|]. intros a Ha.
  symmetry. now apply get_in_field.
Qed.

Lemma okp_present c p : okp (present c p) (fun b => b = truthy (field c p)).
Proof.
  unfold present. eapply okp_bind; [apply okp_rd|].
  intros v ->. now apply okp_ret.
Qed.

Lemma okp_missing c p : okp (missing c p) (fun b => b = negb (truthy (field c p))).
Proof.
  unfold missing. eapply okp_bind; [apply okp_rd|].
  intros v ->. now apply okp_ret.
Qed.

(** [x && x < n] as a guard *)
Lemma okp_below c p n :
  okp (present c p &&& (t <- rd c p ;; lift (js_lt t n)))
      (fun r => r = false ->
                truthy (field c p) = true -> js_lt (field c p) n = Ret false).
Proof.
  eapply okp_mono.
  - apply okp_andM; [apply okp_present|].
    eapply okp_bind; [apply okp_rd|]. intros v ->. apply okp_lift.
  - intros [] Hr; [discriminate|]. cbn in Hr. intros _ Ht.
    destruct Hr as [Hr|[_ Hr]]; [congruence|exact Hr].
Qed.

Lemma okp_filterM {A} (p : A -> M World bool) (f : A -> bool) l :
  (forall x, okp (p x) (fun b => b = f x)) ->
  okp (filterM p l) (fun kept => kept = List.filter f l).
Proof.
  intros Hp. induction l as [|x l IH]; cbn [filterM List.filter].
  - now apply okp_ret.
  - eapply okp_bind; [apply Hp|]. intros b ->.
    eapply okp_bind; [apply IH|]. intros kept ->.
    apply okp_ret. reflexivity.
Qed.

Ltac next lem := eapply okp_bind; [lem|].
Ltac skip_log := eapply okp_bind; [apply okp_log|]; intros [] _.

Lemma okp_checks c : okp (checks c) (fun _ => Accepted c).
Proof.
  unfold checks, Accepted.
  skip_log.
  next ltac:(apply okp_filterM with
               (f := fun section => negb (truthy (field c [section])));
             intros x; apply okp_missing).
  intros missingSections ->.
  next ltac:(apply okp_when_throw). intros [] Hsections.
  assert (truthy (field c ["platform"]) = true
          /\ truthy (field c ["global"]) = true) as [Hplatform Hglobal].
  { cbn in Hsections. cbn [field].
    destruct (truthy (member c "platform")), (truthy (member c "global"));
      cbn in Hsections; try discriminate. now split. }
  skip_log. skip_log.
  next ltac:(apply okp_orM; [apply okp_orM|]; apply okp_missing).
  intros incomplete Hinc.
  next ltac:(apply okp_when_throw). intros [] ->.
  destruct Hinc as [[Hname Hversion] Henv].
  symmetry in Hname, Hversion, Henv.
  apply negb_false_iff in Hname, Hversion, Henv.
  next ltac:(apply okp_rd). intros version ->.
  next ltac:(apply okp_lift). intros semantic Hsem.
  next ltac:(apply okp_when_throw). intros [] Hs.
  apply negb_false_iff in Hs. subst semantic.
  cbv zeta.
  next ltac:(apply okp_rd). intros environment ->.
  next ltac:(apply okp_when with (P := False); intros _;
             eapply okp_bind; [apply okp_lift|]; intros; apply okp_throw).
  intros [] Hvalid.
  assert (one_of (field c ["platform"; "environment"])
                 ["production"; "staging"; "development"] = true) as Hone.
  { destruct (one_of _ _); [reflexivity|]. now destruct Hvalid. }
  clear Hvalid.
  skip_log. skip_log.
  next ltac:(apply okp_rd). intros enabled ->.
  next ltac:(apply okp_when_throw). intros [] Hbool.
  apply negb_false_iff in Hbool.
  next ltac:(apply okp_missing). intros noTimezone ->.
  next ltac:(apply okp_when_throw). intros [] Htz.
  apply negb_false_iff in Htz.
  skip_log.
  (* authentication *)
  next ltac:(apply okp_present). intros authentication ->.
  next ltac:(apply okp_when with
    (P := (truthy (field c ["authentication"; "sessionTimeout"]) = true ->
           js_lt (field c ["authentication"; "sessionTimeout"]) 60 = Ret false)
          /\ (truthy (field c ["authentication"; "maxLoginAttempts"]) = true ->
              js_lt (field c ["authentication"; "maxLoginAttempts"]) 1 = Ret false
              /\ js_gt (field c ["authentication"; "maxLoginAttempts"]) 10 = Ret false));
    intros _).
  { skip_log.
    next ltac:(apply okp_below). intros short Hshort.
    next ltac:(apply okp_when_throw). intros [] ->.
    next ltac:(apply okp_andM;
               [apply okp_present
               |apply okp_orM;
                (eapply okp_bind; [apply okp_rd|]; intros v ->; apply okp_lift)]).
    intros out Hout.
    next ltac:(apply okp_when_throw). intros [] ->.
    eapply okp_mono; [apply okp_log|]. intros [] _.
    split; [auto|]. intros Hma.
    destruct Hout as [Hout|[_ Hout]]; [congruence|exact Hout]. }
  intros [] Hauth.
  (* api *)
  next ltac:(apply okp_present). intros api ->.
  next ltac:(apply okp_when with
    (P := (truthy (field c ["api"; "baseUrl"]) = true ->
           exists text protocol,
             ToString (field c ["api"; "baseUrl"]) = Ret text
             /\ URL_protocol text = Some protocol)
          /\ (truthy (field c ["api"; "timeout"]) = true ->
              js_lt (field c ["api"; "timeout"]) 1000 = Ret false));
    intros _).
  { skip_log.
    next ltac:(apply okp_present). intros hasUrl ->.
    next ltac:(apply okp_when with
      (P := exists text protocol,
             ToString (field c ["api"; "baseUrl"]) = Ret text
             /\ URL_protocol text = Some protocol); intros _).
    { apply okp_try_catch_throw.
      next ltac:(apply okp_rd). intros baseUrl ->.
      next ltac:(apply okp_lift). intros text Htext.
      destruct (URL_protocol text) as [protocol|] eqn:Hurl.
      - apply okp_ret. exists text, protocol. split; assumption.
      - apply okp_throw. }
    intros [] Hurl.
    next ltac:(apply okp_below). intros quick Hquick.
    next ltac:(apply okp_when_throw). intros [] ->.
    eapply okp_mono; [apply okp_log|]. intros [] _. auto. }
  intros [] Hapi.
  (* logging *)
  next ltac:(apply okp_present). intros logging ->.
  next ltac:(apply okp_when with
    (P := truthy (field c ["logging"; "level"]) = true ->
          one_of (field c ["logging"; "level"])
                 ["debug"; "info"; "warn"; "error"] = true);
    intros _).
  { skip_log. cbv zeta.
    next ltac:(apply okp_andM with
                 (Q := fun r => r = negb (one_of (field c ["logging"; "level"])
                                            ["debug"; "info"; "warn"; "error"]));
               [apply okp_present
               |eapply okp_bind; [apply okp_rd|]; intros v ->;
                now apply okp_ret]).
    intros bad Hbad.
    next ltac:(apply okp_when with (P := False); intros _;
               eapply okp_bind; [apply okp_rd|]; intros;
               eapply okp_bind; [apply okp_lift|]; intros; apply okp_throw).
    intros [] Hnot.
    eapply okp_mono; [apply okp_log|]. intros [] _ Hlevel.
    destruct bad; [now destruct Hnot|].
    destruct Hbad as [Hbad|[_ Hbad]]; [congruence|].
    symmetry in Hbad. now apply negb_false_iff in Hbad. }
  intros [] Hlogging.
  eapply okp_mono with (P := fun _ => True).
  - intros w. unfold wlp.
    destruct (bind _ _ w) as [[a|e] w']; exact I.
  - intros [] _. repeat (split; [assumption|]). assumption.
Qed.

Lemma wlp_validateJSON p (Q : value -> World -> Prop) w :
  (forall c, files w !! p = Some (Doc c) -> Q c w) -> wlp (validateJSON p) Q w.
Proof.
  intros HQ. unfold wlp, validateJSON, try_catch, readJSON.
  destruct (files w !! p) as [[|c]|] eqn:E; cbn; auto.
Qed.

Lemma wlp_gets {A} (f : World -> A) (Q : A -> World -> Prop) w :
  Q (f w) w -> wlp (gets f) Q w.
Proof. auto. Qed.

(** When [validateConfiguration] returns, the file holds a document that
    every check accepts. *)
Theorem validate_accepts w w' :
  validateConfiguration w = (Ret tt, w') ->
  exists c, files w !! configPath = Some (Doc c) /\ Accepted c.
Proof.
  intros Hrun.
  enough (wlp validateConfiguration
            (fun _ _ => exists c, files w !! configPath = Some (Doc c)
                                  /\ Accepted c) w) as Hw.
  { exact (wlp_returns _ _ _ _ _ Hw Hrun). }
  clear Hrun. unfold validateConfiguration.
  apply wlp_bind, wlp_log.
  apply wlp_bind. unfold existsSync. apply wlp_gets.
  apply wlp_bind.
  match goal with |- wlp (when ?b _) _ _ => destruct b; [exact I|] end.
  cbn [when]. apply wlp_ret.
  apply wlp_bind. apply wlp_gets.
  apply wlp_bind.
  assert (forall (Q : unit -> World -> Prop) b m c w0,
            (forall out, Q tt (with_stdout w0 out)) ->
            wlp (when b (log m c)) Q w0) as Hwhen.
  { intros Q [] m c0 w0 HQ; cbn; [apply HQ|].
    specialize (HQ (stdout w0)). now destruct w0. }
  apply Hwhen. intros out.
  apply wlp_bind, wlp_log.
  apply wlp_bind, wlp_validateJSON. cbn [files with_stdout].
  intros c Hfile.
  apply wlp_bind, wlp_log.
  eapply wlp_mono; [apply okp_checks|].
  cbn. intros _ _ Hacc. exists c. split; assumption.
Qed.
End ValidatorLogic.

(** ** The validator depends on the document alone *)

Lemma with_stdout_same w : with_stdout w (stdout w ++ []) = w.
Proof. rewrite app_nil_r. now destruct w. Qed.

Lemma with_stdout_app w a b :
  with_stdout (with_stdout w (stdout w ++ a))
              (stdout (with_stdout w (stdout w ++ a)) ++ b)
  = with_stdout w (stdout w ++ (a ++ b)).
Proof. cbn. now rewrite app_assoc. Qed.

Lemma prints_ret {A} (a : A) : prints (ret a).
Proof. exists (Ret a), []. intros w. unfold ret. now rewrite with_stdout_same. Qed.

Lemma prints_throw {A} e : prints (throw (A:=A) e).
Proof. exists (Throw e), []. intros w. unfold throw. now rewrite with_stdout_same. Qed.

Lemma prints_lift {A} (o : outcome A) : prints (lift o).
Proof. exists o, []. intros w. unfold lift. now rewrite with_stdout_same. Qed.

Lemma prints_log m c : prints (log m c).
Proof. exists (Ret tt), [(m, c)]. reflexivity. Qed.

Lemma prints_bind {A B} (m : M World A) (k : A -> M World B) :
  prints m -> (forall a, prints (k a)) -> prints (bind m k).
Proof.
  intros ([a|e] & out & Hm) Hk.
  - destruct (Hk a) as (r & out' & Hka). exists r, (out ++ out').
    intros w. unfold bind. now rewrite Hm, Hka, with_stdout_app.
  - exists (Throw e), out. intros w. unfold bind. now rewrite Hm.
Qed.

Lemma prints_when b (m : M World unit) : prints m -> prints (when b m).
Proof. destruct b; [auto|intros _; apply prints_ret]. Qed.

Lemma prints_if {A} (b : bool) (m1 m2 : M World A) :
  prints m1 -> prints m2 -> prints (if b then m1 else m2).
Proof. now destruct b. Qed.

Lemma prints_try_catch {A} (m : M World A) h :
  prints m -> (forall e, prints (h e)) -> prints (try_catch m h).
Proof.
  intros ([a|e] & out & Hm) Hh.
  - exists (Ret a), out. intros w. unfold try_catch. now rewrite Hm.
  - destruct (Hh e) as (r & out' & Hhe). exists r, (out ++ out').
    intros w. unfold try_catch. now rewrite Hm, Hhe, with_stdout_app.
Qed.

Lemma prints_filterM {A} (p : A -> M World bool) l :
  (forall x, prints (p x)) -> prints (filterM p l).
Proof.
  intros Hp. induction l as [|x l IH]; cbn [filterM].
  - apply prints_ret.
  - apply prints_bind; [apply Hp|]. intros ?.
    apply prints_bind; [apply IH|]. intros ?. apply prints_ret.
Qed.

Section ValidatorPure.
Import Validator.
Context `{Host}.

Ltac prints_step :=
  first
    [ apply prints_ret | apply prints_throw | apply prints_lift
    | apply prints_log
    | apply prints_bind; [|intros ?]
    | apply prints_when
    | apply prints_if
    | apply prints_try_catch; [|intros ?]
    | apply prints_filterM; intros ?
    | progress unfold Validator.rd, missing, present, andM, orM
    | match goal with
      | |- prints (match ?x with Some _ => _ | None => _ end) => destruct x
      end ].

Lemma checks_prints c : prints (checks c).
Proof. unfold checks. repeat prints_step. Qed.

Lemma bind_log {A} m c (k : unit -> M World A) w :
  bind (log m c) k w = k tt (with_stdout w (stdout w ++ [(m, c)])).
Proof. reflexivity. Qed.

Lemma bind_gets {A B} (f : World -> A) (k : A -> M World B) w :
  bind (gets f) k w = k (f w) w.
Proof. reflexivity. Qed.

Lemma bind_ret {A B} (a : A) (k : A -> M World B) w : bind (ret a) k w = k a w.
Proof. reflexivity. Qed.

Lemma bind_validateJSON {B} p c (k : value -> M World B) w :
  files w !! p = Some (Doc c) -> bind (validateJSON p) k w = k c w.
Proof.
  intros Hfile. unfold bind, validateJSON, try_catch, readJSON.
  now rewrite Hfile.
Qed.

(** Whether the validator passes depends on the document alone. *)
Lemma validateConfiguration_document w c :
  files w !! configPath = Some (Doc c) ->
  exists w3, validateConfiguration w = checks c w3.
Proof.
  intros Hfile. unfold validateConfiguration.
  rewrite bind_log. unfold existsSync. rewrite bind_gets.
  cbn [files with_stdout]. rewrite Hfile.
  replace (bool_decide (is_Some (Some (Doc c)))) with true
    by (symmetry; apply bool_decide_eq_true; eauto).
  cbn [orb negb when]. rewrite bind_ret, bind_gets.
  match goal with
  | |- context [when ?b _] => destruct b; cbn [when]
  end.
  - rewrite bind_log, bind_log, (bind_validateJSON _ c), bind_log by exact Hfile.
    eauto.
  - rewrite bind_ret, bind_log, (bind_validateJSON _ c), bind_log by exact Hfile.
    eauto.
Qed.

(** Two worlds whose file holds the same document get the same verdict. *)
Theorem script_depends_on_document w1 w2 c :
  files w1 !! configPath = Some (Doc c) ->
  files w2 !! configPath = Some (Doc c) ->
  fst (script w1) = fst (script w2).
Proof.
  intros H1 H2. unfold script.
  destruct (validateConfiguration_document _ _ H1) as [w1' ->].
  destruct (validateConfiguration_document _ _ H2) as [w2' ->].
  destruct (checks_prints c) as (r & out & Hr). rewrite !Hr.
  destruct r; reflexivity.
Qed.
End ValidatorPure.

(** ** The pattern of versions *)

Section VersionPattern.
Open Scope string_scope.

Lemma append_empty_l t : "" ++ t = t.
Proof. reflexivity. Qed.

Lemma append_cons c s t : String c s ++ t = String c (s ++ t).
Proof. reflexivity. Qed.

Lemma nullable_matches r : nullable r = true <-> matches r "".
Proof.
  split.
  - induction r; cbn; intros Hn; try discriminate.
    + constructor.
    + apply andb_true_iff in Hn as [H1 H2].
      change "" with ("" ++ ""). constructor; auto.
    + apply orb_true_iff in Hn as [H1|H2];
        [apply m_alt_l|apply m_alt_r]; auto.
    + constructor.
  - intros Hm. remember "" as s eqn:Es.
    induction Hm; cbn; try discriminate; auto.
    + destruct s; [|discriminate]. rewrite append_empty_l in Es. subst.
      now rewrite IHHm1, IHHm2.
    + now rewrite IHHm.
    + rewrite IHHm by assumption. apply orb_true_r.
Qed.

Lemma matches_deriv c r s : matches r (String c s) -> matches (deriv c r) s.
Proof.
  intros Hm. remember (String c s) as cs eqn:Ecs. revert c s Ecs.
  induction Hm; intros c0 s0 Ecs; try discriminate.
  - injection Ecs as -> <-. cbn. rewrite H. constructor.
  - injection Ecs as -> <-. cbn. rewrite Ascii.eqb_refl. constructor.
  - cbn [deriv]. destruct s as [|c' s'].
    + rewrite ?append_empty_l, ?append_cons in Ecs. subst t.
      assert (nullable a = true) as -> by now apply nullable_matches.
      apply m_alt_r. now apply IHHm2.
    + rewrite ?append_empty_l, ?append_cons in Ecs. injection Ecs as -> <-.
      assert (matches (RSeq (deriv c0 a) b) (s' ++ t)) as Hs
        by (constructor; auto).
      destruct (nullable a); [now apply m_alt_l|exact Hs].
  - cbn. apply m_alt_l. auto.
  - cbn. apply m_alt_r. auto.
  - cbn [deriv]. destruct s as [|c' s'].
    + rewrite ?append_empty_l, ?append_cons in Ecs. now apply IHHm2.
    + rewrite ?append_empty_l, ?append_cons in Ecs. injection Ecs as -> <-. constructor; auto.
Qed.

Lemma deriv_matches c r : forall s, matches (deriv c r) s -> matches r (String c s).
Proof.
  induction r; cbn [deriv]; intros s Hm.
  - inversion Hm.
  - inversion Hm.
  - destruct (is_digit c) eqn:Hd; inversion Hm; subst. now constructor.
  - destruct (Ascii.eqb_spec c c0) as [->|]; inversion Hm; subst. constructor.
  - assert (forall u, matches (RSeq (deriv c r1) r2) u ->
                      matches (RSeq r1 r2) (String c u)) as Hseq.
    { intros u Hu. inversion Hu; subst.
      change (String c (s0 ++ t)) with (String c s0 ++ t). constructor; auto. }
    destruct (nullable r1) eqn:Hn; [|auto].
    inversion Hm; subst; [auto|].
    change (String c s) with ("" ++ String c s).
    constructor; [now apply nullable_matches|auto].
  - inversion Hm; subst; [apply m_alt_l|apply m_alt_r]; auto.
  - inversion Hm; subst.
    change (String c (s0 ++ t)) with (String c s0 ++ t). constructor; auto.
Qed.

(** Matching by derivatives is matching. *)
Theorem regex_test_matches s : forall r, regex_test r s = true <-> matches r s.
Proof.
  induction s as [|c s IH]; intros r; cbn [regex_test].
  - apply nullable_matches.
  - rewrite IH. split; [apply deriv_matches|apply matches_deriv].
Qed.

Lemma matches_star_digits s : matches (RStar RDigit) s <-> all_digits s = true.
Proof.
  split.
  - intros Hm. remember (RStar RDigit) as r eqn:Er.
    induction Hm; try discriminate; [reflexivity|].
    injection Er as ->. inversion Hm1; subst.
    rewrite append_cons, append_empty_l. cbn [all_digits].
    match goal with Hd : is_digit _ = true |- _ => rewrite Hd end.
    cbn [andb]. auto.
  - induction s as [|c s IH]; cbn; intros Hd; [constructor|].
    apply andb_true_iff in Hd as [Hc Hs].
    change (String c s) with (String c "" ++ s).
    constructor; [now constructor|auto].
Qed.

Lemma matches_plus_digits s : matches (RPlus RDigit) s <-> digits1 s.
Proof.
  unfold RPlus, digits1. split.
  - intros Hm. inversion Hm as [| | |? ? d t Hd Ht| | | |]; subst.
    inversion Hd as [|c Hc| | | | | |]; subst.
    apply matches_star_digits in Ht.
    rewrite append_cons, append_empty_l. cbn [all_digits].
    rewrite Hc, Ht. now split.
  - intros [Hne Hd]. destruct s as [|c s]; [congruence|].
    cbn in Hd. apply andb_true_iff in Hd as [Hc Hs].
    change (String c s) with (String c "" ++ s).
    constructor; [now constructor|now apply matches_star_digits].
Qed.

Lemma matches_dot s : matches (RChar ".") s <-> s = ".".
Proof. split; [now inversion 1|intros ->; constructor]. Qed.

(** The pattern of versions accepts the dotted triples of digit runs, and
    nothing else. *)
Theorem versionRegex_semver s :
  regex_test versionRegex s = true <-> semver_shaped s.
Proof.
  rewrite regex_test_matches. unfold versionRegex, semver_shaped. split.
  - intros Hm.
    inversion Hm as [| | |? ? a ra Ha Hra| | | |]; subst.
    inversion Hra as [| | |? ? d1 rb Hd1 Hrb| | | |]; subst.
    inversion Hrb as [| | |? ? b rc Hb Hrc| | | |]; subst.
    inversion Hrc as [| | |? ? d2 c Hd2 Hc| | | |]; subst.
    apply matches_dot in Hd1, Hd2. subst.
    apply matches_plus_digits in Ha, Hb, Hc.
    exists a, b, c. auto.
  - intros (a & b & c & -> & Ha & Hb & Hc).
    apply matches_plus_digits in Ha, Hb, Hc.
    repeat constructor; auto.
Qed.

End VersionPattern.

(** ** A run of the auto-fixer *)

Lemma bind_of_ret {St A B} (m : M St A) (k : A -> M St B) s a s' :
  m s = (Ret a, s') -> bind m k s = k a s'.
Proof. unfold bind. now intros ->. Qed.

Lemma bind_of_throw {St A B} (m : M St A) (k : A -> M St B) s e s' :
  m s = (Throw e, s') -> bind m k s = (Throw e, s').
Proof. unfold bind. now intros ->. Qed.

Lemma printed_printed s a b : printed (printed s a) b = printed s (a ++ b).
Proof. unfold printed. cbn. now rewrite app_assoc. Qed.

Lemma printed_nil s : printed s [] = s.
Proof. unfold printed. rewrite app_nil_r. now destruct s as [? ? ? ? ? []]. Qed.

Section Run.
Context `{Host}.

Lemma say_printed m c s : say m c s = (Ret tt, printed s [(m, c)]).
Proof. reflexivity. Qed.

Lemma forEach_prints {A} (f : A -> nat -> M ConfigAutoFix unit) :
  (forall x i s, exists out, f x i s = (Ret tt, printed s out)) ->
  forall xs i s, exists out, forEach f xs i s = (Ret tt, printed s out).
Proof.
  intros Hf. induction xs as [|x xs IH]; intros i s; cbn [forEach].
  - exists []. unfold ret. now rewrite printed_nil.
  - destruct (Hf x i s) as [out1 H1]. destruct (IH (S i) (printed s out1)) as [out2 H2].
    exists (out1 ++ out2). rewrite (bind_of_ret _ _ _ _ _ H1), H2.
    now rewrite printed_printed.
Qed.

Lemma displaySummary_prints s :
  exists out, displaySummary s = (Ret tt, printed s out).
Proof.
  unfold displaySummary.
  rewrite (bind_of_ret _ _ _ _ _ (say_printed _ _ _)).
  rewrite (bind_of_ret _ _ _ _ _ (say_printed _ _ _)).
  rewrite printed_printed.
  unfold bind at 1, gets. cbn [fixes printed with_world].
  assert (exists out1,
    (if (0 <? length (fixes s))%nat
     then say (AppliedFixes (length (fixes s))) green ;;
          forEach (fun entry index =>
                say (FixField (index + 1) (fix_field entry)) cyan ;;
                say (FixFrom (fix_from entry)) yellow ;;
                say (FixTo (fix_to entry)) green ;;
                say (FixReason (fix_reason entry)) blue) (fixes s) 0
     else say NoFixesNeeded green)
      (printed s ([(SummaryHeader, magenta)] ++ [(Rule, magenta)]))
    = (Ret tt, printed s out1)) as [out1 H1].
  { destruct (0 <? length (fixes s))%nat.
    - rewrite (bind_of_ret _ _ _ _ _ (say_printed _ _ _)), printed_printed.
      edestruct (forEach_prints
        (fun entry index =>
                say (FixField (index + 1) (fix_field entry)) cyan ;;
                say (FixFrom (fix_from entry)) yellow ;;
                say (FixTo (fix_to entry)) green ;;
                say (FixReason (fix_reason entry)) blue)) as [out Hout].
      + intros x i s0. eexists.
        rewrite !(bind_of_ret _ _ _ _ _ (say_printed _ _ _)), say_printed,
          !printed_printed. reflexivity.
      + rewrite Hout, printed_printed. eauto.
    - rewrite say_printed, printed_printed. eauto. }
  rewrite (bind_of_ret _ _ _ _ _ H1).
  unfold bind at 1, gets. cbn [warnings printed with_world].
  assert (exists out2,
    when (0 <? length (warnings s))%nat
      (say (WarningCount (length (warnings s))) yellow ;;
       forEach (fun warning index =>
                say (WarningField (index + 1) (warning_field warning)) cyan ;;
                say (WarningIssue (warning_issue warning)) yellow ;;
                say (WarningCurrent (warning_current warning)) yellow)
             (warnings s) 0) (printed s out1)
    = (Ret tt, printed s out2)) as [out2 H2].
  { destruct (0 <? length (warnings s))%nat; cbn [when].
    - rewrite (bind_of_ret _ _ _ _ _ (say_printed _ _ _)), printed_printed.
      edestruct (forEach_prints
        (fun warning index =>
                say (WarningField (index + 1) (warning_field warning)) cyan ;;
                say (WarningIssue (warning_issue warning)) yellow ;;
                say (WarningCurrent (warning_current warning)) yellow)) as [out Hout].
      + intros x i s0. eexists.
        rewrite !(bind_of_ret _ _ _ _ _ (say_printed _ _ _)), say_printed,
          !printed_printed. reflexivity.
      + rewrite Hout, printed_printed. eauto.
    - unfold ret. eauto. }
  rewrite (bind_of_ret _ _ _ _ _ H2).
  rewrite say_printed, printed_printed. eauto.
Qed.

Lemma loadConfig_document s c :
  files (world s) !! configPath s = Some (Doc c) ->
  loadConfig s =
  (Ret tt, printed (with_config s c)
             [(LoadingConfiguration, blue); (ConfigurationLoaded, green)]).
Proof.
  intros Hfile. unfold loadConfig.
  rewrite (bind_of_ret _ _ _ _ _ (say_printed _ _ _)).
  unfold try_catch, bind, gets, io, readJSON, modify, say, log.
  cbn [world with_world printed files with_stdout configPath].
  rewrite Hfile. cbn. unfold printed. cbn. now rewrite <- app_assoc.
Qed.

Lemma loadConfig_failure s :
  (forall c, files (world s) !! configPath s <> Some (Doc c)) ->
  loadConfig s = (Throw (Error FailedToLoad),
                  printed s [(LoadingConfiguration, blue)]).
Proof.
  intros Hfile. unfold loadConfig.
  rewrite (bind_of_ret _ _ _ _ _ (say_printed _ _ _)).
  unfold try_catch, bind, gets, io, readJSON, modify, say, log, throw.
  cbn [world with_world printed files with_stdout configPath].
  destruct (files (world s) !! configPath s) as [[|c]|] eqn:E; cbn.
  - unfold printed. cbn. reflexivity.
  - now destruct (Hfile c).
  - unfold printed. cbn. reflexivity.
Qed.

(** [run] never raises: every exception of its body is caught. *)
Lemma run_returns s : exists b s', run s = (Ret b, s').
Proof.
  unfold run. rewrite (bind_of_ret _ _ _ _ _ (say_printed _ _ _)).
  unfold try_catch.
  match goal with |- context [match ?m ?s0 with _ => _ end] =>
    destruct (m s0) as [[b|e] s1] end.
  - eauto.
  - rewrite (bind_of_ret _ _ _ _ _ (say_printed _ _ _)). unfold ret. eauto.
Qed.

Lemma saveConfig_denied s :
  interactive s = false -> configPath s ∈ denied (world s) ->
  saveConfig s = (Throw (Error FailedToSave), s).
Proof.
  intros Hi Hd. unfold saveConfig.
  unfold bind at 1, gets. rewrite Hi.
  unfold bind at 1, ret. unfold try_catch, bind, gets, io, writeFileSync, throw.
  rewrite bool_decide_eq_true_2 by exact Hd.
  now rewrite with_world_same.
Qed.

Lemma saveConfig_written s :
  interactive s = false -> configPath s ∉ denied (world s) ->
  saveConfig s =
  (Ret tt,
   printed (with_world s
              (with_files (world s)
                 (<[configPath s := written (config s)]> (files (world s)))))
           [(ConfigurationSaved, green)]).
Proof.
  intros Hi Hd. unfold saveConfig.
  unfold bind at 1, gets. rewrite Hi.
  unfold bind at 1, ret. unfold try_catch, bind, gets, io, writeFileSync, throw.
  rewrite bool_decide_eq_false_2 by exact Hd.
  reflexivity.
Qed.

Lemma run_no_fixes s c s6 :
  files (world s) !! configPath s = Some (Doc c) ->
  analyzeAndFix (loaded s c) = (Ret tt, s6) ->
  fixes s6 = [] ->
  exists out, run s = (Ret (length (warnings s6) =? 0)%nat, printed s6 out).
Proof.
  intros Hfile Hpass Hfix. unfold run.
  rewrite (bind_of_ret _ _ _ _ _ (say_printed _ _ _)). unfold try_catch.
  rewrite (bind_of_ret _ _ _ _ _
             (loadConfig_document (printed s [(AutoFixBanner, cyan)]) c Hfile)).
  change (printed (with_config _ c) _) with (loaded s c).
  rewrite (bind_of_ret _ _ _ _ _ Hpass).
  destruct (displaySummary_prints s6) as [out Hout].
  rewrite (bind_of_ret _ _ _ _ _ Hout).
  unfold bind, gets, ret. cbn [fixes warnings printed with_world].
  rewrite Hfix. cbn [length Nat.ltb Nat.leb when ret Nat.eqb andb].
  unfold ret. exists out. unfold printed. cbn [fixes warnings with_world].
  rewrite Hfix. reflexivity.
Qed.

Lemma run_save_denied s c s6 :
  files (world s) !! configPath s = Some (Doc c) ->
  analyzeAndFix (loaded s c) = (Ret tt, s6) ->
  fixes s6 <> [] ->
  interactive s6 = false ->
  configPath s6 ∈ denied (world s6) ->
  exists out,
    run s = (Ret false,
             printed s6 (out ++ [(ErrorLine (Error FailedToSave), red)])).
Proof.
  intros Hfile Hpass Hfix Hi Hd. unfold run.
  rewrite (bind_of_ret _ _ _ _ _ (say_printed _ _ _)). unfold try_catch.
  rewrite (bind_of_ret _ _ _ _ _
             (loadConfig_document (printed s [(AutoFixBanner, cyan)]) c Hfile)).
  change (printed (with_config _ c) _) with (loaded s c).
  rewrite (bind_of_ret _ _ _ _ _ Hpass).
  destruct (displaySummary_prints s6) as [out Hout].
  rewrite (bind_of_ret _ _ _ _ _ Hout).
  unfold bind at 1, gets. cbn [fixes printed with_world].
  destruct (fixes s6) as [|f l] eqn:Ef; [congruence|].
  cbn [length Nat.ltb Nat.leb when].
  rewrite (bind_of_throw _ _ _ _ _ (saveConfig_denied (printed s6 out) Hi Hd)).
  rewrite (bind_of_ret _ _ _ _ _ (say_printed _ _ _)), printed_printed.
  unfold ret. eauto.
Qed.

Lemma run_saved s c s6 :
  files (world s) !! configPath s = Some (Doc c) ->
  analyzeAndFix (loaded s c) = (Ret tt, s6) ->
  fixes s6 <> [] ->
  interactive s6 = false ->
  configPath s6 ∉ denied (world s6) ->
  exists out,
    run s =
    (Ret false,
     printed (with_world s6
                (with_files (world s6)
                   (<[configPath s6 := written (config s6)]> (files (world s6)))))
             (out ++ [(ConfigurationSaved, green)])).
Proof.
  intros Hfile Hpass Hfix Hi Hd. unfold run.
  rewrite (bind_of_ret _ _ _ _ _ (say_printed _ _ _)). unfold try_catch.
  rewrite (bind_of_ret _ _ _ _ _
             (loadConfig_document (printed s [(AutoFixBanner, cyan)]) c Hfile)).
  change (printed (with_config _ c) _) with (loaded s c).
  rewrite (bind_of_ret _ _ _ _ _ Hpass).
  destruct (displaySummary_prints s6) as [out Hout].
  rewrite (bind_of_ret _ _ _ _ _ Hout).
  unfold bind at 1, gets. cbn [fixes printed with_world].
  destruct (fixes s6) as [|f l] eqn:Ef; [congruence|].
  cbn [length Nat.ltb Nat.leb when].
  rewrite (bind_of_ret _ _ _ _ _ (saveConfig_written (printed s6 out) Hi Hd)).
  unfold bind, gets, ret. cbn [fixes warnings printed with_world].
  rewrite Ef. cbn [length Nat.eqb andb].
  exists out. f_equal. unfold printed. cbn. now rewrite <- app_assoc.
Qed.
(** Saving records nothing. *)
Lemma saveConfig_fixes s r s' :
  saveConfig s = (r, s') -> fixes s' = fixes s.
Proof.
  unfold saveConfig. unfold bind at 1, gets.
  destruct (interactive s).
  - unfold bind at 1. unfold bind at 1, prompt, io.
    cbn [world with_world].
    destruct (negb (toLowerCase _ =? "y")%string).
    + unfold bind at 1, say, io, log, modify. cbn. intros [= _ <-]. reflexivity.
    + unfold ret at 1. cbv iota.
      unfold try_catch, bind, gets, io, writeFileSync, throw, say, log, modify.
      cbn [world with_world config configPath denied with_answered with_stdout].
      case_bool_decide; cbn; intros [= _ <-]; reflexivity.
  - unfold bind at 1, ret at 1. cbv iota.
    unfold try_catch, bind, gets, io, writeFileSync, throw, say, log, modify.
    case_bool_decide; cbn; intros [= _ <-]; reflexivity.
Qed.

(** A run that recorded a fix returns [false], saved or not. *)
Lemma run_with_fixes s c s6 :
  files (world s) !! configPath s = Some (Doc c) ->
  analyzeAndFix (loaded s c) = (Ret tt, s6) ->
  fixes s6 <> [] ->
  exists s', run s = (Ret false, s').
Proof.
  intros Hfile Hpass Hfix. unfold run.
  rewrite (bind_of_ret _ _ _ _ _ (say_printed _ _ _)). unfold try_catch.
  rewrite (bind_of_ret _ _ _ _ _
             (loadConfig_document (printed s [(AutoFixBanner, cyan)]) c Hfile)).
  change (printed (with_config _ c) _) with (loaded s c).
  rewrite (bind_of_ret _ _ _ _ _ Hpass).
  destruct (displaySummary_prints s6) as [out Hout].
  rewrite (bind_of_ret _ _ _ _ _ Hout).
  unfold bind at 1, gets. cbn [fixes printed with_world].
  destruct (fixes s6) as [|f l] eqn:Ef; [congruence|].
  cbn [length Nat.ltb Nat.leb when].
  destruct (saveConfig (printed s6 out)) as [[[]|e] s7] eqn:Esave.
  - rewrite (bind_of_ret _ _ _ _ _ Esave).
    unfold bind, gets, ret.
    rewrite (saveConfig_fixes _ _ _ Esave). cbn [fixes printed with_world].
    rewrite Ef. cbn [length Nat.eqb andb]. eauto.
  - rewrite (bind_of_throw _ _ _ _ _ Esave).
    rewrite (bind_of_ret _ _ _ _ _ (say_printed _ _ _)). unfold ret. eauto.
Qed.

(** The verdict of a run: it is [true] when the rule pass recorded neither
    a fix nor a warning, and only then. *)
Lemma run_verdict s c s6 :
  files (world s) !! configPath s = Some (Doc c) ->
  analyzeAndFix (loaded s c) = (Ret tt, s6) ->
  exists s',
    run s = (Ret ((length (fixes s6) =? 0)%nat && (length (warnings s6) =? 0)%nat), s').
Proof.
  intros Hfile Hpass. destruct (fixes s6) as [|f l] eqn:Ef.
  - destruct (run_no_fixes s c s6 Hfile Hpass Ef) as [out Hrun]. eauto.
  - destruct (run_with_fixes s c s6 Hfile Hpass) as [s' Hrun]; [congruence|]. eauto.
Qed.
End Run.

(** ** The validator and the world *)

Lemma bind_ret_inv {St A B} (m : M St A) (k : A -> M St B) s b s' :
  bind m k s = (Ret b, s') ->
  exists a s1, m s = (Ret a, s1) /\ k a s1 = (Ret b, s').
Proof.
  unfold bind. destruct (m s) as [[a|e] s1]; [eauto|discriminate].
Qed.

Section ValidatorWorld.
Import Validator.
Context `{Host}.

(** The validator only prints, and its verdict depends on the files and
    directories alone. *)
Lemma validateConfiguration_world w :
  exists r out,
    validateConfiguration w = (r, with_stdout w (stdout w ++ out))
    /\ forall w', files w' = files w -> dirs w' = dirs w ->
                  exists out', validateConfiguration w' =
                               (r, with_stdout w' (stdout w' ++ out')).
Proof.
  unfold validateConfiguration.
  assert (forall w0,
    (log ValidatingConfiguration blue ;;
     found <- existsSync configPath ;;
     when (negb found) (throw (Error ConfigFileNotFound)) ;;
     schema <- existsSync schemaPath ;;
     when (negb schema) (log SchemaFileNotFound yellow) ;;
     log (Checking JsonSyntax) blue ;;
     config <- validateJSON configPath ;;
     log (Valid JsonSyntax) green ;; checks config) w0
    = (let w1 := with_stdout w0 (stdout w0 ++ [(ValidatingConfiguration, blue)]) in
       if negb (bool_decide (is_Some (files w0 !! configPath))
                || bool_decide (configPath ∈ dirs w0))
       then (Throw (Error ConfigFileNotFound), w1)
       else
         let w2 := if negb (bool_decide (is_Some (files w0 !! schemaPath))
                            || bool_decide (schemaPath ∈ dirs w0))
                   then with_stdout w1 (stdout w1 ++ [(SchemaFileNotFound, yellow)])
                   else w1 in
         let w3 := with_stdout w2 (stdout w2 ++ [(Checking JsonSyntax, blue)]) in
         match files w0 !! configPath with
         | Some (Doc c) =>
             checks c (with_stdout w3 (stdout w3 ++ [(Valid JsonSyntax, green)]))
         | _ => (Throw (Error InvalidJSON), w3)
         end)) as Heq.
  { intros w0. rewrite bind_log. unfold existsSync. rewrite bind_gets.
    cbn [files dirs with_stdout]. cbv zeta.
    set (b1 := bool_decide (is_Some (files w0 !! configPath))
               || bool_decide (configPath ∈ dirs w0)).
    set (b2 := bool_decide (is_Some (files w0 !! schemaPath))
               || bool_decide (schemaPath ∈ dirs w0)).
    destruct b1; cbn [negb when]; [|reflexivity].
    rewrite bind_ret, bind_gets. cbn [files dirs with_stdout]. fold b2.
    destruct b2; cbn [negb when].
    - rewrite bind_ret, bind_log.
      unfold bind at 1, validateJSON, try_catch, readJSON.
      cbn [files with_stdout].
      destruct (files w0 !! configPath) as [[|c]|]; try reflexivity.
    - rewrite !bind_log. unfold bind at 1, validateJSON, try_catch, readJSON.
      cbn [files with_stdout].
      destruct (files w0 !! configPath) as [[|c]|]; try reflexivity. }
  assert (forall w0, exists r out,
            (let w1 := with_stdout w0 (stdout w0 ++ [(ValidatingConfiguration, blue)]) in
       if negb (bool_decide (is_Some (files w0 !! configPath))
                || bool_decide (configPath ∈ dirs w0))
       then (Throw (Error ConfigFileNotFound), w1)
       else
         let w2 := if negb (bool_decide (is_Some (files w0 !! schemaPath))
                            || bool_decide (schemaPath ∈ dirs w0))
                   then with_stdout w1 (stdout w1 ++ [(SchemaFileNotFound, yellow)])
                   else w1 in
         let w3 := with_stdout w2 (stdout w2 ++ [(Checking JsonSyntax, blue)]) in
         match files w0 !! configPath with
         | Some (Doc c) =>
             checks c (with_stdout w3 (stdout w3 ++ [(Valid JsonSyntax, green)]))
         | _ => (Throw (Error InvalidJSON), w3)
         end) = (r, with_stdout w0 (stdout w0 ++ out))
         /\ r = (if negb (bool_decide (is_Some (files w0 !! configPath))
                          || bool_decide (configPath ∈ dirs w0))
                 then Throw (Error ConfigFileNotFound)
                 else match files w0 !! configPath with
                      | Some (Doc c) =>
                          fst (checks c w0)
                      | _ => Throw (Error InvalidJSON)
                      end)) as Hform.
  { intros w0. cbv zeta.
    set (b1 := bool_decide (is_Some (files w0 !! configPath))
               || bool_decide (configPath ∈ dirs w0)).
    set (b2 := bool_decide (is_Some (files w0 !! schemaPath))
               || bool_decide (schemaPath ∈ dirs w0)).
    destruct b1; cbn [negb]; [|eauto].
    destruct b2; cbn [negb].
    - destruct (files w0 !! configPath) as [[|c]|].
      + eexists _, _. split; [|reflexivity].
        cbn [stdout with_stdout files dirs denied spawnable stdin answered].
        rewrite <- ?app_assoc. reflexivity.
      + destruct (checks_prints c) as (r & out & Hr). rewrite !Hr.
        eexists _, _. split; [|reflexivity].
        cbn [stdout with_stdout files dirs denied spawnable stdin answered].
        rewrite <- ?app_assoc. reflexivity.
      + eexists _, _. split; [|reflexivity].
        cbn [stdout with_stdout files dirs denied spawnable stdin answered].
        rewrite <- ?app_assoc. reflexivity.
    - destruct (files w0 !! configPath) as [[|c]|].
      + eexists _, _. split; [|reflexivity].
        cbn [stdout with_stdout files dirs denied spawnable stdin answered].
        rewrite <- ?app_assoc. reflexivity.
      + destruct (checks_prints c) as (r & out & Hr). rewrite !Hr.
        eexists _, _. split; [|reflexivity].
        cbn [stdout with_stdout files dirs denied spawnable stdin answered].
        rewrite <- ?app_assoc. reflexivity.
      + eexists _, _. split; [|reflexivity].
        cbn [stdout with_stdout files dirs denied spawnable stdin answered].
        rewrite <- ?app_assoc. reflexivity. }
  rewrite Heq. destruct (Hform w) as (r & out & Hw & Hr).
  exists r, out. split; [exact Hw|].
  intros w' Hfiles Hdirs. rewrite Heq.
  destruct (Hform w') as (r' & out' & Hw' & Hr').
  exists out'. rewrite Hw'. f_equal.
  rewrite Hr, Hr', Hfiles, Hdirs.
  destruct (negb (_ || _)); [reflexivity|].
  destruct (files w !! configPath) as [[|c]|]; try reflexivity.
  destruct (checks_prints c) as (rc & outc & Hrc). now rewrite !Hrc.
Qed.

Lemma script_world w :
  exists out, snd (script w) = with_stdout w (stdout w ++ out).
Proof.
  unfold script. destruct (validateConfiguration_world w) as (r & out & -> & _).
  destruct r as [[]|e]; [cbn; eauto|].
  unfold bind, log, modify.
  cbn [snd stdout with_stdout files dirs denied spawnable stdin answered].
  eexists. rewrite <- ?app_assoc. reflexivity.
Qed.

Lemma script_code w w' :
  files w' = files w -> dirs w' = dirs w -> fst (script w') = fst (script w).
Proof.
  intros Hf Hd. unfold script.
  destruct (validateConfiguration_world w) as (r & out & -> & Hw').
  destruct (Hw' w' Hf Hd) as [out' ->].
  now destruct r.
Qed.
End ValidatorWorld.

(** ** The orchestrator *)

Section Orchestrator.
Context `{Host}.

Lemma runCommand_validate w :
  spawnable w = true ->
  Automate.runCommand "node" ["validate-config.js"] w =
  (Ret (fst (Validator.script w)), snd (Validator.script w)).
Proof.
  intros Hs. unfold Automate.runCommand. rewrite Hs. cbn [String.eqb].
  change ("validate-config.js" =? "validate-config.js")%string with true.
  cbv iota. now destruct (Validator.script w).
Qed.

Lemma runCommand_fix rest w :
  spawnable w = true ->
  Automate.runCommand "node" ("auto-fix-config.js" :: rest) w =
  (Ret (fst (Fixer.main rest w)), snd (Fixer.main rest w)).
Proof.
  intros Hs. unfold Automate.runCommand. rewrite Hs.
  change ("auto-fix-config.js" =? "validate-config.js")%string with false.
  change ("auto-fix-config.js" =? "auto-fix-config.js")%string with true.
  cbv iota. now destruct (Fixer.main rest w).
Qed.

(** The auto-fixer on a production document to which no rule applies:
    nothing is recorded, nothing is written. *)
Lemma fixer_clean_run args w c :
  has_flag args "--help" = false ->
  files w !! Fixer.configPath_of args = Some (Doc c) ->
  Configuration c = true ->
  environment_is c "production" = true ->
  nothing_to_fix (Fixer.interactive_of args) c = true ->
  exists b s',
    Fixer.run (Fixer.fixer_of args w) = (Ret b, s')
    /\ fixes s' = []
    /\ files (world s') = files w
    /\ spawnable (world s') = spawnable w
    /\ Fixer.main args w = ((if b then 0 else 1)%Z, world s').
Proof.
  intros Hhelp Hfile Hc Henv Hn.
  set (s := Fixer.fixer_of args w).
  assert (interactive s = Fixer.interactive_of args) as Hi.
  { unfold s, Fixer.fixer_of, Fixer.constructor. cbn.
    now destruct (Fixer.interactive_of args). }
  destruct (production_zero_fixes (loaded s c) Hc Henv)
    as (s6 & Hpass & Hun & Hzero & _).
  assert (fixes s6 = []) as Hfix.
  { rewrite Hzero; [reflexivity|].
    change (interactive (loaded s c)) with (interactive s).
    now rewrite Hi. }
  destruct (run_no_fixes s c s6 Hfile Hpass Hfix) as [out Hrun].
  eexists _, _. split; [exact Hrun|].
  split; [exact Hfix|]. split; [|split].
  - cbn [world printed Fixer.with_world files with_stdout].
    now rewrite (same_files _ _ Hun).
  - cbn [world printed Fixer.with_world spawnable with_stdout].
    now rewrite (same_spawnable _ _ Hun).
  - unfold Fixer.main. rewrite Hhelp. fold s. now rewrite Hrun.
Qed.

Lemma orchestrator_clean_run args w c :
  has_flag args "--help" = false ->
  has_flag args "--validate-only" = false ->
  spawnable w = true ->
  files w !! Validator.configPath = Some (Doc c) ->
  Configuration c = true ->
  environment_is c "production" = true ->
  fst (Validator.script w) = 0%Z ->
  nothing_to_fix (negb (has_flag args "--no-interactive")) c = true ->
  fst (Automate.script args w) = 0%Z.
Proof.
  intros Hhelp Hvo Hs Hfile Hc Henv Hvalid Hn.
  unfold Automate.script. rewrite Hhelp.
  unfold Automate.main. rewrite Hvo. cbv zeta.
  rewrite bind_log. unfold try_catch. rewrite bind_log.
  erewrite bind_of_ret by (apply runCommand_validate; exact Hs).
  set (w2 := with_stdout _ _).
  assert (files w2 = files w /\ spawnable w2 = true) as [Hf2 Hs2] by now split.
  rewrite (script_depends_on_document w2 w c) by (rewrite ?Hf2; exact Hfile).
  rewrite Hvalid. cbn [Z.eqb andb negb].
  destruct (script_world w2) as [out2 Hw2]. rewrite Hw2.
  rewrite bind_log.
  set (w4 := with_stdout _ _).
  assert (files w4 = files w /\ spawnable w4 = true) as [Hf4 Hs4] by now split.
  set (rest := if has_flag args "--no-interactive" then ["--no-interactive"] else []).
  assert ((if has_flag args "--no-interactive"
           then ["auto-fix-config.js"; "--no-interactive"]
           else ["auto-fix-config.js"]) = "auto-fix-config.js" :: rest) as ->.
  { unfold rest. now destruct (has_flag args "--no-interactive"). }
  erewrite bind_of_ret by (apply runCommand_fix; exact Hs4).
  assert (has_flag rest "--help" = false) as Hrh.
  { unfold rest. now destruct (has_flag args "--no-interactive"). }
  assert (Fixer.configPath_of rest = Validator.configPath) as Hpath.
  { unfold rest. now destruct (has_flag args "--no-interactive"). }
  assert (Fixer.interactive_of rest = negb (has_flag args "--no-interactive")) as Hmode.
  { unfold rest. now destruct (has_flag args "--no-interactive"). }
  destruct (fixer_clean_run rest w4 c Hrh) as (b & s' & _ & _ & Hf5 & Hs5 & Hmain);
    [rewrite Hpath, Hf4; exact Hfile|exact Hc|exact Henv|now rewrite Hmode|].
  rewrite Hmain. cbn [fst snd]. rewrite bind_log.
  set (w6 := with_stdout _ _).
  assert (files w6 = files w /\ spawnable w6 = true) as [Hf6 Hs6].
  { split; [cbn; now rewrite Hf5|cbn; now rewrite Hs5]. }
  erewrite bind_of_ret by (apply runCommand_validate; exact Hs6).
  rewrite (script_depends_on_document w6 w c) by (rewrite ?Hf6; exact Hfile).
  rewrite Hvalid. rewrite bind_log. cbn [Z.eqb].
  rewrite !bind_log. reflexivity.
Qed.
End Orchestrator.

(** ** Exit codes *)

Section ExitCodes.
Context `{Host}.

Lemma fixer_of_interactive args w :
  interactive (Fixer.fixer_of args w) = Fixer.interactive_of args.
Proof.
  unfold Fixer.fixer_of, Fixer.constructor. cbn.
  now destruct (Fixer.interactive_of args).
Qed.

Lemma script_exit_codes w :
  (fst (Validator.script w) = 0%Z /\
   exists w', Validator.validateConfiguration w = (Ret tt, w'))
  \/ (fst (Validator.script w) = 1%Z /\
      exists e w', Validator.validateConfiguration w = (Throw e, w')).
Proof.
  unfold Validator.script.
  destruct (Validator.validateConfiguration w) as [[[]|e] w'].
  - left. eauto.
  - right. split; [reflexivity|eauto].
Qed.

Lemma script_accepts w c :
  files w !! Validator.configPath = Some (Doc c) ->
  fst (Validator.script w) = 0%Z -> Accepted c.
Proof.
  intros Hfile Hcode.
  destruct (script_exit_codes w) as [[_ [w' Hrun]]|[Hone _]]; [|congruence].
  destruct (validate_accepts _ _ Hrun) as (c' & Hfile' & Hacc).
  congruence.
Qed.

(** C1 (the code departs from its documentation).  The exit code of the
    auto-fixer is 0 when the rule pass recorded neither a fix nor a
    warning, and 1 otherwise, because [run] returns
    [fixes.length === 0 && warnings.length === 0].  So a run that applies a
    fix and saves the document reports a failure: on a development
    document with [database.enableLogging = false] the non-interactive
    auto-fixer records the fix, writes the file and prints the line of the
    successful save last, and yet [run] returns [false] and the process
    exits with code 1. *)
Theorem fixed_run_exits_1 args w c :
  has_flag args "--help" = false ->
  files w !! Fixer.configPath_of args = Some (Doc c) ->
  Configuration c = true ->
  exists s6,
    Fixer.analyzeAndFix (loaded (Fixer.fixer_of args w) c) = (Ret tt, s6)
    /\ fst (Fixer.main args w) =
       (if (length (fixes s6) =? 0)%nat && (length (warnings s6) =? 0)%nat
        then 0 else 1)%Z
    /\ (Fixer.interactive_of args = false ->
        Fixer.configPath_of args ∉ denied w ->
        environment_is c "development" = true ->
        field c ["database"; "enableLogging"] = VBool false ->
        exists s' out,
          Fixer.run (Fixer.fixer_of args w) = (Ret false, s')
          /\ Fixer.main args w = (1%Z, world s')
          /\ In logging_fix (fixes s')
          /\ field (config s') ["database"; "enableLogging"] = VBool true
          /\ files (world s') !! Fixer.configPath_of args =
             Some (written (config s'))
          /\ stdout (world s') = out ++ [(ConfigurationSaved, green)]).
Proof.
  intros Hhelp Hfile Hc.
  set (s := Fixer.fixer_of args w).
  destruct (analyzeAndFix_total (loaded s c) Hc) as (s6 & Hpass & Hp).
  exists s6. split; [exact Hpass|]. split.
  { destruct (run_verdict s c s6 Hfile Hpass) as [s' Hrun].
    unfold Fixer.main. rewrite Hhelp. fold s. now rewrite Hrun. }
  intros Hi Hd Henv Hdb.
  destruct (Pass_development_logging _ _ Hp Henv Hdb) as [Hval Hin].
  pose proof (Pass_Untouched _ _ Hp) as Hun.
  assert (interactive s6 = false) as Hi6.
  { rewrite (same_interactive _ _ Hun).
    cbn [interactive loaded printed Fixer.with_world Fixer.with_config].
    unfold s. now rewrite fixer_of_interactive. }
  assert (configPath s6 = Fixer.configPath_of args) as Hp6.
  { now rewrite (same_configPath _ _ Hun). }
  assert (denied (world s6) = denied w) as Hd6.
  { now rewrite (same_denied _ _ Hun). }
  assert (fixes s6 <> []) as Hne.
  { intros E. rewrite E in Hin. destruct Hin. }
  destruct (run_saved s c s6 Hfile Hpass Hne Hi6) as [out Hrun].
  { rewrite Hp6, Hd6. exact Hd. }
  eexists _, _. split; [exact Hrun|]. split.
  { unfold Fixer.main. rewrite Hhelp. fold s. now rewrite Hrun. }
  split; [exact Hin|]. split; [exact Hval|]. split.
  - cbn [world printed Fixer.with_world files with_files with_stdout config].
    rewrite Hp6. apply lookup_insert_eq.
  - cbn [world printed Fixer.with_world files with_files with_stdout stdout].
    rewrite app_assoc. reflexivity.
Qed.

(** C2 (the code departs from its documentation).  With [--validate-only]
    the orchestrator exits with code 0 whatever the validator answered:
    after a failed validation [main] skips both branches and reaches its
    last [return 0].  Nothing but the console has changed by then. *)
Theorem validate_only_exits_0 args w :
  has_flag args "--validate-only" = true ->
  has_flag args "--help" = false ->
  spawnable w = true ->
  fst (Automate.script args w) = 0%Z
  /\ exists out, snd (Automate.script args w) = with_stdout w (stdout w ++ out).
Proof.
  intros Hvo Hhelp Hs. unfold Automate.script. rewrite Hhelp.
  unfold Automate.main. rewrite Hvo. cbv zeta.
  rewrite bind_log. unfold try_catch. rewrite bind_log.
  erewrite bind_of_ret by (apply runCommand_validate; exact Hs).
  cbn [negb andb].
  match goal with |- context [Validator.script ?w0] =>
    destruct (script_world w0) as [out Hout]; rewrite Hout end.
  destruct (fst (Validator.script _) =? 0)%Z; cbn [andb].
  - rewrite bind_log. split; [reflexivity|].
    eexists. cbn [snd ret with_stdout stdout files dirs denied spawnable stdin answered].
    rewrite <- !app_assoc. reflexivity.
  - split; [reflexivity|].
    eexists. cbn [snd ret with_stdout stdout files dirs denied spawnable stdin answered].
    rewrite <- !app_assoc. reflexivity.
Qed.

(** C3, amended.  On a production document of the data model that passes
    validation and to which no rule of the auto-fixer applies
    ([nothing_to_fix]), validator, auto-fixer, validator give: a run of the
    auto-fixer that records no fix and leaves the files as they are, a
    second validation that passes, and the exit code 0 of the
    orchestrator.  Passing validation alone does not give it: the validator
    looks at none of the settings the production rule corrects. *)
Theorem clean_production_round_trip args w c :
  has_flag args "--help" = false ->
  has_flag args "--validate-only" = false ->
  spawnable w = true ->
  files w !! Validator.configPath = Some (Doc c) ->
  Configuration c = true ->
  environment_is c "production" = true ->
  fst (Validator.script w) = 0%Z ->
  nothing_to_fix (negb (has_flag args "--no-interactive")) c = true ->
  exists success s',
    Fixer.run (Fixer.fixer_of
                 (if has_flag args "--no-interactive" then ["--no-interactive"] else [])
                 (snd (Validator.script w))) = (Ret success, s')
    /\ fixes s' = []
    /\ files (world s') = files w
    /\ fst (Validator.script (world s')) = 0%Z
    /\ fst (Automate.script args w) = 0%Z.
Proof.
  intros Hhelp Hvo Hs Hfile Hc Henv Hvalid Hn.
  set (rest := if has_flag args "--no-interactive" then ["--no-interactive"] else []).
  assert (has_flag rest "--help" = false) as Hrh.
  { unfold rest. now destruct (has_flag args "--no-interactive"). }
  assert (Fixer.configPath_of rest = Validator.configPath) as Hpath.
  { unfold rest. now destruct (has_flag args "--no-interactive"). }
  assert (Fixer.interactive_of rest = negb (has_flag args "--no-interactive")) as Hmode.
  { unfold rest. now destruct (has_flag args "--no-interactive"). }
  destruct (script_world w) as [out1 Hw1]. rewrite Hw1.
  set (w1 := with_stdout w _).
  destruct (fixer_clean_run rest w1 c Hrh) as (b & s' & Hrun & Hfix & Hf & _);
    [rewrite Hpath; exact Hfile|exact Hc|exact Henv|now rewrite Hmode|].
  exists b, s'. split; [exact Hrun|]. split; [exact Hfix|].
  split; [exact Hf|]. split.
  - rewrite (script_depends_on_document (world s') w c); [exact Hvalid| |exact Hfile].
    rewrite Hf. exact Hfile.
  - now apply (orchestrator_clean_run args w c).
Qed.

Lemma at_least_of_lt v n :
  nonzero_number v = true -> js_lt v n = Ret false -> at_least v n = true.
Proof.
  destruct v as [| | |[q| | |]| | |]; try discriminate; cbn; intros _ E.
  all: try reflexivity; try discriminate.
  injection E as E. unfold Qltb in E. now apply negb_false_iff in E.
Qed.

Lemma at_most_of_gt v n :
  nonzero_number v = true -> js_gt v n = Ret false -> at_most v n = true.
Proof.
  destruct v as [| | |[q| | |]| | |]; try discriminate; cbn; intros _ E.
  all: try reflexivity; try discriminate.
  injection E as E. unfold Qltb in E. now apply negb_false_iff in E.
Qed.

Lemma nonzero_number_truthy v : nonzero_number v = true -> truthy v = true.
Proof. now destruct v. Qed.

End ExitCodes.

(** ** The theorems at the example documents *)

Lemma fixed_run_exits_1_example :
  exists s6,
    analyzeAndFix (H:=example_host)
      (loaded (fixer_of ["--no-interactive"] (world_of development_document))
              development_document) = (Ret tt, s6)
    /\ fst (main (H:=example_host) ["--no-interactive"]
              (world_of development_document)) =
       (if (length (fixes s6) =? 0)%nat && (length (warnings s6) =? 0)%nat
        then 0 else 1)%Z
    /\ (interactive_of ["--no-interactive"] = false ->
        configPath_of ["--no-interactive"] ∉ denied (world_of development_document) ->
        environment_is development_document "development" = true ->
        field development_document ["database"; "enableLogging"] = VBool false ->
        exists s' out,
          run (H:=example_host)
            (fixer_of ["--no-interactive"] (world_of development_document)) =
          (Ret false, s')
          /\ main (H:=example_host) ["--no-interactive"]
               (world_of development_document) = (1%Z, world s')
          /\ In logging_fix (fixes s')
          /\ field (config s') ["database"; "enableLogging"] = VBool true
          /\ files (world s') !! configPath_of ["--no-interactive"] =
             Some (written (config s'))
          /\ stdout (world s') = out ++ [(ConfigurationSaved, green)]).
Proof.
  apply (fixed_run_exits_1 (H:=example_host) ["--no-interactive"]
           (world_of development_document) development_document);
    reflexivity.
Defined.

(** The run of the example: one fix, the file written, the exit code 1 *)
Lemma fixed_run_of_the_example :
  fst (main (H:=example_host) ["--no-interactive"]
         (world_of development_document)) = 1%Z
  /\ last (stdout (snd (main (H:=example_host) ["--no-interactive"]
                          (world_of development_document))))
     = Some (ConfigurationSaved, green)
  /\ files (snd (main (H:=example_host) ["--no-interactive"]
                   (world_of development_document)))
       !! Validator.configPath
     = Some (Doc (document "1.0.0" "development"
                    [("api", obj []);
                     ("security", obj []);
                     ("database", obj [("enableLogging", VBool true)]);
                     ("logging", obj [("level", VStr "debug")]);
                     ("performance", obj [("caching", obj []);
                                          ("compression", obj [])])])).
Proof. repeat split; vm_compute; reflexivity. Qed.

Lemma validate_only_exits_0_example :
  fst (Validator.script (H:=example_host) (world_of short_version_document)) = 1%Z
  /\ fst (Automate.script (H:=example_host) ["--validate-only"]
            (world_of short_version_document)) = 0%Z
  /\ exists out,
       snd (Automate.script (H:=example_host) ["--validate-only"]
              (world_of short_version_document)) =
       with_stdout (world_of short_version_document)
         (stdout (world_of short_version_document) ++ out).
Proof.
  split; [reflexivity|].
  apply (validate_only_exits_0 (H:=example_host)); reflexivity.
Defined.

Lemma clean_production_round_trip_example :
  exists success s',
    Fixer.run (H:=example_host)
      (fixer_of ["--no-interactive"]
         (snd (Validator.script (H:=example_host)
                 (world_of secure_production_document)))) = (Ret success, s')
    /\ fixes s' = []
    /\ files (world s') = files (world_of secure_production_document)
    /\ fst (Validator.script (H:=example_host) (world s')) = 0%Z
    /\ fst (Automate.script (H:=example_host) ["--no-interactive"]
              (world_of secure_production_document)) = 0%Z.
Proof.
  apply (clean_production_round_trip (H:=example_host) ["--no-interactive"]
           (world_of secure_production_document) secure_production_document);
    reflexivity.
Defined.

(** A production document that passes validation and is fixed all the same *)
Lemma validated_production_is_fixed :
  environment_is insecure_production_document "production" = true
  /\ fst (Validator.script (H:=example_host)
            (world_of insecure_production_document)) = 0%Z
  /\ fixes (snd (Fixer.run (H:=example_host)
                   (fixer_of ["--no-interactive"]
                      (snd (Validator.script (H:=example_host)
                              (world_of insecure_production_document))))))
     = [ssl_fix].
Proof. repeat split; vm_compute; reflexivity. Qed.

(** An authentication section without the two settings passes validation *)
Lemma empty_authentication_is_accepted :
  truthy (field empty_authentication_document ["authentication"]) = true
  /\ fst (Validator.script (H:=example_host)
            (world_of empty_authentication_document)) = 0%Z
  /\ at_least (field empty_authentication_document
                 ["authentication"; "sessionTimeout"]) 60 = false
  /\ at_least (field empty_authentication_document
                 ["authentication"; "maxLoginAttempts"]) 1 = false.
Proof. repeat split; vm_compute; reflexivity. Qed.

Lemma production_security_forced_example :
  exists s',
    analyzeAndFix (H:=example_host) (batch bare_production_document) = (Ret tt, s')
    /\ field (config s') ["security"; "enableSSL"] = VUndef
    /\ field (config s') ["security"; "enableHSTS"] = VUndef
    /\ field (config s') ["database"; "enableLogging"] = VUndef.
Proof.
  destruct (production_security_forced (H:=example_host)
              (batch bare_production_document))
    as (s' & Hrun & Hssl & Hhsts & Hdb & _); [reflexivity|reflexivity|].
  exists s'. repeat split; assumption.
Defined.

Lemma wildcard_left_alone_example :
  exists s',
    analyzeAndFix (H:=example_host) (batch wildcard_production_document) = (Ret tt, s')
    /\ field (config s') ["security"; "allowedOrigins"] = VArr [VStr "*"] ∅
    /\ fixes_for "security.allowedOrigins" (fixes s') = []
    /\ warnings_about "security.allowedOrigins" (warnings s') =
       [wildcard_warning wildcard_production_document].
Proof.
  apply (wildcard_left_alone (H:=example_host)
           (batch wildcard_production_document) [VStr "*"] ∅);
    first [reflexivity | now left].
Defined.

(** A refused write ends the run with an error and the exit code 1 *)
Lemma refused_write_is_an_error :
  fst (main (H:=example_host) ["--no-interactive"]
         (read_only development_document)) = 1%Z
  /\ last (stdout (snd (main (H:=example_host) ["--no-interactive"]
                          (read_only development_document))))
     = Some (ErrorLine (Error FailedToSave), red)
  /\ files (snd (main (H:=example_host) ["--no-interactive"]
                   (read_only development_document)))
     = files (read_only development_document).
Proof. repeat split; vm_compute; reflexivity. Qed.

(** A refused log directory is a warning: the run goes on, and succeeds *)
Lemma refused_directory_is_a_warning :
  fst (main (H:=example_host) ["--no-interactive"]
         (no_log_directory file_logging_document)) = 0%Z
  /\ In (CouldNotCreateLogDirectory, yellow)
        (stdout (snd (main (H:=example_host) ["--no-interactive"]
                        (no_log_directory file_logging_document))))
  /\ dirs (snd (main (H:=example_host) ["--no-interactive"]
                  (no_log_directory file_logging_document))) = ∅.
Proof.
  split; [reflexivity|]. split; [|reflexivity].
  vm_compute. repeat first [left; reflexivity | right].
Qed.

(** Outside the data model the rule pass can stop before any rule has run:
    no warning about the wildcard, *)
Lemma malformed_wildcard_is_not_warned :
  Configuration malformed_wildcard_document = false
  /\ environment_is malformed_wildcard_document "production" = true
  /\ field malformed_wildcard_document ["security"; "corsEnabled"] = VBool true
  /\ field malformed_wildcard_document ["security"; "allowedOrigins"] =
     VArr [VStr "*"] ∅
  /\ fst (Validator.script (H:=example_host)
            (world_of malformed_wildcard_document)) = 0%Z
  /\ fst (analyzeAndFix (H:=example_host) (batch malformed_wildcard_document)) =
     Throw TypeError
  /\ warnings (snd (analyzeAndFix (H:=example_host)
                      (batch malformed_wildcard_document))) = [].
Proof. repeat split; vm_compute; reflexivity. Qed.

(** and no fix of the database logging *)
Lemma malformed_development_is_not_fixed :
  Configuration malformed_document = false
  /\ environment_is malformed_document "development" = true
  /\ field malformed_document ["database"; "enableLogging"] = VBool false
  /\ fst (Validator.script (H:=example_host) (world_of malformed_document)) = 0%Z
  /\ fst (analyzeAndFix (H:=example_host) (batch malformed_document)) = Throw TypeError
  /\ field (config (snd (analyzeAndFix (H:=example_host) (batch malformed_document))))
           ["database"; "enableLogging"] = VBool false
  /\ fixes (snd (analyzeAndFix (H:=example_host) (batch malformed_document))) = [].
Proof. repeat split; vm_compute; reflexivity. Qed.

Lemma development_logging_enabled_example :
  exists s',
    analyzeAndFix (H:=example_host) (batch development_document) = (Ret tt, s')
    /\ field (config s') ["database"; "enableLogging"] = VBool true
    /\ In logging_fix (fixes s').
Proof.
  apply (development_logging_enabled (H:=example_host)
           (batch development_document)); reflexivity.
Defined.

(** * Further properties of the scripts *)

(** ** Computations that return *)

Lemma retp_bind {St A B} (m : M St A) (k : A -> M St B) P Q :
  retp m P -> (forall a, P a -> retp (k a) Q) -> retp (bind m k) Q.
Proof.
  intros Hm Hk s. apply wp_bind. eapply wp_mono; [apply Hm|].
  intros a s' Ha. now apply Hk.
Qed.

Lemma retp_mono {St A} (m : M St A) (P Q : A -> Prop) :
  retp m P -> (forall a, P a -> Q a) -> retp m Q.
Proof. intros Hm HPQ s. eapply wp_mono; [apply Hm|]. cbn. auto. Qed.

Lemma retp_ret {St A} (a : A) (P : A -> Prop) : P a -> retp (ret (St:=St) a) P.
Proof. intros Ha s. exact Ha. Qed.

Lemma retp_lift {St A} (o : outcome A) a :
  o = Ret a -> retp (lift (St:=St) o) (fun x => x = a).
Proof. intros -> s. reflexivity. Qed.

Lemma retp_log m c : retp (log m c) (fun _ => True).
Proof. intros s. exact I. Qed.

Lemma retp_when {St} (b : bool) (m : M St unit) :
  (b = true -> retp m (fun _ => True)) -> retp (when b m) (fun _ => True).
Proof. intros Hm s. destruct b; cbn [when]; [now apply Hm|exact I]. Qed.

Lemma retp_andM {St} (a b : M St bool) x y :
  retp a (fun r => r = x) -> (x = true -> retp b (fun r => r = y)) ->
  retp (a &&& b) (fun r => r = x && y).
Proof.
  intros Ha Hb. unfold andM. eapply retp_bind; [exact Ha|].
  intros r ->. destruct x; [now apply Hb|now apply retp_ret].
Qed.

Lemma retp_orM {St} (a b : M St bool) x y :
  retp a (fun r => r = x) -> (x = false -> retp b (fun r => r = y)) ->
  retp (a ||| b) (fun r => r = x || y).
Proof.
  intros Ha Hb. unfold orM. eapply retp_bind; [exact Ha|].
  intros r ->. destruct x; [now apply retp_ret|now apply Hb].
Qed.

Lemma nullish_truthy v : truthy v = true -> nullish v = false.
Proof. now destruct v. Qed.

Lemma get_member v k : nullish v = false -> get v k = Ret (member v k).
Proof. unfold member. now destruct v. Qed.

Lemma member_truthy_nullish c k : truthy (member c k) = true -> nullish c = false.
Proof. unfold member. now destruct c. Qed.

Lemma get_in_one c a : nullish c = false -> get_in c [a] = Ret (field c [a]).
Proof. intros Hc. cbn. now rewrite get_member. Qed.

Lemma get_in_two c a b :
  nullish c = false -> nullish (field c [a]) = false ->
  get_in c [a; b] = Ret (field c [a; b]).
Proof.
  intros Hc Ha. cbn in *. rewrite get_member by exact Hc. cbn.
  now rewrite get_member.
Qed.

(** ** The validator, completely *)

Section ValidatorComplete.
Import Validator.
Context `{Host}.

Lemma retp_rd c p :
  get_in c p = Ret (field c p) -> retp (rd c p) (fun v => v = field c p).
Proof. intros Hg. unfold rd. now apply retp_lift. Qed.

Lemma retp_present c p :
  get_in c p = Ret (field c p) ->
  retp (present c p) (fun b => b = truthy (field c p)).
Proof.
  intros Hg. unfold present. eapply retp_bind; [now apply retp_rd|].
  intros v ->. now apply retp_ret.
Qed.

Lemma retp_missing c p :
  get_in c p = Ret (field c p) ->
  retp (missing c p) (fun b => b = negb (truthy (field c p))).
Proof.
  intros Hg. unfold missing. eapply retp_bind; [now apply retp_rd|].
  intros v ->. now apply retp_ret.
Qed.

Lemma retp_filterM {A} (p : A -> M World bool) (f : A -> bool) l :
  (forall x, retp (p x) (fun b => b = f x)) ->
  retp (filterM p l) (fun kept => kept = List.filter f l).
Proof.
  intros Hp. induction l as [|x l IH]; cbn [filterM List.filter].
  - now apply retp_ret.
  - eapply retp_bind; [apply Hp|]. intros b ->.
    eapply retp_bind; [apply IH|]. intros kept ->.
    now apply retp_ret.
Qed.

Ltac step lem := eapply retp_bind; [lem|].
Ltac pass_log := eapply retp_bind; [apply retp_log|]; intros [] _.
Ltac no_throw := eapply retp_bind; [apply retp_when; discriminate|]; intros [] _.

(** A guard [x && x < n] that does not fire *)
Lemma retp_below c a b n :
  nullish c = false -> nullish (field c [a]) = false ->
  (truthy (field c [a; b]) = true -> js_lt (field c [a; b]) n = Ret false) ->
  retp (present c [a; b] &&& (t <- rd c [a; b] ;; lift (js_lt t n)))
       (fun r => r = false).
Proof.
  intros Hc Ha Hn.
  destruct (truthy (field c [a; b])) eqn:Et.
  - eapply retp_mono.
    + apply retp_andM with (x := true) (y := false).
      * rewrite <- Et. apply retp_present, get_in_two; assumption.
      * intros _. eapply retp_bind; [apply retp_rd, get_in_two; assumption|].
        intros v ->. apply retp_lift. now apply Hn.
    + auto.
  - eapply retp_mono.
    + apply retp_andM with (x := false) (y := false).
      * rewrite <- Et. apply retp_present, get_in_two; assumption.
      * discriminate.
    + auto.
Qed.

Lemma retp_not_missing c a b :
  nullish c = false -> nullish (field c [a]) = false ->
  truthy (field c [a; b]) = true ->
  retp (missing c [a; b]) (fun r => r = false).
Proof.
  intros Hc Ha Ht. eapply retp_mono; [apply retp_missing, get_in_two; assumption|].
  intros r ->. now rewrite Ht.
Qed.

(** A guard [x && (x < lo || x > hi)] that does not fire *)
Lemma retp_outside c a b lo hi :
  nullish c = false -> nullish (field c [a]) = false ->
  (truthy (field c [a; b]) = true ->
   js_lt (field c [a; b]) lo = Ret false /\ js_gt (field c [a; b]) hi = Ret false) ->
  retp (present c [a; b]
        &&& ((x <- rd c [a; b] ;; lift (js_lt x lo))
             ||| (x <- rd c [a; b] ;; lift (js_gt x hi))))
       (fun r => r = false).
Proof.
  intros Hc Ha Hn.
  destruct (truthy (field c [a; b])) eqn:Et.
  - destruct (Hn eq_refl) as [Hlo Hhi]. eapply retp_mono.
    + apply retp_andM with (x := true) (y := false).
      * rewrite <- Et. apply retp_present, get_in_two; assumption.
      * intros _. eapply retp_mono.
        -- apply retp_orM with (x := false) (y := false); try intros _;
             (eapply retp_bind; [apply retp_rd, get_in_two; assumption|];
              intros v ->; apply retp_lift; assumption).
        -- auto.
    + auto.
  - eapply retp_mono.
    + apply retp_andM with (x := false) (y := false).
      * rewrite <- Et. apply retp_present, get_in_two; assumption.
      * discriminate.
    + auto.
Qed.

Lemma retp_try_catch {St A} (m : M St A) h P :
  retp m P -> retp (try_catch m h) P.
Proof. intros Hm s. apply wp_try_ret, Hm. Qed.

Lemma ToString_one_of v l :
  one_of v l = true ->
  ToString v = Ret match v with VStr t => t | _ => EmptyString end.
Proof.
  destruct v; try reflexivity; unfold one_of; intros Hv;
    apply existsb_exists in Hv as (x & _ & Hx); discriminate.
Qed.

Lemma checks_return c :
  Accepted c ->
  (exists text, ToString (field c ["platform"; "name"]) = Ret text) ->
  retp (checks c) (fun _ => True).
Proof.
  intros (Hplatform & Hglobal & Hname & Hversion & Henv & Htest & Hone & Hbool
          & Htz & Hauth & Hapi & Hlog) [name Hprint].
  assert (nullish c = false) as Hc by exact (member_truthy_nullish _ _ Hplatform).
  pose proof (nullish_truthy _ Hplatform) as Hp.
  pose proof (nullish_truthy _ Hglobal) as Hg.
  unfold checks.
  pass_log.
  step ltac:(apply retp_filterM with
               (f := fun section => negb (truthy (field c [section])));
             intros x; apply retp_missing, get_in_one; exact Hc).
  intros missingSections ->.
  cbn [List.filter]. rewrite Hplatform, Hglobal. cbn [negb length Nat.ltb Nat.leb].
  no_throw. pass_log. pass_log.
  step ltac:(apply retp_orM with (x := false) (y := false);
             [apply retp_orM with (x := false) (y := false)|];
             try intros _; apply retp_not_missing; assumption).
  intros incomplete ->. cbn [orb].
  no_throw.
  step ltac:(apply retp_rd, get_in_two; assumption). intros version ->.
  step ltac:(apply retp_lift; exact Htest). intros semantic ->.
  cbn [negb]. no_throw. cbv zeta.
  step ltac:(apply retp_rd, get_in_two; assumption). intros environment ->.
  rewrite Hone. cbn [negb]. no_throw.
  pass_log. pass_log.
  step ltac:(apply retp_rd, get_in_two; assumption). intros enabled ->.
  rewrite Hbool. cbn [negb]. no_throw.
  step ltac:(apply retp_missing, get_in_two; assumption). intros noTimezone ->.
  rewrite Htz. cbn [negb]. no_throw.
  pass_log.
  (* authentication *)
  step ltac:(apply retp_present, get_in_one; exact Hc). intros authentication ->.
  step ltac:(apply retp_when; intros Ha).
  { pose proof (nullish_truthy _ Ha) as Hna. destruct (Hauth Ha) as [Hst Hma].
    pass_log.
    step ltac:(apply retp_below; assumption). intros short ->.
    no_throw.
    step ltac:(apply retp_outside; assumption). intros out ->.
    no_throw. apply retp_log. }
  intros [] _.
  (* api *)
  step ltac:(apply retp_present, get_in_one; exact Hc). intros api ->.
  step ltac:(apply retp_when; intros Ha).
  { pose proof (nullish_truthy _ Ha) as Hna. destruct (Hapi Ha) as [Hurl Htimeout].
    pass_log.
    step ltac:(apply retp_present, get_in_two; assumption). intros hasUrl ->.
    step ltac:(apply retp_when; intros Hu).
    { destruct (Hurl Hu) as (text & protocol & Htext & Hproto).
      apply retp_try_catch.
      step ltac:(apply retp_rd, get_in_two; assumption). intros baseUrl ->.
      step ltac:(apply retp_lift; exact Htext). intros t ->.
      rewrite Hproto. now apply retp_ret. }
    intros [] _.
    step ltac:(apply retp_below; assumption). intros quick ->.
    no_throw. apply retp_log. }
  intros [] _.
  (* logging *)
  step ltac:(apply retp_present, get_in_one; exact Hc). intros logging ->.
  step ltac:(apply retp_when; intros Ha).
  { pose proof (nullish_truthy _ Ha) as Hna.
    pass_log. cbv zeta.
    step ltac:(apply retp_andM with
                 (x := truthy (field c ["logging"; "level"])) (y := false);
               [apply retp_present, get_in_two; assumption|];
               intros Hl; eapply retp_bind; [apply retp_rd, get_in_two; assumption|];
               intros l ->; apply retp_ret; now rewrite (Hlog Ha Hl)).
    intros bad ->. rewrite andb_false_r.
    no_throw. apply retp_log. }
  intros [] _.
  (* summary *)
  pass_log.
  step ltac:(apply retp_rd, get_in_two; assumption). intros name0 ->.
  step ltac:(apply retp_lift; exact Hprint). intros name1 ->.
  unfold test in Htest.
  destruct (ToString (field c ["platform"; "version"])) as [version|e] eqn:Ev;
    [|discriminate].
  step ltac:(apply retp_lift; reflexivity). intros version' ->.
  pass_log.
  step ltac:(apply retp_lift; exact (ToString_one_of _ _ Hone)). intros environment ->.
  pass_log.
  destruct (field c ["global"; "enabled"]) as [| |b| | | |] eqn:Ee; try discriminate.
  step ltac:(apply retp_lift with (a := if b then "true" else "false"); now destruct b).
  intros enabled ->.
  pass_log. apply retp_log.
Qed.
Lemma okp_any {St A} (m : M St A) : okp m (fun _ => True).
Proof. intros s. unfold wlp. now destruct (m s) as [[a|e] s']. Qed.

Ltac skip_any :=
  lazymatch goal with
  | |- okp (bind (rd _ ["platform"; "name"]) _) _ => fail
  | |- okp (bind _ _) _ => eapply okp_bind; [apply okp_any|]; intros ? _
  end.

(** The summary prints the name of the platform, so it must be printable. *)
Lemma okp_checks_name c :
  okp (checks c)
      (fun _ => exists text, ToString (field c ["platform"; "name"]) = Ret text).
Proof.
  unfold checks. repeat skip_any.
  eapply okp_bind; [apply okp_rd|]. intros name0 ->.
  eapply okp_bind; [apply okp_lift|]. intros name1 Hname.
  eapply okp_mono; [apply okp_any|]. intros _ _. exists name1. exact Hname.
Qed.

Lemma validateConfiguration_returns w c :
  files w !! configPath = Some (Doc c) ->
  Accepted c ->
  (exists text, ToString (field c ["platform"; "name"]) = Ret text) ->
  exists w', validateConfiguration w = (Ret tt, w').
Proof.
  intros Hfile Hacc Hname.
  destruct (validateConfiguration_document w c Hfile) as [w3 ->].
  destruct (wp_returns _ _ _ (checks_return c Hacc Hname w3)) as ([] & w' & Hrun & _).
  eauto.
Qed.

Lemma validateConfiguration_name w w' c :
  files w !! configPath = Some (Doc c) ->
  validateConfiguration w = (Ret tt, w') ->
  exists text, ToString (field c ["platform"; "name"]) = Ret text.
Proof.
  intros Hfile Hrun.
  destruct (validateConfiguration_document w c Hfile) as [w3 E].
  rewrite E in Hrun.
  exact (wlp_returns _ _ _ _ _ (okp_checks_name c w3) Hrun).
Qed.

(** X1.  The validator exits with code 0 exactly when the configuration
    file holds a JSON document that passes every check of
    validateConfiguration (the required sections and platform fields, the
    version pattern, the environment, global.enabled and global.timezone,
    and the bounds of the authentication, api and logging sections when
    present) and whose platform.name can be printed in the summary line. *)
Theorem validation_passes_iff w :
  fst (script w) = 0%Z <->
  exists c,
    files w !! configPath = Some (Doc c)
    /\ Accepted c
    /\ exists text, ToString (field c ["platform"; "name"]) = Ret text.
Proof.
  split.
  - intros Hcode.
    destruct (script_exit_codes w) as [[_ [w' Hrun]]|[Hone _]]; [|congruence].
    destruct (validate_accepts _ _ Hrun) as (c & Hfile & Hacc).
    exists c. split; [exact Hfile|]. split; [exact Hacc|].
    exact (validateConfiguration_name _ _ _ Hfile Hrun).
  - intros (c & Hfile & Hacc & Hname).
    destruct (validateConfiguration_returns w c Hfile Hacc Hname) as [w' Hrun].
    unfold script. now rewrite Hrun.
Qed.
End ValidatorComplete.

Section ValidatorErrors.
Import Validator.
Context `{Host}.

Lemma missing_one c k w :
  nullish c = false ->
  missing c [k] w = (Ret (negb (truthy (field c [k]))), w).
Proof.
  intros Hc. unfold missing, rd, bind, lift, ret. cbn [get_in field].
  now rewrite get_member.
Qed.

Lemma filterM_missing c l w :
  nullish c = false ->
  filterM (fun section => missing c [section]) l w =
  (Ret (List.filter (fun section => negb (truthy (field c [section]))) l), w).
Proof.
  intros Hc. induction l as [|k l IH]; [reflexivity|].
  cbn [filterM List.filter].
  rewrite (bind_of_ret _ _ _ _ _ (missing_one c k w Hc)).
  rewrite (bind_of_ret _ _ _ _ _ IH). reflexivity.
Qed.

Lemma script_of_throw w e w' :
  validateConfiguration w = (Throw e, w') ->
  script w = (1%Z, with_stdout w' (stdout w' ++ [(ValidationFailed, red);
                                                  (ShowMessage e, red);
                                                  (Blank, reset)])).
Proof.
  intros Hrun. unfold script. rewrite Hrun.
  unfold bind, log, modify. cbn. now rewrite <- !app_assoc.
Qed.

(** X2.  When the document is not null and lacks platform or global (the
    section is missing or falsy), validateConfiguration throws the error
    that lists exactly the missing sections, in the order platform,
    global; the message is printed and the validator exits with code 1. *)
Theorem missing_sections_reported w c :
  files w !! configPath = Some (Doc c) ->
  nullish c = false ->
  missing_sections c <> [] ->
  fst (script w) = 1%Z
  /\ (exists w', validateConfiguration w =
                 (Throw (Error (MissingRequiredSections (missing_sections c))), w'))
  /\ In (ShowMessage (Error (MissingRequiredSections (missing_sections c))), red)
        (stdout (snd (script w))).
Proof.
  intros Hfile Hc Hm.
  destruct (validateConfiguration_document w c Hfile) as [w3 E].
  assert (exists w', checks c w3 =
            (Throw (Error (MissingRequiredSections (missing_sections c))), w'))
    as [w' Hrun].
  { unfold checks. rewrite bind_log.
    rewrite (bind_of_ret _ _ _ _ _ (filterM_missing c _ _ Hc)).
    fold (missing_sections c).
    destruct (missing_sections c) as [|k l]; [congruence|].
    eexists. reflexivity. }
  rewrite <- E in Hrun. rewrite (script_of_throw _ _ _ Hrun).
  split; [reflexivity|]. split; [eauto|].
  cbn [snd stdout with_stdout]. apply in_app_iff. right. cbn. tauto.
Qed.

(** X3.  When the configuration file does not hold a JSON document, the
    validator exits with code 1 and changes no file; the message printed
    is the one of the missing file when nothing exists at the path and the
    one of invalid JSON when something does. *)
Theorem unreadable_document_fails w :
  (forall c, files w !! configPath <> Some (Doc c)) ->
  let found := bool_decide (is_Some (files w !! configPath))
               || bool_decide (configPath ∈ dirs w) in
  fst (script w) = 1%Z
  /\ files (snd (script w)) = files w
  /\ In (ShowMessage (Error (if found then InvalidJSON else ConfigFileNotFound)), red)
        (stdout (snd (script w))).
Proof.
  intros Hfile found.
  assert (exists out,
    validateConfiguration w =
    (Throw (Error (if found then InvalidJSON else ConfigFileNotFound)),
     with_stdout w (stdout w ++ out))) as [out Hrun].
  { unfold validateConfiguration.
    rewrite bind_log. unfold existsSync. rewrite bind_gets.
    cbn [files dirs with_stdout]. fold found.
    destruct found; cbn [negb when].
    - rewrite bind_ret, bind_gets. 
      match goal with |- context [when ?b _] => destruct b; cbn [when] end.
      + rewrite !bind_log. unfold bind at 1, validateJSON, try_catch, readJSON.
        cbn [files with_stdout].
        destruct (files w !! configPath) as [[|c]|] eqn:E;
          [|now destruct (Hfile c)|].
        all: eexists; unfold throw; cbn [stdout with_stdout files dirs denied
                                            spawnable stdin answered];
          rewrite <- ?app_assoc; reflexivity.
      + rewrite bind_ret, bind_log. unfold bind at 1, validateJSON, try_catch, readJSON.
        cbn [files with_stdout].
        destruct (files w !! configPath) as [[|c]|] eqn:E;
          [|now destruct (Hfile c)|].
        all: eexists; unfold throw; cbn [stdout with_stdout files dirs denied
                                            spawnable stdin answered];
          rewrite <- ?app_assoc; reflexivity.
    - eexists. reflexivity. }
  rewrite (script_of_throw _ _ _ Hrun).
  split; [reflexivity|]. split; [reflexivity|].
  cbn [snd stdout with_stdout]. apply in_app_iff. right. cbn. tauto.
Qed.

(** X4.  The validator changes nothing but the console: the world it
    leaves is the world it started in with lines added to the output,
    whether validation passes or fails. *)
Theorem validator_only_prints w :
  exists out, snd (script w) = with_stdout w (stdout w ++ out).
Proof. apply script_world. Qed.

(** X5.  The exit code of the validator depends only on the document in
    the configuration file: two worlds with the same document there get
    the same exit code, whatever else they hold (the schema file is looked
    for but never read). *)
Theorem validator_reads_the_document_only w1 w2 c :
  files w1 !! configPath = Some (Doc c) ->
  files w2 !! configPath = Some (Doc c) ->
  fst (script w1) = fst (script w2).
Proof. apply script_depends_on_document. Qed.

(** X6.  A document whose platform.environment is not one of production,
    staging and development fails validation: the validator exits with
    code 1. *)
Theorem unknown_environment_fails w c :
  files w !! configPath = Some (Doc c) ->
  one_of (field c ["platform"; "environment"])
         ["production"; "staging"; "development"] = false ->
  fst (script w) = 1%Z.
Proof.
  intros Hfile Henv.
  destruct (script_exit_codes w) as [[Hzero _]|[Hone _]]; [|exact Hone].
  destruct (script_accepts w c Hfile Hzero) as (_ & _ & _ & _ & _ & _ & Hone & _).
  congruence.
Qed.

(** X7.  When validation passes and the api section is present,
    api.baseUrl, if truthy, is a text that new URL accepts, and
    api.timeout, if it is a number other than zero, is at least 1000. *)
Theorem api_settings_checked w c :
  files w !! configPath = Some (Doc c) ->
  fst (script w) = 0%Z ->
  truthy (field c ["api"]) = true ->
  (truthy (field c ["api"; "baseUrl"]) = true ->
   exists text protocol,
     ToString (field c ["api"; "baseUrl"]) = Ret text
     /\ URL_protocol text = Some protocol)
  /\ (nonzero_number (field c ["api"; "timeout"]) = true ->
      at_least (field c ["api"; "timeout"]) 1000 = true).
Proof.
  intros Hfile Hcode Hapi.
  destruct (script_accepts w c Hfile Hcode)
    as (_ & _ & _ & _ & _ & _ & _ & _ & _ & _ & Ha & _).
  destruct (Ha Hapi) as [Hurl Htimeout]. split; [exact Hurl|].
  intros Hn. apply at_least_of_lt; [exact Hn|].
  apply Htimeout. now apply nonzero_number_truthy.
Qed.

(** X8.  When the logging section is present and logging.level is truthy
    but not one of debug, info, warn and error, validation fails: the
    validator exits with code 1. *)
Theorem logging_level_checked w c :
  files w !! configPath = Some (Doc c) ->
  truthy (field c ["logging"]) = true ->
  truthy (field c ["logging"; "level"]) = true ->
  one_of (field c ["logging"; "level"]) ["debug"; "info"; "warn"; "error"] = false ->
  fst (script w) = 1%Z.
Proof.
  intros Hfile Hlogging Hlevel Hbad.
  destruct (script_exit_codes w) as [[Hzero _]|[Hone _]]; [|exact Hone].
  destruct (script_accepts w c Hfile Hzero)
    as (_ & _ & _ & _ & _ & _ & _ & _ & _ & _ & _ & Hl).
  rewrite (Hl Hlogging Hlevel) in Hbad. discriminate.
Qed.
End ValidatorErrors.

(** ** Documents that differ in one setting *)

Section ValidatorSettings.
Import Validator.
Context `{Host}.

Lemma script_passes w c :
  files w !! configPath = Some (Doc c) ->
  Accepted c ->
  (exists text, ToString (field c ["platform"; "name"]) = Ret text) ->
  fst (script w) = 0%Z.
Proof.
  intros Hfile Hacc Hname.
  destruct (validateConfiguration_returns w c Hfile Hacc Hname) as [w' Hrun].
  unfold script. now rewrite Hrun.
Qed.

Lemma script_name w c :
  files w !! configPath = Some (Doc c) ->
  fst (script w) = 0%Z ->
  exists text, ToString (field c ["platform"; "name"]) = Ret text.
Proof.
  intros Hfile Hcode.
  destruct (script_exit_codes w) as [[_ [w' Hrun]]|[Hone _]]; [|congruence].
  exact (validateConfiguration_name _ _ _ Hfile Hrun).
Qed.

(** The settings apart from the one that is replaced *)
Ltac beside p :=
  repeat match goal with
         | |- context [field (update ?c p ?x) ?q] =>
             rewrite (field_update_apart p x q c eq_refl)
         end.

Lemma is_object_truthy v : is_object v = true -> truthy v = true.
Proof. now destruct v. Qed.

Lemma reachable_fields c a k :
  reachable c [a; k] = is_object (field c []) && is_object (field c [a]).
Proof. cbn. now rewrite andb_true_r. Qed.

Lemma reachable_update_beside c a k k' x :
  reachable c [a; k] = true -> reachable (update c [a; k] x) [a; k'] = true.
Proof.
  intros Hr. rewrite reachable_fields.
  rewrite (is_object_update [a; k] x [] c eq_refl Hr).
  rewrite (is_object_update [a; k] x [a] c);
    [|cbn; now rewrite String.eqb_refl|exact Hr].
  now rewrite reachable_fields in Hr.
Qed.

(** The document with the two settings of the authentication section
    replaced *)
Lemma Accepted_falsy_authentication c x y :
  Accepted c ->
  reachable c ["authentication"; "sessionTimeout"] = true ->
  truthy x = false -> truthy y = false ->
  Accepted (update (update c ["authentication"; "sessionTimeout"] x)
                   ["authentication"; "maxLoginAttempts"] y).
Proof.
  intros Hacc Hr Hx Hy.
  pose proof (reachable_update_beside c "authentication" "sessionTimeout"
                "maxLoginAttempts" x Hr) as Hr'.
  unfold Accepted in *.
  rewrite (field_update_same _ y _ Hr').
  beside ["authentication"; "maxLoginAttempts"].
  rewrite (field_update_same _ x _ Hr).
  beside ["authentication"; "sessionTimeout"].
  destruct Hacc as (H1 & H2 & H3 & H4 & H5 & H6 & H7 & H8 & H9 & _ & H11 & H12).
  repeat (split; [assumption|]).
  split; [|now split].
  intros _. split; intros Ht; congruence.
Qed.

Lemma semver_shaped_truthy v : semver_shaped v -> truthy (VStr v) = true.
Proof.
  intros (a & b & c & -> & _). cbn. now destruct a.
Qed.

(** The document with another [platform.version] *)
Lemma Accepted_version c v :
  Accepted c ->
  reachable c ["platform"; "version"] = true ->
  Accepted (update c ["platform"; "version"] (VStr v)) <-> semver_shaped v.
Proof.
  intros Hacc Hr. unfold Accepted.
  rewrite (field_update_same _ (VStr v) _ Hr).
  beside ["platform"; "version"].
  assert (truthy (field (update c ["platform"; "version"] (VStr v)) ["platform"])
          = true) as Hp.
  { apply is_object_truthy. rewrite is_object_update by (reflexivity || assumption).
    rewrite reachable_fields in Hr. now apply andb_true_iff in Hr as [_ Hr]. }
  destruct Hacc as (_ & H2 & H3 & _ & H5 & _ & H7 & H8 & H9 & H10 & H11 & H12).
  split.
  - intros (_ & _ & _ & _ & _ & Ht & _). apply versionRegex_semver.
    change (Ret (regex_test versionRegex v) = Ret true) in Ht. congruence.
  - intros Hv. pose proof (semver_shaped_truthy v Hv) as Ht.
    apply versionRegex_semver in Hv.
    repeat (split; [assumption|]).
    split; [change (Ret (regex_test versionRegex v) = Ret true); now rewrite Hv|].
    repeat (split; [assumption|]). assumption.
Qed.

Lemma Accepted_document :
  Accepted (document "1.2.3" "production" []).
Proof.
  unfold Accepted.
  repeat split; try reflexivity; intros Hf; vm_compute in Hf; discriminate.
Qed.

(** C4 (the code departs from its messages).  When validation passes and
    the authentication section is there, [sessionTimeout], if it is a
    number other than zero, is at least 60, and [maxLoginAttempts], if it
    is a number other than zero, lies between 1 and 10.  But each check is
    guarded by the setting itself ([x && x < 60]), and a falsy setting is
    not checked: the document still passes when the two settings are
    replaced by zero, or by any other falsy value, although the messages of
    the validator say that [sessionTimeout] must be at least 60 seconds and
    [maxLoginAttempts] between 1 and 10. *)
Theorem authentication_bounds w c :
  files w !! configPath = Some (Doc c) ->
  fst (script w) = 0%Z ->
  truthy (field c ["authentication"]) = true ->
  (nonzero_number (field c ["authentication"; "sessionTimeout"]) = true ->
   at_least (field c ["authentication"; "sessionTimeout"]) 60 = true)
  /\ (nonzero_number (field c ["authentication"; "maxLoginAttempts"]) = true ->
      at_least (field c ["authentication"; "maxLoginAttempts"]) 1 = true
      /\ at_most (field c ["authentication"; "maxLoginAttempts"]) 10 = true)
  /\ (forall x y w',
        reachable c ["authentication"; "sessionTimeout"] = true ->
        truthy x = false -> truthy y = false ->
        files w' !! configPath =
        Some (Doc (update (update c ["authentication"; "sessionTimeout"] x)
                          ["authentication"; "maxLoginAttempts"] y)) ->
        fst (script w') = 0%Z).
Proof.
  intros Hfile Hcode Hauth.
  pose proof (script_accepts w c Hfile Hcode) as Hacc.
  destruct Hacc as (_ & _ & _ & _ & _ & _ & _ & _ & _ & Ha & _).
  destruct (Ha Hauth) as [Hst Hma]. split; [|split].
  - intros Hn. apply at_least_of_lt; [exact Hn|].
    apply Hst. now apply nonzero_number_truthy.
  - intros Hn. destruct (Hma (nonzero_number_truthy _ Hn)) as [Hlo Hhi].
    split; [now apply at_least_of_lt|now apply at_most_of_gt].
  - intros x y w' Hr Hx Hy Hfile'.
    apply (script_passes w' _ Hfile').
    + apply Accepted_falsy_authentication; try assumption.
      exact (script_accepts w c Hfile Hcode).
    + rewrite !field_update_apart by reflexivity.
      exact (script_name w c Hfile Hcode).
Qed.

(** C9.  Validation fails on every document whose [platform.version] is
    the string 1.2, and the document of the examples with the version 1.2.3
    passes; a document that passes still passes with another string as its
    version exactly when that string has the shape digits.digits.digits;
    whenever validation passes, [platform.version] read as a string has
    this shape, which is what the anchored pattern accepts; 1.2.3 has it,
    1.2 has not. *)
Theorem version_is_semver_shaped :
  (forall w c, files w !! configPath = Some (Doc c) ->
               field c ["platform"; "version"] = VStr "1.2" ->
               fst (script w) = 1%Z)
  /\ (forall w, files w !! configPath =
                Some (Doc (document "1.2.3" "production" [])) ->
                fst (script w) = 0%Z)
  /\ (forall w c v w',
        files w !! configPath = Some (Doc c) ->
        fst (script w) = 0%Z ->
        reachable c ["platform"; "version"] = true ->
        files w' !! configPath =
        Some (Doc (update c ["platform"; "version"] (VStr v))) ->
        fst (script w') = 0%Z <-> semver_shaped v)
  /\ (forall w c, files w !! configPath = Some (Doc c) ->
                  fst (script w) = 0%Z ->
                  exists text, ToString (field c ["platform"; "version"]) = Ret text
                               /\ semver_shaped text)
  /\ (forall text, semver_shaped text <-> regex_test versionRegex text = true)
  /\ semver_shaped "1.2.3"
  /\ ~ semver_shaped "1.2".
Proof.
  split; [|split; [|split; [|split; [|split; [|split]]]]].
  - intros w c Hfile Hv.
    destruct (script_exit_codes w) as [[Hzero _]|[Hone _]]; [|exact Hone].
    destruct (script_accepts w c Hfile Hzero)
      as (_ & _ & _ & _ & _ & Htest & _).
    rewrite Hv in Htest. discriminate.
  - intros w Hfile. apply (script_passes w _ Hfile).
    + apply Accepted_document.
    + now exists "Automatice-Participatory".
  - intros w c v w' Hfile Hcode Hr Hfile'.
    pose proof (script_accepts w c Hfile Hcode) as Hacc.
    rewrite <- (Accepted_version c v Hacc Hr). split.
    + intros Hcode'. exact (script_accepts w' _ Hfile' Hcode').
    + intros Hacc'. apply (script_passes w' _ Hfile' Hacc').
      rewrite field_update_apart by reflexivity.
      exact (script_name w c Hfile Hcode).
  - intros w c Hfile Hcode.
    destruct (script_accepts w c Hfile Hcode)
      as (_ & _ & _ & _ & _ & Htest & _).
    unfold test in Htest.
    destruct (ToString (field c ["platform"; "version"])) as [text|e];
      [|discriminate].
    exists text. split; [reflexivity|].
    apply versionRegex_semver. cbn in Htest. congruence.
  - intros text. symmetry. apply versionRegex_semver.
  - now apply versionRegex_semver.
  - intros Hs. apply versionRegex_semver in Hs. discriminate.
Qed.
End ValidatorSettings.

(** ** The rule pass, rule by rule *)

Section Traces.
Context `{Host}.

Lemma ensure_run p s :
  p <> [] -> reachable (config s) p = true ->
  ensure p s = (Ret tt, with_config s (insert_missing (config s) p)).
Proof.
  intros Hne Hr.
  destruct (wp_returns _ _ _
              (wp_ensure p (fun _ s' => s' = with_config s (insert_missing (config s) p))
                         s Hne Hr eq_refl)) as ([] & s' & E & ->).
  exact E.
Qed.

Lemma ensure_all_run {A} (k : M ConfigAutoFix A) c0 : forall todo done s,
  EnsInv c0 done todo (config s) -> ordered done todo = true ->
  ensure_all todo k s =
  k (with_config s (fold_left insert_missing todo (config s))).
Proof.
  induction todo as [|p todo IH]; intros done s Hinv Hord.
  - cbn. now rewrite with_config_same.
  - cbn in Hord. repeat (apply andb_true_iff in Hord as [Hord ?]).
    destruct (parent_ok_reachable _ _ _ _ _ Hinv Hord) as [Hne Hr].
    pose proof (EnsInv_step _ _ _ _ _ Hinv Hord ltac:(assumption) ltac:(assumption))
      as Hstep.
    cbn [ensure_all fold_right].
    rewrite (bind_of_ret _ _ _ _ _ (ensure_run p s Hne Hr)).
    change (fold_right (fun p m => ensure p ;; m) k todo) with (ensure_all todo k).
    rewrite (IH (done ++ [p])) by assumption.
    cbn [config with_config fold_left]. now rewrite with_config_config.
Qed.

(** Once the sub-objects are there, the rules run in their order. *)
Lemma analyzeAndFix_prepared s :
  Configuration (config s) = true ->
  analyzeAndFix s =
  (fixPlaceholderApiUrl ;; fixWildcardCors ;; fixEnvironmentSettings ;;
   fixProductionSecurity ;; optimizePerformanceSettings ;;
   fixLoggingSettings) (prepared s).
Proof.
  intros Hc. rewrite analyzeAndFix_ensure_all.
  rewrite (bind_of_ret _ _ _ _ _ (say_printed _ _ _)).
  rewrite (ensure_all_run _ (config s) ensured []).
  - unfold prepared, printed, with_defaults. cbn [config with_world].
    reflexivity.
  - now apply Configuration_EnsInv.
  - reflexivity.
Qed.

Lemma trace_of_configuration s :
  Configuration (config s) = true ->
  exists s1 s2 s3 s4 s5 s', Trace s s1 s2 s3 s4 s5 s'.
Proof.
  intros Hc.
  destruct (analyzeAndFix_total s Hc) as (s0 & Hrun & Hp).
  assert (Ready (config (prepared s)) = true
          /\ forall q, below_sections q = true ->
                       field (config (prepared s)) q = field (config s) q)
    as [Hready Hdefaults].
  { destruct Hp as (? & ? & ? & ? & ? & Hr & Hd & _). now split. }
  destruct (wp_returns _ _ _ (fixPlaceholderApiUrl_spec _ Hready))
    as ([] & s1 & E1 & P1).
  assert (Ready (config s1) = true) as Hr1.
  { destruct P1 as (? & ? & Hs & _). exact (step_ready _ _ _ _ _ Hs). }
  destruct (wp_returns _ _ _ (fixWildcardCors_spec _ Hr1)) as ([] & s2 & E2 & P2).
  assert (Ready (config s2) = true) as Hr2.
  { destruct P2 as (? & ? & Hs & _). exact (step_ready _ _ _ _ _ Hs). }
  destruct (wp_returns _ _ _ (fixEnvironmentSettings_spec _ Hr2)) as ([] & s3 & E3 & P3).
  assert (Ready (config s3) = true) as Hr3.
  { destruct P3 as (? & Hs & _). exact (step_ready _ _ _ _ _ Hs). }
  destruct (wp_returns _ _ _ (fixProductionSecurity_spec _ Hr3)) as ([] & s4 & E4 & P4).
  assert (Ready (config s4) = true) as Hr4.
  { destruct P4 as (? & Hs & _). exact (step_ready _ _ _ _ _ Hs). }
  destruct (wp_returns _ _ _ (optimizePerformanceSettings_spec _ Hr4))
    as ([] & s5 & E5 & P5).
  assert (Ready (config s5) = true) as Hr5.
  { destruct P5 as (? & Hs & _). exact (step_ready _ _ _ _ _ Hs). }
  destruct (wp_returns _ _ _ (fixLoggingSettings_spec _ Hr5)) as ([] & s6 & E6 & P6).
  exists s1, s2, s3, s4, s5, s6.
  constructor; try assumption.
  rewrite (analyzeAndFix_prepared s Hc).
  rewrite (bind_of_ret _ _ _ _ _ E1), (bind_of_ret _ _ _ _ _ E2),
    (bind_of_ret _ _ _ _ _ E3), (bind_of_ret _ _ _ _ _ E4),
    (bind_of_ret _ _ _ _ _ E5). exact E6.
Qed.

Lemma Trace_Pass s s1 s2 s3 s4 s5 s' : Trace s s1 s2 s3 s4 s5 s' -> Pass s s'.
Proof.
  intros []. exists s1, s2, s3, s4, s5.
  repeat (split; [assumption|]). assumption.
Qed.

(** X9.  On every document of the data model, in either mode and whatever
    the operator answers, analyzeAndFix returns without an exception; it
    leaves the path, the mode, the files and the refused paths as they
    were, and afterwards the nine sub-objects it ensures are all objects. *)
Theorem rule_pass_returns s :
  Configuration (config s) = true ->
  exists s',
    analyzeAndFix s = (Ret tt, s')
    /\ configPath s' = configPath s
    /\ interactive s' = interactive s
    /\ files (world s') = files (world s)
    /\ denied (world s') = denied (world s)
    /\ Shaped (config s') = true.
Proof.
  intros Hc. destruct (analyzeAndFix_total s Hc) as (s' & Hrun & Hp).
  exists s'. split; [exact Hrun|].
  destruct (Pass_Untouched _ _ Hp) as [? ? ? ? ? ?].
  repeat (split; [assumption|]).
  open_pass Hp. apply Ready_Shaped. exact (step_ready _ _ _ _ _ Hstep6).
Qed.

(** X10.  On a document of the data model the rule pass only appends to
    the lists of fixes and warnings; every fix it appends is for one of
    the eight settings the rules assign and every warning is for
    api.baseUrl or security.allowedOrigins; in non-interactive mode no fix
    is for one of these two. *)
Theorem rule_pass_records s :
  Configuration (config s) = true ->
  exists s' df dw,
    analyzeAndFix s = (Ret tt, s')
    /\ fixes s' = fixes s ++ df
    /\ warnings s' = warnings s ++ dw
    /\ Forall (fun f => In (fix_field f) fixable) df
    /\ Forall (fun w => In (warning_field w) warnable) dw
    /\ (interactive s = false ->
        Forall (fun f => ~ In (fix_field f) warnable) df).
Proof.
  intros Hc. destruct (analyzeAndFix_total s Hc) as (s' & Hrun & Hp).
  open_pass Hp.
  exists s', (df1 ++ df2 ++ df3 ++ df4 ++ df5), (dw1 ++ dw2).
  split; [exact Hrun|]. split; [|split; [|split; [|split]]].
  - rewrite (step_fixes _ _ _ _ _ Hstep6), (step_fixes _ _ _ _ _ Hstep5),
      (step_fixes _ _ _ _ _ Hstep4), (step_fixes _ _ _ _ _ Hstep3),
      (step_fixes _ _ _ _ _ Hstep2), (step_fixes _ _ _ _ _ Hstep1).
    cbn [fixes prepared with_config with_world].
    rewrite app_nil_r, <- !app_assoc. reflexivity.
  - rewrite (step_warnings _ _ _ _ _ Hstep6), (step_warnings _ _ _ _ _ Hstep5),
      (step_warnings _ _ _ _ _ Hstep4), (step_warnings _ _ _ _ _ Hstep3),
      (step_warnings _ _ _ _ _ Hstep2), (step_warnings _ _ _ _ _ Hstep1).
    cbn [warnings prepared with_config with_world].
    rewrite !app_nil_r, <- !app_assoc. reflexivity.
  - rewrite !Forall_app. repeat split.
    + eapply List.Forall_impl; [|exact Hf1]. cbn. intros f ->. cbn. tauto.
    + eapply List.Forall_impl; [|exact Hf2]. cbn. intros f ->. cbn. tauto.
    + eapply List.Forall_impl; [|exact Hf3]. cbn. intros f Hf. cbn in *. tauto.
    + eapply List.Forall_impl; [|exact Hf4]. cbn. intros f Hf. cbn in *. tauto.
    + eapply List.Forall_impl; [|exact Hf5]. cbn. intros f Hf. cbn in *. tauto.
  - rewrite !Forall_app. split.
    + eapply List.Forall_impl; [|exact Hw1]. cbn. intros f ->. cbn. tauto.
    + eapply List.Forall_impl; [|exact Hw2]. cbn. intros f ->. cbn. tauto.
  - intros Hi.
    destruct (Hquiet1 Hi) as [E1 _].
    assert (interactive s1 = false) as Hi1.
    { now rewrite (step_interactive _ _ _ _ _ Hstep1). }
    destruct (Hquiet2 Hi1) as [E2 _].
    subst df1 df2. cbn [app]. rewrite !Forall_app. repeat split.
    + eapply List.Forall_impl; [|exact Hf3]. cbn. intros f Hf [E0|[E0|[]]];
        rewrite <- E0 in Hf; intuition discriminate.
    + eapply List.Forall_impl; [|exact Hf4]. cbn. intros f Hf [E0|[E0|[]]];
        rewrite <- E0 in Hf; intuition discriminate.
    + eapply List.Forall_impl; [|exact Hf5]. cbn. intros f Hf [E0|[E0|[]]];
        rewrite <- E0 in Hf; intuition discriminate.
Qed.
End Traces.

(** ** Documents to which no rule applies *)

Ltac open_trace Ht :=
  destruct Ht as [Hready Hdefaults Erun1 Erun2 Erun3 Erun4 Erun5 Erun6
                  (df1 & dw1 & Hstep1 & Hf1 & Hw1 & Hquiet1 & Hnone1)
                  (df2 & dw2 & Hstep2 & Hf2 & Hw2 & Hquiet2 & Hnone2 & Hother2 & Hwild2)
                  (df3 & Hstep3 & Hf3 & Hother3 & Hdev3)
                  (df4 & Hstep4 & Hf4 & Hother4 & Hprod4)
                  (df5 & Hstep5 & Hf5 & Hperf5)
                  (Hstep6 & Hsame6) Hrun].

Section Settled.
Context `{Host}.

Lemma returns_as {A} (m : M ConfigAutoFix A) s a s0 :
  wp m (fun x s' => x = a /\ s' = s0) s -> m s = (Ret a, s0).
Proof. intros Hw. destruct (wp_returns _ _ _ Hw) as (x & s' & E & -> & ->). exact E. Qed.

Lemma optimizePerformanceSettings_after s :
  Ready (config s) = true ->
  wp optimizePerformanceSettings (fun _ s' =>
    field (config s') ["performance"; "caching"; "enabled"] =
      (if seq_bool (field (config s) ["performance"; "caching"; "enabled"]) false
       then VBool true
       else field (config s) ["performance"; "caching"; "enabled"])
    /\ field (config s') ["performance"; "compression"; "enabled"] =
      (if seq_bool (field (config s) ["performance"; "compression"; "enabled"]) false
       then VBool true
       else field (config s) ["performance"; "compression"; "enabled"])) s.
Proof.
  intros Hr. unfold optimizePerformanceSettings.
  repeat first
    [ wp_step
    | apply wp_present_opt; [solve_ready | reflexivity | ] ].
  all: tidy; use_tests; auto.
Qed.

Lemma optimizePerformanceSettings_quiet s :
  Ready (config s) = true ->
  seq_bool (field (config s) ["performance"; "caching"; "enabled"]) false = false ->
  seq_bool (field (config s) ["performance"; "compression"; "enabled"]) false = false ->
  optimizePerformanceSettings s = (Ret tt, s).
Proof.
  intros Hr H1 H2. apply returns_as. unfold optimizePerformanceSettings.
  repeat first
    [ wp_step
    | apply wp_present_opt; [solve_ready | reflexivity | ] ].
  all: try congruence. auto.
Qed.

Lemma fixProductionSecurity_quiet s :
  Ready (config s) = true ->
  (environment_is (config s) "production" = true ->
   seq_bool (field (config s) ["security"; "enableSSL"]) false = false
   /\ seq_bool (field (config s) ["security"; "enableHSTS"]) false = false
   /\ seq_bool (field (config s) ["database"; "enableLogging"]) true = false) ->
  fixProductionSecurity s = (Ret tt, s).
Proof.
  intros Hr Hq. apply returns_as. unfold fixProductionSecurity.
  unfold environment_is in Hq.
  repeat wp_step.
  all: try (destruct (Hq eq_refl) as (? & ? & ?); congruence).
  all: auto.
Qed.

Lemma fixEnvironmentSettings_quiet s :
  Ready (config s) = true ->
  (environment_is (config s) "development" = true ->
   seq_bool (field (config s) ["database"; "enableLogging"]) false = false
   /\ seq_str (field (config s) ["logging"; "level"]) "debug" = true) ->
  fixEnvironmentSettings s = (Ret tt, s).
Proof.
  intros Hr Hq. apply returns_as. unfold fixEnvironmentSettings.
  unfold environment_is in Hq.
  repeat wp_step.
  all: try (destruct (Hq eq_refl) as (? & Hl); try congruence;
            rewrite Hl in *; discriminate).
  all: auto.
Qed.
Lemma seq_bool_forced v b :
  seq_bool (if seq_bool v b then VBool (negb b) else v) b = false.
Proof. destruct v as [| |[]| | | |], b; reflexivity. Qed.

(** X11.  After the rule pass on a document of the data model, in any
    environment and mode, performance.caching.enabled and
    performance.compression.enabled are true if they were false and are
    otherwise as they were (a missing setting stays missing). *)
Theorem performance_forced s :
  Configuration (config s) = true ->
  exists s',
    analyzeAndFix s = (Ret tt, s')
    /\ field (config s') ["performance"; "caching"; "enabled"] =
         (if seq_bool (field (config s) ["performance"; "caching"; "enabled"]) false
          then VBool true
          else field (config s) ["performance"; "caching"; "enabled"])
    /\ field (config s') ["performance"; "compression"; "enabled"] =
         (if seq_bool (field (config s) ["performance"; "compression"; "enabled"]) false
          then VBool true
          else field (config s) ["performance"; "compression"; "enabled"]).
Proof.
  intros Hc.
  destruct (trace_of_configuration s Hc) as (s1 & s2 & s3 & s4 & s5 & s' & Ht).
  exists s'. open_trace Ht. split; [exact Hrun|].
  pose proof (Pass_before_rules _ _ _ _ _ _ _ ["performance"; "caching"; "enabled"]
                Hdefaults Hstep1 Hstep2 eq_refl eq_refl eq_refl) as Eca.
  pose proof (Pass_before_rules _ _ _ _ _ _ _ ["performance"; "compression"; "enabled"]
                Hdefaults Hstep1 Hstep2 eq_refl eq_refl eq_refl) as Eco.
  destruct (wp_returns _ _ _
              (optimizePerformanceSettings_after s4 (step_ready _ _ _ _ _ Hstep4)))
    as ([] & s5' & E & Hca & Hco).
  rewrite Erun5 in E. injection E as <-.
  rewrite !(step_field _ _ _ _ _ _ Hstep4) in Hca by reflexivity.
  rewrite !(step_field _ _ _ _ _ _ Hstep4) in Hco by reflexivity.
  rewrite !(step_field _ _ _ _ _ _ Hstep3) in Hca by reflexivity.
  rewrite !(step_field _ _ _ _ _ _ Hstep3) in Hco by reflexivity.
  rewrite Eca in Hca. rewrite Eco in Hco.
  rewrite Hsame6. now split.
Qed.

Lemma rule_pass_settles_lemma s :
  Configuration (config s) = true ->
  exists s', analyzeAndFix s = (Ret tt, s') /\ Pass s s' /\ settled (config s') = true.
Proof.
  intros Hc.
  destruct (trace_of_configuration s Hc) as (s1 & s2 & s3 & s4 & s5 & s' & Ht).
  exists s'. split; [exact (trace_run _ _ _ _ _ _ _ Ht)|].
  split; [exact (Trace_Pass _ _ _ _ _ _ _ Ht)|].
  open_trace Ht.
  destruct (wp_returns _ _ _
              (optimizePerformanceSettings_after s4 (step_ready _ _ _ _ _ Hstep4)))
    as ([] & s5' & E & Hca & Hco).
  rewrite Erun5 in E. injection E as <-.
  assert (field (config s3) ["platform"; "environment"] =
          field (config s2) ["platform"; "environment"]) as Eenv3.
  { now rewrite (step_field _ _ _ _ _ _ Hstep3) by reflexivity. }
  assert (field (config s5) ["platform"; "environment"] =
          field (config s3) ["platform"; "environment"]) as Eenv5.
  { rewrite (step_field _ _ _ _ _ _ Hstep5) by reflexivity.
    now rewrite (step_field _ _ _ _ _ _ Hstep4) by reflexivity. }
  unfold settled, environment_is in *. rewrite Hsame6, Eenv5, Eenv3.
  rewrite Hca, Hco, !(seq_bool_forced _ false). cbn [negb].
  rewrite !andb_true_r.
  rewrite !(step_field _ _ _ _ _ _ Hstep5) by reflexivity.
  apply andb_true_iff. split.
  - destruct (seq_str (field (config s2) ["platform"; "environment"]) "development")
      eqn:Edev; [|reflexivity].
    destruct (Hdev3 eq_refl) as (Hlevel & Hon & Hoff).
    assert (seq_str (field (config s3) ["platform"; "environment"]) "production" = false)
      as Hnp.
    { rewrite Eenv3. eapply seq_str_inj; [exact Edev|discriminate]. }
    destruct (Hother4 Hnp) as [_ ->]. rewrite Hlevel. cbn [seq_str String.eqb].
    rewrite andb_true_r.
    destruct (seq_bool (field (config s2) ["database"; "enableLogging"]) false) eqn:Edb.
    + destruct (Hon eq_refl) as [-> _]. reflexivity.
    + rewrite (Hoff eq_refl), Edb. reflexivity.
  - destruct (seq_str (field (config s2) ["platform"; "environment"]) "production")
      eqn:Eprod; [|reflexivity].
    rewrite <- Eenv3 in Eprod.
    destruct (Hprod4 Eprod) as (-> & -> & -> & _). cbv zeta.
    rewrite !(seq_bool_forced _ false), (seq_bool_forced _ true). reflexivity.
Qed.
(** X12.  After the rule pass on a document of the data model, in either
    mode, no automatic rule applies any more: in development database
    logging is not off and the level is debug, in production SSL and HSTS
    are not off and database logging is not on, caching and compression
    are not off. *)
Theorem rule_pass_settles s :
  Configuration (config s) = true ->
  exists s', analyzeAndFix s = (Ret tt, s') /\ settled (config s') = true.
Proof.
  intros Hc. destruct (rule_pass_settles_lemma s Hc) as (s' & Hrun & _ & Hs).
  eauto.
Qed.

Lemma insert_missing_same c p :
  is_object (field c p) = true -> insert_missing c p = c.
Proof. unfold insert_missing. now destruct (field c p). Qed.

Lemma with_defaults_Shaped c : Shaped c = true -> with_defaults c = c.
Proof.
  unfold Shaped, with_defaults. intros Hs.
  apply andb_true_iff in Hs as [_ Hs]. apply forallb_Forall_true in Hs.
  induction Hs as [|p l Hp Hl IH]; [reflexivity|].
  cbn [fold_left]. now rewrite insert_missing_same.
Qed.

Lemma Ready_Configuration c : Ready c = true -> Configuration c = true.
Proof.
  unfold Ready, Configuration, Shaped. intros Hr.
  apply andb_true_iff in Hr as [Hr Hdir].
  apply andb_true_iff in Hr as [Hr Harr].
  apply andb_true_iff in Hr as [Hr Henv].
  apply andb_true_iff in Hr as [Ho Hs].
  rewrite Ho, Hdir, Harr, Henv, !andb_true_r. cbn [andb].
  apply forallb_Forall_true. apply forallb_Forall_true in Hs.
  eapply List.Forall_impl; [|exact Hs]. cbn. intros p Hp.
  now destruct (field c p).
Qed.

(** On a settled document the rules without prompts record no fix and
    leave the document as the empty sub-objects made it. *)
Lemma Trace_settled s s1 s2 s3 s4 s5 s' :
  Trace s s1 s2 s3 s4 s5 s' ->
  settled (config s) = true -> interactive s = false ->
  config s' = config (prepared s) /\ fixes s' = fixes s.
Proof.
  intros Ht Hs Hi. open_trace Ht.
  destruct (Hquiet1 Hi) as [-> E1].
  assert (interactive s1 = false) as Hi1.
  { now rewrite (step_interactive _ _ _ _ _ Hstep1). }
  destruct (Hquiet2 Hi1) as [-> E2].
  assert (forall q, below_sections q = true ->
                    field (config s2) q = field (config s) q) as Hf.
  { intros q Hq. rewrite E2, E1. now apply Hdefaults. }
  unfold settled, environment_is in Hs.
  apply andb_true_iff in Hs as [Hs Hco]. apply andb_true_iff in Hs as [Hs Hca].
  apply andb_true_iff in Hs as [Hdev Hprod].
  apply negb_true_iff in Hco, Hca.
  assert (s3 = s2) as ->.
  { rewrite fixEnvironmentSettings_quiet in Erun3; [congruence| |].
    - exact (step_ready _ _ _ _ _ Hstep2).
    - unfold environment_is. rewrite !Hf by reflexivity. intros Hd.
      rewrite Hd in Hdev. apply andb_true_iff in Hdev as [Ha Hb].
      apply negb_true_iff in Ha. now split. }
  assert (s4 = s2) as ->.
  { rewrite fixProductionSecurity_quiet in Erun4; [congruence| |].
    - exact (step_ready _ _ _ _ _ Hstep2).
    - unfold environment_is. rewrite !Hf by reflexivity. intros Hp.
      rewrite Hp in Hprod. apply andb_true_iff in Hprod as [Hprod Hc].
      apply andb_true_iff in Hprod as [Ha Hb].
      apply negb_true_iff in Ha, Hb, Hc. auto. }
  assert (s5 = s2) as ->.
  { rewrite optimizePerformanceSettings_quiet in Erun5; [congruence| | |].
    - exact (step_ready _ _ _ _ _ Hstep2).
    - now rewrite Hf by reflexivity.
    - now rewrite Hf by reflexivity. }
  split.
  - now rewrite Hsame6, E2, E1.
  - rewrite (step_fixes _ _ _ _ _ Hstep6), (step_fixes _ _ _ _ _ Hstep2),
      (step_fixes _ _ _ _ _ Hstep1).
    cbn [fixes prepared with_config with_world]. now rewrite !app_nil_r.
Qed.

(** X13.  On a document of the data model to which no automatic rule
    applies, the non-interactive rule pass records no fix and changes
    nothing except for inserting the missing sub-objects, empty. *)
Theorem settled_document_untouched s :
  Configuration (config s) = true ->
  settled (config s) = true ->
  interactive s = false ->
  exists s',
    analyzeAndFix s = (Ret tt, s')
    /\ config s' = with_defaults (config s)
    /\ fixes s' = fixes s.
Proof.
  intros Hc Hs Hi.
  destruct (trace_of_configuration s Hc) as (s1 & s2 & s3 & s4 & s5 & s' & Ht).
  exists s'. split; [exact (trace_run _ _ _ _ _ _ _ Ht)|].
  destruct (Trace_settled _ _ _ _ _ _ _ Ht Hs Hi) as [Ec Ef].
  split; [|exact Ef]. rewrite Ec. apply config_prepared.
Qed.

(** X14.  On a document of the data model the non-interactive rule pass is
    idempotent: a second pass over the result of the first completes,
    leaves the document as it is and records no further fix. *)
Theorem second_pass_changes_nothing s :
  Configuration (config s) = true ->
  interactive s = false ->
  exists s' s'',
    analyzeAndFix s = (Ret tt, s')
    /\ analyzeAndFix s' = (Ret tt, s'')
    /\ config s'' = config s'
    /\ fixes s'' = fixes s'.
Proof.
  intros Hc Hi.
  destruct (rule_pass_settles_lemma s Hc) as (s' & Hrun & Hp & Hs).
  assert (Ready (config s') = true) as Hr.
  { open_pass Hp. exact (step_ready _ _ _ _ _ Hstep6). }
  assert (interactive s' = false) as Hi'.
  { now rewrite (same_interactive _ _ (Pass_Untouched _ _ Hp)). }
  destruct (trace_of_configuration s' (Ready_Configuration _ Hr))
    as (s1 & s2 & s3 & s4 & s5 & s'' & Ht).
  exists s', s''. split; [exact Hrun|].
  split; [exact (trace_run _ _ _ _ _ _ _ Ht)|].
  destruct (Trace_settled _ _ _ _ _ _ _ Ht Hs Hi') as [Ec Ef].
  split; [|exact Ef]. rewrite Ec, config_prepared.
  apply with_defaults_Shaped. now apply Ready_Shaped.
Qed.
End Settled.

(** ** The placeholder rule *)

Section Placeholder.
Context `{Host}.

Lemma seq_str_eq v t : seq_str v t = true -> v = VStr t.
Proof.
  destruct v; try discriminate. cbn. intros E.
  now apply String.eqb_eq in E as ->.
Qed.

Lemma fixPlaceholderApiUrl_warns s :
  Ready (config s) = true ->
  placeholder_url (config s) = true ->
  wp fixPlaceholderApiUrl
     (fun _ s' => warnings s' = warnings s ++ [placeholder_warning]) s.
Proof.
  intros Hr Hp. unfold placeholder_url in Hp.
  pose proof (seq_str_eq _ _ Hp) as Hv.
  unfold fixPlaceholderApiUrl, placeholder_warning.
  repeat wp_more.
  all: try congruence.
  all: rewrite ?Hv; reflexivity.
Qed.

Lemma fixPlaceholderApiUrl_answered s :
  Ready (config s) = true ->
  placeholder_url (config s) = true ->
  interactive s = true ->
  wp fixPlaceholderApiUrl
     (fun _ s' =>
        if accepted_url s
        then field (config s') ["api"; "baseUrl"] = VStr (trim (next_answer s))
             /\ fixes s' = fixes s ++ [placeholder_fix (trim (next_answer s))]
        else config s' = config s /\ fixes s' = fixes s) s.
Proof.
  intros Hr Hp Hi. unfold placeholder_url in *.
  unfold accepted_url, environment_is, next_answer.
  unfold fixPlaceholderApiUrl, placeholder_fix.
  destruct (stdin (world s) (answered (world s)) =? "") eqn:Ea;
    destruct (trim (stdin (world s) (answered (world s))) =? "") eqn:Et;
    destruct (URL_protocol (stdin (world s) (answered (world s))))
      as [protocol|] eqn:Eu;
    destruct (seq_str (field (config s) ["platform"; "environment"]) "production")
      eqn:Ep;
    try destruct (protocol =? "https:") eqn:Eh;
    destruct (toLowerCase (stdin (world s) (S (answered (world s)))) =? "y") eqn:Ey;
    cbn [negb andb orb].
  all: repeat wp_more.
  all: try (split; reflexivity).
  all: try (injection Eu as Eu; subst protocol).
  all: try discriminate Eu.
  all: rewrite ?Ea, ?Et, ?Eh, ?Ey in *; cbn [negb andb orb] in *.
  all: try congruence.
  all: try (split; reflexivity).
Qed.

(** X15.  In interactive mode, on a document of the data model whose
    api.baseUrl is the placeholder, the pass records the placeholder
    warning and asks for a URL. The answer is taken when it is not blank,
    new URL accepts it and, in production, it is an https address or the
    operator confirms with y: then api.baseUrl becomes the trimmed answer
    and the fix is recorded; otherwise api.baseUrl stays and no fix is
    recorded for it. *)
Theorem placeholder_answered s :
  Configuration (config s) = true ->
  placeholder_url (config s) = true ->
  interactive s = true ->
  exists s',
    analyzeAndFix s = (Ret tt, s')
    /\ warnings_about "api.baseUrl" (warnings s') =
       warnings_about "api.baseUrl" (warnings s) ++ [placeholder_warning]
    /\ if accepted_url s
       then field (config s') ["api"; "baseUrl"] = VStr (trim (next_answer s))
            /\ fixes_for "api.baseUrl" (fixes s') =
               fixes_for "api.baseUrl" (fixes s)
               ++ [placeholder_fix (trim (next_answer s))]
       else field (config s') ["api"; "baseUrl"] = field (config s) ["api"; "baseUrl"]
            /\ fixes_for "api.baseUrl" (fixes s') = fixes_for "api.baseUrl" (fixes s).
Proof.
  intros Hc Hp Hi.
  destruct (trace_of_configuration s Hc) as (s1 & s2 & s3 & s4 & s5 & s' & Ht).
  exists s'. open_trace Ht. split; [exact Hrun|].
  assert (placeholder_url (config (prepared s)) = true) as Hp'.
  { unfold placeholder_url in *. now rewrite Hdefaults by reflexivity. }
  assert (accepted_url (prepared s) = accepted_url s) as Hacc.
  { unfold accepted_url, environment_is, next_answer.
    now rewrite Hdefaults by reflexivity. }
  destruct (wp_returns _ _ _ (fixPlaceholderApiUrl_warns _ Hready Hp'))
    as ([] & s1' & E & Hwarn).
  rewrite Erun1 in E. injection E as <-.
  destruct (wp_returns _ _ _ (fixPlaceholderApiUrl_answered _ Hready Hp' Hi))
    as ([] & s1' & E & Hans).
  rewrite Erun1 in E. injection E as <-.
  rewrite Hacc in Hans.
  assert (field (config s') ["api"; "baseUrl"] = field (config s1) ["api"; "baseUrl"])
    as Eurl.
  { rewrite Hsame6.
    rewrite (step_field _ _ _ _ _ _ Hstep5), (step_field _ _ _ _ _ _ Hstep4),
      (step_field _ _ _ _ _ _ Hstep3), (step_field _ _ _ _ _ _ Hstep2)
      by reflexivity. reflexivity. }
  assert (fixes_for "api.baseUrl" (fixes s') = fixes_for "api.baseUrl" (fixes s1))
    as Efix.
  { rewrite (step_fixes _ _ _ _ _ Hstep6), (step_fixes _ _ _ _ _ Hstep5),
      (step_fixes _ _ _ _ _ Hstep4), (step_fixes _ _ _ _ _ Hstep3),
      (step_fixes _ _ _ _ _ Hstep2).
    rewrite !fixes_for_app.
    rewrite (fixes_for_none1 _ _ _ Hf2) by discriminate.
    rewrite (fixes_for_none _ _ _ Hf3), (fixes_for_none _ _ _ Hf4),
      (fixes_for_none _ _ _ Hf5), !app_nil_r;
      [reflexivity| | |]; cbn; intuition discriminate. }
  split.
  - rewrite (step_warnings _ _ _ _ _ Hstep6), (step_warnings _ _ _ _ _ Hstep5),
      (step_warnings _ _ _ _ _ Hstep4), (step_warnings _ _ _ _ _ Hstep3),
      (step_warnings _ _ _ _ _ Hstep2), Hwarn.
    cbn [warnings prepared with_config with_world].
    rewrite !warnings_about_app, !app_nil_r.
    rewrite (warnings_about_none _ _ _ Hw2) by discriminate.
    rewrite app_nil_r. reflexivity.
  - rewrite Eurl, Efix. cbn [fixes prepared with_config with_world] in Hans.
    destruct (accepted_url s).
    + destruct Hans as [-> ->]. split; [reflexivity|].
      now rewrite fixes_for_app.
    + destruct Hans as [-> ->]. split; [|reflexivity].
      now apply Hdefaults.
Qed.
End Placeholder.

(** ** What the fixer leaves alone *)

Lemma Kept_refl s : Kept s s.
Proof. split; try reflexivity; try lia. exists []. now rewrite app_nil_r. Qed.

Lemma Kept_trans s1 s2 s3 : Kept s1 s2 -> Kept s2 s3 -> Kept s1 s3.
Proof.
  intros [Hp1 Hi1 Hf1 Hd1 Hn1 Hs1 Hin1 Ha1 [out1 Ho1]]
         [Hp2 Hi2 Hf2 Hd2 Hn2 Hs2 Hin2 Ha2 [out2 Ho2]].
  split; try congruence.
  - intros p Hp. rewrite Hf2 by congruence. now apply Hf1.
  - now transitivity (dirs (world s2)).
  - lia.
  - exists (out1 ++ out2). now rewrite Ho2, Ho1, app_assoc.
Qed.

Lemma keeps_ret {A} (a : A) : keeps (ret a).
Proof. intros s. apply Kept_refl. Qed.

Lemma keeps_throw {A} e : keeps (throw (A:=A) e).
Proof. intros s. apply Kept_refl. Qed.

Lemma keeps_lift {A} (o : outcome A) : keeps (lift o).
Proof. intros s. apply Kept_refl. Qed.

Lemma keeps_gets {A} (f : ConfigAutoFix -> A) : keeps (gets f).
Proof. intros s. apply Kept_refl. Qed.

Lemma keeps_bind {A B} (m : M ConfigAutoFix A) (k : A -> M ConfigAutoFix B) :
  keeps m -> (forall a, keeps (k a)) -> keeps (bind m k).
Proof.
  intros Hm Hk s. unfold bind. specialize (Hm s).
  destruct (m s) as [[a|e] s1]; [|exact Hm].
  exact (Kept_trans _ _ _ Hm (Hk a s1)).
Qed.

Lemma keeps_try_catch {A} (m : M ConfigAutoFix A) h :
  keeps m -> (forall e, keeps (h e)) -> keeps (try_catch m h).
Proof.
  intros Hm Hh s. unfold try_catch. specialize (Hm s).
  destruct (m s) as [[a|e] s1]; [exact Hm|].
  exact (Kept_trans _ _ _ Hm (Hh e s1)).
Qed.

Lemma keeps_when b (m : M ConfigAutoFix unit) : keeps m -> keeps (when b m).
Proof. destruct b; [auto|intros _; apply keeps_ret]. Qed.

Lemma keeps_andM (a b : M ConfigAutoFix bool) : keeps a -> keeps b -> keeps (a &&& b).
Proof.
  intros Ha Hb. apply keeps_bind; [exact Ha|]. intros []; [exact Hb|apply keeps_ret].
Qed.

Lemma keeps_forEach {A} (f : A -> nat -> M ConfigAutoFix unit) :
  (forall x i, keeps (f x i)) -> forall xs i, keeps (forEach f xs i).
Proof.
  intros Hf xs. induction xs as [|x xs IH]; intros i; cbn [forEach].
  - apply keeps_ret.
  - apply keeps_bind; [apply Hf|]. intros _. apply IH.
Qed.

Section Frame.
Context `{Host}.

Lemma keeps_say m c : keeps (say m c).
Proof.
  intros s. split; cbn; try reflexivity; try lia. now exists [(m, c)].
Qed.

Lemma keeps_prompt q : keeps (prompt q).
Proof.
  intros s. split; cbn; try reflexivity; try lia. now exists [(Asked q, reset)].
Qed.

Lemma keeps_modify_config (c : value) :
  keeps (modify (fun this => with_config this c)).
Proof.
  intros s. split; cbn; try reflexivity; try lia. exists []. now rewrite app_nil_r.
Qed.

Lemma keeps_rd path : keeps (rd path).
Proof. intros s. unfold rd, bind, gets, lift. apply Kept_refl. Qed.

Lemma keeps_assign path x : keeps (assign path x).
Proof.
  intros s. unfold assign, bind, gets, lift, modify.
  destruct (set_in (config s) path x); cbn.
  - split; cbn; try reflexivity; try lia. exists []. now rewrite app_nil_r.
  - apply Kept_refl.
Qed.

Lemma keeps_present path : keeps (present path).
Proof. apply keeps_bind; [apply keeps_rd|intros; apply keeps_ret]. Qed.

Lemma keeps_is_str path t : keeps (is_str path t).
Proof. apply keeps_bind; [apply keeps_rd|intros; apply keeps_ret]. Qed.

Lemma keeps_is_bool path b : keeps (is_bool path b).
Proof. apply keeps_bind; [apply keeps_rd|intros; apply keeps_ret]. Qed.

Lemma keeps_push_fix f : keeps (push_fix f).
Proof.
  intros s. split; cbn; try reflexivity; try lia. exists []. now rewrite app_nil_r.
Qed.

Lemma keeps_push_warning w : keeps (push_warning w).
Proof.
  intros s. split; cbn; try reflexivity; try lia. exists []. now rewrite app_nil_r.
Qed.

Lemma keeps_existsSync p : keeps (io (existsSync p)).
Proof.
  intros s. split; cbn; try reflexivity; try lia. exists []. now rewrite app_nil_r.
Qed.

Lemma keeps_mkdirSync p : keeps (io (mkdirSync p)).
Proof.
  intros s. unfold io, mkdirSync. destruct (bool_decide _); cbn.
  - split; cbn; try reflexivity; try lia. exists []. now rewrite app_nil_r.
  - split; cbn; try reflexivity; try lia; [set_solver|].
    exists []. now rewrite app_nil_r.
Qed.

Lemma keeps_readJSON p : keeps (io (readJSON p)).
Proof.
  intros s. unfold io, readJSON.
  destruct (files (world s) !! p) as [[|c]|]; cbn.
  all: split; cbn; try reflexivity; try lia; exists []; now rewrite app_nil_r.
Qed.

Lemma keeps_ensure path : keeps (ensure path).
Proof.
  apply keeps_bind; [apply keeps_rd|]. intros x.
  apply keeps_when, keeps_assign.
Qed.

(** The steps of a method, one after the other *)
Ltac keep :=
  repeat first
    [ apply keeps_ret | apply keeps_throw | apply keeps_lift | apply keeps_gets
    | apply keeps_say | apply keeps_prompt | apply keeps_rd | apply keeps_assign
    | apply keeps_present | apply keeps_is_str | apply keeps_is_bool
    | apply keeps_push_fix | apply keeps_push_warning
    | apply keeps_existsSync | apply keeps_mkdirSync | apply keeps_readJSON
    | apply keeps_ensure
    | apply keeps_modify_config
    | apply keeps_andM
    | apply keeps_when
    | apply keeps_bind; [|intros ?]
    | apply keeps_try_catch; [|intros ?]
    | apply keeps_forEach; intros ? ?
    | match goal with
      | |- keeps (if ?b then _ else _) => destruct b
      | |- keeps (match ?x with _ => _ end) => destruct x
      | |- keeps (let _ := _ in _) => cbv zeta
      end ].

Lemma keeps_validateOrigins origins valid : keeps (validateOrigins origins valid).
Proof.
  revert valid. induction origins as [|origin rest IH]; intros valid;
    cbn [validateOrigins].
  - apply keeps_ret.
  - destruct (URL_protocol origin) as [protocol|].
    + destruct (negb _ && negb _); [|apply IH].
      apply keeps_bind; [apply keeps_say|intros _; apply IH].
    + apply keeps_bind; [apply keeps_say|intros _; apply IH].
Qed.

Lemma keeps_fixPlaceholderApiUrl : keeps fixPlaceholderApiUrl.
Proof. unfold fixPlaceholderApiUrl. keep. Qed.

Lemma keeps_fixWildcardCors : keeps fixWildcardCors.
Proof.
  unfold fixWildcardCors. keep.
  all: try apply keeps_validateOrigins. all: keep.
Qed.

Lemma keeps_fixEnvironmentSettings : keeps fixEnvironmentSettings.
Proof. unfold fixEnvironmentSettings. keep. Qed.

Lemma keeps_fixProductionSecurity : keeps fixProductionSecurity.
Proof. unfold fixProductionSecurity. keep. Qed.

Lemma keeps_optimizePerformanceSettings : keeps optimizePerformanceSettings.
Proof. unfold optimizePerformanceSettings, present_opt. keep. Qed.

Lemma keeps_fixLoggingSettings : keeps fixLoggingSettings.
Proof. unfold fixLoggingSettings. keep. Qed.

Lemma keeps_analyzeAndFix : keeps analyzeAndFix.
Proof.
  unfold analyzeAndFix.
  repeat (apply keeps_bind; [|intros _]).
  all: first [ apply keeps_say | apply keeps_ensure
             | apply keeps_fixPlaceholderApiUrl | apply keeps_fixWildcardCors
             | apply keeps_fixEnvironmentSettings | apply keeps_fixProductionSecurity
             | apply keeps_optimizePerformanceSettings
             | apply keeps_fixLoggingSettings ].
Qed.

Lemma keeps_loadConfig : keeps loadConfig.
Proof.
  unfold loadConfig. keep.
Qed.

Lemma keeps_displaySummary : keeps displaySummary.
Proof. unfold displaySummary. keep. Qed.

(** Writing is the one step that depends on the state it runs in: the path
    written is the fixer's own. *)
Lemma keeps_write :
  keeps (c <- gets config ;;
         p <- gets configPath ;;
         io (writeFileSync p (written c)) ;;
         say ConfigurationSaved green).
Proof.
  intros s. unfold bind, gets, io, writeFileSync.
  destruct (bool_decide _); cbn.
  - split; cbn; try reflexivity; try lia. exists []. now rewrite app_nil_r.
  - split; cbn; try reflexivity; try lia.
    + intros p Hp. now rewrite lookup_insert_ne.
    + now exists [(ConfigurationSaved, green)].
Qed.

Lemma keeps_saveConfig : keeps saveConfig.
Proof.
  unfold saveConfig.
  apply keeps_bind; [apply keeps_gets|]. intros inter.
  apply keeps_bind; [keep|]. intros declined.
  destruct declined; [apply keeps_ret|].
  apply keeps_try_catch; [apply keeps_write|]. intros e. apply keeps_throw.
Qed.

Lemma keeps_run : keeps run.
Proof.
  unfold run.
  apply keeps_bind; [apply keeps_say|]. intros _.
  apply keeps_try_catch; [|intros e; keep].
  apply keeps_bind; [apply keeps_loadConfig|]. intros _.
  apply keeps_bind; [apply keeps_analyzeAndFix|]. intros _.
  apply keeps_bind; [apply keeps_displaySummary|]. intros _.
  apply keeps_bind; [apply keeps_gets|]. intros applied.
  apply keeps_bind; [apply keeps_when, keeps_saveConfig|]. intros _.
  keep.
Qed.

Lemma main_keeps args w :
  (forall p, p <> configPath_of args -> files (snd (main args w)) !! p = files w !! p)
  /\ dirs w ⊆ dirs (snd (main args w))
  /\ denied (snd (main args w)) = denied w
  /\ spawnable (snd (main args w)) = spawnable w
  /\ stdin (snd (main args w)) = stdin w
  /\ exists out, stdout (snd (main args w)) = stdout w ++ out.
Proof.
  unfold main. destruct (has_flag args "--help").
  - cbn. repeat split; try reflexivity. now exists [(HelpText, reset)].
  - pose proof (keeps_run (fixer_of args w)) as [_ _ Hf Hd Hn Hs Hi _ Ho].
    destruct (run (fixer_of args w)) as [[success|e] fixer]; cbn in *; auto 10.
Qed.

(** X16.  Whatever its arguments and the world, and whether it succeeds or
    fails, a run of the auto-fixer leaves every file other than the
    configuration file as it was, removes no directory, leaves the refused
    paths, the ability to start processes and the input of the operator as
    they were, and only adds to the output. *)
Theorem fixer_writes_the_document_only args w :
  (forall p, p <> configPath_of args -> files (snd (main args w)) !! p = files w !! p)
  /\ dirs w ⊆ dirs (snd (main args w))
  /\ denied (snd (main args w)) = denied w
  /\ spawnable (snd (main args w)) = spawnable w
  /\ stdin (snd (main args w)) = stdin w
  /\ exists out, stdout (snd (main args w)) = stdout w ++ out.
Proof. apply main_keeps. Qed.
End Frame.

(** ** The scripts as processes *)

Section Processes.
Context `{Host}.

(** X17.  When the configuration file is missing or does not hold a JSON
    document, the auto-fixer (run without --help) prints its banner, the
    loading line and the error of the failed load, exits with code 1 and
    changes nothing else. *)
Theorem fixer_without_document args w :
  has_flag args "--help" = false ->
  (forall c, files w !! configPath_of args <> Some (Doc c)) ->
  main args w =
  (1%Z, with_stdout w (stdout w ++ [(AutoFixBanner, cyan);
                                     (LoadingConfiguration, blue);
                                     (ErrorLine (Error FailedToLoad), red)])).
Proof.
  intros Hhelp Hfile. unfold main. rewrite Hhelp. unfold run.
  rewrite (bind_of_ret _ _ _ _ _ (say_printed _ _ _)).
  unfold try_catch.
  rewrite (bind_of_throw _ _ _ _ _
             (loadConfig_failure (printed (fixer_of args w) [(AutoFixBanner, cyan)])
                                 Hfile)).
  rewrite (bind_of_ret _ _ _ _ _ (say_printed _ _ _)).
  cbn. now rewrite <- !app_assoc.
Qed.

Lemma script_without_node args w :
  has_flag args "--help" = false ->
  spawnable w = false ->
  Automate.script args w =
  (1%Z, with_stdout w (stdout w ++ [(AutomationBanner, bold cyan);
                                     (Step1InitialValidation, bold blue);
                                     (ErrorLine (Error SpawnError), red)])).
Proof.
  intros Hhelp Hs. unfold Automate.script. rewrite Hhelp.
  unfold Automate.main. cbv zeta.
  rewrite bind_log. unfold try_catch. rewrite bind_log.
  unfold bind at 1, Automate.runCommand. cbn [spawnable with_stdout].
  rewrite Hs. rewrite bind_log. cbn. now rewrite <- !app_assoc.
Qed.

(** X18.  When the child process cannot be started, the orchestrator (run
    without --help) prints its banner, the line of step 1 and the error,
    exits with code 1 and changes nothing else. *)
Theorem orchestrator_without_node args w :
  has_flag args "--help" = false ->
  spawnable w = false ->
  Automate.script args w =
  (1%Z, with_stdout w (stdout w ++ [(AutomationBanner, bold cyan);
                                     (Step1InitialValidation, bold blue);
                                     (ErrorLine (Error SpawnError), red)])).
Proof. apply script_without_node. Qed.

Lemma script_revalidates args w :
  has_flag args "--help" = false ->
  has_flag args "--validate-only" = false ->
  spawnable w = true ->
  let fixArgs := if has_flag args "--no-interactive"
                 then ["--no-interactive"] else [] in
  exists out,
    let fixed := snd (main fixArgs (with_stdout w (stdout w ++ out))) in
    fst (Automate.script args w) = fst (Validator.script fixed)
    /\ files (snd (Automate.script args w)) = files fixed
    /\ dirs (snd (Automate.script args w)) = dirs fixed.
Proof.
  intros Hhelp Hvo Hs rest.
  unfold Automate.script. rewrite Hhelp.
  unfold Automate.main. rewrite Hvo. cbv zeta.
  rewrite bind_log. unfold try_catch. rewrite bind_log.
  erewrite bind_of_ret by (apply runCommand_validate; exact Hs).
  rewrite andb_false_r. cbn [negb].
  match goal with |- context [Validator.script ?w0] =>
    destruct (script_world w0) as [out2 Hw2] end.
  rewrite Hw2. rewrite bind_log.
  set (w4 := with_stdout _ _).
  assert (spawnable w4 = true) as Hs4 by exact Hs.
  assert ((if has_flag args "--no-interactive"
           then ["auto-fix-config.js"; "--no-interactive"]
           else ["auto-fix-config.js"]) = "auto-fix-config.js" :: rest) as ->.
  { unfold rest. now destruct (has_flag args "--no-interactive"). }
  erewrite bind_of_ret by (apply runCommand_fix; exact Hs4).
  exists ([(AutomationBanner, bold cyan); (Step1InitialValidation, bold blue)]
          ++ out2 ++ [(Step2AutoFix, bold blue)]).
  assert (with_stdout w
            (stdout w ++ [(AutomationBanner, bold cyan);
                          (Step1InitialValidation, bold blue)]
                         ++ out2 ++ [(Step2AutoFix, bold blue)]) = w4) as ->.
  { unfold w4. cbn. now rewrite <- !app_assoc. }
  cbv zeta. set (fixed := snd (main rest w4)).
  destruct (main_keeps rest w4) as (_ & _ & _ & Hs5 & _).
  fold fixed in Hs5. cbv zeta in Hs5.
  rewrite bind_log. set (w6 := with_stdout _ _).
  assert (files w6 = files fixed /\ dirs w6 = dirs fixed /\ spawnable w6 = true)
    as (Hf6 & Hd6 & Hs6).
  { unfold w6. cbn. now rewrite Hs5. }
  erewrite bind_of_ret by (apply runCommand_validate; exact Hs6).
  destruct (script_world w6) as [out6 Hw6]. rewrite Hw6.
  rewrite (script_code fixed w6 Hf6 Hd6).
  rewrite bind_log.
  destruct (script_exit_codes fixed) as [[-> _]|[-> _]]; cbn [Z.eqb].
  all: rewrite !bind_log; cbn; auto.
Qed.

(** X19.  Without --validate-only and --help, when children can be
    started, the exit code of the orchestrator is the exit code of the
    validator on the world the auto-fixer leaves: neither the first
    validation nor the exit code of the auto-fixer count. The files and
    directories the orchestrator leaves are those the auto-fixer left. *)
Theorem orchestrator_exit_is_revalidation args w :
  has_flag args "--help" = false ->
  has_flag args "--validate-only" = false ->
  spawnable w = true ->
  let fixArgs := if has_flag args "--no-interactive"
                 then ["--no-interactive"] else [] in
  exists out,
    let fixed := snd (main fixArgs (with_stdout w (stdout w ++ out))) in
    fst (Automate.script args w) = fst (Validator.script fixed)
    /\ files (snd (Automate.script args w)) = files fixed
    /\ dirs (snd (Automate.script args w)) = dirs fixed.
Proof. apply script_revalidates. Qed.

End Processes.

(** ** The wildcard rule and the answer of the operator *)

Section Origins.
Context `{Host}.

Lemma validateOrigins_filter origins : forall valid s,
  wp (validateOrigins origins valid)
     (fun r s' => r = valid ++ List.filter valid_origin origins
                  /\ exists out, s' = printed s out) s.
Proof.
  induction origins as [|o rest IH]; intros valid s;
    cbn [validateOrigins List.filter].
  - apply wp_ret. rewrite app_nil_r. split; [reflexivity|].
    exists []. now rewrite printed_nil.
  - unfold valid_origin at 1. destruct (URL_protocol o) as [protocol|].
    + destruct (protocol =? "https:"), (protocol =? "http:"); cbn [negb andb orb].
      1-3: eapply wp_mono; [apply IH|]; intros r s' [-> Hout];
        rewrite <- app_assoc; split; [reflexivity|exact Hout].
      apply wp_bind, wp_say. eapply wp_mono; [apply IH|].
      intros r s' [-> [out ->]]. split; [reflexivity|].
      eexists. unfold printed. cbn. now rewrite <- app_assoc.
    + apply wp_bind, wp_say. eapply wp_mono; [apply IH|].
      intros r s' [-> [out ->]]. split; [reflexivity|].
      eexists. unfold printed. cbn. now rewrite <- app_assoc.
Qed.

Lemma fixPlaceholderApiUrl_skips s :
  Ready (config s) = true ->
  placeholder_url (config s) = false ->
  fixPlaceholderApiUrl s = (Ret tt, s).
Proof.
  intros Hr Hp.
  assert (wp fixPlaceholderApiUrl (fun _ s' => s' = s) s) as Hwp.
  { unfold placeholder_url in Hp. unfold fixPlaceholderApiUrl.
    repeat wp_more. all: try congruence. all: try reflexivity. }
  unfold wp in Hwp. destruct (fixPlaceholderApiUrl s) as [[[]|e] s'];
    [now subst|contradiction].
Qed.

Lemma fixWildcardCors_answered s :
  Ready (config s) = true ->
  wildcard_cors (config s) = true ->
  environment_is (config s) "production" = true ->
  interactive s = true ->
  wp fixWildcardCors
     (fun _ s' =>
        match entered_origins s with
        | [] => config s' = config s /\ fixes s' = fixes s
        | valid =>
            field (config s') ["security"; "allowedOrigins"] = VArr (map VStr valid) ∅
            /\ fixes s' = fixes s ++ [origins_fix valid]
        end) s.
Proof.
  intros Hr Hw Hprod Hi.
  unfold fixWildcardCors, entered_origins, next_answer, origins_fix.
  assert (absent_or is_array (field (config s) ["security"; "allowedOrigins"]) = true)
    as Harr.
  { unfold Ready in Hr. apply andb_true_iff in Hr as [Hr _].
    now apply andb_true_iff in Hr as [_ Hr]. }
  unfold wildcard_cors in Hw. unfold environment_is in Hprod.
  apply andb_true_iff in Hw as [Hw Hinc].
  apply andb_true_iff in Hw as [Hco Hao].
  rewrite includes_array in Hinc by now apply absent_or_truthy.
  repeat first
    [ wp_more
    | eapply wp_lift; [apply includes_array; now apply absent_or_truthy|]
    | eapply wp_mono; [apply validateOrigins_filter|];
      intros ? ? [-> [out ->]] ].
  all: try congruence.
  all: cbn [app] in *; unfold printed; simpl_state.
  all: rewrite ?E4.
  all: try destruct (List.filter valid_origin _) as [|o l] eqn:Ef.
  all: try discriminate.
  all: try (split; reflexivity).
Qed.

(** X20.  In interactive mode, on a production document of the data model
    with CORS enabled, the wildcard among the allowed origins and no
    placeholder URL (so that the question about the origins is the first),
    the origins taken from the answer are its comma-separated parts,
    trimmed, not empty, that new URL accepts with protocol http or https,
    in order. If there is one, security.allowedOrigins becomes their list
    and the fix is recorded; if there is none, the setting stays and no
    fix is recorded for it. *)
Theorem origins_answered s :
  Configuration (config s) = true ->
  placeholder_url (config s) = false ->
  wildcard_cors (config s) = true ->
  environment_is (config s) "production" = true ->
  interactive s = true ->
  exists s',
    analyzeAndFix s = (Ret tt, s')
    /\ match entered_origins s with
       | [] =>
           field (config s') ["security"; "allowedOrigins"] =
           field (config s) ["security"; "allowedOrigins"]
           /\ fixes_for "security.allowedOrigins" (fixes s') =
              fixes_for "security.allowedOrigins" (fixes s)
       | valid =>
           field (config s') ["security"; "allowedOrigins"] = VArr (map VStr valid) ∅
           /\ fixes_for "security.allowedOrigins" (fixes s') =
              fixes_for "security.allowedOrigins" (fixes s) ++ [origins_fix valid]
       end.
Proof.
  intros Hc Hp Hw Hprod Hi.
  destruct (trace_of_configuration s Hc) as (s1 & s2 & s3 & s4 & s5 & s' & Ht).
  exists s'. open_trace Ht. split; [exact Hrun|].
  assert (placeholder_url (config (prepared s)) = false) as Hp'.
  { unfold placeholder_url in *. now rewrite Hdefaults by reflexivity. }
  assert (wildcard_cors (config (prepared s)) = true) as Hw'.
  { unfold wildcard_cors in *. now rewrite !Hdefaults by reflexivity. }
  assert (environment_is (config (prepared s)) "production" = true) as Hprod'.
  { unfold environment_is in *. now rewrite Hdefaults by reflexivity. }
  rewrite (fixPlaceholderApiUrl_skips _ Hready Hp') in Erun1.
  injection Erun1 as <-.
  destruct (wp_returns _ _ _ (fixWildcardCors_answered _ Hready Hw' Hprod' Hi))
    as ([] & s2' & E & Hans).
  rewrite Erun2 in E. injection E as <-.
  assert (entered_origins (prepared s) = entered_origins s) as Hent by reflexivity.
  rewrite Hent in Hans. clear Hent.
  assert (field (config s') ["security"; "allowedOrigins"] =
          field (config s2) ["security"; "allowedOrigins"]) as Eorigins.
  { rewrite Hsame6.
    rewrite (step_field _ _ _ _ _ _ Hstep5), (step_field _ _ _ _ _ _ Hstep4),
      (step_field _ _ _ _ _ _ Hstep3) by reflexivity. reflexivity. }
  assert (fixes_for "security.allowedOrigins" (fixes s') =
          fixes_for "security.allowedOrigins" (fixes s2)) as Efix.
  { rewrite (step_fixes _ _ _ _ _ Hstep6), (step_fixes _ _ _ _ _ Hstep5),
      (step_fixes _ _ _ _ _ Hstep4), (step_fixes _ _ _ _ _ Hstep3).
    rewrite !fixes_for_app.
    rewrite (fixes_for_none _ _ _ Hf3), (fixes_for_none _ _ _ Hf4),
      (fixes_for_none _ _ _ Hf5), !app_nil_r;
      [reflexivity| | |]; cbn; intuition discriminate. }
  rewrite Eorigins, Efix. cbn [fixes prepared with_config with_world] in Hans.
  destruct (entered_origins s) as [|o l].
  - destruct Hans as [-> ->]. split; [|reflexivity].
    now apply Hdefaults.
  - destruct Hans as [-> ->]. split; [reflexivity|].
    now rewrite fixes_for_app.
Qed.
End Origins.

(** ** When the document is written *)

Section Saving.
Context `{Host}.

Lemma saveConfig_files s :
  exists r s',
    saveConfig s = (r, s')
    /\ files (world s') =
       if (negb (interactive s) || (toLowerCase (next_answer s) =? "y"))
          && negb (bool_decide (configPath s ∈ denied (world s)))
       then <[configPath s := written (config s)]> (files (world s))
       else files (world s).
Proof.
  unfold saveConfig, next_answer.
  unfold bind at 1, gets. destruct (interactive s) eqn:Hi; cbn [negb orb].
  - unfold bind at 1. unfold bind at 1, prompt, io.
    destruct (toLowerCase (stdin (world s) (answered (world s))) =? "y");
      cbn [negb andb].
    + unfold try_catch, bind, gets, io, writeFileSync, say, log, modify, ret.
      cbn [world with_world config configPath denied with_answered with_stdout].
      destruct (decide (configPath s ∈ denied (world s))) as [Hd|Hd].
      * rewrite !bool_decide_eq_true_2 by exact Hd. cbn.
        eexists _, _; split; reflexivity.
      * rewrite !bool_decide_eq_false_2 by exact Hd. cbn.
        eexists _, _; split; reflexivity.
    + cbn. eexists _, _; split; reflexivity.
  - unfold bind at 1, ret.
    unfold try_catch, bind, gets, io, writeFileSync, say, log, modify.
    destruct (decide (configPath s ∈ denied (world s))) as [Hd|Hd].
    + rewrite !bool_decide_eq_true_2 by exact Hd. cbn.
      eexists _, _; split; reflexivity.
    + rewrite !bool_decide_eq_false_2 by exact Hd. cbn.
      eexists _, _; split; reflexivity.
Qed.

Lemma main_files args w c :
  has_flag args "--help" = false ->
  files w !! configPath_of args = Some (Doc c) ->
  Configuration c = true ->
  exists s6,
    analyzeAndFix (loaded (fixer_of args w) c) = (Ret tt, s6)
    /\ files (snd (main args w)) =
       if (0 <? length (fixes s6))%nat
          && (negb (interactive_of args) || (toLowerCase (next_answer s6) =? "y"))
          && negb (bool_decide (configPath_of args ∈ denied w))
       then <[configPath_of args := written (config s6)]> (files w)
       else files w.
Proof.
  intros Hhelp Hfile Hc.
  set (s := fixer_of args w).
  destruct (analyzeAndFix_total (loaded s c) Hc) as (s6 & Hpass & Hp).
  exists s6. split; [exact Hpass|].
  pose proof (Pass_Untouched _ _ Hp) as [Hpath Hmode Hfiles Hdenied _ _].
  change (configPath (loaded s c)) with (configPath_of args) in Hpath.
  change (files (world (loaded s c))) with (files w) in Hfiles.
  change (denied (world (loaded s c))) with (denied w) in Hdenied.
  assert (interactive s6 = interactive_of args) as Hi.
  { rewrite Hmode. apply fixer_of_interactive. }
  unfold main. rewrite Hhelp. fold s. unfold run.
  rewrite (bind_of_ret _ _ _ _ _ (say_printed _ _ _)). unfold try_catch.
  rewrite (bind_of_ret _ _ _ _ _
             (loadConfig_document (printed s [(AutoFixBanner, cyan)]) c Hfile)).
  change (printed (with_config _ c) _) with (loaded s c).
  rewrite (bind_of_ret _ _ _ _ _ Hpass).
  destruct (displaySummary_prints s6) as [out Hout].
  rewrite (bind_of_ret _ _ _ _ _ Hout).
  unfold bind at 1, gets.
  change (fixes (printed s6 out)) with (fixes s6).
  destruct (0 <? length (fixes s6))%nat; cbn [when andb].
  - destruct (saveConfig_files (printed s6 out)) as (r & s7 & Hsave & Hwritten).
    change (interactive (printed s6 out)) with (interactive s6) in Hwritten.
    change (configPath (printed s6 out)) with (configPath s6) in Hwritten.
    change (config (printed s6 out)) with (config s6) in Hwritten.
    change (denied (world (printed s6 out))) with (denied (world s6)) in Hwritten.
    change (files (world (printed s6 out))) with (files (world s6)) in Hwritten.
    change (next_answer (printed s6 out)) with (next_answer s6) in Hwritten.
    rewrite Hi, Hpath, Hdenied, Hfiles in Hwritten.
    destruct r as [[]|e].
    + rewrite (bind_of_ret _ _ _ _ _ Hsave). cbn. exact Hwritten.
    + rewrite (bind_of_throw _ _ _ _ _ Hsave).
      rewrite (bind_of_ret _ _ _ _ _ (say_printed _ _ _)). cbn. exact Hwritten.
  - cbn. exact Hfiles.
Qed.

(** X21.  On a document of the data model the auto-fixer (run without
    --help) writes the configuration file exactly when the pass recorded a
    fix, the mode is non-interactive or the next answer of the operator is
    y after lower-casing, and the write is not refused; what it writes is
    the document the pass left. In every other case the files are as they
    were. *)
Theorem document_written_iff args w c :
  has_flag args "--help" = false ->
  files w !! configPath_of args = Some (Doc c) ->
  Configuration c = true ->
  exists s6,
    analyzeAndFix (loaded (fixer_of args w) c) = (Ret tt, s6)
    /\ files (snd (main args w)) =
       if (0 <? length (fixes s6))%nat
          && (negb (interactive_of args) || (toLowerCase (next_answer s6) =? "y"))
          && negb (bool_decide (configPath_of args ∈ denied w))
       then <[configPath_of args := written (config s6)]> (files w)
       else files w.
Proof. apply main_files. Qed.
End Saving.

(** ** The file system *)

Lemma get_in_app p r : forall c,
  get_in c (p ++ r) = obind (get_in c p) (fun d => get_in d r).
Proof.
  induction p as [|k p IH]; intros c; [reflexivity|].
  cbn [app get_in]. destruct (get c k) as [d|e]; cbn [obind]; [apply IH|reflexivity].
Qed.

(** A truthy setting can be read, and so can the settings beside it. *)
Lemma get_member_truthy c k :
  truthy (member c k) = true -> forall k', get c k' = Ret (member c k').
Proof. destruct c; try discriminate; reflexivity. Qed.

Lemma get_in_truthy p : forall c,
  truthy (field c p) = true -> get_in c p = Ret (field c p).
Proof.
  induction p as [|k p IH]; intros c Ht; [reflexivity|].
  cbn [get_in field] in *.
  assert (truthy (member c k) = true) as Hm.
  { destruct (truthy (member c k)) eqn:E; [reflexivity|].
    destruct p as [|k' p']; [cbn in Ht; congruence|].
    rewrite field_falsy in Ht by (assumption || discriminate). discriminate. }
  rewrite (get_member_truthy c k Hm k). cbn [obind]. now apply IH.
Qed.

Lemma truthy_above c p k :
  truthy (field c (p ++ [k])) = true -> truthy (field c p) = true.
Proof.
  intros Ht. destruct (truthy (field c p)) eqn:E; [reflexivity|].
  rewrite field_app, field_falsy in Ht by (assumption || discriminate).
  discriminate.
Qed.

Lemma get_in_beside c p k k' :
  truthy (field c (p ++ [k])) = true ->
  get_in c (p ++ [k']) = Ret (field c (p ++ [k'])).
Proof.
  intros Ht. rewrite get_in_app, (get_in_truthy p c (truthy_above _ _ _ Ht)).
  cbn [obind get_in]. rewrite field_app in *. cbn [field] in *.
  rewrite (get_member_truthy _ k Ht k'). reflexivity.
Qed.

Lemma builds_nothing_same {A} (m : M ConfigAutoFix A) :
  (forall s, world (snd (m s)) = world s) -> builds_nothing m.
Proof. intros Hm s. now rewrite Hm. Qed.

Lemma builds_nothing_ret {A} (a : A) : builds_nothing (ret a).
Proof. now intros s. Qed.

Lemma builds_nothing_throw {A} e : builds_nothing (throw (A:=A) e).
Proof. now intros s. Qed.

Lemma builds_nothing_lift {A} (o : outcome A) : builds_nothing (lift o).
Proof. now intros s. Qed.

Lemma builds_nothing_gets {A} (f : ConfigAutoFix -> A) : builds_nothing (gets f).
Proof. now intros s. Qed.

Lemma builds_nothing_bind {A B} (m : M ConfigAutoFix A) (k : A -> M ConfigAutoFix B) :
  builds_nothing m -> (forall a, builds_nothing (k a)) -> builds_nothing (bind m k).
Proof.
  intros Hm Hk s. unfold bind. specialize (Hm s).
  destruct (m s) as [[a|e] s1]; [|exact Hm].
  cbn [snd] in Hm. now rewrite Hk.
Qed.

Lemma builds_nothing_try_catch {A} (m : M ConfigAutoFix A) h :
  builds_nothing m -> (forall e, builds_nothing (h e)) ->
  builds_nothing (try_catch m h).
Proof.
  intros Hm Hh s. unfold try_catch. specialize (Hm s).
  destruct (m s) as [[a|e] s1]; [exact Hm|].
  cbn [snd] in Hm. now rewrite Hh.
Qed.

Lemma builds_nothing_when b (m : M ConfigAutoFix unit) :
  builds_nothing m -> builds_nothing (when b m).
Proof. destruct b; [auto|intros _; apply builds_nothing_ret]. Qed.

Lemma builds_nothing_andM (a b : M ConfigAutoFix bool) :
  builds_nothing a -> builds_nothing b -> builds_nothing (a &&& b).
Proof.
  intros Ha Hb. apply builds_nothing_bind; [exact Ha|].
  intros []; [exact Hb|apply builds_nothing_ret].
Qed.

Section Directories.
Context `{Host}.

Lemma builds_nothing_say m c : builds_nothing (say m c).
Proof. now intros s. Qed.

Lemma builds_nothing_prompt q : builds_nothing (prompt q).
Proof. now intros s. Qed.

Lemma builds_nothing_rd path : builds_nothing (rd path).
Proof. now intros s. Qed.

Lemma builds_nothing_assign path x : builds_nothing (assign path x).
Proof.
  intros s. unfold assign, bind, gets, lift, modify.
  now destruct (set_in (config s) path x).
Qed.

Lemma builds_nothing_present path : builds_nothing (present path).
Proof.
  apply builds_nothing_bind; [apply builds_nothing_rd|intros; apply builds_nothing_ret].
Qed.

Lemma builds_nothing_is_str path t : builds_nothing (is_str path t).
Proof.
  apply builds_nothing_bind; [apply builds_nothing_rd|intros; apply builds_nothing_ret].
Qed.

Lemma builds_nothing_is_bool path b : builds_nothing (is_bool path b).
Proof.
  apply builds_nothing_bind; [apply builds_nothing_rd|intros; apply builds_nothing_ret].
Qed.

Lemma builds_nothing_push_fix f : builds_nothing (push_fix f).
Proof. now intros s. Qed.

Lemma builds_nothing_push_warning w : builds_nothing (push_warning w).
Proof. now intros s. Qed.

Ltac quiet :=
  repeat first
    [ apply builds_nothing_ret | apply builds_nothing_throw
    | apply builds_nothing_lift | apply builds_nothing_gets
    | apply builds_nothing_say | apply builds_nothing_prompt
    | apply builds_nothing_rd | apply builds_nothing_assign
    | apply builds_nothing_present | apply builds_nothing_is_str
    | apply builds_nothing_is_bool
    | apply builds_nothing_push_fix | apply builds_nothing_push_warning
    | apply builds_nothing_andM
    | apply builds_nothing_when
    | apply builds_nothing_bind; [|intros ?]
    | apply builds_nothing_try_catch; [|intros ?]
    | match goal with
      | |- builds_nothing (if ?b then _ else _) => destruct b
      | |- builds_nothing (match ?x with _ => _ end) => destruct x
      | |- builds_nothing (let _ := _ in _) => cbv zeta
      end ].

Lemma builds_nothing_validateOrigins origins valid :
  builds_nothing (validateOrigins origins valid).
Proof.
  revert valid. induction origins as [|origin rest IH]; intros valid;
    cbn [validateOrigins].
  - apply builds_nothing_ret.
  - destruct (URL_protocol origin) as [protocol|].
    + destruct (negb _ && negb _); [|apply IH].
      apply builds_nothing_bind; [apply builds_nothing_say|intros _; apply IH].
    + apply builds_nothing_bind; [apply builds_nothing_say|intros _; apply IH].
Qed.

Lemma builds_nothing_fixPlaceholderApiUrl : builds_nothing fixPlaceholderApiUrl.
Proof. unfold fixPlaceholderApiUrl. quiet. Qed.

Lemma builds_nothing_fixWildcardCors : builds_nothing fixWildcardCors.
Proof.
  unfold fixWildcardCors. quiet.
  all: try apply builds_nothing_validateOrigins. all: quiet.
Qed.

Lemma builds_nothing_fixEnvironmentSettings : builds_nothing fixEnvironmentSettings.
Proof. unfold fixEnvironmentSettings. quiet. Qed.

Lemma builds_nothing_fixProductionSecurity : builds_nothing fixProductionSecurity.
Proof. unfold fixProductionSecurity. quiet. Qed.

Lemma builds_nothing_optimizePerformanceSettings :
  builds_nothing optimizePerformanceSettings.
Proof. unfold optimizePerformanceSettings, present_opt. quiet. Qed.

(** The directories when the last rule starts are the ones the pass found *)
Lemma Trace_dirs s s1 s2 s3 s4 s5 s' :
  Trace s s1 s2 s3 s4 s5 s' -> dirs (world s5) = dirs (world s).
Proof.
  intros Ht.
  pose proof (builds_nothing_optimizePerformanceSettings s4) as E5.
  rewrite (trace_performance _ _ _ _ _ _ _ Ht) in E5.
  pose proof (builds_nothing_fixProductionSecurity s3) as E4.
  rewrite (trace_production _ _ _ _ _ _ _ Ht) in E4.
  pose proof (builds_nothing_fixEnvironmentSettings s2) as E3.
  rewrite (trace_environment _ _ _ _ _ _ _ Ht) in E3.
  pose proof (builds_nothing_fixWildcardCors s1) as E2.
  rewrite (trace_cors _ _ _ _ _ _ _ Ht) in E2.
  pose proof (builds_nothing_fixPlaceholderApiUrl (prepared s)) as E1.
  rewrite (trace_placeholder _ _ _ _ _ _ _ Ht) in E1.
  cbn [snd] in *. rewrite E5, E4, E3, E2, E1. reflexivity.
Qed.

(** The log directory cannot be created: two yellow lines, and the rule
    returns. *)
Lemma fixLoggingSettings_mkdir_denied s dir :
  truthy (field (config s) ["logging"; "enableFile"]) = true ->
  (if truthy (field (config s) ["logging"; "logDirectory"])
   then field (config s) ["logging"; "logDirectory"]
   else VStr "./logs") = VStr dir ->
  files (world s) !! path_resolve (path_dirname (configPath s)) dir = None ->
  path_resolve (path_dirname (configPath s)) dir ∉ dirs (world s) ->
  path_resolve (path_dirname (configPath s)) dir ∈ denied (world s) ->
  fixLoggingSettings s =
  (Ret tt, printed s [(CouldNotCreateLogDirectory, yellow);
                      (CreateItManually, yellow)]).
Proof.
  intros Hfile Hdir Hnf Hnd Hden.
  pose proof (truthy_above (config s) ["logging"] "enableFile" Hfile) as Hlog.
  pose proof (get_in_truthy ["logging"] _ Hlog) as Glog.
  pose proof (get_in_truthy ["logging"; "enableFile"] _ Hfile) as Gfile.
  pose proof (get_in_beside (config s) ["logging"] "enableFile" "logDirectory" Hfile)
    as Gdir.
  cbn [app] in Gdir.
  unfold fixLoggingSettings, andM, present, rd.
  unfold bind, gets, lift, ret.
  rewrite Glog, Hlog, Gfile, Hfile. cbn [when].
  rewrite Gdir, Hdir.
  unfold io, existsSync, gets. cbn [world with_world].
  rewrite Hnf, (bool_decide_eq_false_2 _ Hnd).
  rewrite bool_decide_eq_false_2 by (intros [? ?]; discriminate).
  cbn [orb negb when].
  unfold try_catch, bind, io, mkdirSync, say, log, modify, printed.
  rewrite (bool_decide_eq_true_2 _ Hden). cbn.
  rewrite with_world_same, <- app_assoc. reflexivity.
Qed.

(** The same at the end of a pass on a document of the data model *)
Lemma analyzeAndFix_mkdir_denied s dir :
  Configuration (config s) = true ->
  truthy (field (config s) ["logging"; "enableFile"]) = true ->
  (if truthy (field (config s) ["logging"; "logDirectory"])
   then field (config s) ["logging"; "logDirectory"]
   else VStr "./logs") = VStr dir ->
  files (world s) !! path_resolve (path_dirname (configPath s)) dir = None ->
  path_resolve (path_dirname (configPath s)) dir ∉ dirs (world s) ->
  path_resolve (path_dirname (configPath s)) dir ∈ denied (world s) ->
  exists s5,
    analyzeAndFix s =
    (Ret tt, printed s5 [(CouldNotCreateLogDirectory, yellow);
                         (CreateItManually, yellow)])
    /\ dirs (world s5) = dirs (world s).
Proof.
  intros Hc Hfile Hdir Hnf Hnd Hden.
  destruct (trace_of_configuration s Hc) as (s1 & s2 & s3 & s4 & s5 & s' & Ht).
  pose proof (Trace_dirs _ _ _ _ _ _ _ Ht) as Hdirs.
  exists s5. split; [|exact Hdirs]. open_trace Ht. rewrite Hrun. f_equal.
  assert (forall q, In q [["logging"; "enableFile"]; ["logging"; "logDirectory"]] ->
                    field (config s5) q = field (config s) q) as Hsame.
  { intros q Hq.
    rewrite (step_field _ _ _ _ _ _ Hstep5), (step_field _ _ _ _ _ _ Hstep4),
      (step_field _ _ _ _ _ _ Hstep3), (step_field _ _ _ _ _ _ Hstep2),
      (step_field _ _ _ _ _ _ Hstep1)
      by (cbn in Hq; intuition (subst; reflexivity)).
    apply Hdefaults. cbn in Hq. intuition (subst; reflexivity). }
  assert (configPath s5 = configPath s) as Hpath.
  { rewrite (step_configPath _ _ _ _ _ Hstep5), (step_configPath _ _ _ _ _ Hstep4),
      (step_configPath _ _ _ _ _ Hstep3), (step_configPath _ _ _ _ _ Hstep2),
      (step_configPath _ _ _ _ _ Hstep1). reflexivity. }
  assert (denied (world s5) = denied (world s)) as Hdenied.
  { rewrite (step_denied _ _ _ _ _ Hstep5), (step_denied _ _ _ _ _ Hstep4),
      (step_denied _ _ _ _ _ Hstep3), (step_denied _ _ _ _ _ Hstep2),
      (step_denied _ _ _ _ _ Hstep1). reflexivity. }
  assert (files (world s5) = files (world s)) as Hfiles.
  { rewrite (step_files _ _ _ _ _ Hstep5), (step_files _ _ _ _ _ Hstep4),
      (step_files _ _ _ _ _ Hstep3), (step_files _ _ _ _ _ Hstep2),
      (step_files _ _ _ _ _ Hstep1). reflexivity. }
  pose proof (fixLoggingSettings_mkdir_denied s5 dir) as Hlast.
  rewrite !Hsame, Hpath, Hdenied, Hfiles, Hdirs in Hlast by (cbn; tauto).
  specialize (Hlast Hfile Hdir Hnf Hnd Hden).
  rewrite Erun6 in Hlast. now injection Hlast.
Qed.

(** The log directory can be created, and no file has its name *)
Lemma fixLoggingSettings_creates s full :
  Ready (config s) = true ->
  truthy (field (config s) ["logging"; "enableFile"]) = true ->
  log_directory s = Some full ->
  full ∉ denied (world s) ->
  wp fixLoggingSettings
     (fun _ s' =>
        (files (world s) !! full = None -> full ∈ dirs (world s'))
        /\ (is_Some (files (world s) !! full) -> dirs (world s') = dirs (world s))) s.
Proof.
  intros Hr Hfile Hdir Hok. unfold log_directory in Hdir.
  unfold fixLoggingSettings.
  repeat wp_step; [|congruence].
  destruct (if truthy (field (config s) ["logging"; "logDirectory"])
            then field (config s) ["logging"; "logDirectory"]
            else VStr "./logs") as [| | | |dir| |]; try discriminate.
  injection Hdir as <-.
  apply wp_bind, wp_existsSync.
  destruct (bool_decide (is_Some _)) eqn:Ef; cbn [orb negb when].
  { apply wp_ret. apply bool_decide_eq_true_1 in Ef. split; [|reflexivity].
    intros Hn. rewrite Hn in Ef. now destruct Ef. }
  apply bool_decide_eq_false_1 in Ef.
  destruct (bool_decide (_ ∈ dirs _)) eqn:Ed; cbn [orb negb when].
  { apply wp_ret. apply bool_decide_eq_true_1 in Ed. split; [auto|reflexivity]. }
  apply wp_mkdir; [|intros Hko; now destruct Hok].
  intros _. split; [|intros Hs; now destruct Ef].
  intros _. cbn. unfold made. set_solver.
Qed.

(** X22.  On a document of the data model, when logging.enableFile is
    truthy and creating the log directory (logging.logDirectory, or
    ./logs, resolved from the directory of the configuration file) is not
    refused, the rule pass completes; if no file is at the path of the
    directory, the directory exists after the pass, and if a file is at
    that path, the pass creates no directory. *)
Theorem log_directory_ensured s full :
  Configuration (config s) = true ->
  truthy (field (config s) ["logging"; "enableFile"]) = true ->
  log_directory s = Some full ->
  full ∉ denied (world s) ->
  exists s',
    analyzeAndFix s = (Ret tt, s')
    /\ (files (world s) !! full = None -> full ∈ dirs (world s'))
    /\ (is_Some (files (world s) !! full) -> dirs (world s') = dirs (world s)).
Proof.
  intros Hc Hfile Hdir Hok.
  destruct (trace_of_configuration s Hc) as (s1 & s2 & s3 & s4 & s5 & s' & Ht).
  pose proof (Trace_dirs _ _ _ _ _ _ _ Ht) as Hdirs.
  exists s'. open_trace Ht. split; [exact Hrun|].
  assert (forall q, In q [["logging"; "enableFile"]; ["logging"; "logDirectory"]] ->
                    field (config s5) q = field (config s) q) as Hsame.
  { intros q Hq.
    rewrite (step_field _ _ _ _ _ _ Hstep5), (step_field _ _ _ _ _ _ Hstep4),
      (step_field _ _ _ _ _ _ Hstep3), (step_field _ _ _ _ _ _ Hstep2),
      (step_field _ _ _ _ _ _ Hstep1)
      by (cbn in Hq; intuition (subst; reflexivity)).
    apply Hdefaults. cbn in Hq. intuition (subst; reflexivity). }
  assert (configPath s5 = configPath s) as Hpath.
  { rewrite (step_configPath _ _ _ _ _ Hstep5), (step_configPath _ _ _ _ _ Hstep4),
      (step_configPath _ _ _ _ _ Hstep3), (step_configPath _ _ _ _ _ Hstep2),
      (step_configPath _ _ _ _ _ Hstep1). reflexivity. }
  assert (denied (world s5) = denied (world s)) as Hden.
  { rewrite (step_denied _ _ _ _ _ Hstep5), (step_denied _ _ _ _ _ Hstep4),
      (step_denied _ _ _ _ _ Hstep3), (step_denied _ _ _ _ _ Hstep2),
      (step_denied _ _ _ _ _ Hstep1). reflexivity. }
  assert (files (world s5) = files (world s)) as Hfiles.
  { rewrite (step_files _ _ _ _ _ Hstep5), (step_files _ _ _ _ _ Hstep4),
      (step_files _ _ _ _ _ Hstep3), (step_files _ _ _ _ _ Hstep2),
      (step_files _ _ _ _ _ Hstep1). reflexivity. }
  assert (Ready (config s5) = true) as Hr5 by exact (step_ready _ _ _ _ _ Hstep5).
  assert (log_directory s5 = Some full) as Hdir5.
  { unfold log_directory in *. rewrite Hpath, Hsame by (cbn; tauto). exact Hdir. }
  assert (wp fixLoggingSettings
            (fun _ s' =>
               (files (world s5) !! full = None -> full ∈ dirs (world s'))
               /\ (is_Some (files (world s5) !! full) ->
                   dirs (world s') = dirs (world s5))) s5) as Hwp.
  { apply fixLoggingSettings_creates; [exact Hr5| |exact Hdir5|now rewrite Hden].
    rewrite Hsame by (cbn; tauto). exact Hfile. }
  apply wp_returns in Hwp as ([] & s6 & E & Hpost).
  rewrite Erun6 in E. injection E as <-.
  rewrite Hfiles, Hdirs in Hpost. exact Hpost.
Qed.
End Directories.

Section Refused.
Context `{Host}.

(** The write is attempted and refused *)
Lemma saveConfig_refused s :
  interactive s = false \/ toLowerCase (next_answer s) = "y" ->
  configPath s ∈ denied (world s) ->
  exists s',
    saveConfig s = (Throw (Error FailedToSave), s')
    /\ files (world s') = files (world s)
    /\ exists out, stdout (world s') = stdout (world s) ++ out.
Proof.
  intros Hyes Hd. unfold saveConfig, next_answer in *.
  unfold bind at 1, gets. destruct (interactive s) eqn:Hi.
  - destruct Hyes as [Hyes|Hyes]; [discriminate|].
    unfold bind at 1. unfold bind at 1, prompt, io.
    rewrite Hyes, String.eqb_refl. cbn [negb].
    unfold try_catch, bind, gets, io, writeFileSync, say, log, modify, ret, throw.
    cbn [world with_world config configPath denied with_answered with_stdout].
    rewrite !bool_decide_eq_true_2 by exact Hd. cbn.
    eexists. split; [reflexivity|]. split; [reflexivity|]. cbn. eauto.
  - unfold bind at 1, ret.
    unfold try_catch, bind, gets, io, writeFileSync, say, log, modify, throw.
    rewrite !bool_decide_eq_true_2 by exact Hd. cbn.
    eexists. split; [reflexivity|]. split; [reflexivity|].
    exists []. now rewrite app_nil_r.
Qed.

Lemma run_save_refused s c s6 :
  files (world s) !! configPath s = Some (Doc c) ->
  analyzeAndFix (loaded s c) = (Ret tt, s6) ->
  fixes s6 <> [] ->
  interactive s6 = false \/ toLowerCase (next_answer s6) = "y" ->
  configPath s6 ∈ denied (world s6) ->
  exists s' out,
    run s = (Ret false, s')
    /\ stdout (world s') =
       stdout (world s6) ++ out ++ [(ErrorLine (Error FailedToSave), red)]
    /\ files (world s') = files (world s6).
Proof.
  intros Hfile Hpass Hfix Hyes Hd. unfold run.
  rewrite (bind_of_ret _ _ _ _ _ (say_printed _ _ _)). unfold try_catch.
  rewrite (bind_of_ret _ _ _ _ _
             (loadConfig_document (printed s [(AutoFixBanner, cyan)]) c Hfile)).
  change (printed (with_config _ c) _) with (loaded s c).
  rewrite (bind_of_ret _ _ _ _ _ Hpass).
  destruct (displaySummary_prints s6) as [out Hout].
  rewrite (bind_of_ret _ _ _ _ _ Hout).
  unfold bind at 1, gets. cbn [fixes printed with_world].
  destruct (fixes s6) as [|f l] eqn:Ef; [congruence|].
  cbn [length Nat.ltb Nat.leb when].
  destruct (saveConfig_refused (printed s6 out) Hyes Hd)
    as (s7 & Hsave & Hfiles & out' & Hstdout).
  rewrite (bind_of_throw _ _ _ _ _ Hsave).
  rewrite (bind_of_ret _ _ _ _ _ (say_printed _ _ _)).
  unfold ret. eexists _, (out ++ out'). split; [reflexivity|].
  cbn [printed world with_world stdout files with_stdout] in *. split.
  - rewrite Hstdout. now rewrite <- !app_assoc.
  - exact Hfiles.
Qed.

(** C7, amended.  A refused creation of the log directory is reported in
    yellow and the rule returns normally, in whatever state it runs; on a
    document of the data model the rule pass completes with these two
    lines, having created no directory.  A refused write of the fixed
    document is another matter, in non-interactive mode and also when the
    operator has confirmed the save: [saveConfig] raises, [run] prints the
    error in red and returns [false], the process exits with code 1 and
    the files are as they were. *)
Theorem file_system_errors args w c :
  has_flag args "--help" = false ->
  files w !! configPath_of args = Some (Doc c) ->
  Configuration c = true ->
  (forall s dir,
     truthy (field (config s) ["logging"; "enableFile"]) = true ->
     (if truthy (field (config s) ["logging"; "logDirectory"])
      then field (config s) ["logging"; "logDirectory"]
      else VStr "./logs") = VStr dir ->
     files (world s) !! path_resolve (path_dirname (configPath s)) dir = None ->
     path_resolve (path_dirname (configPath s)) dir ∉ dirs (world s) ->
     path_resolve (path_dirname (configPath s)) dir ∈ denied (world s) ->
     fixLoggingSettings s =
     (Ret tt, printed s [(CouldNotCreateLogDirectory, yellow);
                         (CreateItManually, yellow)]))
  /\ exists s6,
       analyzeAndFix (loaded (fixer_of args w) c) = (Ret tt, s6)
       /\ (forall dir,
             truthy (field c ["logging"; "enableFile"]) = true ->
             (if truthy (field c ["logging"; "logDirectory"])
              then field c ["logging"; "logDirectory"]
              else VStr "./logs") = VStr dir ->
             files w !! path_resolve (path_dirname (configPath_of args)) dir = None ->
             path_resolve (path_dirname (configPath_of args)) dir ∉ dirs w ->
             path_resolve (path_dirname (configPath_of args)) dir ∈ denied w ->
             dirs (world s6) = dirs w
             /\ exists out,
                  stdout (world s6) =
                  out ++ [(CouldNotCreateLogDirectory, yellow);
                          (CreateItManually, yellow)])
       /\ (fixes s6 <> [] ->
           interactive_of args = false \/ toLowerCase (next_answer s6) = "y" ->
           configPath_of args ∈ denied w ->
           exists s' out,
             run (fixer_of args w) = (Ret false, s')
             /\ stdout (world s') = out ++ [(ErrorLine (Error FailedToSave), red)]
             /\ fst (main args w) = 1%Z
             /\ files (snd (main args w)) = files w)
       /\ (fixes s6 <> [] -> interactive_of args = false ->
           configPath_of args ∈ denied w ->
           exists out,
             run (fixer_of args w) =
             (Ret false,
              printed s6 (out ++ [(ErrorLine (Error FailedToSave), red)]))).
Proof.
  intros Hhelp Hfile Hc. split; [exact fixLoggingSettings_mkdir_denied|].
  set (s := fixer_of args w).
  destruct (analyzeAndFix_total (loaded s c) Hc) as (s6 & Hpass & Hp).
  pose proof (Pass_Untouched _ _ Hp) as Hun.
  assert (interactive s6 = interactive_of args) as Hi6.
  { rewrite (same_interactive _ _ Hun).
    cbn [interactive loaded printed with_world with_config].
    unfold s. apply fixer_of_interactive. }
  assert (configPath_of args ∈ denied w -> configPath s6 ∈ denied (world s6)) as Hd6.
  { intros Hd. rewrite (same_configPath _ _ Hun), (same_denied _ _ Hun). exact Hd. }
  exists s6. split; [exact Hpass|]. split; [|split].
  - intros dir Hlog Hdir Hnf Hnd Hden.
    destruct (analyzeAndFix_mkdir_denied (loaded s c) dir Hc Hlog Hdir Hnf Hnd Hden)
      as (s5 & Hrun & Hdirs).
    rewrite Hpass in Hrun. injection Hrun as ->.
    split; [exact Hdirs|]. cbn. eexists. reflexivity.
  - intros Hne Hyes Hd.
    destruct (run_save_refused s c s6 Hfile Hpass Hne) as (s' & out & Hrun & Hout & Hf).
    { now rewrite Hi6. }
    { now apply Hd6. }
    exists s', (stdout (world s6) ++ out). split; [exact Hrun|].
    split; [now rewrite Hout, app_assoc|].
    unfold main. rewrite Hhelp. fold s. rewrite Hrun. split; [reflexivity|].
    cbn [snd]. rewrite Hf. exact (same_files _ _ Hun).
  - intros Hne Hi Hd. apply (run_save_denied s c s6 Hfile Hpass Hne).
    + now rewrite Hi6.
    + now apply Hd6.
Qed.
End Refused.

(** ** The changes of a pass without prompts *)

Lemma member_set c k x c' k' :
  set c k x = Ret c' ->
  member c' k' = if String.eqb k k' then x else member c k'.
Proof.
  destruct c; try discriminate; cbn; intros [= <-]; unfold member; cbn;
    (destruct (String.eqb_spec k k') as [->|Hne];
     [now rewrite lookup_insert_eq|now rewrite lookup_insert_ne]).
Qed.

Lemma member_get c k d : get c k = Ret d -> member c k = d.
Proof. unfold member. now intros ->. Qed.

Lemma set_in_apart p x : forall q c c',
  set_in c p x = Ret c' -> apart q p = true -> field c' q = field c q.
Proof.
  induction p as [|k rest IH]; intros q c c' Hs Ha.
  - unfold apart in Ha. destruct q; cbn in Ha; discriminate.
  - destruct q as [|k' q']; [discriminate|].
    unfold apart in Ha. cbn [is_prefix] in Ha. cbn [field].
    destruct rest as [|k2 rest'].
    + cbn [set_in] in Hs. rewrite (member_set _ _ _ _ k' Hs).
      destruct (String.eqb_spec k k') as [->|Hne]; [|reflexivity].
      rewrite String.eqb_refl in Ha. cbn in Ha.
      destruct q'; discriminate.
    + rewrite set_in_cons in Hs.
      destruct (get c k) as [d|] eqn:Hg; [|discriminate]. cbn [obind] in Hs.
      destruct (set_in d (k2 :: rest') x) as [d'|] eqn:Hd; [|discriminate].
      cbn [obind] in Hs. rewrite (member_set _ _ _ _ k' Hs).
      destruct (String.eqb_spec k k') as [->|Hne]; [|reflexivity].
      rewrite String.eqb_refl in Ha. cbn [andb] in Ha.
      rewrite (member_get _ _ _ Hg). now apply (IH q' d d').
Qed.

Lemma set_in_below p x r : forall c c',
  p <> [] -> set_in c p x = Ret c' -> field c' (p ++ r) = field x r.
Proof.
  induction p as [|k rest IH]; intros c c' Hne Hs; [congruence|].
  cbn [app field]. destruct rest as [|k2 rest'].
  - cbn [set_in] in Hs. rewrite (member_set _ _ _ _ k Hs).
    now rewrite String.eqb_refl.
  - rewrite set_in_cons in Hs.
    destruct (get c k) as [d|] eqn:Hg; [|discriminate]. cbn [obind] in Hs.
    destruct (set_in d (k2 :: rest') x) as [d'|] eqn:Hd; [|discriminate].
    cbn [obind] in Hs. rewrite (member_set _ _ _ _ k Hs).
    rewrite String.eqb_refl. now apply (IH d d').
Qed.

Lemma outside_rules_automatic q p :
  outside_rules q = true -> In p automatic -> apart q p = true.
Proof.
  unfold outside_rules. intros Ho Hin. apply andb_true_iff in Ho as [_ Ho].
  rewrite forallb_forall in Ho. now apply Ho.
Qed.

Lemma outside_rules_ensured q p :
  outside_rules q = true -> In p ensured -> is_prefix q p = false.
Proof.
  unfold outside_rules, below_sections. intros Ho Hin.
  apply andb_true_iff in Ho as [Ho _].
  rewrite forallb_forall in Ho. apply negb_true_iff. now apply Ho.
Qed.

(** What such changes leave alone *)
Lemma Edited_outside c c' :
  Edited c c' ->
  forall q, outside_rules q = true -> field c' q = field c q.
Proof.
  induction 1 as [c|c p c' c'' Hin Hf Hs _ IH|c p x c' c'' Hin Hs _ IH];
    intros q Hq; [reflexivity| |].
  - rewrite IH by assumption.
    pose proof (outside_rules_ensured _ _ Hq Hin) as Hqp.
    destruct (is_prefix p q) eqn:Hpq.
    + apply is_prefix_app in Hpq as [r ->].
      assert (r <> []) as Hr.
      { intros ->. rewrite app_nil_r, is_prefix_refl in Hqp. discriminate. }
      assert (p <> []) as Hp.
      { intros ->. cbn in Hin. intuition discriminate. }
      rewrite (set_in_below _ _ _ _ _ Hp Hs), field_app.
      rewrite field_empty_object by assumption.
      symmetry. now apply field_falsy.
    + apply (set_in_apart _ _ _ _ _ Hs). unfold apart. now rewrite Hqp, Hpq.
  - rewrite IH by assumption.
    apply (set_in_apart _ _ _ _ _ Hs). now apply outside_rules_automatic.
Qed.

Lemma Edited_trans c1 c2 c3 : Edited c1 c2 -> Edited c2 c3 -> Edited c1 c3.
Proof.
  induction 1; intros H3; [assumption| |].
  - eapply Edited_insert; eauto.
  - eapply Edited_assign; eauto.
Qed.

Lemma edits_same {A} (m : M ConfigAutoFix A) :
  (forall s, interactive (snd (m s)) = interactive s
             /\ config (snd (m s)) = config s) ->
  edits m.
Proof.
  intros Hm s Hi. destruct (Hm s) as [-> ->]. split; [exact Hi|constructor].
Qed.

Lemma edits_ret {A} (a : A) : edits (ret a).
Proof. now apply edits_same. Qed.

Lemma edits_throw {A} e : edits (throw (A:=A) e).
Proof. now apply edits_same. Qed.

Lemma edits_lift {A} (o : outcome A) : edits (lift o).
Proof. now apply edits_same. Qed.

Lemma edits_gets {A} (f : ConfigAutoFix -> A) : edits (gets f).
Proof. now apply edits_same. Qed.

Lemma edits_bind {A B} (m : M ConfigAutoFix A) (k : A -> M ConfigAutoFix B) :
  edits m -> (forall a, edits (k a)) -> edits (bind m k).
Proof.
  intros Hm Hk s Hi. unfold bind. destruct (Hm s Hi) as [Hi1 He1].
  destruct (m s) as [[a|e] s1]; [|now split].
  cbn [snd] in *. destruct (Hk a s1 Hi1) as [Hi2 He2].
  split; [exact Hi2|]. exact (Edited_trans _ _ _ He1 He2).
Qed.

(** The mode is read, and it is the one without prompts *)
Lemma edits_unprompted {B} (k : bool -> M ConfigAutoFix B) :
  edits (k false) -> edits (bind (gets interactive) k).
Proof.
  intros Hk s Hi. unfold bind, gets. rewrite Hi. now apply Hk.
Qed.

Lemma edits_try_catch {A} (m : M ConfigAutoFix A) h :
  edits m -> (forall e, edits (h e)) -> edits (try_catch m h).
Proof.
  intros Hm Hh s Hi. unfold try_catch. destruct (Hm s Hi) as [Hi1 He1].
  destruct (m s) as [[a|e] s1]; [now split|].
  cbn [snd] in *. destruct (Hh e s1 Hi1) as [Hi2 He2].
  split; [exact Hi2|]. exact (Edited_trans _ _ _ He1 He2).
Qed.

Lemma edits_when b (m : M ConfigAutoFix unit) : edits m -> edits (when b m).
Proof. destruct b; [auto|intros _; apply edits_ret]. Qed.

Lemma edits_andM (a b : M ConfigAutoFix bool) : edits a -> edits b -> edits (a &&& b).
Proof.
  intros Ha Hb. apply edits_bind; [exact Ha|]. intros []; [exact Hb|apply edits_ret].
Qed.

Section Edits.
Context `{Host}.

Lemma edits_io {A} (m : M World A) : edits (io m).
Proof.
  apply edits_same. intros s. unfold io. now destruct (m (world s)).
Qed.

Lemma edits_say m c : edits (say m c).
Proof. apply edits_io. Qed.

Lemma edits_rd path : edits (rd path).
Proof. now apply edits_same. Qed.

Lemma edits_present path : edits (present path).
Proof. apply edits_bind; [apply edits_rd|intros; apply edits_ret]. Qed.

Lemma edits_is_str path t : edits (is_str path t).
Proof. apply edits_bind; [apply edits_rd|intros; apply edits_ret]. Qed.

Lemma edits_is_bool path b : edits (is_bool path b).
Proof. apply edits_bind; [apply edits_rd|intros; apply edits_ret]. Qed.

Lemma edits_push_fix f : edits (push_fix f).
Proof. now apply edits_same. Qed.

Lemma edits_push_warning w : edits (push_warning w).
Proof. now apply edits_same. Qed.

Lemma edits_assign path x : In path automatic -> edits (assign path x).
Proof.
  intros Hin s Hi. unfold assign, bind, gets, lift, modify.
  destruct (set_in (config s) path x) as [c'|e] eqn:Hs; cbn.
  - split; [exact Hi|]. eapply Edited_assign; [exact Hin|exact Hs|constructor].
  - split; [exact Hi|constructor].
Qed.

Lemma edits_ensure path : In path ensured -> edits (ensure path).
Proof.
  intros Hin s Hi. unfold ensure, rd, assign, bind, gets, lift, modify.
  destruct (get_in (config s) path) as [x|e] eqn:Hg; [|now split; [|constructor]].
  rewrite <- (get_in_field _ _ _ Hg).
  destruct (truthy (field (config s) path)) eqn:Ht; cbn; [now split; [|constructor]|].
  destruct (set_in (config s) path (VObj ∅)) as [c'|e] eqn:Hs; cbn.
  - split; [exact Hi|].
    eapply Edited_insert; [exact Hin|exact Ht|exact Hs|constructor].
  - split; [exact Hi|constructor].
Qed.

Ltac edit :=
  repeat first
    [ apply edits_ret | apply edits_throw | apply edits_lift
    | apply edits_unprompted; cbv beta iota
    | apply edits_gets
    | apply edits_say | apply edits_io | apply edits_rd
    | apply edits_assign; cbn; tauto
    | apply edits_ensure; cbn; tauto
    | apply edits_present | apply edits_is_str | apply edits_is_bool
    | apply edits_push_fix | apply edits_push_warning
    | apply edits_andM
    | apply edits_when
    | apply edits_bind; [|intros ?]
    | apply edits_try_catch; [|intros ?]
    | match goal with
      | |- edits (if ?b then _ else _) => destruct b
      | |- edits (match ?x with _ => _ end) => destruct x
      | |- edits (let _ := _ in _) => cbv zeta
      end ].

Lemma edits_fixPlaceholderApiUrl : edits fixPlaceholderApiUrl.
Proof. unfold fixPlaceholderApiUrl. edit. Qed.

Lemma edits_fixWildcardCors : edits fixWildcardCors.
Proof. unfold fixWildcardCors. edit. Qed.

Lemma edits_fixEnvironmentSettings : edits fixEnvironmentSettings.
Proof. unfold fixEnvironmentSettings. edit. Qed.

Lemma edits_fixProductionSecurity : edits fixProductionSecurity.
Proof. unfold fixProductionSecurity. edit. Qed.

Lemma edits_optimizePerformanceSettings : edits optimizePerformanceSettings.
Proof. unfold optimizePerformanceSettings, present_opt. edit. Qed.

Lemma edits_fixLoggingSettings : edits fixLoggingSettings.
Proof. unfold fixLoggingSettings. edit. Qed.

Lemma edits_analyzeAndFix : edits analyzeAndFix.
Proof.
  unfold analyzeAndFix.
  repeat (apply edits_bind; [|intros _]).
  all: first [ apply edits_say | apply edits_ensure; cbn; tauto
             | apply edits_fixPlaceholderApiUrl | apply edits_fixWildcardCors
             | apply edits_fixEnvironmentSettings | apply edits_fixProductionSecurity
             | apply edits_optimizePerformanceSettings
             | apply edits_fixLoggingSettings ].
Qed.

(** C10.  Without prompts the auto-fixer changes a document, whatever it
    holds, only by setting missing (falsy) sub-objects of [ensured] to the
    empty object and by assigning settings of [automatic], whether the rule
    pass returns or stops with an exception; so every setting in a section
    apart from these six keeps its value, [api.baseUrl] and
    [security.allowedOrigins] among them.  On a document of the data model
    the pass completes, and its result differs from the document with the
    missing sub-objects inserted at the six settings only. *)
Theorem noninteractive_frame s :
  interactive s = false ->
  Edited (config s) (config (snd (analyzeAndFix s)))
  /\ (forall q, outside_rules q = true ->
                field (config (snd (analyzeAndFix s))) q = field (config s) q)
  /\ field (config (snd (analyzeAndFix s))) ["api"; "baseUrl"] =
     field (config s) ["api"; "baseUrl"]
  /\ field (config (snd (analyzeAndFix s))) ["security"; "allowedOrigins"] =
     field (config s) ["security"; "allowedOrigins"]
  /\ (Configuration (config s) = true ->
      fst (analyzeAndFix s) = Ret tt
      /\ same_except automatic (with_defaults (config s))
                     (config (snd (analyzeAndFix s)))
      /\ (forall q, below_sections q = true ->
                    field (with_defaults (config s)) q = field (config s) q)
      /\ Shaped (config (snd (analyzeAndFix s))) = true).
Proof.
  intros Hi. destruct (edits_analyzeAndFix s Hi) as [_ He].
  pose proof (Edited_outside _ _ He) as Hout.
  split; [exact He|]. split; [exact Hout|].
  split; [now apply Hout|]. split; [now apply Hout|].
  intros Hc. destruct (analyzeAndFix_total s Hc) as (s' & Hrun & Hp).
  rewrite Hrun. cbn [fst snd]. split; [reflexivity|].
  split; [exact (Pass_noninteractive _ _ Hp Hi)|].
  split.
  - open_pass Hp. rewrite config_prepared in Hdefaults. exact Hdefaults.
  - open_pass Hp. apply Ready_Shaped. exact (step_ready _ _ _ _ _ Hstep6).
Qed.
End Edits.

(** ** What is written and read back *)

Lemma stringified_scalar x : json_scalar x = true -> stringified x = Some x.
Proof. destruct x as [| | |[]| | |]; try discriminate; reflexivity. Qed.

Lemma reachable_undefined rest : reachable VUndef rest = true -> rest = [].
Proof. destruct rest; [reflexivity|discriminate]. Qed.

Lemma field_stringified p : forall c d,
  stringified c = Some d ->
  reachable c p = true ->
  json_scalar (field c p) = true ->
  field d p = field c p.
Proof.
  induction p as [|k rest IH]; intros c d Hd Hreach Hx; cbn [field] in *.
  - rewrite (stringified_scalar _ Hx) in Hd. congruence.
  - cbn [reachable] in Hreach. apply andb_true_iff in Hreach as [Hobj Hreach].
    destruct c as [| | | | | |m]; try discriminate.
    cbn [stringified] in Hd. injection Hd as <-.
    unfold member, get in *. rewrite lookup_omap.
    destruct (m !! k) as [y|] eqn:Ek; cbn [default option_bind mbind] in *.
    + destruct (stringified y) as [d|] eqn:Ey; cbn.
      * now apply IH.
      * destruct y; try discriminate.
        -- rewrite (reachable_undefined _ Hreach) in Hx. discriminate.
        -- destruct n; discriminate.
    + rewrite (reachable_undefined _ Hreach) in Hx. discriminate.
Qed.

(** X23.  A setting that is reached through objects and whose value is
    null, a boolean, a string or a finite number is read back unchanged
    from the file that saveConfig writes with JSON.stringify. *)
Theorem saved_settings_read_back c d p :
  written c = Doc d ->
  reachable c p = true ->
  json_scalar (field c p) = true ->
  field d p = field c p.
Proof.
  unfold written. destruct (stringified c) as [d'|] eqn:E; [|discriminate].
  intros [= <-]. now apply field_stringified.
Qed.

Lemma size_element x elems : In x elems -> (size x <= list_sum (map size elems))%nat.
Proof.
  induction elems as [|y elems IH]; [intros []|].
  intros [->|Hin]; cbn [map list_sum foldr].
  - change (list_sum (map size elems)) with (foldr Nat.add 0%nat (map size elems)).
    lia.
  - specialize (IH Hin).
    change (list_sum (map size elems)) with (foldr Nat.add 0%nat (map size elems)) in IH.
    lia.
Qed.

Lemma size_member (m : gmap string value) k x :
  m !! k = Some x ->
  (size x <= map_fold (fun _ x n => size x + n)%nat 0%nat m)%nat.
Proof.
  intros Hk. rewrite (map_fold_delete_L _ _ k x m); [lia| |exact Hk].
  intros. lia.
Qed.

Lemma stringified_stable n : forall v d,
  (size v < n)%nat -> stringified v = Some d -> stringified d = Some d.
Proof.
  induction n as [|n IH]; intros v d Hn Hd; [lia|].
  destruct v as [| |b|[q| | |]|t|elems props|m]; cbn [stringified] in Hd;
    try discriminate; injection Hd as <-; try reflexivity.
  - cbn [stringified]. f_equal. f_equal. rewrite map_map.
    apply map_ext_in. intros x Hin.
    pose proof (size_element x elems Hin) as Hx. cbn [size] in Hn. cbv beta.
    destruct (stringified x) as [y|] eqn:Ex; cbn [from_option id].
    + rewrite (IH x y); [reflexivity|lia|exact Ex].
    + reflexivity.
  - cbn [stringified]. f_equal. f_equal. apply map_eq. intros k.
    rewrite !lookup_omap.
    destruct (m !! k) as [x|] eqn:Ek; cbn; [|reflexivity].
    pose proof (size_member m k x Ek) as Hx. cbn [size] in Hn.
    destruct (stringified x) as [y|] eqn:Ex; cbn; [|reflexivity].
    apply (IH x y); [lia|exact Ex].
Qed.

(** X24.  The document read back from a written file is written as itself:
    saving, loading and saving again gives the same file. *)
Theorem saved_document_is_stable c d :
  written c = Doc d -> written d = Doc d.
Proof.
  unfold written. destruct (stringified c) as [d'|] eqn:E; [|discriminate].
  intros [= <-]. now rewrite (stringified_stable (S (size c)) c d') by (lia || exact E).
Qed.

(** ** Every change is recorded *)

Lemma not_longer {A} (l more : list A) : l ++ more = l -> more = [].
Proof.
  intros E. apply (f_equal length) in E. rewrite length_app in E.
  destruct more; [reflexivity|cbn in E; lia].
Qed.

(** A rule that has recorded a fix has not left the list of fixes as it
    was. *)
Ltac recorded :=
  simpl_state; intros Hfix;
  first
    [ reflexivity
    | exfalso; rewrite <- ?app_assoc in Hfix;
      apply not_longer in Hfix; discriminate Hfix ].

Section Recorded.
Context `{Host}.

Lemma fixPlaceholderApiUrl_recorded s :
  Ready (config s) = true ->
  wp fixPlaceholderApiUrl (fun _ s' => Recorded s s') s.
Proof.
  intros Hr. unfold fixPlaceholderApiUrl, Recorded.
  repeat wp_more. all: recorded.
Qed.

Lemma fixWildcardCors_recorded s :
  Ready (config s) = true ->
  wp fixWildcardCors (fun _ s' => Recorded s s') s.
Proof.
  intros Hr. unfold fixWildcardCors, Recorded.
  assert (absent_or is_array (field (config s) ["security"; "allowedOrigins"]) = true)
    as Harr.
  { unfold Ready in Hr. apply andb_true_iff in Hr as [Hr _].
    now apply andb_true_iff in Hr as [_ Hr]. }
  assert (absent_or is_scalar (field (config s) ["platform"; "environment"]) = true)
    as Henv.
  { unfold Ready in Hr. apply andb_true_iff in Hr as [Hr _].
    apply andb_true_iff in Hr as [Hr _].
    now apply andb_true_iff in Hr as [_ Hr]. }
  destruct (ToString_scalar _ Henv) as [shown Hshown].
  repeat first
    [ wp_more
    | eapply wp_lift; [apply includes_array; now apply absent_or_truthy|]
    | eapply wp_lift; [exact Hshown|]
    | eapply wp_mono; [apply wp_validateOrigins|];
      intros ? ? [out ->] ].
  all: recorded.
Qed.

Lemma fixEnvironmentSettings_recorded s :
  Ready (config s) = true ->
  wp fixEnvironmentSettings (fun _ s' => Recorded s s') s.
Proof.
  intros Hr. unfold fixEnvironmentSettings, Recorded.
  repeat wp_more. all: recorded.
Qed.

Lemma fixProductionSecurity_recorded s :
  Ready (config s) = true ->
  wp fixProductionSecurity (fun _ s' => Recorded s s') s.
Proof.
  intros Hr. unfold fixProductionSecurity, Recorded.
  repeat wp_more. all: recorded.
Qed.

Lemma optimizePerformanceSettings_recorded s :
  Ready (config s) = true ->
  wp optimizePerformanceSettings (fun _ s' => Recorded s s') s.
Proof.
  intros Hr. unfold optimizePerformanceSettings, Recorded.
  repeat first
    [ wp_step
    | apply wp_present_opt; [solve_ready | reflexivity | ] ].
  all: recorded.
Qed.

Lemma recorded_step (rule : M ConfigAutoFix unit) s s' :
  wp rule (fun _ s' => Recorded s s') s ->
  rule s = (Ret tt, s') -> Recorded s s'.
Proof.
  intros Hwp E. apply wp_returns in Hwp as ([] & s0 & E' & Hrec).
  rewrite E in E'. now injection E' as <-.
Qed.

Lemma analyzeAndFix_recorded s :
  Configuration (config s) = true ->
  exists s',
    analyzeAndFix s = (Ret tt, s')
    /\ (fixes s' = fixes s -> config s' = with_defaults (config s)).
Proof.
  intros Hc.
  destruct (trace_of_configuration s Hc) as (s1 & s2 & s3 & s4 & s5 & s' & Ht).
  exists s'. open_trace Ht. split; [exact Hrun|]. intros Hfix.
  pose proof (step_fixes _ _ _ _ _ Hstep1) as E1.
  pose proof (step_fixes _ _ _ _ _ Hstep2) as E2.
  pose proof (step_fixes _ _ _ _ _ Hstep3) as E3.
  pose proof (step_fixes _ _ _ _ _ Hstep4) as E4.
  pose proof (step_fixes _ _ _ _ _ Hstep5) as E5.
  pose proof (step_fixes _ _ _ _ _ Hstep6) as E6.
  rewrite app_nil_r in E6.
  change (fixes (prepared s)) with (fixes s) in E1.
  assert (df1 ++ df2 ++ df3 ++ df4 ++ df5 = []) as Hnil.
  { apply (not_longer (fixes s)). rewrite !app_assoc.
    rewrite <- E1, <- E2, <- E3, <- E4, <- E5, <- E6. exact Hfix. }
  apply app_eq_nil in Hnil as [-> Hnil]. apply app_eq_nil in Hnil as [-> Hnil].
  apply app_eq_nil in Hnil as [-> Hnil]. apply app_eq_nil in Hnil as [-> ->].
  rewrite app_nil_r in E1, E2, E3, E4, E5.
  rewrite Hsame6.
  rewrite (recorded_step _ _ _
             (optimizePerformanceSettings_recorded _ (step_ready _ _ _ _ _ Hstep4))
             Erun5 E5).
  rewrite (recorded_step _ _ _
             (fixProductionSecurity_recorded _ (step_ready _ _ _ _ _ Hstep3))
             Erun4 E4).
  rewrite (recorded_step _ _ _
             (fixEnvironmentSettings_recorded _ (step_ready _ _ _ _ _ Hstep2))
             Erun3 E3).
  rewrite (recorded_step _ _ _
             (fixWildcardCors_recorded _ (step_ready _ _ _ _ _ Hstep1))
             Erun2 E2).
  rewrite (recorded_step _ _ _ (fixPlaceholderApiUrl_recorded _ Hready) Erun1 E1).
  apply config_prepared.
Qed.

(** X25.  No rule changes a document of the data model silently: when the
    rule pass, in either mode, leaves the list of fixes as it was, the
    document is as it was except for the inserted empty sub-objects. *)
Theorem changes_are_recorded s :
  Configuration (config s) = true ->
  exists s',
    analyzeAndFix s = (Ret tt, s')
    /\ (fixes s' = fixes s -> config s' = with_defaults (config s)).
Proof. apply analyzeAndFix_recorded. Qed.
End Recorded.

(** ** A second run *)

(** What is read back at a path through objects *)
Lemma field_saved p : forall c d,
  stringified c = Some d ->
  reachable c p = true ->
  field d p = default VUndef (stringified (field c p)).
Proof.
  induction p as [|k rest IH]; intros c d Hd Hreach; cbn [field] in *.
  - now rewrite Hd.
  - cbn [reachable] in Hreach. apply andb_true_iff in Hreach as [Hobj Hreach].
    destruct c as [| | | | | |m]; try discriminate.
    cbn [stringified] in Hd. injection Hd as <-.
    unfold member, get in *. rewrite lookup_omap.
    destruct (m !! k) as [y|] eqn:Ek; cbn [default option_bind mbind from_option id] in *.
    + destruct (stringified y) as [d|] eqn:Ey; cbn [from_option id].
      * now apply IH.
      * destruct y; try discriminate; [|destruct n; discriminate].
        rewrite (reachable_undefined _ Hreach). reflexivity.
    + rewrite (reachable_undefined _ Hreach). reflexivity.
Qed.

Lemma saved_object v :
  is_object v = true -> is_object (default VUndef (stringified v)) = true.
Proof. now destruct v. Qed.

Lemma saved_scalar v :
  absent_or is_scalar v = true ->
  absent_or is_scalar (default VUndef (stringified v)) = true.
Proof. now destruct v as [| | |[]| | |]. Qed.

Lemma saved_array v :
  absent_or is_array v = true ->
  absent_or is_array (default VUndef (stringified v)) = true.
Proof. now destruct v as [| | |[]| | |]. Qed.

Lemma saved_string v :
  absent_or is_string v = true ->
  absent_or is_string (default VUndef (stringified v)) = true.
Proof. now destruct v as [| | |[]| | |]. Qed.

Lemma saved_seq_bool v b :
  seq_bool (default VUndef (stringified v)) b = seq_bool v b.
Proof. now destruct v as [| | |[]| | |]. Qed.

Lemma saved_seq_str v t :
  seq_str (default VUndef (stringified v)) t = seq_str v t.
Proof. now destruct v as [| | |[]| | |]. Qed.

Lemma Ready_object c : Ready c = true -> is_object c = true.
Proof.
  unfold Ready, Shaped. intros Hr.
  do 3 apply andb_true_iff in Hr as [Hr _].
  now apply andb_true_iff in Hr as [Hr _].
Qed.

(** The document written from a document the rules have worked on is a
    configuration document, settled when that one is. *)
Lemma saved_Configuration c d :
  Ready c = true -> stringified c = Some d ->
  Configuration d = true /\ settled d = settled c.
Proof.
  intros Hr Hd.
  assert (forall p, within_sections p = true ->
                    field d p = default VUndef (stringified (field c p))) as Hf.
  { intros p Hp. apply field_saved; [exact Hd|now apply Ready_reachable]. }
  split.
  - pose proof Hr as Hr'. unfold Ready, Shaped in Hr'.
    apply andb_true_iff in Hr' as [Hr' Hdir].
    apply andb_true_iff in Hr' as [Hr' Harr].
    apply andb_true_iff in Hr' as [Hr' Henv].
    apply andb_true_iff in Hr' as [Ho Hs].
    unfold Configuration.
    rewrite !Hf by reflexivity.
    rewrite (saved_scalar _ Henv), (saved_array _ Harr), (saved_string _ Hdir).
    rewrite !andb_true_r.
    apply andb_true_iff. split.
    + destruct c; try discriminate. cbn in Hd. now injection Hd as <-.
    + apply forallb_Forall_true. apply forallb_Forall_true in Hs.
      unfold ensured, sections in *. cbn [map app] in *.
      repeat match goal with
             | Hs : Forall _ (_ :: _) |- _ =>
                 apply Forall_cons_iff in Hs as [? Hs]
             end.
      repeat (apply Forall_cons; split;
              [rewrite Hf by reflexivity;
               apply is_object_falsy_or, saved_object; assumption|]).
      constructor.
  - unfold settled, environment_is.
    rewrite !Hf by reflexivity.
    now rewrite !saved_seq_bool, !saved_seq_str.
Qed.

Section SecondRun.
Context `{Host}.

(** A pass without prompts, from a state that has recorded no fix *)
Lemma batch_pass s :
  Configuration (config s) = true ->
  interactive s = false ->
  fixes s = [] ->
  exists s',
    analyzeAndFix s = (Ret tt, s')
    /\ Ready (config s') = true
    /\ settled (config s') = true
    /\ (settled (config s) = true <-> fixes s' = []).
Proof.
  intros Hc Hi Hnone.
  destruct (trace_of_configuration s Hc) as (s1 & s2 & s3 & s4 & s5 & s' & Ht).
  exists s'. split; [exact (trace_run _ _ _ _ _ _ _ Ht)|].
  destruct (rule_pass_settles_lemma s Hc) as (s0 & Hrun0 & Hp & Hs).
  rewrite (trace_run _ _ _ _ _ _ _ Ht) in Hrun0. injection Hrun0 as <-.
  split; [|split; [exact Hs|]].
  { open_pass Hp. exact (step_ready _ _ _ _ _ Hstep6). }
  split.
  - intros Hset. destruct (Trace_settled _ _ _ _ _ _ _ Ht Hset Hi) as [_ ->].
    exact Hnone.
  - intros Hfix.
    destruct (analyzeAndFix_recorded s Hc) as (s0 & Hrun0 & Hrec).
    rewrite (trace_run _ _ _ _ _ _ _ Ht) in Hrun0. injection Hrun0 as <-.
    rewrite Hrec in Hs by congruence.
    rewrite <- Hs. unfold settled, environment_is.
    rewrite <- config_prepared.
    now rewrite !(trace_defaults _ _ _ _ _ _ _ Ht) by reflexivity.
Qed.

(** X26.  On a document of the data model, running the non-interactive
    auto-fixer (without --help) a second time changes no file: whatever
    the first run wrote, or could not write, the second run leaves the
    files as the first run left them. *)
Theorem second_run_changes_nothing args w c :
  has_flag args "--help" = false ->
  interactive_of args = false ->
  files w !! configPath_of args = Some (Doc c) ->
  Configuration c = true ->
  files (snd (main args (snd (main args w)))) = files (snd (main args w)).
Proof.
  intros Hhelp Hmode Hfile Hc.
  destruct (main_files args w c Hhelp Hfile Hc) as (s6 & Hpass & Hfiles).
  destruct (main_keeps args w) as (_ & _ & Hden & _).
  set (w1 := snd (main args w)) in *.
  rewrite Hmode in Hfiles. cbn [negb orb] in Hfiles. rewrite andb_true_r in Hfiles.
  destruct (batch_pass (loaded (fixer_of args w) c) Hc) as (s0 & Hrun0 & Hr & Hs & Hiff);
    [now rewrite <- Hmode; apply fixer_of_interactive|reflexivity|].
  rewrite Hpass in Hrun0. injection Hrun0 as <-.
  change (config (loaded (fixer_of args w) c)) with c in Hiff.
  assert (exists d, files w1 !! configPath_of args = Some (Doc d)
                    /\ Configuration d = true /\ settled d = true
                    \/ files w1 !! configPath_of args = Some (Doc d)
                       /\ Configuration d = true
                       /\ bool_decide (configPath_of args ∈ denied w) = true)
    as (d & Hd).
  { destruct (0 <? length (fixes s6))%nat eqn:Efix; cbn [andb] in Hfiles.
    - destruct (bool_decide (configPath_of args ∈ denied w)) eqn:Ed;
        cbn [negb] in Hfiles.
      + exists c. right. rewrite Hfiles. split; [exact Hfile|].
        split; [exact Hc|reflexivity].
      + pose proof (Ready_object _ Hr) as Ho.
        destruct (config s6) as [| | | | | |m] eqn:Ec; try discriminate.
        destruct (saved_Configuration (VObj m) (VObj (omap stringified m)))
          as [Hcd Hsd]; [exact Hr|reflexivity|].
        exists (VObj (omap stringified m)). left.
        rewrite Hfiles. unfold written. cbn [stringified].
        rewrite lookup_insert_eq. split; [reflexivity|]. split; [exact Hcd|].
        now rewrite Hsd.
    - exists c. left. rewrite Hfiles. split; [exact Hfile|]. split; [exact Hc|].
      apply Hiff. apply Nat.ltb_ge in Efix. destruct (fixes s6); [reflexivity|].
      cbn in Efix. lia. }
  assert (exists d, files w1 !! configPath_of args = Some (Doc d)
                    /\ Configuration d = true) as (d' & Hfile1 & Hc1).
  { destruct Hd as [(? & ? & _)|(? & ? & _)]; eauto. }
  destruct (main_files args w1 d' Hhelp Hfile1 Hc1) as (s7 & Hpass7 & Hfiles7).
  rewrite Hfiles7.
  destruct Hd as [(Hfd & Hcd & Hsd)|(Hfd & Hcd & Hdenied)].
  - assert (d' = d) as -> by congruence.
    destruct (batch_pass (loaded (fixer_of args w1) d) Hcd)
      as (s0 & Hrun0 & _ & _ & Hiff7);
      [now rewrite <- Hmode; apply fixer_of_interactive|reflexivity|].
    rewrite Hpass7 in Hrun0. injection Hrun0 as <-.
    change (config (loaded (fixer_of args w1) d)) with d in Hiff7.
    apply Hiff7 in Hsd. rewrite Hsd. reflexivity.
  - rewrite Hden, Hdenied. now rewrite andb_false_r.
Qed.
End SecondRun.

(** ** The orchestrator and the files *)

Section OrchestratorFiles.
Context `{Host}.

(** X27.  The loop over the origins entered by the operator returns, after
    the origins already collected, those that new URL accepts with
    protocol https or http, in their order; it never throws and does
    nothing but print. *)
Theorem origins_are_filtered origins valid s :
  exists out,
    validateOrigins origins valid s =
    (Ret (valid ++ List.filter valid_origin origins), printed s out).
Proof.
  destruct (wp_returns _ _ _ (validateOrigins_filter origins valid s))
    as (r & s' & E & -> & out & ->).
  now exists out.
Qed.

Lemma script_validate_only args w :
  has_flag args "--help" = false ->
  has_flag args "--validate-only" = true ->
  spawnable w = true ->
  exists out, snd (Automate.script args w) = with_stdout w (stdout w ++ out).
Proof.
  intros Hhelp Hvo Hs. unfold Automate.script. rewrite Hhelp.
  unfold Automate.main. rewrite Hvo. cbv zeta.
  rewrite bind_log. unfold try_catch. rewrite bind_log.
  erewrite bind_of_ret by (apply runCommand_validate; exact Hs).
  cbn [negb andb].
  match goal with |- context [Validator.script ?w0] =>
    destruct (script_world w0) as [out Hout]; rewrite Hout end.
  destruct (fst (Validator.script _) =? 0)%Z; cbn [andb].
  - rewrite bind_log.
    eexists. cbn [snd ret with_stdout stdout files dirs denied spawnable stdin answered].
    rewrite <- !app_assoc. reflexivity.
  - eexists. cbn [snd ret with_stdout stdout files dirs denied spawnable stdin answered].
    rewrite <- !app_assoc. reflexivity.
Qed.

(** X28.  Whatever its arguments and the world, the orchestrator leaves
    every file other than the configuration file as it was and removes no
    directory. *)
Theorem orchestrator_writes_the_document_only args w :
  (forall p, p <> Validator.configPath ->
             files (snd (Automate.script args w)) !! p = files w !! p)
  /\ dirs w ⊆ dirs (snd (Automate.script args w)).
Proof.
  destruct (has_flag args "--help") eqn:Hhelp.
  { unfold Automate.script. rewrite Hhelp. cbn. split; [reflexivity|set_solver]. }
  destruct (spawnable w) eqn:Hs.
  2: { rewrite (script_without_node args w Hhelp Hs). cbn.
       split; [reflexivity|set_solver]. }
  destruct (has_flag args "--validate-only") eqn:Hvo.
  { destruct (script_validate_only args w Hhelp Hvo Hs) as [out ->]. cbn.
    split; [reflexivity|set_solver]. }
  destruct (script_revalidates args w Hhelp Hvo Hs) as (out & _ & Hf & Hd).
  cbv zeta in Hf, Hd. rewrite Hf, Hd.
  set (rest := if has_flag args "--no-interactive" then ["--no-interactive"] else []).
  destruct (main_keeps rest (with_stdout w (stdout w ++ out))) as (Hfiles & Hdirs & _).
  assert (configPath_of rest = Validator.configPath) as Hpath.
  { unfold rest. now destruct (has_flag args "--no-interactive"). }
  rewrite Hpath in Hfiles. split; [|exact Hdirs].
  intros p Hp. now rewrite Hfiles.
Qed.
End OrchestratorFiles.

(** ** The summary *)

Section Summary.
Context `{Host}.

(** A loop whose body prints the lines of its entry prints the lines of
    every entry, with the index of the entry. *)
Lemma forEach_lines {A} (f : A -> nat -> M ConfigAutoFix unit)
      (lines : A -> nat -> list (Msg * color)) :
  (forall x i s, f x i s = (Ret tt, printed s (lines x i))) ->
  forall xs i s,
    exists out,
      forEach f xs i s = (Ret tt, printed s out)
      /\ forall n x, xs !! n = Some x ->
                     forall l, In l (lines x (i + n)%nat) -> In l out.
Proof.
  intros Hf. induction xs as [|x xs IH]; intros i s; cbn [forEach].
  - exists []. unfold ret. rewrite printed_nil. split; [reflexivity|].
    intros n y Hn. discriminate.
  - destruct (IH (S i) (printed s (lines x i))) as (out & Hrun & Hin).
    exists (lines x i ++ out).
    rewrite (bind_of_ret _ _ _ _ _ (Hf x i s)), Hrun, printed_printed.
    split; [reflexivity|].
    intros [|n] y Hn l Hl; apply in_app_iff.
    + injection Hn as <-. left. now rewrite Nat.add_0_r in Hl.
    + right. apply (Hin n y Hn). now rewrite Nat.add_succ_comm.
Qed.

(** X29.  displaySummary returns after printing only; its output holds,
    for every recorded fix, the line with its position (counted from 1)
    and field and the lines of its from, to and reason, for every recorded
    warning the line with its position and field and the lines of its
    issue and current value, and the line that no fix was needed when no
    fix is recorded. *)
Theorem summary_reports_everything s :
  exists out,
    displaySummary s = (Ret tt, printed s out)
    /\ (forall n f, fixes s !! n = Some f ->
                    In (FixField (n + 1)%nat (fix_field f), cyan) out
                    /\ In (FixFrom (fix_from f), yellow) out
                    /\ In (FixTo (fix_to f), green) out
                    /\ In (FixReason (fix_reason f), blue) out)
    /\ (forall n w, warnings s !! n = Some w ->
                    In (WarningField (n + 1)%nat (warning_field w), cyan) out
                    /\ In (WarningIssue (warning_issue w), yellow) out
                    /\ In (WarningCurrent (warning_current w), yellow) out)
    /\ (fixes s = [] -> In (NoFixesNeeded, green) out).
Proof.
  unfold displaySummary.
  rewrite (bind_of_ret _ _ _ _ _ (say_printed _ _ _)).
  rewrite (bind_of_ret _ _ _ _ _ (say_printed _ _ _)).
  rewrite printed_printed.
  unfold bind at 1, gets. cbn [fixes printed with_world].
  set (fix_lines := fun (entry : Fix) (index : nat) =>
         [(FixField (index + 1)%nat (fix_field entry), cyan);
          (FixFrom (fix_from entry), yellow);
          (FixTo (fix_to entry), green);
          (FixReason (fix_reason entry), blue)]).
  set (warning_lines := fun (warning : Warning) (index : nat) =>
         [(WarningField (index + 1)%nat (warning_field warning), cyan);
          (WarningIssue (warning_issue warning), yellow);
          (WarningCurrent (warning_current warning), yellow)]).
  destruct (forEach_lines
              (fun entry index =>
                 say (FixField (index + 1)%nat (fix_field entry)) cyan ;;
                 say (FixFrom (fix_from entry)) yellow ;;
                 say (FixTo (fix_to entry)) green ;;
                 say (FixReason (fix_reason entry)) blue)
              fix_lines
              ltac:(intros x i s0; cbv beta;
                    rewrite !(bind_of_ret _ _ _ _ _ (say_printed _ _ _)), say_printed,
                      !printed_printed; reflexivity)
              (fixes s) 0%nat
              (printed s (([(SummaryHeader, magenta)] ++ [(Rule, magenta)])
                          ++ [(AppliedFixes (length (fixes s)), green)])))
    as (out1 & Hrun1 & Hin1).
  assert (exists out1',
    (if (0 <? length (fixes s))%nat
     then say (AppliedFixes (length (fixes s))) green ;;
          forEach (fun entry index =>
                say (FixField (index + 1)%nat (fix_field entry)) cyan ;;
                say (FixFrom (fix_from entry)) yellow ;;
                say (FixTo (fix_to entry)) green ;;
                say (FixReason (fix_reason entry)) blue) (fixes s) 0
     else say NoFixesNeeded green)
      (printed s ([(SummaryHeader, magenta)] ++ [(Rule, magenta)]))
    = (Ret tt, printed s out1')
    /\ (forall n f, fixes s !! n = Some f ->
                    forall l, In l (fix_lines f n) -> In l out1')
    /\ (fixes s = [] -> In (NoFixesNeeded, green) out1')) as (out1' & H1 & Hfix & Hnone).
  { destruct (fixes s) as [|f0 l0] eqn:Ef.
    - cbn [length Nat.ltb Nat.leb]. rewrite say_printed, printed_printed.
      eexists. split; [reflexivity|]. split.
      + intros n f Hn. discriminate.
      + intros _. apply in_app_iff. right. now left.
    - cbn [length Nat.ltb Nat.leb].
      rewrite (bind_of_ret _ _ _ _ _ (say_printed _ _ _)), printed_printed.
      cbn [length] in Hrun1. rewrite Hrun1, printed_printed.
      eexists. split; [reflexivity|]. split; [|discriminate].
      intros n f Hn l Hl. apply in_app_iff. right. exact (Hin1 n f Hn l Hl). }
  rewrite (bind_of_ret _ _ _ _ _ H1).
  unfold bind at 1, gets. cbn [warnings printed with_world].
  destruct (forEach_lines
              (fun warning index =>
                 say (WarningField (index + 1)%nat (warning_field warning)) cyan ;;
                 say (WarningIssue (warning_issue warning)) yellow ;;
                 say (WarningCurrent (warning_current warning)) yellow)
              warning_lines
              ltac:(intros x i s0; cbv beta;
                    rewrite !(bind_of_ret _ _ _ _ _ (say_printed _ _ _)), say_printed,
                      !printed_printed; reflexivity)
              (warnings s) 0%nat
              (printed s (out1' ++ [(WarningCount (length (warnings s)), yellow)])))
    as (out2 & Hrun2 & Hin2).
  assert (exists out2',
    when (0 <? length (warnings s))%nat
      (say (WarningCount (length (warnings s))) yellow ;;
       forEach (fun warning index =>
                say (WarningField (index + 1)%nat (warning_field warning)) cyan ;;
                say (WarningIssue (warning_issue warning)) yellow ;;
                say (WarningCurrent (warning_current warning)) yellow)
             (warnings s) 0) (printed s out1')
    = (Ret tt, printed s (out1' ++ out2'))
    /\ (forall n w, warnings s !! n = Some w ->
                    forall l, In l (warning_lines w n) -> In l out2'))
    as (out2' & H2 & Hwarn).
  { destruct (warnings s) as [|w0 l0] eqn:Ew.
    - cbn [length Nat.ltb Nat.leb when]. exists []. unfold ret.
      rewrite app_nil_r. split; [reflexivity|]. intros n w Hn. discriminate.
    - cbn [length Nat.ltb Nat.leb when].
      rewrite (bind_of_ret _ _ _ _ _ (say_printed _ _ _)), printed_printed.
      cbn [length] in Hrun2. rewrite Hrun2, printed_printed.
      eexists. rewrite <- app_assoc. split; [reflexivity|].
      intros n w Hn l Hl. apply in_app_iff. right. exact (Hin2 n w Hn l Hl). }
  rewrite (bind_of_ret _ _ _ _ _ H2).
  rewrite say_printed, printed_printed.
  eexists. split; [reflexivity|].
  split; [|split].
  - intros n f Hn.
    repeat split; apply in_app_iff; left; apply in_app_iff; left;
      apply (Hfix n f Hn); cbn; tauto.
  - intros n w Hn.
    repeat split; apply in_app_iff; left; apply in_app_iff; right;
      apply (Hwarn n w Hn); cbn; tauto.
  - intros Hno. apply in_app_iff. left. apply in_app_iff. left. now apply Hnone.
Qed.
End Summary.

(** ** Outside the data model *)

Section Primitive.
Context `{Host}.

Lemma ensure_section k s m p :
  config s = VObj m -> m !! "performance" = Some p -> truthy p = true ->
  exists s' m',
    ensure [k] s = (Ret tt, s')
    /\ world s' = world s
    /\ config s' = VObj m' /\ m' !! "performance" = Some p.
Proof.
  intros Hc Hp Ht. unfold ensure, rd, bind, gets, lift. rewrite Hc.
  cbn [get_in get obind].
  destruct (truthy (default VUndef (m !! k))) eqn:Ek; cbn [negb when].
  - exists s, m. auto.
  - unfold assign, bind, gets, lift, modify. rewrite Hc. cbn [set_in set].
    eexists _, _. split; [reflexivity|]. split; [reflexivity|].
    split; [reflexivity|].
    rewrite lookup_insert_ne; [exact Hp|].
    intros ->. rewrite Hp in Ek. cbn in Ek. congruence.
Qed.

Lemma ensure_sections {A} (rest : M ConfigAutoFix A) p ks : forall s m,
  config s = VObj m -> m !! "performance" = Some p -> truthy p = true ->
  exists s' m',
    fold_right (fun k next => ensure [k] ;; next) rest ks s = rest s'
    /\ world s' = world s
    /\ config s' = VObj m' /\ m' !! "performance" = Some p.
Proof.
  induction ks as [|k ks IH]; intros s m Hc Hp Ht; cbn [fold_right].
  - exists s, m. auto.
  - destruct (ensure_section k s m p Hc Hp Ht) as (s1 & m1 & E1 & Hw1 & Hc1 & Hp1).
    destruct (IH s1 m1 Hc1 Hp1 Ht) as (s' & m' & E & Hw & Hc' & Hp').
    exists s', m'. rewrite (bind_of_ret _ _ _ _ _ E1), E.
    split; [reflexivity|]. split; [congruence|]. auto.
Qed.

(** The assignment of [performance.caching] on a primitive *)
Lemma ensure_caching_throws s m p :
  config s = VObj m -> m !! "performance" = Some p ->
  is_scalar p = true -> truthy p = true ->
  ensure ["performance"; "caching"] s = (Throw TypeError, s).
Proof.
  intros Hc Hp Hs Ht. unfold ensure, rd, assign, bind, gets, lift. rewrite Hc.
  cbn [get_in get set_in obind]. rewrite Hp. cbn [default from_option id].
  destruct p as [| |[]|n|t| |]; try discriminate.
  all: cbn [get obind truthy negb when]; rewrite Hc; cbn [get obind]; rewrite Hp.
  all: reflexivity.
Qed.

(** X30.  When the performance section of the document is a truthy
    primitive (a number other than zero, a non-empty string or true), the
    auto-fixer (run without --help) stops with a TypeError at the
    assignment of performance.caching, before any rule has run: it prints
    the error, exits with code 1 and changes nothing but the console. *)
Theorem primitive_performance_stops args w m p :
  has_flag args "--help" = false ->
  files w !! configPath_of args = Some (Doc (VObj m)) ->
  m !! "performance" = Some p ->
  is_scalar p = true -> truthy p = true ->
  exists out,
    main args w = (1%Z, with_stdout w (stdout w ++ out))
    /\ In (ErrorLine TypeError, red) out.
Proof.
  intros Hhelp Hfile Hp Hs Ht.
  set (s := fixer_of args w).
  assert (exists s',
            analyzeAndFix (loaded s (VObj m)) = (Throw TypeError, s')
            /\ world s' = world (printed (loaded s (VObj m))
                                         [(AnalyzingConfiguration, blue)]))
    as (s' & Hrun & Hworld).
  { change analyzeAndFix with
      (say AnalyzingConfiguration blue ;;
       fold_right (fun k next => ensure [k] ;; next)
         (ensure ["performance"; "caching"] ;;
          ensure ["performance"; "compression"] ;;
          fixPlaceholderApiUrl ;; fixWildcardCors ;; fixEnvironmentSettings ;;
          fixProductionSecurity ;; optimizePerformanceSettings ;;
          fixLoggingSettings)
         sections).
    rewrite (bind_of_ret _ _ _ _ _ (say_printed _ _ _)).
    edestruct (ensure_sections
                 (ensure ["performance"; "caching"] ;;
                  ensure ["performance"; "compression"] ;;
                  fixPlaceholderApiUrl ;; fixWildcardCors ;; fixEnvironmentSettings ;;
                  fixProductionSecurity ;; optimizePerformanceSettings ;;
                  fixLoggingSettings) p sections
                 (printed (loaded s (VObj m)) [(AnalyzingConfiguration, blue)]) m)
      as (s7 & m7 & E & Hw7 & Hc7 & Hp7); [reflexivity|exact Hp|exact Ht|].
    rewrite E.
    rewrite (bind_of_throw _ _ _ _ _ (ensure_caching_throws s7 m7 p Hc7 Hp7 Hs Ht)).
    exists s7. split; [reflexivity|exact Hw7]. }
  unfold main. rewrite Hhelp. fold s. unfold run.
  rewrite (bind_of_ret _ _ _ _ _ (say_printed _ _ _)). unfold try_catch.
  rewrite (bind_of_ret _ _ _ _ _
             (loadConfig_document (printed s [(AutoFixBanner, cyan)]) (VObj m) Hfile)).
  change (printed (with_config _ (VObj m)) _) with (loaded s (VObj m)).
  rewrite (bind_of_throw _ _ _ _ _ Hrun).
  rewrite (bind_of_ret _ _ _ _ _ (say_printed _ _ _)).
  cbn [ret world printed with_world]. rewrite Hworld.
  eexists. split.
  - cbn. rewrite <- !app_assoc. reflexivity.
  - cbn. tauto.
Qed.
End Primitive.

(** ** The further theorems at the example documents *)

Lemma authentication_bounds_example :
  at_least (field authentication_document ["authentication"; "sessionTimeout"]) 60
  = true
  /\ fst (Validator.script (H:=example_host)
            (world_of zero_authentication_document)) = 0%Z.
Proof.
  destruct (authentication_bounds (H:=example_host)
              (world_of authentication_document) authentication_document)
    as (Hst & _ & Hzero); [reflexivity|reflexivity|reflexivity|].
  split; [apply Hst; reflexivity|].
  apply (Hzero (VNum (of_Z 0)) (VNum (of_Z 0))); reflexivity.
Defined.

(** Zero is not at least 60, nor between 1 and 10, and passes *)
Lemma zero_authentication_is_accepted :
  truthy (field zero_authentication_document ["authentication"]) = true
  /\ fst (Validator.script (H:=example_host)
            (world_of zero_authentication_document)) = 0%Z
  /\ at_least (field zero_authentication_document
                 ["authentication"; "sessionTimeout"]) 60 = false
  /\ at_least (field zero_authentication_document
                 ["authentication"; "maxLoginAttempts"]) 1 = false.
Proof. repeat split; vm_compute; reflexivity. Qed.

Lemma version_is_semver_shaped_example :
  fst (Validator.script (H:=example_host) (world_of short_version_document)) = 1%Z
  /\ fst (Validator.script (H:=example_host)
            (world_of (document "1.2.3" "production" []))) = 0%Z
  /\ (fst (Validator.script (H:=example_host)
             (world_of (update secure_production_document ["platform"; "version"]
                               (VStr "2.10.0")))) = 0%Z
      <-> semver_shaped "2.10.0").
Proof.
  destruct (version_is_semver_shaped (H:=example_host))
    as (Hshort & Hfull & Hany & _).
  split; [|split].
  - apply (Hshort (world_of short_version_document) short_version_document);
      reflexivity.
  - apply (Hfull (world_of (document "1.2.3" "production" []))). reflexivity.
  - apply (Hany (world_of secure_production_document) secure_production_document);
      reflexivity.
Defined.

Lemma noninteractive_frame_example :
  Edited null_section_document
         (config (snd (analyzeAndFix (H:=example_host) (batch null_section_document))))
  /\ field (config (snd (analyzeAndFix (H:=example_host)
                           (batch null_section_document))))
           ["security"; "allowedOrigins"] = VArr [VStr "*"] ∅
  /\ field (config (snd (analyzeAndFix (H:=example_host)
                           (batch malformed_wildcard_document))))
           ["security"; "allowedOrigins"] = VArr [VStr "*"] ∅.
Proof.
  destruct (noninteractive_frame (H:=example_host) (batch null_section_document))
    as (Hedit & _ & _ & Horigins & _); [reflexivity|].
  split; [exact Hedit|]. split; [exact Horigins|].
  destruct (noninteractive_frame (H:=example_host)
              (batch malformed_wildcard_document))
    as (_ & _ & _ & Hmal & _); [reflexivity|].
  exact Hmal.
Defined.

(** The section that is [null] is replaced by the empty object *)
Lemma null_section_is_replaced :
  Configuration null_section_document = true
  /\ fst (analyzeAndFix (H:=example_host) (batch null_section_document)) = Ret tt
  /\ field (config (snd (analyzeAndFix (H:=example_host)
                           (batch null_section_document)))) ["api"] = VObj ∅
  /\ field (with_defaults null_section_document) ["api"] = VObj ∅.
Proof. repeat split; vm_compute; reflexivity. Qed.

Lemma file_system_errors_example :
  fst (main (H:=example_host) [] (confirming development_document)) = 1%Z
  /\ files (snd (main (H:=example_host) [] (confirming development_document))) =
     files (confirming development_document)
  /\ fst (main (H:=example_host) ["--no-interactive"]
            (read_only development_document)) = 1%Z.
Proof.
  destruct (file_system_errors (H:=example_host) []
              (confirming development_document) development_document
              eq_refl eq_refl eq_refl) as (_ & s6 & Hrun & _ & Hwrite & _).
  apply (f_equal snd) in Hrun. cbn [snd] in Hrun. subst s6.
  destruct Hwrite as (s' & out & _ & _ & Hcode & Hfiles).
  { vm_compute. discriminate. }
  { right. vm_compute. reflexivity. }
  { unfold confirming. cbn [denied]. now apply elem_of_singleton_2. }
  split; [exact Hcode|]. split; [exact Hfiles|].
  destruct (file_system_errors (H:=example_host) ["--no-interactive"]
              (read_only development_document) development_document
              eq_refl eq_refl eq_refl) as (_ & s6 & Hrun & _ & Hwrite & _).
  apply (f_equal snd) in Hrun. cbn [snd] in Hrun. subst s6.
  destruct Hwrite as (s'' & out' & _ & _ & Hcode' & _).
  { vm_compute. discriminate. }
  { left. reflexivity. }
  { unfold read_only. cbn [denied]. now apply elem_of_singleton_2. }
  exact Hcode'.
Defined.

(** A refused write after the operator has confirmed: the same error *)
Lemma confirmed_write_is_an_error :
  fst (main (H:=example_host) [] (confirming development_document)) = 1%Z
  /\ last (stdout (snd (main (H:=example_host) [] (confirming development_document))))
     = Some (ErrorLine (Error FailedToSave), red)
  /\ files (snd (main (H:=example_host) [] (confirming development_document)))
     = files (confirming development_document).
Proof. repeat split; vm_compute; reflexivity. Qed.

Lemma missing_sections_reported_example :
  fst (Validator.script (H:=example_host) (world_of empty_document)) = 1%Z
  /\ (exists w', Validator.validateConfiguration (H:=example_host)
                   (world_of empty_document) =
                 (Throw (Error (MissingRequiredSections ["platform"; "global"])), w'))
  /\ In (ShowMessage (Error (MissingRequiredSections ["platform"; "global"])), red)
        (stdout (snd (Validator.script (H:=example_host) (world_of empty_document)))).
Proof.
  apply (missing_sections_reported (H:=example_host)
           (world_of empty_document) empty_document);
    [reflexivity|reflexivity|discriminate].
Defined.

Lemma unreadable_document_fails_example :
  fst (Validator.script (H:=example_host) no_document) = 1%Z
  /\ files (snd (Validator.script (H:=example_host) no_document)) = files no_document
  /\ In (ShowMessage (Error ConfigFileNotFound), red)
        (stdout (snd (Validator.script (H:=example_host) no_document))).
Proof.
  apply (unreadable_document_fails (H:=example_host) no_document).
  intros c. discriminate.
Defined.

Lemma validator_reads_the_document_only_example :
  fst (Validator.script (H:=example_host) (world_of development_document)) =
  fst (Validator.script (H:=example_host) (read_only development_document)).
Proof.
  apply (validator_reads_the_document_only (H:=example_host)
           (world_of development_document) (read_only development_document)
           development_document); reflexivity.
Defined.

Lemma unknown_environment_fails_example :
  fst (Validator.script (H:=example_host) (world_of unknown_environment_document)) = 1%Z.
Proof.
  apply (unknown_environment_fails (H:=example_host)
           (world_of unknown_environment_document) unknown_environment_document);
    reflexivity.
Defined.

Lemma api_settings_checked_example :
  (truthy (field api_document ["api"; "baseUrl"]) = true ->
   exists text protocol,
     ToString (H:=example_host) (field api_document ["api"; "baseUrl"]) = Ret text
     /\ URL_protocol (Host:=example_host) text = Some protocol)
  /\ (nonzero_number (field api_document ["api"; "timeout"]) = true ->
      at_least (field api_document ["api"; "timeout"]) 1000 = true).
Proof.
  apply (api_settings_checked (H:=example_host) (world_of api_document) api_document);
    reflexivity.
Defined.

Lemma logging_level_checked_example :
  fst (Validator.script (H:=example_host) (world_of verbose_logging_document)) = 1%Z.
Proof.
  apply (logging_level_checked (H:=example_host)
           (world_of verbose_logging_document) verbose_logging_document);
    reflexivity.
Defined.

Lemma rule_pass_returns_example :
  exists s',
    analyzeAndFix (H:=example_host) (batch development_document) = (Ret tt, s')
    /\ configPath s' = configPath (batch development_document)
    /\ interactive s' = interactive (batch development_document)
    /\ files (world s') = files (world (batch development_document))
    /\ denied (world s') = denied (world (batch development_document))
    /\ Shaped (config s') = true.
Proof.
  apply (rule_pass_returns (H:=example_host) (batch development_document));
    reflexivity.
Defined.

Lemma rule_pass_records_example :
  exists s' df dw,
    analyzeAndFix (H:=example_host) (batch development_document) = (Ret tt, s')
    /\ fixes s' = fixes (batch development_document) ++ df
    /\ warnings s' = warnings (batch development_document) ++ dw
    /\ Forall (fun f => In (fix_field f) fixable) df
    /\ Forall (fun w => In (warning_field w) warnable) dw
    /\ (interactive (batch development_document) = false ->
        Forall (fun f => ~ In (fix_field f) warnable) df).
Proof.
  apply (rule_pass_records (H:=example_host) (batch development_document));
    reflexivity.
Defined.

Lemma performance_forced_example :
  exists s',
    analyzeAndFix (H:=example_host) (batch uncached_document) = (Ret tt, s')
    /\ field (config s') ["performance"; "caching"; "enabled"] = VBool true
    /\ field (config s') ["performance"; "compression"; "enabled"] = VUndef.
Proof.
  apply (performance_forced (H:=example_host) (batch uncached_document));
    reflexivity.
Defined.

Lemma rule_pass_settles_example :
  exists s',
    analyzeAndFix (H:=example_host) (batch development_document) = (Ret tt, s')
    /\ settled (config s') = true.
Proof.
  apply (rule_pass_settles (H:=example_host) (batch development_document));
    reflexivity.
Defined.

Lemma settled_document_untouched_example :
  exists s',
    analyzeAndFix (H:=example_host) (batch secure_production_document) = (Ret tt, s')
    /\ config s' = with_defaults (config (batch secure_production_document))
    /\ fixes s' = fixes (batch secure_production_document).
Proof.
  apply (settled_document_untouched (H:=example_host)
           (batch secure_production_document)); reflexivity.
Defined.

Lemma second_pass_changes_nothing_example :
  exists s' s'',
    analyzeAndFix (H:=example_host) (batch development_document) = (Ret tt, s')
    /\ analyzeAndFix (H:=example_host) s' = (Ret tt, s'')
    /\ config s'' = config s'
    /\ fixes s'' = fixes s'.
Proof.
  apply (second_pass_changes_nothing (H:=example_host) (batch development_document));
    reflexivity.
Defined.

Lemma placeholder_answered_example :
  exists s',
    analyzeAndFix (H:=example_host)
      (operator placeholder_document ["https://api.live.example"]) = (Ret tt, s')
    /\ warnings_about "api.baseUrl" (warnings s') = [placeholder_warning]
    /\ field (config s') ["api"; "baseUrl"] = VStr "https://api.live.example"
    /\ fixes_for "api.baseUrl" (fixes s') =
       [placeholder_fix "https://api.live.example"].
Proof.
  apply (placeholder_answered (H:=example_host)
           (operator placeholder_document ["https://api.live.example"]));
    reflexivity.
Defined.

Lemma fixer_without_document_example :
  main (H:=example_host) ["--no-interactive"] no_document =
  (1%Z, with_stdout no_document
          (stdout no_document ++ [(AutoFixBanner, cyan);
                                  (LoadingConfiguration, blue);
                                  (ErrorLine (Error FailedToLoad), red)])).
Proof.
  apply (fixer_without_document (H:=example_host) ["--no-interactive"] no_document);
    [reflexivity|intros c; discriminate].
Defined.

Lemma orchestrator_without_node_example :
  Automate.script (H:=example_host) [] (no_node development_document) =
  (1%Z, with_stdout (no_node development_document)
          (stdout (no_node development_document)
           ++ [(AutomationBanner, bold cyan);
               (Step1InitialValidation, bold blue);
               (ErrorLine (Error SpawnError), red)])).
Proof.
  apply (orchestrator_without_node (H:=example_host) [] (no_node development_document));
    reflexivity.
Defined.

Lemma orchestrator_exit_is_revalidation_example :
  exists out,
    let fixed := snd (main (H:=example_host) ["--no-interactive"]
                        (with_stdout (world_of development_document)
                           (stdout (world_of development_document) ++ out))) in
    fst (Automate.script (H:=example_host) ["--no-interactive"]
           (world_of development_document)) =
    fst (Validator.script (H:=example_host) fixed)
    /\ files (snd (Automate.script (H:=example_host) ["--no-interactive"]
                     (world_of development_document))) = files fixed
    /\ dirs (snd (Automate.script (H:=example_host) ["--no-interactive"]
                    (world_of development_document))) = dirs fixed.
Proof.
  apply (orchestrator_exit_is_revalidation (H:=example_host) ["--no-interactive"]
           (world_of development_document)); reflexivity.
Defined.

Lemma origins_answered_example :
  exists s',
    analyzeAndFix (H:=example_host)
      (operator wildcard_production_document
                ["https://app.example.org,ftp://files.example.org"]) = (Ret tt, s')
    /\ field (config s') ["security"; "allowedOrigins"] =
       VArr [VStr "https://app.example.org"] ∅
    /\ fixes_for "security.allowedOrigins" (fixes s') =
       [origins_fix ["https://app.example.org"]].
Proof.
  apply (origins_answered (H:=example_host)
           (operator wildcard_production_document
                     ["https://app.example.org,ftp://files.example.org"]));
    reflexivity.
Defined.

Lemma document_written_iff_example :
  exists s6,
    analyzeAndFix (H:=example_host)
      (loaded (fixer_of ["--no-interactive"] (world_of development_document))
              development_document) = (Ret tt, s6)
    /\ files (snd (main (H:=example_host) ["--no-interactive"]
                     (world_of development_document))) =
       if (0 <? length (fixes s6))%nat
          && (negb (interactive_of ["--no-interactive"])
              || (toLowerCase (Host:=example_host) (next_answer s6) =? "y"))
          && negb (bool_decide (configPath_of ["--no-interactive"]
                                ∈ denied (world_of development_document)))
       then <[configPath_of ["--no-interactive"] := written (config s6)]>
              (files (world_of development_document))
       else files (world_of development_document).
Proof.
  apply (document_written_iff (H:=example_host) ["--no-interactive"]
           (world_of development_document) development_document); reflexivity.
Defined.

Lemma log_directory_ensured_example :
  (exists s',
     analyzeAndFix (H:=example_host) (batch file_logging_document) = (Ret tt, s')
     /\ "./logs" ∈ dirs (world s'))
  /\ dirs (world (snd (analyzeAndFix (H:=example_host)
                         (with_config (fixer_of ["--no-interactive"]
                                         (occupied file_logging_document))
                                      file_logging_document)))) = ∅.
Proof.
  split.
  - destruct (log_directory_ensured (H:=example_host)
                (batch file_logging_document) "./logs")
      as (s' & Hrun & Hnew & _);
      [reflexivity|reflexivity|reflexivity|apply not_elem_of_empty|].
    exists s'. split; [exact Hrun|]. apply Hnew. reflexivity.
  - destruct (log_directory_ensured (H:=example_host)
                (with_config (fixer_of ["--no-interactive"]
                                (occupied file_logging_document))
                             file_logging_document) "./logs")
      as (s' & Hrun & _ & Hold);
      [reflexivity|reflexivity|reflexivity|apply not_elem_of_empty|].
    rewrite Hrun. cbn [snd]. rewrite Hold; [reflexivity|].
    vm_compute. eauto.
Defined.

Lemma saved_settings_read_back_example :
  field unwritable_document_saved ["database"; "enableLogging"] =
  field unwritable_document ["database"; "enableLogging"].
Proof.
  apply (saved_settings_read_back unwritable_document unwritable_document_saved
           ["database"; "enableLogging"]); reflexivity.
Defined.

Lemma saved_document_is_stable_example :
  written unwritable_document_saved = Doc unwritable_document_saved.
Proof.
  apply (saved_document_is_stable unwritable_document unwritable_document_saved).
  reflexivity.
Defined.

Lemma changes_are_recorded_example :
  exists s',
    analyzeAndFix (H:=example_host) (batch secure_production_document) = (Ret tt, s')
    /\ (fixes s' = fixes (batch secure_production_document) ->
        config s' = with_defaults (config (batch secure_production_document))).
Proof.
  apply (changes_are_recorded (H:=example_host) (batch secure_production_document));
    reflexivity.
Defined.

Lemma second_run_changes_nothing_example :
  files (snd (main (H:=example_host) ["--no-interactive"]
                (snd (main (H:=example_host) ["--no-interactive"]
                        (world_of development_document))))) =
  files (snd (main (H:=example_host) ["--no-interactive"]
                (world_of development_document))).
Proof.
  apply (second_run_changes_nothing (H:=example_host) ["--no-interactive"]
           (world_of development_document) development_document); reflexivity.
Defined.

Lemma primitive_performance_stops_example :
  exists out,
    main (H:=example_host) ["--no-interactive"] (world_of malformed_document) =
    (1%Z, with_stdout (world_of malformed_document)
            (stdout (world_of malformed_document) ++ out))
    /\ In (ErrorLine TypeError, red) out.
Proof.
  eapply (primitive_performance_stops (H:=example_host) ["--no-interactive"]
            (world_of malformed_document) _ (VNum (of_Z 1)));
    reflexivity.
Defined.
